(* ===== verification/_CoqProject ===== *)
-Q . S2P
Prelude.v
Effects.v
Net.v
Bytes.v
Enums.v
Protocol.v
ProtocolProps.v
Ids.v
Args.v
Double.v
Codec.v
Model.v
Wire.v
WireSize.v
Planner.v
Engine.v
Persistence.v
Storage.v
Synthetic.v
Lifecycle.v
Compose.v
Contract.v
Ledger.v
Scenario.v
System.v
LifecycleProps.v
TypeProps.v
LedgerProps.v
ComposeProps.v
WireProps.v
PersistProps.v
PersistLimits.v
StorageProps.v
Coordinator.v
CoordSafety.v
CoordEvidence.v
CoordRun.v
Worker.v
CoordDefined.v
CoordTrace.v
CoordFrames.v
Cluster.v
ClusterProps.v
CoordProps.v
Client.v
CoordScenario.v
CoordLimits.v
Programs.v
