(* ===== verification/Prelude.v ===== *)
(** * Disaggregation Fabric: a verification library

    Disaggregation Fabric composes disaggregated hardware (compute, accelerators,
    memory, storage, network endpoints spread over nodes) into compositions that
    a consumer may use exclusively.  A consumer's request is planned against a
    registry of resources with dated evidence; the plan is reserved, committed
    and activated; and whatever invalidates the evidence a composition was built
    on (a new generation, a failure, a withdrawn resource, the death of a worker,
    a new coordinator epoch, a restart) must take its authority away.

    ** The program and where it is modelled

    - [include/dfabric/enums.hpp] (and two enums of [graph.hpp] and
      [requirement.hpp]): [Enums].  One module per [enum class], with codes,
      names and the canonical bounds [EnumTraits]; [EnumLaws] is the interface
      the codecs are proved against.
    - [include/dfabric/ids.hpp]: [Ids].  64-bit identities and generations under
      phantom tags.
    - C++ [double]: [Double].  IEEE 754 binary64, executable, with the bit
      patterns of [std::memcpy] and the order lemmas that ranking and holds need.
    - [model.hpp], [graph.hpp], [requirement.hpp], [authority.hpp],
      [composition.hpp]: [Model].  One module per struct, field by field.
    - the anonymous namespaces of [src/dfabric/engine.cpp]: [Planner]
      (eligibility, demands, graphs, validation, ranking, selections, holds).
    - [FabricEngine] ([engine.hpp], [engine.cpp]) and [Backend] ([backend.hpp]):
      [Engine].  [Impl.t] is [FabricEngine::Impl]; each public operation is a
      function from the state to its result and the next state, because each
      runs under the engine mutex.  [Recompute], which takes the mutex several
      times, is the sequence of its critical sections.
    - [backends/synthetic]: [Synthetic], with its simulation controls.
    - [protocol.hpp], [protocol.cpp]: [Protocol] (frames, [Encode], the
      incremental [FrameDecoder]), over the byte helpers of [Bytes].
    - [codec.hpp]: [Codec] (writers, readers, the decoder monad) and [Wire]
      (every [Encode] and [Decode] function).
    - [persistence.cpp] and the engine's [Save] and [Load]: [Persistence] (the
      bytes) and [Storage] (the calls to the file system).  Reading a file may
      fail to open it, fail to size it or stop short; [ReadOutcome] says which.
    - [backends/system]: [System].  What the operating system answers is an
      argument.
    - [socket.hpp]: [Net].  The answers of the socket calls are arguments; the
      objects and the open handles are a store, with the handles that a second
      [Listen] on an object overwrites kept apart as lost.
    - [deploy/coordinator.cpp]: [Args.CoordArgs] (options) and [Coordinator] (the
      start, a handler per frame type, the connection threads).
    - [deploy/worker.cpp]: [Args.WorkerArgs] and [Worker].  [Cluster] joins a worker
      and a coordinator through streams that are cut anywhere.
    - the client of [tests/t_restart.cpp] ([ComposeC1]): [Client].
    - [tools/dfabric_cli.cpp], [consumer/main.cpp], [examples/examples.cpp],
      [bench/bench.cpp]: [Programs], from arguments to exit code and output.

    ** How the model corresponds to the code

    Unsigned integers are [N] with their wrap-around written out ([wrap64],
    [wrap32]); bytes are [byte], strings [string], [std::vector] a list,
    [std::map] and [std::unordered_map] a [gmap] (the iteration order of
    [std::map] is written out where it is observable; that the order of the
    hash map of resources is not observable is a theorem), [std::set] a [gset].
    A function that fills an error and returns [false] returns the error as a
    value.  An assignment to a member is the update [r <| f := v |>].

    The engine is a state machine: [Lifecycle.op] lists the critical sections,
    [run] executes one, [reachable] closes over all sequences of them with
    arbitrary arguments, so every interleaving of threads is covered.  Backends
    are a parameter: an [op] may replace them at any time.

    The processes are programs over calls ([Effects.prog]): what a thread does
    between two calls is a function of the answers, the calls themselves (an
    engine operation, a file operation, a send) change the shared state.  [runs]
    executes a program against calls that may fail or be cut short, and may stop
    anywhere (a crash); [Coordinator.wstep] interleaves the threads of the
    coordinator call by call, delivers arbitrary bytes to them and restarts the
    process at any moment; [eval_prog] is the execution in which no call fails.
    An uncaught exception and a read outside a buffer are calls of their own
    ([ETerminate], [EUndefined]); that no input leads to the second is a theorem.

    ** What is proved

    - [Lifecycle], [LifecycleProps]: in every reachable state an ACTIVE
      composition is bound to the current epoch and to every generation its
      authority records, which are those of all its members when the reserved
      plans record all of them, as those of [Compose] do; only a guarded
      [Activate] gives authority; released compositions never become ACTIVE
      again; faults, epoch changes, new generations and restarts take authority
      away; the lifecycle graph.
    - [Ledger], [LedgerProps]: the reservation ledger refines an exclusive lock
      table ([lock_step]) under the discipline stated in [Ledger.disciplined], so
      compositions in use share no resource; [Reserve] and [Commit] are
      all-or-nothing on every branch; and three executions outside the
      discipline in which the code hands one resource to two compositions.
    - [Compose], [Contract], [ComposeProps]: plans are sound (members, links and
      paths of every edge of the graph), best-ranked within
      the bounded search, independent of hash-map order, and can be carried to
      ACTIVE; [BackendContract] is what planning relies on, and the synthetic
      backend implements it; [Recompute] replaces; and some hard requirements
      are not enforced.
    - [ProtocolProps]: stream round trip for every chunking, canonical decoding,
      detection of corrupted bytes, termination and bounded buffering.
    - [WireProps]: round trips of all messages, rejection of every truncated
      message, memory safety of all decoders on arbitrary bytes.
    - [PersistProps]: save and load round trip, detection of corruption and
      truncation, totality of the loader, the registry across a restart.
    - [PersistLimits]: a state that is saved right after the death of a worker that
      owned a registered resource is refused by the loader.
    - [StorageProps]: a save that is disturbed anywhere leaves a file that loads as
      before, as the new state or not at all, unless the zeros of a short
      read-back happen to satisfy the checksum; and the replacement is not atomic.
    - [TypeProps]: the registry is well typed in every reachable state.
    - [Net], [Args], [System]: handles have at most one owner and are closed exactly
      once unless a second [Listen] loses them, the send loop delivers the frame, node lists are parsed as they are printed, and the
      system backend fabricates no hardware.
    - [CoordSafety], [CoordEvidence], [CoordDefined], [CoordTrace], [CoordRun],
      [CoordFrames], [CoordProps]: under every interleaving the coordinator refines
      an abstract server of sessions ([CoordTrace.Spec]), which says for each frame
      and for the end of a connection which engine operations may be called;
      volatile evidence lives no longer than the connection of its worker; no
      input makes a process read outside a buffer; a remote call is the local
      call; a restart restores no authority.
    - [WireSize], [Cluster], [ClusterProps]: a worker session registers exactly the
      descriptors of the worker's nodes, and a disconnect revokes them.
    - [Client], [CoordScenario]: an answered commit of a state in the format's range
      survives a restart; a coordinator started on an empty disk, a worker's session
      and the client's four calls bring a composition to ACTIVE.
    - [CoordLimits]: what the processes do not guard against (a second HELLO, a
      truncated request, an unbounded count, an oversized answer).
    - [Programs]: the client programs end successfully; the commands that the
      command line refuses.

    [Scenario] holds the concrete states (the request of the repository's tests
    on the synthetic topology) on which the theorems are instantiated.

    ** Fuel and bounds

    [Protocol.Feed] runs its loop with one unit of fuel per buffered byte and
    one more; every iteration but the last removes a whole frame, and the
    totality claim of [ProtocolProps] shows that the fuel is never exhausted.  All other
    recursion is structural: the decoders' loops run over the count that was
    read, which the code bounds by 2^20, and the search of [Compose] over at most
    24 selections per class and 400 combinations.  A program has finitely many
    calls by construction: a round of a receive loop ends for every input, and the
    loops around the rounds are the step relations.  The loop of REGISTER runs over
    the count in the frame, which is not bounded by anything but 32 bits.

    ** What is not modelled

    - The operating system: name resolution, the kernel's socket and file
      buffers, sleeping and the clock.  [Coordinator] and [Storage] let every call
      fail and every transfer be partial instead.
    - Interleavings finer than a call: the engine mutex makes each engine
      operation atomic, and concurrent saves interleave file call by file call.
    - [std::hash] and allocation failure, log output to [stderr], and the payload
      of NaNs.
    - [tests]: the drivers of the repository's own tests.

    ** This file

    The notation for member updates, machine-width integers, [std::sort], and
    the hint databases of the library ([fabric]; [Codec] adds [codec] and
    [safe]). *)

From stdpp Require Export base gmap sets list strings pretty fin_maps.
From Stdlib Require Export NArith ZArith Lia Strings.Byte.

#[global] Open Scope N_scope.

(** ** Record update

    [r <| f := v |>] is the C++ member assignment [r.f = v] as a pure update.
    A record declares its eta expansion with an [Eta] instance; the setter of a
    field is then found by abstracting that field in the expansion. *)
Class Eta (R : Type) := eta : R -> R.
Class Setter {R T : Type} (proj : R -> T) := set_field : (T -> T) -> R -> R.
#[global] Arguments set_field {R T} proj {_} _ _ /.

Ltac solve_setter :=
  match goal with
  | |- @Setter ?R ?T ?p =>
      let inst := constr:(_ : Eta R) in
      let e := eval hnf in inst in
      let q := eval pattern p in e in
      match q with
      | ?g _ => let s := eval cbv beta in (fun (f : T -> T) => g (fun r => f (p r))) in exact s
      end
  end.
#[global] Hint Extern 1 (Setter _) => solve_setter : typeclass_instances.

Declare Scope fabric_scope.
Delimit Scope fabric_scope with fabric.
#[global] Open Scope fabric_scope.

Notation "r <| f := v |>" := (set_field f (fun _ => v) r)
  (at level 1, f at level 0, left associativity, format "r <| f  :=  v |>") : fabric_scope.
Notation "r <| f ::= g |>" := (set_field f g r)
  (at level 1, f at level 0, left associativity, format "r <| f  ::=  g |>") : fabric_scope.


(** The newline that [std::ostream] and [printf] write. *)
Definition endl : string := String (Ascii.ascii_of_N 10) "".

Create HintDb fabric.
Create Rewrite HintDb fabric.

(** ** Machine-width integers

    Unsigned C++ integers are [N]; the wrap-around of their arithmetic is
    written out. *)
Definition wrap64 (n : N) : N := n mod 2 ^ 64.
Definition u64_ok (n : N) : Prop := n < 2 ^ 64.
Definition u32_ok (n : N) : Prop := n < 2 ^ 32.

Lemma wrap64_ok n : u64_ok (wrap64 n).
Proof. apply N.mod_lt. done. Qed.
Lemma wrap64_small n : u64_ok n -> wrap64 n = n.
Proof. apply N.mod_small. Qed.
#[export] Hint Resolve wrap64_ok : fabric.

(** [lia] with the quotients and remainders by constants turned into equations. *)
Ltac eval_pow2 :=
  repeat match goal with
  | |- context [(2 ^ ?k)%N] => let v := eval vm_compute in (2 ^ k)%N in change (2 ^ k)%N with v
  | H : context [(2 ^ ?k)%N] |- _ => let v := eval vm_compute in (2 ^ k)%N in change (2 ^ k)%N with v in H
  end.
Ltac div_lia := eval_pow2; zify; Z.div_mod_to_equations; lia.
Definition wrap32 (n : N) : N := n mod 2 ^ 32.
Lemma wrap32_small n : u32_ok n -> wrap32 n = n.
Proof. apply N.mod_small. Qed.

(** ** [std::sort]

    Insertion sort by a boolean strict order.  Where the program sorts, the
    comparator is a strict total order on the elements present, so the sorted
    sequence is unique ([isort_perm]) and [std::sort] can return nothing else. *)
Section isort.
Context {A : Type} (lt : A -> A -> bool).

Fixpoint insert_sorted (x : A) (l : list A) : list A :=
  match l with
  | [] => [x]
  | y :: l' => if lt y x then y :: insert_sorted x l' else x :: y :: l'
  end.

Definition isort (l : list A) : list A := foldr insert_sorted [] l.

Lemma insert_sorted_perm x l : insert_sorted x l ≡ₚ x :: l.
Proof.
  induction l as [|y l IH]; cbn; [done|]. destruct (lt y x); [|done].
  rewrite IH. constructor.
Qed.
Lemma isort_permutation l : isort l ≡ₚ l.
Proof. induction l as [|x l IH]; cbn; [done|]. by rewrite insert_sorted_perm, IH. Qed.
Lemma elem_of_isort x l : x ∈ isort l <-> x ∈ l.
Proof. by rewrite isort_permutation. Qed.

Context (P : A -> Prop).
Context (lt_trans : forall x y z, P x -> P y -> P z -> lt x y = true -> lt y z = true -> lt x z = true).
Context (lt_irrefl : forall x, P x -> lt x x = false).
Context (lt_total : forall x y, P x -> P y -> lt x y = false -> lt y x = false -> x = y).

Lemma isort_asym x y : P x -> P y -> lt x y = true -> lt y x = false.
Proof.
  intros Px Py Hxy. destruct (lt y x) eqn:E; [|done].
  rewrite <-(lt_irrefl x Px). symmetry. eauto.
Qed.

Lemma isort_le_lt x z y : P x -> P y -> P z -> lt z x = false -> lt z y = true -> lt x y = true.
Proof.
  intros Px Py Pz Hzx Hzy. destruct (lt x z) eqn:Hxz; [eauto|].
  by rewrite (lt_total x z).
Qed.

Lemma insert_sorted_comm x y l :
  P x -> P y -> Forall P l ->
  insert_sorted x (insert_sorted y l) = insert_sorted y (insert_sorted x l).
Proof.
  intros Px Py Hl. induction Hl as [|z l Pz Hl IH]; cbn.
  - destruct (lt y x) eqn:Eyx, (lt x y) eqn:Exy; try done.
    + by rewrite (isort_asym y x) in Exy.
    + by rewrite (lt_total x y).
  - destruct (lt z y) eqn:Ezy, (lt z x) eqn:Ezx; cbn; rewrite ?Ezy, ?Ezx; cbn.
    + by rewrite IH.
    + by rewrite (isort_le_lt x z y), ?Ezy.
    + by rewrite (isort_le_lt y z x), ?Ezx.
    + destruct (lt y x) eqn:Eyx, (lt x y) eqn:Exy; try done; rewrite ?Ezy, ?Ezx; try done.
      * by rewrite (isort_asym y x) in Exy.
      * by rewrite (lt_total x y).
Qed.

(** The result depends only on the multiset of elements. *)
Lemma isort_perm l1 l2 : Forall P l1 -> l1 ≡ₚ l2 -> isort l1 = isort l2.
Proof.
  intros Hl Hp. induction Hp as [|x l1 l2 Hp IH|x y l|l1 l2 l3 H1 IH1 H2 IH2].
  - done.
  - apply Forall_cons in Hl as [_ Hl]. unfold isort in *. cbn. by rewrite IH.
  - apply Forall_cons in Hl as [Px [Py Hl]%Forall_cons].
    change (insert_sorted y (insert_sorted x (isort l)) = insert_sorted x (insert_sorted y (isort l))).
    apply insert_sorted_comm; [done..|]. by rewrite isort_permutation.
  - rewrite IH1 by done. apply IH2. by rewrite <-H1.
Qed.
End isort.

(** [std::map<std::string, A>] iterates in key order. *)
Definition map_entries {A : Type} (m : gmap string A) : list (string * A) :=
  isort (fun a b => String.ltb a.1 b.1) (map_to_list m).
