(* ===== verification/Effects.v ===== *)
(** * Programs that call their environment

    The processes of the repository interleave calls to the engine, the file
    system and the network.  A program is the finite tree of its calls ([prog]):
    what is called, and how it continues with the answer.  The calls have two
    readings: [step], a relation in which a call may have several outcomes
    (failures, partial writes), and [eval], a function for the outcome without
    failures.  [runs] executes a program against the relation and may stop it at
    any call, which is a crash of the process; [eval_prog] executes it against
    the function, and is one of the executions of [runs] ([eval_prog_runs]). *)

From S2P Require Import Prelude.

Inductive prog (E : Type -> Type) (A : Type) : Type :=
  | Done (a : A)
  | Call {X : Type} (e : E X) (k : X -> prog E A).
#[global] Arguments Done {E A} _.
#[global] Arguments Call {E A X} _ _.

Definition call {E : Type -> Type} {X : Type} (e : E X) : prog E X := Call e Done.

Fixpoint prog_bind {E : Type -> Type} {A B : Type} (p : prog E A) (f : A -> prog E B) : prog E B :=
  match p with
  | Done a => f a
  | Call e k => Call e (fun x => prog_bind (k x) f)
  end.
#[export] Instance prog_ret {E : Type -> Type} : MRet (prog E) := fun A a => Done a.
#[export] Instance prog_mbind {E : Type -> Type} : MBind (prog E) := fun A B f p => prog_bind p f.

(** [for (x : l) c = body(x, c)]. *)
Fixpoint for_each {E : Type -> Type} {A C : Type} (body : A -> C -> prog E C) (l : list A) (c : C) : prog E C :=
  match l with
  | [] => mret c
  | x :: l' => c' ← body x c; for_each body l' c'
  end.

(** Calls of one interface used inside a larger one. *)
Fixpoint lift {E F : Type -> Type} (f : forall X, E X -> F X) {A : Type} (p : prog E A) : prog F A :=
  match p with
  | Done a => Done a
  | Call e k => Call (f _ e) (fun x => lift f (k x))
  end.

Section execution.
Context {E : Type -> Type} {S : Type}.
Context (step : forall X, E X -> S -> X -> S -> Prop).

(** [None]: the process died before the program ended. *)
Inductive runs {A : Type} : prog E A -> S -> option A -> S -> Prop :=
  | runs_done a s : runs (Done a) s (Some a) s
  | runs_crash p s : runs p s None s
  | runs_call X (e : E X) k s x s1 r s2 :
      step X e s x s1 -> runs (k x) s1 r s2 -> runs (Call e k) s r s2.

Lemma runs_inv {A : Type} (p : prog E A) s r s' :
  runs p s r s' ->
  (r = None /\ s' = s) \/
  match p with
  | Done a => r = Some a /\ s' = s
  | Call e k => exists x s1, step _ e s x s1 /\ runs (k x) s1 r s'
  end.
Proof. destruct 1; eauto 6. Qed.

Lemma runs_bind_inv {A B : Type} (p : prog E A) (f : A -> prog E B) s r s' :
  runs (p ≫= f) s r s' ->
  (runs p s None s' /\ r = None) \/ exists a s1, runs p s (Some a) s1 /\ runs (f a) s1 r s'.
Proof.
  revert s. induction p as [a|X e k IH]; intros s H.
  - right. exists a, s. split; [constructor|done].
  - cbn in H. apply runs_inv in H as [[-> ->]|(x & s1 & Hs & Hk)]; [left; split; [constructor|done]|].
    destruct (IH x s1 Hk) as [[Hc ->]|(a & s2 & Ha & Hf)].
    + left. split; [by econstructor|done].
    + right. exists a, s2. split; [by econstructor|done].
Qed.

Context (eval : forall X, E X -> S -> X * S).
Fixpoint eval_prog {A : Type} (p : prog E A) (s : S) : A * S :=
  match p with
  | Done a => (a, s)
  | Call e k => let '(x, s') := eval _ e s in eval_prog (k x) s'
  end.

Lemma eval_prog_bind {A B : Type} (p : prog E A) (f : A -> prog E B) s :
  eval_prog (p ≫= f) s = let '(a, s') := eval_prog p s in eval_prog (f a) s'.
Proof.
  revert s. induction p as [a|X e k IH]; intros s; cbn; [done|].
  destruct (eval X e s) as [x s1]. apply IH.
Qed.
Lemma eval_for_each_app {A C : Type} (body : A -> C -> prog E C) l1 l2 c s :
  eval_prog (for_each body (l1 ++ l2) c) s =
  let '(c', s') := eval_prog (for_each body l1 c) s in eval_prog (for_each body l2 c') s'.
Proof.
  revert c s. induction l1 as [|x l1 IH]; intros c s; [done|]. cbn [app for_each]. rewrite !eval_prog_bind.
  destruct (eval_prog (body x c) s) as [c' s']. apply IH.
Qed.

Context (eval_step : forall X (e : E X) s, step X e s (eval X e s).1 (eval X e s).2).
Lemma eval_prog_runs {A : Type} (p : prog E A) s : runs p s (Some (eval_prog p s).1) (eval_prog p s).2.
Proof.
  revert s. induction p as [a|X e k IH]; intros s; [constructor|]. cbn. pose proof (eval_step X e s) as He.
  destruct (eval X e s) as [x s1]. econstructor; [exact He|apply IH].
Qed.
End execution.

(** ** Predicates on the calls of a program

    [always P Q p]: every call of [p] satisfies [P], whatever was answered, and
    every result satisfies [Q]. *)
Section always.
Context {E : Type -> Type} (P : forall X, E X -> Prop).

Fixpoint always {A : Type} (Q : A -> Prop) (p : prog E A) : Prop :=
  match p with
  | Done a => Q a
  | Call e k => P _ e /\ forall x, always Q (k x)
  end.

Lemma always_bind {A B : Type} (Q : A -> Prop) (R : B -> Prop) (p : prog E A) (f : A -> prog E B) :
  always Q p -> (forall a, Q a -> always R (f a)) -> always R (p ≫= f).
Proof.
  intros Hp Hf. induction p as [a|X e k IH]; cbn in *; [auto|]. destruct Hp as [He Hk]. split; [done|].
  intros x. by apply IH.
Qed.
Lemma always_mono {A : Type} (Q R : A -> Prop) (p : prog E A) :
  (forall a, Q a -> R a) -> always Q p -> always R p.
Proof. intros HQ. induction p as [a|X e k IH]; cbn; [auto|]. intros [He Hk]. split; [done|auto]. Qed.
Lemma always_for_each {A C : Type} (body : A -> C -> prog E C) (Q : C -> Prop) (R : A -> Prop) l c :
  (forall x c, R x -> Q c -> always Q (body x c)) -> Forall R l -> Q c -> always Q (for_each body l c).
Proof.
  intros Hb Hl. revert c. induction Hl as [|x l Hx Hl IH]; intros c Hc; cbn; [done|].
  eapply always_bind; [by apply Hb|done].
Qed.
End always.
