(* ===== verification/Net.v ===== *)
(** * Sockets

    [include/dfabric/socket.hpp]: [TcpSocket] and [ServerSocket] over the socket
    calls of the operating system, whose answers are arguments.

    [SendSome] and [RecvSome] translate an answer of [send] and [recv] into the
    convention of the callers, and [send_loop] is the loop around [SendSome] that
    the coordinator and the worker repeat for every frame.  The second part is
    the ownership of handles: the special member functions as operations on a
    store of objects, with the handles that the process has open and the handles
    that a repeated [Listen] has lost. *)

From S2P Require Import Prelude.

(** ** Partial transfers *)

(** What [send] or [recv] returned: a count, or [SOCKET_ERROR] with
    [WSAGetLastError()]. *)
Inductive os_result : Type := OsCount (n : Z) | OsError (code : Z).
Definition WSAEWOULDBLOCK : Z := 10035.

Definition SendSome (send : list byte -> os_result) (data : list byte) : Z :=
  if (Z.of_nat (length data) <=? 0)%Z then 0%Z
  else match send data with
  | OsError e => if (e =? WSAEWOULDBLOCK)%Z then 0%Z else (-1)%Z
  | OsCount r => r
  end.
Definition RecvSome (answer : os_result) : Z :=
  match answer with
  | OsError e => if (e =? WSAEWOULDBLOCK)%Z then (-2)%Z else (-1)%Z
  | OsCount r => r
  end.

(** [for (size_t off = 0; off < b.size(); ) { long sr = conn.SendSome(b.data() + off,
    b.size() - off); if (sr < 0) { ... break; } if (sr > 0) off += sr; }]: the
    answers of [send] come one per call.  The result is the value of the loop's
    exit ([Some true]: everything was handed over, [Some false]: the break,
    [None]: the loop is still waiting for an answer) and the bytes that were
    accepted. *)
Fixpoint send_loop (answers : list os_result) (rest accepted : list byte) : option bool * list byte :=
  match rest with
  | [] => (Some true, accepted)
  | _ =>
      match answers with
      | [] => (None, accepted)
      | a :: answers' =>
          let sr := SendSome (fun _ => a) rest in
          if (sr <? 0)%Z then (Some false, accepted)
          else if (sr >? 0)%Z then
            send_loop answers' (drop (Z.to_nat sr) rest) (accepted ++ take (Z.to_nat sr) rest)
          else send_loop answers' rest accepted
      end
  end.

(** The documented contract of [send]: at least one byte, never more than asked. *)
Definition makes_progress (a : os_result) : bool := match a with OsCount r => (0 <? r)%Z | OsError _ => false end.

Lemma send_loop_prefix answers rest accepted :
  exists k, (send_loop answers rest accepted).2 = accepted ++ take k rest /\
    ((send_loop answers rest accepted).1 = Some true -> take k rest = rest).
Proof.
  revert rest accepted. induction answers as [|a answers IH]; intros rest accepted.
  - destruct rest as [|b rest]; (exists 0%nat); cbn; rewrite app_nil_r; split; done || (intros [=]).
  - destruct rest as [|b rest]; [exists 0%nat; cbn; by rewrite app_nil_r|]. cbn [send_loop].
    set (d := b :: rest). set (sr := SendSome (fun _ => a) d).
    destruct (sr <? 0)%Z; [exists 0%nat; cbn; rewrite app_nil_r; split; [done|intros [=]]|].
    destruct (sr >? 0)%Z; [|apply IH].
    destruct (IH (drop (Z.to_nat sr) d) (accepted ++ take (Z.to_nat sr) d)) as (k & -> & Hk).
    exists (Z.to_nat sr + k)%nat. rewrite <-app_assoc. split.
    + f_equal. symmetry. by rewrite <-take_take_drop.
    + intros H. rewrite <-take_take_drop, (Hk H). apply take_drop.
Qed.

Definition not_failed (a : os_result) : bool :=
  match a with OsCount _ => true | OsError e => (e =? WSAEWOULDBLOCK)%Z end.
Lemma send_loop_progress answers rest accepted :
  Forall (fun a => not_failed a = true) answers ->
  Forall (fun a => match a with OsCount r => (0 <= r)%Z | OsError _ => True end) answers ->
  (length rest <= length (filter (fun a => makes_progress a = true) answers))%nat ->
  (send_loop answers rest accepted).1 = Some true.
Proof.
  revert rest accepted. induction answers as [|a answers IH]; intros rest accepted Hf Hp Hl.
  { destruct rest; [done|]. cbn in Hl. lia. }
  destruct rest as [|b rest]; [done|]. apply Forall_cons in Hf as [Ha Hf]. apply Forall_cons in Hp as [Hr Hp].
  cbn [send_loop]. set (d := b :: rest) in *. unfold SendSome. rewrite (proj2 (Z.leb_gt _ _)) by (cbn; lia).
  destruct a as [r|e]; cbn in Ha, Hr.
  - rewrite (proj2 (Z.ltb_ge r 0)) by lia. rewrite filter_cons in Hl. cbn in Hl. destruct (0 <? r)%Z eqn:E.
    + apply Z.ltb_lt in E. rewrite decide_True in Hl by done. cbn in Hl.
      rewrite (proj2 (Z.gtb_lt r 0)) by done. apply IH; [done..|]. unfold d. rewrite length_drop. cbn [length]. lia.
    + rewrite decide_False in Hl by done. apply Z.ltb_ge in E.
      replace (r >? 0)%Z with false by (symmetry; rewrite Z.gtb_ltb; apply Z.ltb_ge; lia). by apply IH.
  - rewrite Ha. cbn. apply IH; [done..|]. rewrite filter_cons in Hl. cbn in Hl. by rewrite decide_False in Hl by done.
Qed.

(** ** Handles *)
Abbreviation SOCKET := N (only parsing).
Definition INVALID_SOCKET : SOCKET := 2 ^ 64 - 1.
Definition valid_handle (h : SOCKET) : bool := negb (h =? INVALID_SOCKET).

(** The sockets of a process: its [TcpSocket] objects with their [s_], the
    handles the operating system holds open for it, and whether [closesocket] was
    ever called on a handle that was not open. *)
Module Sockets.
Record t := mk { objects : gmap nat SOCKET; opened : gset SOCKET; misused : bool }.
#[global] Instance eta_t : Eta t := fun s => mk (objects s) (opened s) (misused s).
Definition init : t := mk ∅ ∅ false.
End Sockets.

Definition closesocket (h : SOCKET) (s : Sockets.t) : Sockets.t :=
  s <| Sockets.misused ::= fun m => m || negb (bool_decide (h ∈ Sockets.opened s)) |>
    <| Sockets.opened ::= fun o => o ∖ {[h]} |>.
Definition set_s (x : nat) (h : SOCKET) (s : Sockets.t) : Sockets.t := s <| Sockets.objects ::= <[x := h]> |>.
Definition get_s (x : nat) (s : Sockets.t) : SOCKET := default INVALID_SOCKET (Sockets.objects s !! x).

(** [WsaError()], with the answer of [WSAGetLastError]. *)
Definition WsaError (e : Z) : string := "winsock error " +:+ pretty e.

(** [void Close()], of both classes. *)
Definition Close (x : nat) (s : Sockets.t) : Sockets.t :=
  if valid_handle (get_s x s) then set_s x INVALID_SOCKET (closesocket (get_s x s) s) else s.

(** The system opens [h], which becomes [s_] of the object [x]. *)
Definition adopt (x : nat) (h : SOCKET) (s : Sockets.t) : Sockets.t :=
  set_s x h (s <| Sockets.opened ::= fun o => {[h]} ∪ o |>).

(** [ServerSocket::Listen] with the answers of [socket] ([None] is
    [INVALID_SOCKET]), [bind] and [listen]: on a failure after [socket] the handle
    stays with the object. *)
Definition Listen (x : nat) (h : option SOCKET) (bound listening : bool) (s : Sockets.t) : bool * Sockets.t :=
  match h with
  | None => (false, set_s x INVALID_SOCKET s)
  | Some h =>
      let s := adopt x h s in
      if negb bound then (false, s) else if negb listening then (false, s) else (true, s)
  end.
(** [TcpSocket x = server.Accept();] with the answer of [accept]. *)
Definition Accept (x : nat) (cs : option SOCKET) (s : Sockets.t) : Sockets.t :=
  match cs with
  | None => set_s x INVALID_SOCKET s
  | Some cs => adopt x cs s
  end.

Inductive sock_op : Type :=
  | Default (x : nat)                       (* TcpSocket x;  or  ServerSocket x; *)
  | Accepted (x : nat) (cs : option SOCKET) (* TcpSocket x = server.Accept(); *)
  | Listening (x : nat) (h : option SOCKET) (bound listening : bool) (* x.Listen(port); *)
  | MoveInit (x y : nat)                    (* TcpSocket x(std::move(y)); *)
  | MoveAssign (x y : nat)                  (* x = std::move(y); *)
  | CloseOp (x : nat)                       (* x.Close(); *)
  | Destroy (x : nat).                      (* end of the lifetime of x *)

Definition alive (x : nat) (s : Sockets.t) : bool := bool_decide (is_Some (Sockets.objects s !! x)).

(** What C++ and the operating system guarantee about an operation: an object
    under construction is new, the other operands are alive, and a handle handed
    out is not one that is open. *)
Definition fresh_handle (h : option SOCKET) (s : Sockets.t) : bool :=
  match h with Some h => negb (bool_decide (h ∈ Sockets.opened s)) && valid_handle h | None => true end.
Definition sock_pre (o : sock_op) (s : Sockets.t) : bool :=
  match o with
  | Default x => negb (alive x s)
  | Accepted x cs => negb (alive x s) && fresh_handle cs s
  | Listening x h _ _ => alive x s && fresh_handle h s
  | MoveInit x y => negb (alive x s) && alive y s
  | MoveAssign x y => alive x s && alive y s
  | CloseOp x | Destroy x => alive x s
  end.

Definition sock_run (o : sock_op) (s : Sockets.t) : Sockets.t :=
  match o with
  | Default x => set_s x INVALID_SOCKET s
  | Accepted x cs => Accept x cs s
  | Listening x h bound listening => (Listen x h bound listening s).2
  | MoveInit x y => set_s y INVALID_SOCKET (set_s x (get_s y s) s)
  | MoveAssign x y =>
      if (x =? y)%nat then s
      else let s := Close x s in set_s y INVALID_SOCKET (set_s x (get_s y s) s)
  | CloseOp x => Close x s
  | Destroy x => (Close x s) <| Sockets.objects ::= delete x |>
  end.

(** [Listen] assigns [s_] without closing what it held: the handle that is lost. *)
Definition handle_of (x : nat) (s : Sockets.t) : gset SOCKET := if valid_handle (get_s x s) then {[get_s x s]} else ∅.
Definition lost_by (o : sock_op) (s : Sockets.t) : gset SOCKET :=
  match o with Listening x _ _ _ => handle_of x s | _ => ∅ end.

(** The states of a process and the handles it has lost. *)
Inductive sock_reachable : Sockets.t -> gset SOCKET -> Prop :=
  | sock_init : sock_reachable Sockets.init ∅
  | sock_step o s lost : sock_reachable s lost -> sock_pre o s = true -> sock_reachable (sock_run o s) (lost ∪ lost_by o s).

(** The loop of [TcpSocket::Connect]: one attempt per address, each the handle that
    [socket] returned, or none, and whether [connect] succeeded.  The result is the
    value of [s] after the loop, [None] for [INVALID_SOCKET]. *)
Fixpoint connect_loop (attempts : list (option SOCKET * bool)) (s : Sockets.t) : option SOCKET * Sockets.t :=
  match attempts with
  | [] => (None, s)
  | (None, _) :: rest => connect_loop rest s
  | (Some h, connected) :: rest =>
      let s := s <| Sockets.opened ::= fun o => {[h]} ∪ o |> in
      if connected : bool then (Some h, s) else connect_loop rest (closesocket h s)
  end.
(** [TcpSocket::Connect] with the addresses that [getaddrinfo] found, or its failure,
    and the error code at the throw: the text of the exception, or the handle of the
    new object. *)
Definition Connect (addresses : option (list (option SOCKET * bool))) (e : Z) (s : Sockets.t) : (string + SOCKET) * Sockets.t :=
  match addresses with
  | None => (inl ("getaddrinfo failed: " +:+ WsaError e), s)
  | Some attempts =>
      match connect_loop attempts s with
      | (None, s) => (inl ("connect failed: " +:+ WsaError e), s)
      | (Some h, s) => (inr h, s)
      end
  end.

(** ** One owner per handle *)

(** Each open handle belongs to exactly one object or is lost, and each object's
    handle is open and not lost. *)
Record owned (lost : gset SOCKET) (s : Sockets.t) : Prop := {
  owned_used : Sockets.misused s = false;
  owned_open : forall h, h ∈ Sockets.opened s <-> h ∈ lost \/ exists x, Sockets.objects s !! x = Some h /\ valid_handle h = true;
  owned_once : forall x y h, Sockets.objects s !! x = Some h -> Sockets.objects s !! y = Some h ->
    valid_handle h = true -> x = y;
  owned_kept : forall x h, Sockets.objects s !! x = Some h -> valid_handle h = true -> h ∉ lost }.

Lemma valid_INVALID : valid_handle INVALID_SOCKET = false.
Proof. done. Qed.
(** The value stored by an insertion of [INVALID_SOCKET] is not a handle. *)
Lemma not_INVALID h : Some INVALID_SOCKET = Some h -> valid_handle h = true -> False.
Proof. intros H. by assert (h = INVALID_SOCKET) as -> by congruence. Qed.
Lemma alive_get x s : alive x s = true -> Sockets.objects s !! x = Some (get_s x s).
Proof. unfold alive, get_s. intros [h Hh]%bool_decide_eq_true_1. by rewrite Hh. Qed.
Lemma not_alive x s : alive x s = false -> Sockets.objects s !! x = None.
Proof. unfold alive. intros H%bool_decide_eq_false_1. by apply eq_None_not_Some. Qed.
Lemma get_handle x s h : Sockets.objects s !! x = Some h -> valid_handle h = true -> h ∈ handle_of x s.
Proof. intros Hx Hv. unfold handle_of, get_s. rewrite Hx. cbn. rewrite Hv. by apply elem_of_singleton. Qed.
Lemma handle_get x s h : h ∈ handle_of x s -> Sockets.objects s !! x = Some h /\ valid_handle h = true.
Proof.
  unfold handle_of, get_s. destruct (Sockets.objects s !! x) as [h'|]; cbn; [|by rewrite valid_INVALID].
  destruct (valid_handle h') eqn:E; [|set_solver]. by intros ->%elem_of_singleton.
Qed.
Lemma handle_of_none x s : valid_handle (get_s x s) = false -> handle_of x s = ∅.
Proof. unfold handle_of. by intros ->. Qed.

(** An object gives up its handle, by assignment or by the end of its lifetime. *)
Lemma owned_drop lost x s m :
  owned lost s -> (forall y h, valid_handle h = true -> m !! y = Some h <-> y <> x /\ Sockets.objects s !! y = Some h) ->
  owned (lost ∪ handle_of x s) (s <| Sockets.objects := m |>).
Proof.
  intros [Hu Ho H1 Hk] Hm. split; cbn; [done| | |].
  - intros h. rewrite Ho, elem_of_union. split.
    + intros [?|(y & Hy & Hv)]; [by left; left|]. destruct (decide (y = x)) as [->|]; [left; right; by apply get_handle|].
      right. exists y. split; [|done]. by apply Hm.
    + intros [[?|[Hx Hv]%handle_get]|(y & Hy & Hv)]; [by left|right; by exists x|]. apply Hm in Hy as [_ Hy]; [|done]. right. eauto.
  - intros y z h Hy Hz Hv. apply Hm in Hy as [_ Hy]; [|done]. apply Hm in Hz as [_ Hz]; [|done]. eauto.
  - intros y h Hy Hv. apply Hm in Hy as [Hne Hy]; [|done]. rewrite elem_of_union.
    intros [?|[Hx _]%handle_get]; [by eapply Hk|]. apply Hne. by eapply H1.
Qed.
Lemma owned_forget lost x s : owned lost s -> owned (lost ∪ handle_of x s) (set_s x INVALID_SOCKET s).
Proof.
  intros Hs. apply (owned_drop lost x s (<[x := INVALID_SOCKET]> (Sockets.objects s)) Hs). intros y h Hv.
  rewrite lookup_insert. case_decide as Hxy; [split; [by intros ?%not_INVALID|by intros []]|]. split; [|by intros []]. by intros Hy; split; [intros ->|].
Qed.
Lemma owned_destroy lost x s : owned lost s -> owned (lost ∪ handle_of x s) (s <| Sockets.objects ::= delete x |>).
Proof.
  intros Hs. apply (owned_drop lost x s (delete x (Sockets.objects s)) Hs). intros y h Hv.
  rewrite lookup_delete. case_decide as Hxy; [split; [done|by intros []]|]. split; [|by intros []]. by intros Hy; split; [intros ->|].
Qed.

Lemma owned_close lost x s : owned lost s -> owned lost (Close x s) /\ valid_handle (get_s x (Close x s)) = false.
Proof.
  intros Hs. unfold Close. destruct (valid_handle (get_s x s)) eqn:E; [|done].
  split; [|unfold get_s, set_s; cbn; by rewrite lookup_insert_eq].
  destruct Hs as [Hu Ho H1 Hk]. set (h := get_s x s) in *.
  assert (Hx : Sockets.objects s !! x = Some h).
  { unfold h, get_s. destruct (Sockets.objects s !! x) eqn:Ex; [done|]. by unfold h, get_s in E; rewrite Ex in E. }
  split; cbn.
  - rewrite Hu, bool_decide_eq_true_2; [done|]. apply Ho. eauto.
  - intros h'. rewrite elem_of_difference, elem_of_singleton, Ho. split.
    + intros [[?|(y & Hy & Hv)] Hne]; [by left|]. right. exists y. split; [|done]. rewrite lookup_insert_ne; [done|]. congruence.
    + intros [Hl|(y & Hy & Hv)]; [split; [by left|]; intros ->; by eapply Hk|].
      rewrite lookup_insert in Hy. case_decide as Hxy; [by destruct (not_INVALID _ Hy)|].
      split; [eauto|]. intros ->. apply Hxy. by eapply H1.
  - intros y z h'. rewrite !lookup_insert. intros Hy Hz Hv.
    repeat case_decide; try (by destruct (not_INVALID h')); eauto.
  - intros y h'. rewrite lookup_insert. intros Hy Hv. case_decide; [by destruct (not_INVALID h')|eauto].
Qed.

(** [s_ = o.s_; o.s_ = INVALID_SOCKET;] into an object that owns nothing. *)
Lemma owned_transfer lost x y s :
  x <> y -> owned lost s -> valid_handle (get_s x s) = false -> is_Some (Sockets.objects s !! y) ->
  owned lost (set_s y INVALID_SOCKET (set_s x (get_s y s) s)).
Proof.
  intros Hne Hs Hx [h Hy]. unfold get_s at 1. rewrite Hy. cbn [default]. destruct Hs as [Hu Ho H1 Hk].
  assert (Hx' : forall h, Sockets.objects s !! x = Some h -> valid_handle h = false).
  { intros h' Hh'. unfold get_s in Hx. by rewrite Hh' in Hx. }
  assert (Hl : forall z h', valid_handle h' = true ->
    <[y := INVALID_SOCKET]> (<[x := h]> (Sockets.objects s)) !! z = Some h' <->
    (z = x /\ h' = h) \/ (z <> x /\ z <> y /\ Sockets.objects s !! z = Some h')).
  { intros z h' Hv. rewrite !lookup_insert. pose proof (not_INVALID h').
    destruct (decide (y = z)) as [->|]; [split; [by intros ?%H|by intros [[-> _]|(_ & ? & _)]]|].
    destruct (decide (x = z)) as [->|]; split.
    - intros [= ->]. by left.
    - by intros [[_ ->]|(? & _)].
    - intros Hz. right. by split_and!; [intros ->|intros ->|].
    - by intros [[-> _]|(_ & _ & Hz)]. }
  split; cbn; [done| | |].
  - intros h'. rewrite Ho. split; (intros [?|(z & Hz & Hv)]; [by left|right]).
    + destruct (decide (z = y)) as [->|Hzy]; [exists x|exists z]; (split; [|done]); apply Hl; [done| |done|].
      * left. split; [done|]. congruence.
      * right. split_and!; [|done..]. intros ->. specialize (Hx' _ Hz). congruence.
    + apply Hl in Hz; [|done]. destruct Hz as [[-> ->]|(_ & _ & Hz)]; eauto.
  - intros z w h' Hz Hw Hv. apply Hl in Hz; [|done]. apply Hl in Hw; [|done].
    destruct Hz as [[-> ->]|(Hzx & Hzy & Hz)], Hw as [[-> Hwh]|(Hwx & Hwy & Hw)]; [done| |subst h'|by eauto].
    + exfalso. apply Hwy. by eapply H1.
    + exfalso. apply Hzy. by eapply H1.
  - intros z h' Hz Hv. apply Hl in Hz; [|done]. destruct Hz as [[-> ->]|(_ & _ & Hz)]; eauto.
Qed.

(** A new handle given to an object that owns nothing. *)
Lemma owned_adopt lost x h s :
  owned lost s -> valid_handle (get_s x s) = false -> fresh_handle (Some h) s = true -> owned lost (adopt x h s).
Proof.
  intros [Hu Ho H1 Hk] Hx [Hf%negb_true_iff%bool_decide_eq_false_1 Hv]%andb_prop.
  assert (Hx' : forall h, Sockets.objects s !! x = Some h -> valid_handle h = false).
  { intros h' Hh'. unfold get_s in Hx. by rewrite Hh' in Hx. }
  assert (Hno : forall z, Sockets.objects s !! z <> Some h) by (intros z Hz; apply Hf, Ho; eauto).
  assert (Hnl : h ∉ lost) by (intros Hl; apply Hf, Ho; by left).
  split; cbn; [done| | |].
  - intros h'. rewrite elem_of_union, elem_of_singleton, Ho. split.
    + intros [-> |[?|(y & Hy & Hv')]]; [right; exists x; by rewrite lookup_insert_eq|by left|].
      right. exists y. split; [|done]. rewrite lookup_insert_ne; [done|]. intros ->. specialize (Hx' _ Hy). congruence.
    + intros [?|(y & Hy & Hv')]; [by right; left|]. rewrite lookup_insert in Hy. case_decide; [left; congruence|right; eauto].
  - intros y z h'. rewrite !lookup_insert. intros Hy Hz Hv'.
    destruct (decide (x = y)) as [<-|], (decide (x = z)) as [<-|]; [done| | |by eauto].
    + injection Hy as <-. by apply Hno in Hz.
    + injection Hz as <-. by apply Hno in Hy.
  - intros y h'. rewrite lookup_insert. intros Hy Hv'. case_decide; [by injection Hy as <-|eauto].
Qed.
Lemma owned_accept lost x cs s :
  owned lost s -> valid_handle (get_s x s) = false -> fresh_handle cs s = true -> owned lost (Accept x cs s).
Proof.
  intros Hs Hx Hf. destruct cs; [by apply owned_adopt|]. pose proof (owned_forget lost x s Hs) as H.
  by rewrite (handle_of_none _ _ Hx), (right_id_L ∅ (∪)) in H.
Qed.
Lemma adopt_set x h s : adopt x h (set_s x INVALID_SOCKET s) = adopt x h s.
Proof. destruct s as [o op m]. unfold adopt, set_s. cbn. by rewrite insert_insert_eq. Qed.
Lemma owned_listen lost x h bound listening s :
  owned lost s -> fresh_handle h s = true -> owned (lost ∪ handle_of x s) (Listen x h bound listening s).2.
Proof.
  intros Hs Hf. pose proof (owned_forget lost x s Hs) as H0. destruct h as [h|]; [|exact H0].
  assert (Ha : owned (lost ∪ handle_of x s) (adopt x h s)).
  { rewrite <-adopt_set. apply owned_adopt; [done|unfold get_s, set_s; cbn; by rewrite lookup_insert_eq|done]. }
  cbn. by destruct bound, listening.
Qed.

Lemma owned_run lost o s : owned lost s -> sock_pre o s = true -> owned (lost ∪ lost_by o s) (sock_run o s).
Proof.
  intros Hs Hp. destruct o as [x|x cs|x h b l|x y|x y|x|x]; cbn [sock_pre sock_run lost_by] in *; rewrite ?(right_id_L ∅ (∪)).
  - apply negb_true_iff, not_alive in Hp. apply (owned_accept lost x None); [done|unfold get_s; by rewrite Hp|done].
  - apply andb_prop in Hp as [Hx%negb_true_iff%not_alive Hf]. apply owned_accept; [done| |done]. unfold get_s. by rewrite Hx.
  - apply andb_prop in Hp as [_ Hf]. by apply owned_listen.
  - apply andb_prop in Hp as [Hx%negb_true_iff%not_alive Hy%alive_get].
    apply owned_transfer; [congruence|done|unfold get_s; by rewrite Hx|eauto].
  - apply andb_prop in Hp as [Hx%alive_get Hy%alive_get]. destruct (Nat.eqb_spec x y) as [|Hne]; [done|].
    destruct (owned_close lost x s Hs) as [Hs' Hx']. apply owned_transfer; [done..|].
    unfold Close. destruct (valid_handle (get_s x s)); [|by rewrite Hy].
    cbn. rewrite lookup_insert_ne by done. by rewrite Hy.
  - by apply owned_close.
  - destruct (owned_close lost x s Hs) as [Hs' Hx']. pose proof (owned_destroy lost x _ Hs') as H.
    by rewrite (handle_of_none _ _ Hx'), (right_id_L ∅ (∪)) in H.
Qed.

Lemma owned_reachable s lost : sock_reachable s lost -> owned lost s.
Proof.
  induction 1 as [|o s lost _ IH Hp]; [|by apply owned_run]. split; cbn; [done| |done|done]. intros h. split; [set_solver|].
  intros [?|(x & Hx & _)]; [set_solver|done].
Qed.

(** ** Claims *)

(** The send loop hands over the frame: whatever partial counts and "would block"
    answers the system gives, the bytes accepted are a prefix of the frame, and
    the whole frame when the loop ends normally; and when no answer is an error
    and as many answers make progress as there are bytes, it does end normally. *)
Theorem send_loop_delivers answers data :
  (exists k, (send_loop answers data []).2 = take k data) /\
  ((send_loop answers data []).1 = Some true -> (send_loop answers data []).2 = data) /\
  (Forall (fun a => not_failed a = true /\ match a with OsCount r => (0 <= r)%Z | OsError _ => True end) answers ->
   (length data <= length (filter (fun a => makes_progress a = true) answers))%nat ->
   (send_loop answers data []).1 = Some true).
Proof.
  destruct (send_loop_prefix answers data []) as (k & Hk & Ht). split_and!; [by exists k| |].
  - intros H. rewrite Hk. cbn. auto.
  - intros [Hf Hp]%Forall_and Hl. by apply send_loop_progress.
Qed.

(** A server socket that listens twice and is destroyed. *)
Definition listened_twice : Sockets.t :=
  fold_left (fun s o => sock_run o s) [Default 0; Listening 0 (Some 69) true true; Listening 0 (Some 70) true true; Destroy 0] Sockets.init.

(** C34: Socket handles and their owners, in every sequence of constructions, accepts,
    listens (repeated ones included), moves, assignments (self-assignment included),
    closes and destructions: no handle is closed that is not open; two objects never
    share a handle, and none holds a lost one; and the handles that are open are
    exactly those that some object owns and those lost because [Listen] was called on
    an object that already owned one.  So without such a call every handle is open
    exactly while some object owns it and none is left when no object is, and after
    one a handle can stay open with no object left. *)
Theorem sockets_owned_once :
  (forall s lost, sock_reachable s lost ->
     Sockets.misused s = false /\
     (forall x y h, Sockets.objects s !! x = Some h -> Sockets.objects s !! y = Some h -> valid_handle h = true -> x = y) /\
     (forall x h, Sockets.objects s !! x = Some h -> valid_handle h = true -> h ∉ lost) /\
     (forall h, h ∈ Sockets.opened s <-> h ∈ lost \/ exists x, Sockets.objects s !! x = Some h /\ valid_handle h = true) /\
     (Sockets.objects s = ∅ -> Sockets.opened s = lost)) /\
  (forall o s, lost_by o s <> ∅ -> exists x h bound listening,
     o = Listening x h bound listening /\ valid_handle (get_s x s) = true) /\
  (exists s lost, sock_reachable s lost /\ Sockets.objects s = ∅ /\ Sockets.opened s <> ∅).
Proof.
  split; [|split].
  - intros s lost [Hu Ho H1 Hk]%owned_reachable. split_and!; [done..|]. intros He. apply set_eq. intros h. rewrite Ho, He.
    split; [by intros [?|(x & Hx & _)]|by left].
  - intros o s H. destruct o as [ | |x h bound listening| | | | ]; try done. exists x, h, bound, listening. split; [done|].
    cbn in H. unfold handle_of in H. by destruct (valid_handle (get_s x s)).
  - exists listened_twice. eexists. split; [|split].
    + unfold listened_twice. cbn [fold_left].
      do 4 (eapply sock_step; [|vm_compute; reflexivity]). apply sock_init.
    + vm_compute. reflexivity.
    + intros H. assert (69 ∈ (∅ : gset SOCKET)) by (rewrite <-H; apply (bool_decide_unpack _); vm_compute; exact I). set_solver.
Qed.

Lemma sockets_owned_once_witness :
  let s := fold_left (fun s o => sock_run o s) [Default 0; Listening 0 (Some 69) true true; Accepted 1 (Some 70);
    Default 2; MoveAssign 2 1; Destroy 1; Accepted 3 (Some 71); MoveAssign 3 2; Listening 0 (Some 72) true true; Destroy 0; Destroy 2; Destroy 3]
    Sockets.init in
  Sockets.misused s = false /\ Sockets.objects s = ∅ /\ Sockets.opened s = {[69]}.
Proof.
  cbv zeta. set (s := fold_left _ _ _). assert (H : exists lost, sock_reachable s lost /\ lost = {[69]}).
  { eexists. split; [unfold s; cbn [fold_left]; do 12 (eapply sock_step; [|vm_compute; reflexivity]); apply sock_init|].
    vm_compute. reflexivity. }
  destruct H as (lost & Hr & ->). destruct (proj1 sockets_owned_once s _ Hr) as (Hm & _ & _ & _ & He).
  assert (Ho : Sockets.objects s = ∅) by (vm_compute; reflexivity). exact (conj Hm (conj Ho (He Ho))).
Defined.

Lemma connect_loop_no_leak attempts s :
  Forall (fun a : option SOCKET * bool => forall h, a.1 = Some h -> h ∉ Sockets.opened s) attempts ->
  Sockets.misused (connect_loop attempts s).2 = Sockets.misused s /\
  match (connect_loop attempts s).1 with
  | Some h => h ∉ Sockets.opened s /\ Sockets.opened (connect_loop attempts s).2 = {[h]} ∪ Sockets.opened s
  | None => Sockets.opened (connect_loop attempts s).2 = Sockets.opened s
  end.
Proof.
  revert s. induction attempts as [|[[h|] ok] rest IH]; intros s Hf; [done| |]; apply Forall_cons in Hf as [Hh Hf]; cbn.
  - specialize (Hh h eq_refl). destruct ok; [done|].
    set (s1 := closesocket h (s <| Sockets.opened ::= fun o => {[h]} ∪ o |>)).
    assert (Ho : Sockets.opened s1 = Sockets.opened s) by (unfold s1; cbn; set_solver).
    assert (Hm : Sockets.misused s1 = Sockets.misused s).
    { unfold s1; cbn. rewrite bool_decide_eq_true_2 by set_solver. apply orb_false_r. }
    rewrite <-Ho in Hf. specialize (IH s1 Hf). by rewrite Ho, Hm in IH.
  - by apply IH.
Qed.

(** [Connect] leaks no handle: when it throws, because the name does not resolve
    or because every attempt fails, exactly the handles are open that were open
    before, and when it succeeds, exactly the returned handle is open in addition;
    no attempt closes a handle that is not open. *)
Theorem connect_no_leak addresses e s :
  Forall (fun a : option SOCKET * bool => forall h, a.1 = Some h -> h ∉ Sockets.opened s) (default [] addresses) ->
  Sockets.misused (Connect addresses e s).2 = Sockets.misused s /\
  match (Connect addresses e s).1 with
  | inr h => h ∉ Sockets.opened s /\ Sockets.opened (Connect addresses e s).2 = {[h]} ∪ Sockets.opened s
  | inl _ => Sockets.opened (Connect addresses e s).2 = Sockets.opened s
  end.
Proof.
  destruct addresses as [attempts|]; [|done]. intros Hf. destruct (connect_loop_no_leak attempts s Hf) as [Hm Ho].
  unfold Connect. by destruct (connect_loop attempts s) as [[h|] s'].
Qed.
Lemma connect_no_leak_witness :
  let s := Sockets.mk ∅ {[5]} false in
  let r := Connect (Some [(Some 6, false); (None, false); (Some 6, true)]) 10061 s in
  Sockets.misused r.2 = Sockets.misused s /\
  match r.1 with
  | inr h => h ∉ Sockets.opened s /\ Sockets.opened r.2 = {[h]} ∪ Sockets.opened s
  | inl _ => Sockets.opened r.2 = Sockets.opened s
  end.
Proof.
  apply connect_no_leak. repeat constructor; intros h; cbn; [intros [= <-]|intros [=]|intros [= <-]]; set_solver.
Defined.
