(* ===== verification/Bytes.v ===== *)
(** * Bytes, little-endian integers and the FNV-1a checksum

    [std::vector<std::uint8_t>] is a [list byte].  The helpers [PutU32],
    [PutU64], [GetU32], [GetU64] and [Fnv] of [src/dfabric/protocol.cpp] and
    their copies in [persistence.cpp] and [codec.hpp]. *)

From S2P Require Import Prelude.

(** [static_cast<std::uint8_t>]. *)
Definition byte_of (n : N) : byte := default x00 (Byte.of_N (n mod 256)).

Lemma to_N_byte_of n : Byte.to_N (byte_of n) = n mod 256.
Proof.
  unfold byte_of. destruct (Byte.of_N (n mod 256)) as [b|] eqn:E; cbn; [by apply Byte.to_of_N|].
  apply Byte.of_N_None_iff in E. pose proof (N.mod_lt n 256). lia.
Qed.
Lemma byte_of_to_N b : byte_of (Byte.to_N b) = b.
Proof.
  unfold byte_of. rewrite N.mod_small; [by rewrite Byte.of_to_N|]. pose proof (Byte.to_N_bounded b). lia.
Qed.
Lemma to_N_lt b : Byte.to_N b < 256.
Proof. pose proof (Byte.to_N_bounded b). lia. Qed.
#[export] Instance to_N_inj : Inj (=) (=) Byte.to_N.
Proof. intros a b H. by rewrite <-(byte_of_to_N a), <-(byte_of_to_N b), H. Qed.

(** ** Little-endian integers *)

(** [for (int i = 0; i < k; ++i) v.push_back((x >> (8 * i)) & 0xff);] from index
    [i] on. *)
Fixpoint put_le_from (i k : nat) (x : N) : list byte :=
  match k with
  | O => []
  | S k' => byte_of (N.land (N.shiftr x (8 * N.of_nat i)) 255) :: put_le_from (S i) k' x
  end.
Definition PutU32 (v : list byte) (x : N) : list byte := v ++ put_le_from 0 4 x.
Definition PutU64 (v : list byte) (x : N) : list byte := v ++ put_le_from 0 8 x.

(** [for (int i = 0; i < k; ++i) v |= d[off + i] << (8 * i);]; [None] is a read
    outside the buffer. *)
Fixpoint get_le_from (i k : nat) (d : list byte) (off : nat) (v : N) : option N :=
  match k with
  | O => Some v
  | S k' =>
      match d !! (off + i)%nat with
      | None => None
      | Some b => get_le_from (S i) k' d off (N.lor v (N.shiftl (Byte.to_N b) (8 * N.of_nat i)))
      end
  end.
Definition GetU32 (d : list byte) (off : nat) : option N := get_le_from 0 4 d off 0.
Definition GetU64 (d : list byte) (off : nat) : option N := get_le_from 0 8 d off 0.

(** Arithmetic reading of the two loops. *)
Fixpoint le_bytes (k : nat) (x : N) : list byte :=
  match k with O => [] | S k' => byte_of x :: le_bytes k' (x / 256) end.
Fixpoint le_value (bs : list byte) : N :=
  match bs with [] => 0 | b :: bs' => Byte.to_N b + 256 * le_value bs' end.

Lemma length_le_bytes k x : length (le_bytes k x) = k.
Proof. revert x. induction k as [|k IH]; intros x; cbn; [done|by rewrite IH]. Qed.

Lemma put_le_bytes i k x : put_le_from i k x = le_bytes k (x / 2 ^ (8 * N.of_nat i)).
Proof.
  revert i. induction k as [|k IH]; intros i; cbn [put_le_from le_bytes]; [done|]. f_equal.
  - rewrite N.shiftr_div_pow2. change 255 with (N.ones 8). rewrite N.land_ones.
    unfold byte_of. by rewrite N.Div0.mod_mod.
  - rewrite IH, N.Div0.div_div. f_equal. f_equal. change 256 with (2 ^ 8). rewrite <-N.pow_add_r. f_equal. lia.
Qed.
Lemma PutU32_eq v x : PutU32 v x = v ++ le_bytes 4 x.
Proof. unfold PutU32. by rewrite put_le_bytes, N.div_1_r. Qed.
Lemma PutU64_eq v x : PutU64 v x = v ++ le_bytes 8 x.
Proof. unfold PutU64. by rewrite put_le_bytes, N.div_1_r. Qed.

Lemma le_value_bound bs : le_value bs < 256 ^ N.of_nat (length bs).
Proof.
  induction bs as [|b bs IH]; cbn [le_value length]; [done|]. pose proof (to_N_lt b).
  rewrite Nat2N.inj_succ, N.pow_succ_r'. lia.
Qed.

Lemma le_value_bytes k x : x < 256 ^ N.of_nat k -> le_value (le_bytes k x) = x.
Proof.
  revert x. induction k as [|k IH]; intros x Hx; cbn [le_bytes le_value]; [cbn in Hx; lia|].
  rewrite Nat2N.inj_succ, N.pow_succ_r' in Hx.
  rewrite IH, to_N_byte_of by (apply N.Div0.div_lt_upper_bound; lia). pose proof (N.div_mod x 256). lia.
Qed.
Lemma le_bytes_value bs : le_bytes (length bs) (le_value bs) = bs.
Proof.
  induction bs as [|b bs IH]; cbn [length le_value le_bytes]; [done|]. pose proof (to_N_lt b). f_equal.
  - apply (inj Byte.to_N). rewrite to_N_byte_of, (N.mul_comm 256), N.Div0.mod_add. by apply N.mod_small.
  - rewrite (N.mul_comm 256), N.div_add, N.div_small by lia. exact IH.
Qed.

Lemma lor_shiftl_add v b k : v < 2 ^ k -> N.lor v (N.shiftl b k) = v + b * 2 ^ k.
Proof.
  intros Hv. rewrite N.shiftl_mul_pow2.
  assert (Hand : N.land v (b * 2 ^ k) = 0).
  { apply N.bits_inj. intros i. rewrite N.land_spec, N.bits_0. destruct (N.lt_ge_cases i k) as [Hi|Hi].
    - by rewrite N.mul_pow2_bits_low, andb_false_r.
    - destruct (N.eq_dec v 0) as [->|]; [by rewrite N.bits_0|]. rewrite (N.bits_above_log2 v), andb_false_l; [done|].
      assert (N.log2 v < k) by (apply N.log2_lt_pow2; lia). lia. }
  by rewrite N.add_nocarry_lxor, N.lxor_lor.
Qed.

Lemma get_le_from_spec i k d off v :
  v < 2 ^ (8 * N.of_nat i) ->
  get_le_from i k d off v =
    if decide (off + i + k <= length d)%nat
    then Some (v + le_value (take k (drop (off + i) d)) * 2 ^ (8 * N.of_nat i))
    else if decide (k = 0)%nat then Some v else None.
Proof.
  revert i v. induction k as [|k IH]; intros i v Hv; cbn [get_le_from].
  { rewrite take_0. cbn [le_value]. case_decide; [|done]. f_equal. lia. }
  destruct (d !! (off + i)%nat) as [b|] eqn:Hb.
  - pose proof (lookup_lt_Some _ _ _ Hb) as Hlt. pose proof (to_N_lt b) as Hb256.
    assert (Hpow : 2 ^ (8 * N.of_nat (S i)) = 256 * 2 ^ (8 * N.of_nat i)).
    { rewrite Nat2N.inj_succ. replace (8 * N.succ (N.of_nat i)) with (8 + 8 * N.of_nat i) by lia. by rewrite N.pow_add_r. }
    rewrite lor_shiftl_add by done. rewrite IH by (rewrite Hpow; nia).
    rewrite (drop_S _ _ _ Hb), firstn_cons. cbn [le_value]. replace (off + S i)%nat with (S (off + i)) by lia.
    destruct (decide (off + i + S k <= length d)%nat), (decide (S (off + i) + k <= length d)%nat); try lia.
    + f_equal. rewrite Hpow. lia.
    + destruct (decide (k = 0)%nat); [lia|done].
  - apply lookup_ge_None in Hb. by rewrite !decide_False by lia.
Qed.

Lemma GetU32_spec d off :
  GetU32 d off = if decide (off + 4 <= length d)%nat then Some (le_value (take 4 (drop off d))) else None.
Proof.
  unfold GetU32. rewrite get_le_from_spec by done. rewrite Nat.add_0_r. case_decide; [|done]. f_equal. cbn. lia.
Qed.
Lemma GetU64_spec d off :
  GetU64 d off = if decide (off + 8 <= length d)%nat then Some (le_value (take 8 (drop off d))) else None.
Proof.
  unfold GetU64. rewrite get_le_from_spec by done. rewrite Nat.add_0_r. case_decide; [|done]. f_equal. cbn. lia.
Qed.

(** ** FNV-1a *)
Definition fnv_offset : N := 0xcbf29ce484222325.
Definition fnv_prime : N := 0x100000001b3.
Definition fnv_step (h : N) (b : byte) : N := wrap64 (N.lxor h (Byte.to_N b) * fnv_prime).
Definition Fnv (d : list byte) : N := fold_left fnv_step d fnv_offset.

Lemma Fnv_u64 d : u64_ok (Fnv d).
Proof.
  unfold Fnv. assert (H : forall h, u64_ok h -> u64_ok (fold_left fnv_step d h)); [|by apply H].
  induction d as [|b d IH]; intros h Hh; cbn; [done|]. apply IH, wrap64_ok.
Qed.

(** The prime is odd, so a step can be undone: a changed byte changes the state,
    and a changed state stays changed. *)
Definition fnv_prime_inv : N := 0xce965057aff6957b.

Lemma mul_prime_inj a b : u64_ok a -> u64_ok b -> wrap64 (a * fnv_prime) = wrap64 (b * fnv_prime) -> a = b.
Proof.
  intros Ha Hb Heq.
  assert (Hinv : forall x, u64_ok x -> wrap64 (wrap64 (x * fnv_prime) * fnv_prime_inv) = x).
  { intros x Hx. unfold wrap64. rewrite N.Div0.mul_mod_idemp_l, <-N.mul_assoc, <-N.Div0.mul_mod_idemp_r.
    change ((fnv_prime * fnv_prime_inv) mod 2 ^ 64) with 1. rewrite N.mul_1_r. by apply N.mod_small. }
  rewrite <-(Hinv a), <-(Hinv b) by done. by rewrite Heq.
Qed.

Lemma lxor_u64 a b : u64_ok a -> u64_ok b -> u64_ok (N.lxor a b).
Proof.
  unfold u64_ok. intros Ha Hb. destruct (N.eq_dec (N.lxor a b) 0) as [->|Hne]; [done|].
  apply N.log2_lt_pow2; [lia|]. pose proof (N.log2_lxor a b) as Hl.
  assert (Hlog : forall x, x < 2 ^ 64 -> N.log2 x < 64).
  { intros x Hx. destruct (N.eq_dec x 0) as [->|]; [done|]. apply N.log2_lt_pow2; lia. }
  pose proof (Hlog a Ha). pose proof (Hlog b Hb). lia.
Qed.
Lemma byte_u64 b : u64_ok (Byte.to_N b).
Proof. unfold u64_ok. pose proof (to_N_lt b). lia. Qed.

Lemma fnv_step_inj h h' b b' :
  u64_ok h -> u64_ok h' -> fnv_step h b = fnv_step h' b' -> N.lxor h (Byte.to_N b) = N.lxor h' (Byte.to_N b').
Proof. intros Hh Hh'. apply mul_prime_inj; apply lxor_u64; auto using byte_u64. Qed.

Lemma lxor_cancel_r a b c : N.lxor a c = N.lxor b c -> a = b.
Proof. intros H. rewrite <-(N.lxor_0_r a), <-(N.lxor_0_r b), <-(N.lxor_nilpotent c), <-!N.lxor_assoc. by rewrite H. Qed.

Lemma fold_fnv_inj d h h' : u64_ok h -> u64_ok h' -> fold_left fnv_step d h = fold_left fnv_step d h' -> h = h'.
Proof.
  revert h h'. induction d as [|b d IH]; intros h h' Hh Hh'; cbn; [done|].
  intros Heq%IH; [|apply wrap64_ok..]. apply fnv_step_inj in Heq; [|done..]. by apply lxor_cancel_r in Heq.
Qed.

(** A single changed byte always changes the checksum. *)
Lemma Fnv_single_byte pre b b' post : Fnv (pre ++ b :: post) = Fnv (pre ++ b' :: post) -> b = b'.
Proof.
  unfold Fnv. rewrite !fold_left_app. cbn [fold_left]. pose proof (Fnv_u64 pre) as Hu. unfold Fnv in Hu.
  intros Heq%fold_fnv_inj; [|apply wrap64_ok..]. apply fnv_step_inj in Heq; [|done..].
  rewrite !(N.lxor_comm (fold_left _ _ _)) in Heq. apply lxor_cancel_r in Heq. by apply (inj Byte.to_N).
Qed.

Lemma le_bytes_inj k x y : x < 256 ^ N.of_nat k -> y < 256 ^ N.of_nat k -> le_bytes k x = le_bytes k y -> x = y.
Proof. intros Hx Hy Heq. by rewrite <-(le_value_bytes k x), <-(le_value_bytes k y), Heq. Qed.

(** Two bodies of the same length that differ in one byte have different
    checksums. *)
Lemma Fnv_insert d i b b' : d !! i = Some b -> Fnv (<[i := b']> d) = Fnv d -> b' = b.
Proof.
  intros Hi Heq. rewrite insert_take_drop in Heq by (by apply lookup_lt_Some in Hi).
  rewrite <-(take_drop_middle d i b Hi) in Heq at 3. by apply Fnv_single_byte in Heq.
Qed.
