(* ===== verification/Enums.v ===== *)
(** * Canonical enumerations

    [include/dfabric/enums.hpp], and the two enumerations declared next to the
    types that use them: [GraphEdgeKind] ([graph.hpp]) and [TopologyConstraint]
    ([requirement.hpp]).  Each C++ [enum class] is a module of the same name:
    [t] has its enumerators, [code] their stable integral values, [ToString]
    the inspection names.  [EnumTraits] is the interface the two codecs use:
    the canonical bounds and the cast from an integer, with the laws that make
    validated decoding total. *)

From S2P Require Import Prelude.

Module ResourceClass.
Inductive t : Set :=
  | COMPUTE | ACCELERATOR | HOST_MEMORY | EXPANDED_MEMORY | STORAGE
  | NETWORK_ENDPOINT | FABRIC_ENDPOINT | DPU | NIC | SERVICE_ENDPOINT
  | CONTROL_PROCESS | OTHER_REGISTERED | UNKNOWN.
Definition code (v : t) : N :=
  match v with
  | COMPUTE => 1 | ACCELERATOR => 2 | HOST_MEMORY => 3 | EXPANDED_MEMORY => 4
  | STORAGE => 5 | NETWORK_ENDPOINT => 6 | FABRIC_ENDPOINT => 7 | DPU => 8
  | NIC => 9 | SERVICE_ENDPOINT => 10 | CONTROL_PROCESS => 11
  | OTHER_REGISTERED => 12 | UNKNOWN => 0
  end.
Definition all : list t :=
  [COMPUTE; ACCELERATOR; HOST_MEMORY; EXPANDED_MEMORY; STORAGE;
   NETWORK_ENDPOINT; FABRIC_ENDPOINT; DPU; NIC; SERVICE_ENDPOINT;
   CONTROL_PROCESS; OTHER_REGISTERED; UNKNOWN].
Definition ToString (v : t) : string :=
  match v with
  | COMPUTE => "COMPUTE"
  | ACCELERATOR => "ACCELERATOR"
  | HOST_MEMORY => "HOST_MEMORY"
  | EXPANDED_MEMORY => "EXPANDED_MEMORY"
  | STORAGE => "STORAGE"
  | NETWORK_ENDPOINT => "NETWORK_ENDPOINT"
  | FABRIC_ENDPOINT => "FABRIC_ENDPOINT"
  | DPU => "DPU"
  | NIC => "NIC"
  | SERVICE_ENDPOINT => "SERVICE_ENDPOINT"
  | CONTROL_PROCESS => "CONTROL_PROCESS"
  | OTHER_REGISTERED => "OTHER_REGISTERED"
  | UNKNOWN => "UNKNOWN"
  end.
#[global] Instance eq_dec : EqDecision t.
Proof. solve_decision. Defined.
End ResourceClass.

Module CapabilityKind.
Inductive t : Set :=
  | CUDA_EXECUTION | ROCM_EXECUTION | CPU_EXECUTION | HOST_MEMORY_ACCESS
  | EXPANDED_MEMORY_ACCESS | PERSISTENT_STORAGE | DIRECT_NETWORK_ACCESS
  | RDMA_CAPABLE | GPUDIRECT_CAPABLE | COHERENT_MEMORY_ACCESS
  | NON_COHERENT_MEMORY_ACCESS | SPECIFIC_ISA | ARCH_GENERATION
  | DATA_FORMAT_COMPAT | PAGE_SIZE_SUPPORT | ADDRESS_WIDTH | DMA_CAPABLE
  | STORAGE_PROTOCOL | NETWORK_PROTOCOL | COMPUTE_PRECISION
  | ATOMIC_SEMANTICS | RETRY_CAPABLE | DRAIN_SUPPORT | UNKNOWN.
Definition code (v : t) : N :=
  match v with
  | CUDA_EXECUTION => 1 | ROCM_EXECUTION => 2 | CPU_EXECUTION => 3
  | HOST_MEMORY_ACCESS => 4 | EXPANDED_MEMORY_ACCESS => 5
  | PERSISTENT_STORAGE => 6 | DIRECT_NETWORK_ACCESS => 7 | RDMA_CAPABLE => 8
  | GPUDIRECT_CAPABLE => 9 | COHERENT_MEMORY_ACCESS => 10
  | NON_COHERENT_MEMORY_ACCESS => 11 | SPECIFIC_ISA => 12
  | ARCH_GENERATION => 13 | DATA_FORMAT_COMPAT => 14
  | PAGE_SIZE_SUPPORT => 15 | ADDRESS_WIDTH => 16 | DMA_CAPABLE => 17
  | STORAGE_PROTOCOL => 18 | NETWORK_PROTOCOL => 19 | COMPUTE_PRECISION => 20
  | ATOMIC_SEMANTICS => 21 | RETRY_CAPABLE => 22 | DRAIN_SUPPORT => 23
  | UNKNOWN => 0
  end.
Definition all : list t :=
  [CUDA_EXECUTION; ROCM_EXECUTION; CPU_EXECUTION; HOST_MEMORY_ACCESS;
   EXPANDED_MEMORY_ACCESS; PERSISTENT_STORAGE; DIRECT_NETWORK_ACCESS;
   RDMA_CAPABLE; GPUDIRECT_CAPABLE; COHERENT_MEMORY_ACCESS;
   NON_COHERENT_MEMORY_ACCESS; SPECIFIC_ISA; ARCH_GENERATION;
   DATA_FORMAT_COMPAT; PAGE_SIZE_SUPPORT; ADDRESS_WIDTH; DMA_CAPABLE;
   STORAGE_PROTOCOL; NETWORK_PROTOCOL; COMPUTE_PRECISION; ATOMIC_SEMANTICS;
   RETRY_CAPABLE; DRAIN_SUPPORT; UNKNOWN].
Definition ToString (v : t) : string :=
  match v with
  | CUDA_EXECUTION => "CUDA_EXECUTION"
  | ROCM_EXECUTION => "ROCM_EXECUTION"
  | CPU_EXECUTION => "CPU_EXECUTION"
  | HOST_MEMORY_ACCESS => "HOST_MEMORY_ACCESS"
  | EXPANDED_MEMORY_ACCESS => "EXPANDED_MEMORY_ACCESS"
  | PERSISTENT_STORAGE => "PERSISTENT_STORAGE"
  | DIRECT_NETWORK_ACCESS => "DIRECT_NETWORK_ACCESS"
  | RDMA_CAPABLE => "RDMA_CAPABLE"
  | GPUDIRECT_CAPABLE => "GPUDIRECT_CAPABLE"
  | COHERENT_MEMORY_ACCESS => "COHERENT_MEMORY_ACCESS"
  | NON_COHERENT_MEMORY_ACCESS => "NON_COHERENT_MEMORY_ACCESS"
  | SPECIFIC_ISA => "SPECIFIC_ISA"
  | ARCH_GENERATION => "ARCH_GENERATION"
  | DATA_FORMAT_COMPAT => "DATA_FORMAT_COMPAT"
  | PAGE_SIZE_SUPPORT => "PAGE_SIZE_SUPPORT"
  | ADDRESS_WIDTH => "ADDRESS_WIDTH"
  | DMA_CAPABLE => "DMA_CAPABLE"
  | STORAGE_PROTOCOL => "STORAGE_PROTOCOL"
  | NETWORK_PROTOCOL => "NETWORK_PROTOCOL"
  | COMPUTE_PRECISION => "COMPUTE_PRECISION"
  | ATOMIC_SEMANTICS => "ATOMIC_SEMANTICS"
  | RETRY_CAPABLE => "RETRY_CAPABLE"
  | DRAIN_SUPPORT => "DRAIN_SUPPORT"
  | UNKNOWN => "UNKNOWN"
  end.
#[global] Instance eq_dec : EqDecision t.
Proof. solve_decision. Defined.
End CapabilityKind.

Module CapabilityState.
Inductive t : Set :=
  | SUPPORTED | UNSUPPORTED | UNKNOWN | REVALIDATION_REQUIRED.
Definition code (v : t) : N :=
  match v with
  | SUPPORTED => 1 | UNSUPPORTED => 2 | UNKNOWN => 3
  | REVALIDATION_REQUIRED => 4
  end.
Definition all : list t :=
  [SUPPORTED; UNSUPPORTED; UNKNOWN; REVALIDATION_REQUIRED].
Definition ToString (v : t) : string :=
  match v with
  | SUPPORTED => "SUPPORTED"
  | UNSUPPORTED => "UNSUPPORTED"
  | UNKNOWN => "UNKNOWN"
  | REVALIDATION_REQUIRED => "REVALIDATION_REQUIRED"
  end.
#[global] Instance eq_dec : EqDecision t.
Proof. solve_decision. Defined.
End CapabilityState.

Module ResourceHealth.
Inductive t : Set :=
  | HEALTHY | DEGRADED | OFFLINE | UNKNOWN.
Definition code (v : t) : N :=
  match v with
  | HEALTHY => 1 | DEGRADED => 2 | OFFLINE => 3 | UNKNOWN => 0
  end.
Definition all : list t :=
  [HEALTHY; DEGRADED; OFFLINE; UNKNOWN].
Definition ToString (v : t) : string :=
  match v with
  | HEALTHY => "HEALTHY"
  | DEGRADED => "DEGRADED"
  | OFFLINE => "OFFLINE"
  | UNKNOWN => "UNKNOWN"
  end.
#[global] Instance eq_dec : EqDecision t.
Proof. solve_decision. Defined.
End ResourceHealth.

Module Readiness.
Inductive t : Set :=
  | READY | NOT_READY | UNKNOWN.
Definition code (v : t) : N :=
  match v with
  | READY => 1 | NOT_READY => 2 | UNKNOWN => 0
  end.
Definition all : list t :=
  [READY; NOT_READY; UNKNOWN].
Definition ToString (v : t) : string :=
  match v with
  | READY => "READY"
  | NOT_READY => "NOT_READY"
  | UNKNOWN => "UNKNOWN"
  end.
#[global] Instance eq_dec : EqDecision t.
Proof. solve_decision. Defined.
End Readiness.

Module Reachability.
Inductive t : Set :=
  | REACHABLE | UNREACHABLE | UNKNOWN.
Definition code (v : t) : N :=
  match v with
  | REACHABLE => 1 | UNREACHABLE => 2 | UNKNOWN => 0
  end.
Definition all : list t :=
  [REACHABLE; UNREACHABLE; UNKNOWN].
Definition ToString (v : t) : string :=
  match v with
  | REACHABLE => "REACHABLE"
  | UNREACHABLE => "UNREACHABLE"
  | UNKNOWN => "UNKNOWN"
  end.
#[global] Instance eq_dec : EqDecision t.
Proof. solve_decision. Defined.
End Reachability.

Module EvidenceState.
Inductive t : Set :=
  | FRESH | STALE | REVALIDATION_REQUIRED | PROVENANCE_UNKNOWN.
Definition code (v : t) : N :=
  match v with
  | FRESH => 1 | STALE => 2 | REVALIDATION_REQUIRED => 3
  | PROVENANCE_UNKNOWN => 4
  end.
Definition all : list t :=
  [FRESH; STALE; REVALIDATION_REQUIRED; PROVENANCE_UNKNOWN].
Definition ToString (v : t) : string :=
  match v with
  | FRESH => "FRESH"
  | STALE => "STALE"
  | REVALIDATION_REQUIRED => "REVALIDATION_REQUIRED"
  | PROVENANCE_UNKNOWN => "PROVENANCE_UNKNOWN"
  end.
#[global] Instance eq_dec : EqDecision t.
Proof. solve_decision. Defined.
End EvidenceState.

Module EvidenceSource.
Inductive t : Set :=
  | STATIC | WORKER | COORDINATOR | BACKEND | DIRECT | UNKNOWN.
Definition code (v : t) : N :=
  match v with
  | STATIC => 1 | WORKER => 2 | COORDINATOR => 3 | BACKEND => 4 | DIRECT => 5
  | UNKNOWN => 0
  end.
Definition all : list t :=
  [STATIC; WORKER; COORDINATOR; BACKEND; DIRECT; UNKNOWN].
Definition ToString (v : t) : string :=
  match v with
  | STATIC => "STATIC"
  | WORKER => "WORKER"
  | COORDINATOR => "COORDINATOR"
  | BACKEND => "BACKEND"
  | DIRECT => "DIRECT"
  | UNKNOWN => "UNKNOWN"
  end.
#[global] Instance eq_dec : EqDecision t.
Proof. solve_decision. Defined.
End EvidenceSource.

Module NodeLifecycle.
Inductive t : Set :=
  | DISCOVERED | VALIDATED | REVALIDATION_REQUIRED | RETIRED.
Definition code (v : t) : N :=
  match v with
  | DISCOVERED => 1 | VALIDATED => 2 | REVALIDATION_REQUIRED => 3
  | RETIRED => 4
  end.
Definition all : list t :=
  [DISCOVERED; VALIDATED; REVALIDATION_REQUIRED; RETIRED].
Definition ToString (v : t) : string :=
  match v with
  | DISCOVERED => "DISCOVERED"
  | VALIDATED => "VALIDATED"
  | REVALIDATION_REQUIRED => "REVALIDATION_REQUIRED"
  | RETIRED => "RETIRED"
  end.
#[global] Instance eq_dec : EqDecision t.
Proof. solve_decision. Defined.
End NodeLifecycle.

Module FailureDomainType.
Inductive t : Set :=
  | HOST | NUMA_NODE | PCI_ROOT | RACK | POWER_DOMAIN | NETWORK_DOMAIN
  | STORAGE_DOMAIN | FABRIC_DOMAIN | CUSTOM | UNKNOWN.
Definition code (v : t) : N :=
  match v with
  | HOST => 1 | NUMA_NODE => 2 | PCI_ROOT => 3 | RACK => 4
  | POWER_DOMAIN => 5 | NETWORK_DOMAIN => 6 | STORAGE_DOMAIN => 7
  | FABRIC_DOMAIN => 8 | CUSTOM => 9 | UNKNOWN => 0
  end.
Definition all : list t :=
  [HOST; NUMA_NODE; PCI_ROOT; RACK; POWER_DOMAIN; NETWORK_DOMAIN;
   STORAGE_DOMAIN; FABRIC_DOMAIN; CUSTOM; UNKNOWN].
Definition ToString (v : t) : string :=
  match v with
  | HOST => "HOST"
  | NUMA_NODE => "NUMA_NODE"
  | PCI_ROOT => "PCI_ROOT"
  | RACK => "RACK"
  | POWER_DOMAIN => "POWER_DOMAIN"
  | NETWORK_DOMAIN => "NETWORK_DOMAIN"
  | STORAGE_DOMAIN => "STORAGE_DOMAIN"
  | FABRIC_DOMAIN => "FABRIC_DOMAIN"
  | CUSTOM => "CUSTOM"
  | UNKNOWN => "UNKNOWN"
  end.
#[global] Instance eq_dec : EqDecision t.
Proof. solve_decision. Defined.
End FailureDomainType.

Module BackendKind.
Inductive t : Set :=
  | REAL | SYNTHETIC | UNSUPPORTED | UNKNOWN.
Definition code (v : t) : N :=
  match v with
  | REAL => 1 | SYNTHETIC => 2 | UNSUPPORTED => 3 | UNKNOWN => 0
  end.
Definition all : list t :=
  [REAL; SYNTHETIC; UNSUPPORTED; UNKNOWN].
Definition ToString (v : t) : string :=
  match v with
  | REAL => "REAL"
  | SYNTHETIC => "SYNTHETIC"
  | UNSUPPORTED => "UNSUPPORTED"
  | UNKNOWN => "UNKNOWN"
  end.
#[global] Instance eq_dec : EqDecision t.
Proof. solve_decision. Defined.
End BackendKind.

Module CompositionLifecycle.
Inductive t : Set :=
  | REQUESTED | DISCOVERING | EVALUATED | PLANNED | RESERVING | RESERVED
  | REVALIDATING | COMMITTED | ACTIVE | DEGRADED | DRAINING
  | RECOMPOSITION_REQUIRED | REVALIDATION_REQUIRED | FENCED | FAILED
  | RELEASED | RETIRED.
Definition code (v : t) : N :=
  match v with
  | REQUESTED => 1 | DISCOVERING => 2 | EVALUATED => 3 | PLANNED => 4
  | RESERVING => 5 | RESERVED => 6 | REVALIDATING => 7 | COMMITTED => 8
  | ACTIVE => 9 | DEGRADED => 10 | DRAINING => 11
  | RECOMPOSITION_REQUIRED => 12 | REVALIDATION_REQUIRED => 13 | FENCED => 14
  | FAILED => 15 | RELEASED => 16 | RETIRED => 17
  end.
Definition all : list t :=
  [REQUESTED; DISCOVERING; EVALUATED; PLANNED; RESERVING; RESERVED;
   REVALIDATING; COMMITTED; ACTIVE; DEGRADED; DRAINING;
   RECOMPOSITION_REQUIRED; REVALIDATION_REQUIRED; FENCED; FAILED; RELEASED;
   RETIRED].
Definition ToString (v : t) : string :=
  match v with
  | REQUESTED => "REQUESTED"
  | DISCOVERING => "DISCOVERING"
  | EVALUATED => "EVALUATED"
  | PLANNED => "PLANNED"
  | RESERVING => "RESERVING"
  | RESERVED => "RESERVED"
  | REVALIDATING => "REVALIDATING"
  | COMMITTED => "COMMITTED"
  | ACTIVE => "ACTIVE"
  | DEGRADED => "DEGRADED"
  | DRAINING => "DRAINING"
  | RECOMPOSITION_REQUIRED => "RECOMPOSITION_REQUIRED"
  | REVALIDATION_REQUIRED => "REVALIDATION_REQUIRED"
  | FENCED => "FENCED"
  | FAILED => "FAILED"
  | RELEASED => "RELEASED"
  | RETIRED => "RETIRED"
  end.
#[global] Instance eq_dec : EqDecision t.
Proof. solve_decision. Defined.
End CompositionLifecycle.

Module RejectionReason.
Inductive t : Set :=
  | NONE | RESOURCE_OFFLINE | RESOURCE_DEGRADED | RESOURCE_UNREACHABLE
  | RESOURCE_REVALIDATION_REQUIRED | CAPABILITY_UNSUPPORTED
  | CAPABILITY_UNKNOWN | COMPATIBILITY_MISMATCH | INSUFFICIENT_CAPACITY
  | PATH_UNAVAILABLE | PATH_STALE | BANDWIDTH_INSUFFICIENT
  | LATENCY_LIMIT_EXCEEDED | FAILURE_DOMAIN_CONFLICT | COLLOCATION_REQUIRED
  | ANTI_COLLOCATION_VIOLATED | POLICY_DENIED | WRONG_RESOURCE_GENERATION
  | WRONG_NODE_GENERATION | WRONG_WORKER_BOOT | WRONG_EPOCH | STALE_EVIDENCE
  | NO_VALID_COMPOSITION | DUPLICATE_RESERVATION | RESERVATION_CONFLICT
  | OVERCOMMIT | DUPLICATE_RELEASE | STALE_RELEASE | RESOURCE_WITHDRAWN
  | RESOURCE_DRAINING | PATH_EVIDENCE_STALE | UNVERIFIED_PATH
  | CAPACITY_NEGATIVE | INVALID_STATE_TRANSITION | UNKNOWN.
Definition code (v : t) : N :=
  match v with
  | NONE => 0 | RESOURCE_OFFLINE => 1 | RESOURCE_DEGRADED => 2
  | RESOURCE_UNREACHABLE => 3 | RESOURCE_REVALIDATION_REQUIRED => 4
  | CAPABILITY_UNSUPPORTED => 5 | CAPABILITY_UNKNOWN => 6
  | COMPATIBILITY_MISMATCH => 7 | INSUFFICIENT_CAPACITY => 8
  | PATH_UNAVAILABLE => 9 | PATH_STALE => 10 | BANDWIDTH_INSUFFICIENT => 11
  | LATENCY_LIMIT_EXCEEDED => 12 | FAILURE_DOMAIN_CONFLICT => 13
  | COLLOCATION_REQUIRED => 14 | ANTI_COLLOCATION_VIOLATED => 15
  | POLICY_DENIED => 16 | WRONG_RESOURCE_GENERATION => 17
  | WRONG_NODE_GENERATION => 18 | WRONG_WORKER_BOOT => 19 | WRONG_EPOCH => 20
  | STALE_EVIDENCE => 21 | NO_VALID_COMPOSITION => 22
  | DUPLICATE_RESERVATION => 23 | RESERVATION_CONFLICT => 24
  | OVERCOMMIT => 25 | DUPLICATE_RELEASE => 26 | STALE_RELEASE => 27
  | RESOURCE_WITHDRAWN => 28 | RESOURCE_DRAINING => 29
  | PATH_EVIDENCE_STALE => 30 | UNVERIFIED_PATH => 31
  | CAPACITY_NEGATIVE => 32 | INVALID_STATE_TRANSITION => 33
  | UNKNOWN => 4294967295
  end.
Definition all : list t :=
  [NONE; RESOURCE_OFFLINE; RESOURCE_DEGRADED; RESOURCE_UNREACHABLE;
   RESOURCE_REVALIDATION_REQUIRED; CAPABILITY_UNSUPPORTED;
   CAPABILITY_UNKNOWN; COMPATIBILITY_MISMATCH; INSUFFICIENT_CAPACITY;
   PATH_UNAVAILABLE; PATH_STALE; BANDWIDTH_INSUFFICIENT;
   LATENCY_LIMIT_EXCEEDED; FAILURE_DOMAIN_CONFLICT; COLLOCATION_REQUIRED;
   ANTI_COLLOCATION_VIOLATED; POLICY_DENIED; WRONG_RESOURCE_GENERATION;
   WRONG_NODE_GENERATION; WRONG_WORKER_BOOT; WRONG_EPOCH; STALE_EVIDENCE;
   NO_VALID_COMPOSITION; DUPLICATE_RESERVATION; RESERVATION_CONFLICT;
   OVERCOMMIT; DUPLICATE_RELEASE; STALE_RELEASE; RESOURCE_WITHDRAWN;
   RESOURCE_DRAINING; PATH_EVIDENCE_STALE; UNVERIFIED_PATH;
   CAPACITY_NEGATIVE; INVALID_STATE_TRANSITION; UNKNOWN].
Definition ToString (v : t) : string :=
  match v with
  | NONE => "NONE"
  | RESOURCE_OFFLINE => "RESOURCE_OFFLINE"
  | RESOURCE_DEGRADED => "RESOURCE_DEGRADED"
  | RESOURCE_UNREACHABLE => "RESOURCE_UNREACHABLE"
  | RESOURCE_REVALIDATION_REQUIRED => "RESOURCE_REVALIDATION_REQUIRED"
  | CAPABILITY_UNSUPPORTED => "CAPABILITY_UNSUPPORTED"
  | CAPABILITY_UNKNOWN => "CAPABILITY_UNKNOWN"
  | COMPATIBILITY_MISMATCH => "COMPATIBILITY_MISMATCH"
  | INSUFFICIENT_CAPACITY => "INSUFFICIENT_CAPACITY"
  | PATH_UNAVAILABLE => "PATH_UNAVAILABLE"
  | PATH_STALE => "PATH_STALE"
  | BANDWIDTH_INSUFFICIENT => "BANDWIDTH_INSUFFICIENT"
  | LATENCY_LIMIT_EXCEEDED => "LATENCY_LIMIT_EXCEEDED"
  | FAILURE_DOMAIN_CONFLICT => "FAILURE_DOMAIN_CONFLICT"
  | COLLOCATION_REQUIRED => "COLLOCATION_REQUIRED"
  | ANTI_COLLOCATION_VIOLATED => "ANTI_COLLOCATION_VIOLATED"
  | POLICY_DENIED => "POLICY_DENIED"
  | WRONG_RESOURCE_GENERATION => "WRONG_RESOURCE_GENERATION"
  | WRONG_NODE_GENERATION => "WRONG_NODE_GENERATION"
  | WRONG_WORKER_BOOT => "WRONG_WORKER_BOOT"
  | WRONG_EPOCH => "WRONG_EPOCH"
  | STALE_EVIDENCE => "STALE_EVIDENCE"
  | NO_VALID_COMPOSITION => "NO_VALID_COMPOSITION"
  | DUPLICATE_RESERVATION => "DUPLICATE_RESERVATION"
  | RESERVATION_CONFLICT => "RESERVATION_CONFLICT"
  | OVERCOMMIT => "OVERCOMMIT"
  | DUPLICATE_RELEASE => "DUPLICATE_RELEASE"
  | STALE_RELEASE => "STALE_RELEASE"
  | RESOURCE_WITHDRAWN => "RESOURCE_WITHDRAWN"
  | RESOURCE_DRAINING => "RESOURCE_DRAINING"
  | PATH_EVIDENCE_STALE => "PATH_EVIDENCE_STALE"
  | UNVERIFIED_PATH => "UNVERIFIED_PATH"
  | CAPACITY_NEGATIVE => "CAPACITY_NEGATIVE"
  | INVALID_STATE_TRANSITION => "INVALID_STATE_TRANSITION"
  | UNKNOWN => "UNKNOWN"
  end.
#[global] Instance eq_dec : EqDecision t.
Proof. solve_decision. Defined.
End RejectionReason.

Module CompositionOutcome.
Inductive t : Set :=
  | SUCCESS | REJECTED | PARTIAL | ABORTED | OUTCOME_UNKNOWN | FAILED.
Definition code (v : t) : N :=
  match v with
  | SUCCESS => 1 | REJECTED => 2 | PARTIAL => 3 | ABORTED => 4
  | OUTCOME_UNKNOWN => 5 | FAILED => 6
  end.
Definition all : list t :=
  [SUCCESS; REJECTED; PARTIAL; ABORTED; OUTCOME_UNKNOWN; FAILED].
Definition ToString (v : t) : string :=
  match v with
  | SUCCESS => "SUCCESS"
  | REJECTED => "REJECTED"
  | PARTIAL => "PARTIAL"
  | ABORTED => "ABORTED"
  | OUTCOME_UNKNOWN => "OUTCOME_UNKNOWN"
  | FAILED => "FAILED"
  end.
#[global] Instance eq_dec : EqDecision t.
Proof. solve_decision. Defined.
End CompositionOutcome.

Module ReservationState.
Inductive t : Set :=
  | NONE | PROVISIONAL | COMMITTED | RELEASED | ROLLED_BACK.
Definition code (v : t) : N :=
  match v with
  | NONE => 0 | PROVISIONAL => 1 | COMMITTED => 2 | RELEASED => 3
  | ROLLED_BACK => 4
  end.
Definition all : list t :=
  [NONE; PROVISIONAL; COMMITTED; RELEASED; ROLLED_BACK].
Definition ToString (v : t) : string :=
  match v with
  | NONE => "NONE"
  | PROVISIONAL => "PROVISIONAL"
  | COMMITTED => "COMMITTED"
  | RELEASED => "RELEASED"
  | ROLLED_BACK => "ROLLED_BACK"
  end.
#[global] Instance eq_dec : EqDecision t.
Proof. solve_decision. Defined.
End ReservationState.

Module GraphEdgeKind.
Inductive t : Set :=
  | REACHABILITY | LATENCY_BOUND | BANDWIDTH_BOUND | COMPATIBILITY | PROTOCOL
  | LOCALITY | FRESHNESS | GENERATION.
Definition code (v : t) : N :=
  match v with
  | REACHABILITY => 1 | LATENCY_BOUND => 2 | BANDWIDTH_BOUND => 3
  | COMPATIBILITY => 4 | PROTOCOL => 5 | LOCALITY => 6 | FRESHNESS => 7
  | GENERATION => 8
  end.
Definition all : list t :=
  [REACHABILITY; LATENCY_BOUND; BANDWIDTH_BOUND; COMPATIBILITY; PROTOCOL;
   LOCALITY; FRESHNESS; GENERATION].
Definition ToString (v : t) : string :=
  match v with
  | REACHABILITY => "REACHABILITY"
  | LATENCY_BOUND => "LATENCY_BOUND"
  | BANDWIDTH_BOUND => "BANDWIDTH_BOUND"
  | COMPATIBILITY => "COMPATIBILITY"
  | PROTOCOL => "PROTOCOL"
  | LOCALITY => "LOCALITY"
  | FRESHNESS => "FRESHNESS"
  | GENERATION => "GENERATION"
  end.
#[global] Instance eq_dec : EqDecision t.
Proof. solve_decision. Defined.
End GraphEdgeKind.

Module TopologyConstraint.
Inductive t : Set :=
  | NONE | COLOCATE | SPREAD | DISTINCT_FAILURE_DOMAINS | MAX_SHARED_RISK.
Definition code (v : t) : N :=
  match v with
  | NONE => 0 | COLOCATE => 1 | SPREAD => 2 | DISTINCT_FAILURE_DOMAINS => 3
  | MAX_SHARED_RISK => 4
  end.
Definition all : list t :=
  [NONE; COLOCATE; SPREAD; DISTINCT_FAILURE_DOMAINS; MAX_SHARED_RISK].
Definition ToString (v : t) : string :=
  match v with
  | NONE => "NONE"
  | COLOCATE => "COLOCATE"
  | SPREAD => "SPREAD"
  | DISTINCT_FAILURE_DOMAINS => "DISTINCT_FAILURE_DOMAINS"
  | MAX_SHARED_RISK => "MAX_SHARED_RISK"
  end.
#[global] Instance eq_dec : EqDecision t.
Proof. solve_decision. Defined.
End TopologyConstraint.

(** ** [EnumTraits]

    [Min()] is [ENUM(1)] for every traits specialisation; [MaxValue] is the
    table's bound.  [enum_cast] is the [static_cast] applied to a validated
    value. *)
Class EnumTraits (E : Type) := {
  enum_code : E -> N;
  enum_all : list E;
  MaxValue : N;
}.

(** [WireValidEnum<E>] and [persist::ValidEnum<E>]. *)
Definition ValidEnum (E : Type) `{EnumTraits E} (v : N) : bool :=
  (1 <=? v) && (v <=? MaxValue).

Definition enum_of_code {E : Type} `{EnumTraits E} (v : N) : option E :=
  List.find (fun e => enum_code e =? v) enum_all.

Definition enum_cast {E : Type} `{EnumTraits E} (dflt : E) (v : N) : E :=
  default dflt (enum_of_code v).

(** What the codecs rely on: the codes are distinct 32-bit values that name
    their enumerator, and the validity test admits exactly the codes of the
    enumerators other than the 0 (or 0xFFFFFFFF) sentinels. *)
Class EnumLaws (E : Type) `{EnumTraits E} := {
  enum_of_code_code : forall e : E, enum_of_code (enum_code e) = Some e;
  enum_code_u32 : forall e : E, enum_code e < 2 ^ 32;
  enum_valid_named : forall v : N, ValidEnum E v = true -> exists e : E, enum_code e = v;
}.

Section enum_tables.
Context {E : Type} `{EnumTraits E}.

Lemma enum_of_code_Some (v : N) (e : E) : enum_of_code v = Some e -> enum_code e = v.
Proof. by intros [_ Hf%N.eqb_eq]%find_some. Qed.

(** A table is checked by evaluation, once per enumeration. *)
Lemma enum_table_named :
  forallb (fun i => match enum_of_code (E := E) (N.of_nat i) with Some _ => true | None => false end)
    (seq 1 (N.to_nat MaxValue)) = true ->
  forall v : N, ValidEnum E v = true -> exists e : E, enum_code e = v.
Proof.
  intros Hall v [Hlo%N.leb_le Hhi%N.leb_le]%andb_prop.
  rewrite forallb_forall in Hall.
  specialize (Hall (N.to_nat v)). rewrite N2Nat.id in Hall.
  destruct (enum_of_code v) as [e|] eqn:He.
  - exists e. by apply enum_of_code_Some.
  - assert (false = true); [apply Hall, in_seq; lia|done].
Qed.

Context `{!EnumLaws E}.

Lemma enum_cast_code (d e : E) : enum_cast d (enum_code e) = e.
Proof. unfold enum_cast. by rewrite enum_of_code_code. Qed.

#[global] Instance enum_code_inj : Inj (=) (=) (enum_code (E := E)).
Proof.
  intros e1 e2 Heq. apply (f_equal enum_of_code) in Heq.
  rewrite !enum_of_code_code in Heq. by injection Heq.
Qed.
End enum_tables.

Ltac solve_enum_laws :=
  constructor; [by intros [] | by intros [] | by apply enum_table_named].

#[export] Instance traits_ResourceClass : EnumTraits ResourceClass.t :=
  {| enum_code := ResourceClass.code; enum_all := ResourceClass.all; MaxValue := 12 |}.
#[export] Instance laws_ResourceClass : EnumLaws ResourceClass.t.
Proof. solve_enum_laws. Qed.
#[export] Instance traits_CapabilityKind : EnumTraits CapabilityKind.t :=
  {| enum_code := CapabilityKind.code; enum_all := CapabilityKind.all; MaxValue := 23 |}.
#[export] Instance laws_CapabilityKind : EnumLaws CapabilityKind.t.
Proof. solve_enum_laws. Qed.
#[export] Instance traits_CapabilityState : EnumTraits CapabilityState.t :=
  {| enum_code := CapabilityState.code; enum_all := CapabilityState.all; MaxValue := 4 |}.
#[export] Instance laws_CapabilityState : EnumLaws CapabilityState.t.
Proof. solve_enum_laws. Qed.
#[export] Instance traits_ResourceHealth : EnumTraits ResourceHealth.t :=
  {| enum_code := ResourceHealth.code; enum_all := ResourceHealth.all; MaxValue := 3 |}.
#[export] Instance laws_ResourceHealth : EnumLaws ResourceHealth.t.
Proof. solve_enum_laws. Qed.
#[export] Instance traits_Readiness : EnumTraits Readiness.t :=
  {| enum_code := Readiness.code; enum_all := Readiness.all; MaxValue := 2 |}.
#[export] Instance laws_Readiness : EnumLaws Readiness.t.
Proof. solve_enum_laws. Qed.
#[export] Instance traits_Reachability : EnumTraits Reachability.t :=
  {| enum_code := Reachability.code; enum_all := Reachability.all; MaxValue := 2 |}.
#[export] Instance laws_Reachability : EnumLaws Reachability.t.
Proof. solve_enum_laws. Qed.
#[export] Instance traits_EvidenceState : EnumTraits EvidenceState.t :=
  {| enum_code := EvidenceState.code; enum_all := EvidenceState.all; MaxValue := 4 |}.
#[export] Instance laws_EvidenceState : EnumLaws EvidenceState.t.
Proof. solve_enum_laws. Qed.
#[export] Instance traits_EvidenceSource : EnumTraits EvidenceSource.t :=
  {| enum_code := EvidenceSource.code; enum_all := EvidenceSource.all; MaxValue := 5 |}.
#[export] Instance laws_EvidenceSource : EnumLaws EvidenceSource.t.
Proof. solve_enum_laws. Qed.
#[export] Instance traits_NodeLifecycle : EnumTraits NodeLifecycle.t :=
  {| enum_code := NodeLifecycle.code; enum_all := NodeLifecycle.all; MaxValue := 4 |}.
#[export] Instance laws_NodeLifecycle : EnumLaws NodeLifecycle.t.
Proof. solve_enum_laws. Qed.
#[export] Instance traits_FailureDomainType : EnumTraits FailureDomainType.t :=
  {| enum_code := FailureDomainType.code; enum_all := FailureDomainType.all; MaxValue := 9 |}.
#[export] Instance laws_FailureDomainType : EnumLaws FailureDomainType.t.
Proof. solve_enum_laws. Qed.
#[export] Instance traits_BackendKind : EnumTraits BackendKind.t :=
  {| enum_code := BackendKind.code; enum_all := BackendKind.all; MaxValue := 3 |}.
#[export] Instance laws_BackendKind : EnumLaws BackendKind.t.
Proof. solve_enum_laws. Qed.
#[export] Instance traits_CompositionLifecycle : EnumTraits CompositionLifecycle.t :=
  {| enum_code := CompositionLifecycle.code; enum_all := CompositionLifecycle.all; MaxValue := 17 |}.
#[export] Instance laws_CompositionLifecycle : EnumLaws CompositionLifecycle.t.
Proof. solve_enum_laws. Qed.
#[export] Instance traits_RejectionReason : EnumTraits RejectionReason.t :=
  {| enum_code := RejectionReason.code; enum_all := RejectionReason.all; MaxValue := 33 |}.
#[export] Instance laws_RejectionReason : EnumLaws RejectionReason.t.
Proof. solve_enum_laws. Qed.
#[export] Instance traits_CompositionOutcome : EnumTraits CompositionOutcome.t :=
  {| enum_code := CompositionOutcome.code; enum_all := CompositionOutcome.all; MaxValue := 6 |}.
#[export] Instance laws_CompositionOutcome : EnumLaws CompositionOutcome.t.
Proof. solve_enum_laws. Qed.
#[export] Instance traits_ReservationState : EnumTraits ReservationState.t :=
  {| enum_code := ReservationState.code; enum_all := ReservationState.all; MaxValue := 4 |}.
#[export] Instance laws_ReservationState : EnumLaws ReservationState.t.
Proof. solve_enum_laws. Qed.
#[export] Instance traits_GraphEdgeKind : EnumTraits GraphEdgeKind.t :=
  {| enum_code := GraphEdgeKind.code; enum_all := GraphEdgeKind.all; MaxValue := 8 |}.
#[export] Instance laws_GraphEdgeKind : EnumLaws GraphEdgeKind.t.
Proof. solve_enum_laws. Qed.

(** [std::set<ResourceClass>] needs a countable element type. *)
#[export] Instance ResourceClass_countable : Countable ResourceClass.t :=
  inj_countable enum_code enum_of_code enum_of_code_code.
