(* ===== verification/Protocol.v ===== *)
(** * The framed wire protocol

    [include/dfabric/protocol.hpp] and [src/dfabric/protocol.cpp]: the frame
    types with their canonical length bounds, [Encode], and the incremental
    [FrameDecoder].  [decode_step] is one iteration of the loop of [Feed]; the
    loop is bounded by fuel, and [Feed_feeds] shows that the fuel that [Feed]
    gives it is always enough and that no read leaves the buffer. *)

From S2P Require Import Prelude Enums Bytes.

Module FrameType.
Inductive t : Set :=
  | HELLO | REGISTER | PUBLISH_NODE | PUBLISH_RESOURCE | HEARTBEAT | COMPOSE_REQ | RESERVE_REQ
  | COMMIT_REQ | ACTIVATE_REQ | QUERY_STATE | ACK | NACK | COMPOSE_RESP | RESERVE_RESP
  | COMMIT_RESP | ACTIVATE_RESP | STATE_RESP | ERR | BYE | SAVE_REQ | SAVE_RESP | RELEASE_REQ
  | RELEASE_RESP.
Definition code (v : t) : N :=
  match v with
  | HELLO => 1 | REGISTER => 2 | PUBLISH_NODE => 3 | PUBLISH_RESOURCE => 4 | HEARTBEAT => 5
  | COMPOSE_REQ => 6 | RESERVE_REQ => 7 | COMMIT_REQ => 8 | ACTIVATE_REQ => 9
  | QUERY_STATE => 10 | ACK => 11 | NACK => 12 | COMPOSE_RESP => 13 | RESERVE_RESP => 14
  | COMMIT_RESP => 15 | ACTIVATE_RESP => 16 | STATE_RESP => 17 | ERR => 18 | BYE => 19
  | SAVE_REQ => 20 | SAVE_RESP => 21 | RELEASE_REQ => 22 | RELEASE_RESP => 23
  end.
Definition all : list t :=
   [HELLO; REGISTER; PUBLISH_NODE; PUBLISH_RESOURCE; HEARTBEAT; COMPOSE_REQ; RESERVE_REQ;
   COMMIT_REQ; ACTIVATE_REQ; QUERY_STATE; ACK; NACK; COMPOSE_RESP; RESERVE_RESP; COMMIT_RESP;
   ACTIVATE_RESP; STATE_RESP; ERR; BYE; SAVE_REQ; SAVE_RESP; RELEASE_REQ; RELEASE_RESP].
Definition ToString (v : t) : string :=
  match v with
  | HELLO => "HELLO" | REGISTER => "REGISTER" | PUBLISH_NODE => "PUBLISH_NODE"
  | PUBLISH_RESOURCE => "PUBLISH_RESOURCE" | HEARTBEAT => "HEARTBEAT"
  | COMPOSE_REQ => "COMPOSE_REQ" | RESERVE_REQ => "RESERVE_REQ" | COMMIT_REQ => "COMMIT_REQ"
  | ACTIVATE_REQ => "ACTIVATE_REQ" | QUERY_STATE => "QUERY_STATE" | ACK => "ACK"
  | NACK => "NACK" | COMPOSE_RESP => "COMPOSE_RESP" | RESERVE_RESP => "RESERVE_RESP"
  | COMMIT_RESP => "COMMIT_RESP" | ACTIVATE_RESP => "ACTIVATE_RESP"
  | STATE_RESP => "STATE_RESP" | ERR => "ERROR" | BYE => "BYE" | SAVE_REQ => "SAVE_REQ"
  | SAVE_RESP => "SAVE_RESP" | RELEASE_REQ => "RELEASE_REQ" | RELEASE_RESP => "RELEASE_RESP"
  end.
#[global] Instance eq_dec : EqDecision t.
Proof. solve_decision. Defined.
End FrameType.

(** [static_cast<FrameType>] of a raw value that names a frame type. *)
#[export] Instance traits_FrameType : EnumTraits FrameType.t :=
  {| enum_code := FrameType.code; enum_all := FrameType.all; MaxValue := 23 |}.
#[export] Instance laws_FrameType : EnumLaws FrameType.t.
Proof. solve_enum_laws. Qed.

Definition MaxFrameLen (t : FrameType.t) : N :=
  match t with
  | FrameType.HELLO => 4096 | FrameType.REGISTER => 4096 | FrameType.PUBLISH_NODE => 65536
  | FrameType.PUBLISH_RESOURCE => 65536 | FrameType.HEARTBEAT => 256
  | FrameType.COMPOSE_REQ => 8192 | FrameType.RESERVE_REQ => 262144
  | FrameType.COMMIT_REQ => 8192 | FrameType.ACTIVATE_REQ => 8192
  | FrameType.QUERY_STATE => 1024 | FrameType.ACK => 1024 | FrameType.NACK => 4096
  | FrameType.COMPOSE_RESP => 524288 | FrameType.RESERVE_RESP => 524288
  | FrameType.COMMIT_RESP => 524288 | FrameType.ACTIVATE_RESP => 524288
  | FrameType.STATE_RESP => 524288 | FrameType.ERR => 4096 | FrameType.BYE => 256
  | FrameType.SAVE_REQ => 1024 | FrameType.SAVE_RESP => 4096 | FrameType.RELEASE_REQ => 1024
  | FrameType.RELEASE_RESP => 1024
  end.
(** The same switch on a value cast from the wire: 0 for an unknown type. *)
Definition MaxFrameLenRaw (v : N) : N :=
  match enum_of_code v with Some t => MaxFrameLen t | None => 0 end.

Definition GlobalMaxFrameLen : N :=
  fold_left (fun m v => let x := MaxFrameLenRaw v in if m <? x then x else m)
    (N.of_nat <$> seq 1 23) 0.

Definition kFrameMagic : N := 0x31465044.
Definition kFrameVersion : byte := x01.
Definition kHeaderLen : nat := 4 + 1 + 4 + 8 + 4.

Module Frame.
Record t := mk { type : FrameType.t; correlation : N; payload : list byte }.
End Frame.

(** [payload] points to [length payload] bytes. *)
Definition Encode (type : FrameType.t) (correlation : N) (payload : list byte) : list byte :=
  let max := MaxFrameLen type in
  if (max =? 0) || (max <? N.of_nat (length payload)) then []
  else
    let v := PutU32 [] kFrameMagic in
    let v := v ++ [kFrameVersion] in
    let v := PutU32 v (FrameType.code type) in
    let v := PutU64 v correlation in
    let v := PutU32 v (wrap32 (N.of_nat (length payload))) in
    let v := v ++ payload in
    PutU64 v (Fnv v).

(** One iteration of the decoding loop: [return true], [return false] with the
    error, or a decoded frame with the bytes after it.  [OutOfRange] is a read
    outside the buffer. *)
Inductive step :=
  | NeedMore
  | Reject (err : string)
  | Decoded (f : Frame.t) (rest : list byte)
  | OutOfRange.

Definition decode_step (buffer : list byte) : step :=
  if (length buffer <? kHeaderLen)%nat then NeedMore
  else match GetU32 buffer 0, buffer !! 4%nat, GetU32 buffer 5, GetU32 buffer 17 with
  | Some magic, Some ver, Some typeRaw, Some payLen =>
      if negb (magic =? kFrameMagic) then Reject "bad frame magic"
      else if negb (Byte.eqb ver kFrameVersion) then Reject "unsupported frame version"
      else match enum_of_code typeRaw with
      | None => Reject "unknown frame type"
      | Some type =>
          let max := MaxFrameLen type in
          if max =? 0 then Reject "unknown frame type"
          else if (max <? payLen) || (GlobalMaxFrameLen <? payLen) then Reject "oversized frame"
          else
            let total := (kHeaderLen + N.to_nat payLen + 8)%nat in
            if (length buffer <? total)%nat then NeedMore
            else match GetU64 buffer (kHeaderLen + N.to_nat payLen)%nat, GetU64 buffer 9 with
            | Some stored, Some correlation =>
                let computed := Fnv (take (kHeaderLen + N.to_nat payLen)%nat buffer) in
                if negb (stored =? computed) then Reject "frame checksum mismatch"
                else Decoded (Frame.mk type correlation (take (N.to_nat payLen) (drop kHeaderLen buffer)))
                       (drop total buffer)
            | _, _ => OutOfRange
            end
      end
  | _, _, _, _ => OutOfRange
  end.

(** The result of [Feed]: its verdict ([None] is [true], [Some err] is [false]),
    the frames appended to [out] and the remaining [buffer_]. *)
Record FeedResult := mkFeed { fr_error : option string; fr_out : list Frame.t; fr_buffer : list byte }.

Fixpoint feed_loop (fuel : nat) (buffer : list byte) (out : list Frame.t) : option FeedResult :=
  match fuel with
  | O => None
  | S fuel' =>
      match decode_step buffer with
      | NeedMore => Some (mkFeed None out buffer)
      | Reject err => Some (mkFeed (Some err) out buffer)
      | Decoded f rest => feed_loop fuel' rest (out ++ [f])
      | OutOfRange => None
      end
  end.

Definition Feed (buffer data : list byte) : option FeedResult :=
  feed_loop (S (length (buffer ++ data))) (buffer ++ data) [].

(** ** Slices *)
Lemma slice {A : Type} (k off : nat) (d : list A) : drop off d = take k (drop off d) ++ drop (off + k) d.
Proof. rewrite <-drop_drop. by rewrite take_drop. Qed.

Lemma GetU32_mid pre x post : x < 2 ^ 32 -> GetU32 (pre ++ le_bytes 4 x ++ post) (length pre) = Some x.
Proof.
  intros Hx. rewrite GetU32_spec, decide_True by (rewrite !length_app, length_le_bytes; lia).
  rewrite drop_app_length, take_app_length' by (by rewrite length_le_bytes). by rewrite le_value_bytes.
Qed.
Lemma GetU64_mid pre x post : x < 2 ^ 64 -> GetU64 (pre ++ le_bytes 8 x ++ post) (length pre) = Some x.
Proof.
  intros Hx. rewrite GetU64_spec, decide_True by (rewrite !length_app, length_le_bytes; lia).
  rewrite drop_app_length, take_app_length' by (by rewrite length_le_bytes). by rewrite le_value_bytes.
Qed.

Lemma GetU32_Some d off x : GetU32 d off = Some x -> take 4 (drop off d) = le_bytes 4 x /\ x < 2 ^ 32.
Proof.
  rewrite GetU32_spec. case_decide as Hd; [|done]. intros [= <-].
  assert (Hl : length (take 4 (drop off d)) = 4%nat) by (rewrite length_take, length_drop; lia).
  pose proof (le_bytes_value (take 4 (drop off d))) as H1. pose proof (le_value_bound (take 4 (drop off d))) as H2.
  rewrite Hl in H1, H2. split; [by symmetry|exact H2].
Qed.
Lemma GetU64_Some d off x : GetU64 d off = Some x -> take 8 (drop off d) = le_bytes 8 x /\ x < 2 ^ 64.
Proof.
  rewrite GetU64_spec. case_decide as Hd; [|done]. intros [= <-].
  assert (Hl : length (take 8 (drop off d)) = 8%nat) by (rewrite length_take, length_drop; lia).
  pose proof (le_bytes_value (take 8 (drop off d))) as H1. pose proof (le_value_bound (take 8 (drop off d))) as H2.
  rewrite Hl in H1, H2. split; [by symmetry|exact H2].
Qed.

(** ** Frames and their encodings *)

(** The frames that [Encode] accepts. *)
Definition frame_ok (f : Frame.t) : Prop :=
  N.of_nat (length (Frame.payload f)) <= MaxFrameLen (Frame.type f) /\ u64_ok (Frame.correlation f).

Definition encode_frame (f : Frame.t) : list byte := Encode (Frame.type f) (Frame.correlation f) (Frame.payload f).

Definition header (f : Frame.t) : list byte :=
  le_bytes 4 kFrameMagic ++ [kFrameVersion] ++ le_bytes 4 (FrameType.code (Frame.type f)) ++
  le_bytes 8 (Frame.correlation f) ++ le_bytes 4 (N.of_nat (length (Frame.payload f))).

Lemma length_header f : length (header f) = kHeaderLen.
Proof. unfold header. rewrite !length_app, !length_le_bytes. done. Qed.

Lemma MaxFrameLen_bounds t : 0 < MaxFrameLen t <= 524288.
Proof. destruct t; cbn; lia. Qed.
Lemma GlobalMaxFrameLen_eq : GlobalMaxFrameLen = 524288.
Proof. vm_compute. reflexivity. Qed.
Lemma FrameType_code_u32 t : FrameType.code t < 2 ^ 32.
Proof. by destruct t. Qed.

Lemma encode_frame_eq f :
  frame_ok f ->
  encode_frame f = header f ++ Frame.payload f ++ le_bytes 8 (Fnv (header f ++ Frame.payload f)).
Proof.
  intros [Hlen _]. unfold encode_frame, Encode. pose proof (MaxFrameLen_bounds (Frame.type f)) as [Hpos Hmax].
  rewrite (proj2 (N.eqb_neq _ _)), (proj2 (N.ltb_ge _ _)) by lia. cbn [orb]. cbv zeta.
  assert (Hhdr : PutU32 (PutU64 (PutU32 (PutU32 [] kFrameMagic ++ [kFrameVersion]) (FrameType.code (Frame.type f)))
    (Frame.correlation f)) (wrap32 (N.of_nat (length (Frame.payload f)))) = header f).
  { rewrite !PutU32_eq, PutU64_eq, wrap32_small by (unfold u32_ok; lia). unfold header. by rewrite <-!app_assoc. }
  rewrite Hhdr, PutU64_eq, <-app_assoc. done.
Qed.

Lemma length_encode_frame f : frame_ok f -> length (encode_frame f) = (kHeaderLen + length (Frame.payload f) + 8)%nat.
Proof. intros Hf. rewrite encode_frame_eq, !length_app, length_header, length_le_bytes by done. lia. Qed.

(** Reading the header fields of a buffer that starts with a frame. *)
Lemma header_reads f post :
  frame_ok f ->
  GetU32 (header f ++ post) 0 = Some kFrameMagic /\ (header f ++ post) !! 4%nat = Some kFrameVersion /\
  GetU32 (header f ++ post) 5 = Some (FrameType.code (Frame.type f)) /\
  GetU64 (header f ++ post) 9 = Some (Frame.correlation f) /\
  GetU32 (header f ++ post) 17 = Some (N.of_nat (length (Frame.payload f))).
Proof.
  intros [Hlen Hcorr]. pose proof (MaxFrameLen_bounds (Frame.type f)) as [_ Hmax].
  unfold header. rewrite <-!app_assoc. split_and!.
  - by apply (GetU32_mid []).
  - done.
  - exact (GetU32_mid (le_bytes 4 kFrameMagic ++ [kFrameVersion]) _ _ (FrameType_code_u32 _)).
  - pose proof (GetU64_mid (le_bytes 4 kFrameMagic ++ [kFrameVersion] ++ le_bytes 4 (FrameType.code (Frame.type f)))
      _ (le_bytes 4 (N.of_nat (length (Frame.payload f))) ++ post) Hcorr) as H. rewrite <-!app_assoc in H. exact H.
  - pose proof (GetU32_mid (le_bytes 4 kFrameMagic ++ [kFrameVersion] ++ le_bytes 4 (FrameType.code (Frame.type f)) ++
      le_bytes 8 (Frame.correlation f)) (N.of_nat (length (Frame.payload f))) post ltac:(lia)) as H.
    rewrite <-!app_assoc in H. exact H.
Qed.

(** ** The decoder on a frame *)
Lemma decode_step_encode f rest : frame_ok f -> decode_step (encode_frame f ++ rest) = Decoded f rest.
Proof.
  intros Hf. pose proof (MaxFrameLen_bounds (Frame.type f)) as [Hpos Hmax]. pose proof Hf as [Hlen Hcorr].
  set (sum := le_bytes 8 (Fnv (header f ++ Frame.payload f))).
  assert (Hbuf : encode_frame f ++ rest = header f ++ Frame.payload f ++ sum ++ rest)
    by (rewrite encode_frame_eq by done; by rewrite <-!app_assoc).
  assert (Htot : length (encode_frame f ++ rest) = (kHeaderLen + length (Frame.payload f) + 8 + length rest)%nat)
    by (rewrite length_app, length_encode_frame; done).
  destruct (header_reads f (Frame.payload f ++ sum ++ rest) Hf) as (H1 & H2 & H3 & H4 & H5). rewrite <-Hbuf in H1, H2, H3, H4, H5.
  unfold decode_step. rewrite H1, H2, H3, H4, H5, Htot, Nat2N.id. clear H1 H2 H3 H4 H5.
  rewrite (proj2 (Nat.ltb_ge _ _)) by lia. rewrite N.eqb_refl. cbn [negb].
  change (FrameType.code (Frame.type f)) with (enum_code (Frame.type f)). rewrite enum_of_code_code. cbv zeta.
  rewrite (proj2 (N.eqb_neq _ _)), (proj2 (N.ltb_ge _ _)), (proj2 (N.ltb_ge _ _)), (proj2 (Nat.ltb_ge _ _));
    [|lia|rewrite GlobalMaxFrameLen_eq; lia|lia|lia].
  assert (Hsum : GetU64 (encode_frame f ++ rest) (kHeaderLen + length (Frame.payload f)) = Some (Fnv (header f ++ Frame.payload f))).
  { pose proof (GetU64_mid (header f ++ Frame.payload f) _ rest (Fnv_u64 (header f ++ Frame.payload f))) as H.
    rewrite length_app, length_header, <-app_assoc in H. by rewrite Hbuf. }
  assert (Htake : take (kHeaderLen + length (Frame.payload f)) (encode_frame f ++ rest) = header f ++ Frame.payload f).
  { rewrite Hbuf, app_assoc. apply take_app_length'. by rewrite length_app, length_header. }
  rewrite Hsum, Htake, N.eqb_refl. cbn [orb negb]. f_equal.
  - destruct f as [t c p]. f_equal. cbn [Frame.payload] in *. rewrite Hbuf, <-(length_header (Frame.mk t c p)), drop_app_length.
    apply take_app_length.
  - apply drop_app_length'. by rewrite length_encode_frame.
Qed.

(** What is decoded was encoded: only canonical bytes are accepted. *)
Lemma decode_step_canonical buf f rest : decode_step buf = Decoded f rest -> frame_ok f /\ buf = encode_frame f ++ rest.
Proof.
  unfold decode_step. destruct (Nat.ltb_spec (length buf) kHeaderLen) as [|Hhdr]; [done|].
  destruct (GetU32 buf 0) as [magic|] eqn:E0; [|done]. destruct (buf !! 4%nat) as [ver|] eqn:E4; [|done].
  destruct (GetU32 buf 5) as [ty|] eqn:E5; [|done]. destruct (GetU32 buf 17) as [n|] eqn:E17; [|done].
  destruct (N.eqb_spec magic kFrameMagic) as [->|]; [cbn [negb]|done].
  destruct (Byte.eqb ver kFrameVersion) eqn:Ever; [cbn [negb]|done]. apply Byte.byte_dec_bl in Ever as ->.
  destruct (enum_of_code ty) as [t|] eqn:Et; [|done]. apply enum_of_code_Some in Et. cbv zeta.
  destruct (MaxFrameLen t =? 0); [done|].
  destruct (N.ltb_spec (MaxFrameLen t) n) as [|Hn]; [done|]. destruct (GlobalMaxFrameLen <? n); [done|]. cbn [orb].
  destruct (Nat.ltb_spec (length buf) (kHeaderLen + N.to_nat n + 8)) as [|Htot]; [done|].
  destruct (GetU64 buf (kHeaderLen + N.to_nat n)) as [stored|] eqn:Es; [|done].
  destruct (GetU64 buf 9) as [corr|] eqn:E9; [|done].
  destruct (N.eqb_spec stored (Fnv (take (kHeaderLen + N.to_nat n) buf))) as [->|]; [cbn [negb]|done].
  intros [= <- <-]. apply GetU32_Some in E0 as [B0 _], E5 as [B5 _], E17 as [B17 _].
  apply GetU64_Some in E9 as [B9 Hcorr], Es as [Bs _].
  set (p := take (N.to_nat n) (drop kHeaderLen buf)).
  assert (Hp : length p = N.to_nat n) by (unfold p; rewrite length_take, length_drop; lia).
  assert (Hok : frame_ok (Frame.mk t corr p)) by (split; [cbn; rewrite Hp, N2Nat.id; lia|done]).
  split; [exact Hok|]. rewrite encode_frame_eq by done. cbn [Frame.payload].
  assert (Hh : take kHeaderLen buf = header (Frame.mk t corr p)).
  { unfold header. cbn [Frame.type Frame.correlation Frame.payload]. rewrite Hp, N2Nat.id.
    change (FrameType.code t) with (enum_code t). rewrite Et, <-B0, <-B5, <-B9, <-B17.
    assert (Hall : buf = take 4 (drop 0 buf) ++ [kFrameVersion] ++ take 4 (drop 5 buf) ++ take 8 (drop 9 buf) ++
      take 4 (drop 17 buf) ++ drop 21 buf).
    { rewrite <-(slice 4 17 buf : drop 17 buf = take 4 (drop 17 buf) ++ drop 21 buf),
        <-(slice 8 9 buf : drop 9 buf = take 8 (drop 9 buf) ++ drop 17 buf),
        <-(slice 4 5 buf : drop 5 buf = take 4 (drop 5 buf) ++ drop 9 buf).
      cbn [app]. rewrite <-(drop_S buf kFrameVersion 4 E4). by rewrite <-(slice 4 0 buf : drop 0 buf = take 4 (drop 0 buf) ++ drop 4 buf). }
    rewrite Hall at 1.
    rewrite !app_assoc. apply take_app_length'.
    rewrite !length_app, !length_take, !length_drop. cbn [length]. unfold kHeaderLen in *. lia. }
  assert (Ht : take (kHeaderLen + N.to_nat n) buf = header (Frame.mk t corr p) ++ p).
  { rewrite <-Hh. unfold p. by rewrite take_take_drop. }
  rewrite <-Ht, <-Bs, <-!app_assoc, <-Hh. unfold p.
  rewrite <-(take_drop kHeaderLen buf) at 1. f_equal.
  rewrite (slice (N.to_nat n) kHeaderLen buf) at 1. f_equal. by rewrite (slice 8 (kHeaderLen + N.to_nat n) buf) at 1.
Qed.

(** ** The decoding loop *)
Lemma GetU32_in d off : (off + 4 <= length d)%nat -> exists x, GetU32 d off = Some x.
Proof. intros H. rewrite GetU32_spec, decide_True by done. eauto. Qed.
Lemma GetU64_in d off : (off + 8 <= length d)%nat -> exists x, GetU64 d off = Some x.
Proof. intros H. rewrite GetU64_spec, decide_True by done. eauto. Qed.
Lemma GetU32_app d x off : (off + 4 <= length d)%nat -> GetU32 (d ++ x) off = GetU32 d off.
Proof.
  intros H. rewrite !GetU32_spec, !decide_True by (rewrite ?length_app; lia).
  by rewrite drop_app_le, take_app_le by (rewrite ?length_drop; lia).
Qed.
Lemma GetU64_app d x off : (off + 8 <= length d)%nat -> GetU64 (d ++ x) off = GetU64 d off.
Proof.
  intros H. rewrite !GetU64_spec, !decide_True by (rewrite ?length_app; lia).
  by rewrite drop_app_le, take_app_le by (rewrite ?length_drop; lia).
Qed.

(** No iteration reads outside the buffer. *)
Lemma decode_step_in_range buf : decode_step buf <> OutOfRange.
Proof.
  unfold decode_step. destruct (Nat.ltb_spec (length buf) kHeaderLen) as [|Hh]; [done|]. unfold kHeaderLen in Hh.
  destruct (GetU32_in buf 0) as [? ->]; [lia|]. destruct (lookup_lt_is_Some_2 buf 4) as [? ->]; [lia|].
  destruct (GetU32_in buf 5) as [? ->]; [lia|]. destruct (GetU32_in buf 17) as [n ->]; [lia|].
  destruct (negb _); [done|]. destruct (negb _); [done|]. destruct (enum_of_code _); [|done]. cbv zeta.
  destruct (_ =? 0); [done|]. destruct (_ || _); [done|].
  destruct (Nat.ltb_spec (length buf) (kHeaderLen + N.to_nat n + 8)); [done|].
  destruct (GetU64_in buf (kHeaderLen + N.to_nat n)) as [? ->]; [lia|].
  destruct (GetU64_in buf 9) as [? ->]; [unfold kHeaderLen in *; lia|]. by destruct (negb _).
Qed.

Lemma decode_step_shrinks buf f rest : decode_step buf = Decoded f rest -> (length rest + 29 <= length buf)%nat.
Proof.
  intros [Hf ->]%decode_step_canonical. rewrite length_app, length_encode_frame by done. unfold kHeaderLen. lia.
Qed.

(** A frame or a rejection does not depend on the bytes that follow. *)
Lemma decode_step_app buf x :
  match decode_step buf with
  | Decoded f rest => decode_step (buf ++ x) = Decoded f (rest ++ x)
  | Reject e => decode_step (buf ++ x) = Reject e
  | _ => True
  end.
Proof.
  destruct (decode_step buf) as [| e | f rest |] eqn:E; try done; cycle 1.
  { apply decode_step_canonical in E as [Hf ->]. rewrite <-app_assoc. by apply decode_step_encode. }
  revert E. unfold decode_step. destruct (Nat.ltb_spec (length buf) kHeaderLen) as [|Hh]; [done|].
  rewrite (proj2 (Nat.ltb_ge _ _)) by (rewrite length_app; lia). pose proof Hh as Hh'. unfold kHeaderLen in Hh'.
  rewrite !GetU32_app, lookup_app_l by lia. destruct (GetU32 buf 0) as [magic|]; [|done].
  destruct (buf !! 4%nat) as [ver|]; [|done]. destruct (GetU32 buf 5) as [ty|]; [|done].
  destruct (GetU32 buf 17) as [n|]; [|done]. destruct (negb _); [done|]. destruct (negb _); [done|].
  destruct (enum_of_code ty) as [t|]; [|done]. cbv zeta. destruct (_ =? 0); [done|]. destruct (_ || _); [done|].
  destruct (Nat.ltb_spec (length buf) (kHeaderLen + N.to_nat n + 8)); [done|].
  rewrite (proj2 (Nat.ltb_ge _ _)) by (rewrite length_app; lia).
  rewrite !GetU64_app, take_app_le by lia. destruct (GetU64 buf _); [|done]. destruct (GetU64 buf 9); [|done].
  by destruct (negb _).
Qed.

(** The loop as a relation: frames, verdict and remaining buffer. *)
Inductive feeds : list byte -> list Frame.t -> option string -> list byte -> Prop :=
  | feeds_need b : decode_step b = NeedMore -> feeds b [] None b
  | feeds_reject b e : decode_step b = Reject e -> feeds b [] (Some e) b
  | feeds_frame b f rest fs e b' : decode_step b = Decoded f rest -> feeds rest fs e b' -> feeds b (f :: fs) e b'.

(** Fuel above the length of the buffer is enough. *)
Lemma feed_loop_feeds fuel b out :
  (length b < fuel)%nat -> exists fs e b', feed_loop fuel b out = Some (mkFeed e (out ++ fs) b') /\ feeds b fs e b'.
Proof.
  revert b out. induction fuel as [|fuel IH]; intros b out Hl; [lia|]. cbn [feed_loop].
  pose proof (decode_step_in_range b) as Hr. destruct (decode_step b) as [| e | f rest |] eqn:E; [| | |done].
  - exists [], None, b. rewrite app_nil_r. split; [done|by constructor].
  - exists [], (Some e), b. rewrite app_nil_r. split; [done|by constructor].
  - destruct (IH rest (out ++ [f])) as (fs & e & b' & -> & Hf); [apply decode_step_shrinks in E; lia|].
    exists (f :: fs), e, b'. rewrite <-app_assoc. split; [done|by econstructor].
Qed.

Lemma Feed_feeds buffer data :
  exists fs e b', Feed buffer data = Some (mkFeed e fs b') /\ feeds (buffer ++ data) fs e b'.
Proof. apply (feed_loop_feeds _ (buffer ++ data) []). lia. Qed.

Lemma feeds_det b fs e b' fs2 e2 b2 : feeds b fs e b' -> feeds b fs2 e2 b2 -> fs = fs2 /\ e = e2 /\ b' = b2.
Proof.
  intros H. revert fs2 e2 b2. induction H as [b E|b err E|b f rest fs e b' E H IH]; intros fs2 e2 b2 H2;
    destruct H2 as [b0 E2|b0 err2 E2|b0 f2 rest2 fs2 e2 b2 E2 H2]; rewrite E in E2; simplify_eq; try done.
  by destruct (IH _ _ _ H2) as (-> & -> & ->).
Qed.

Lemma Feed_spec buffer data fs e b' :
  Feed buffer data = Some (mkFeed e fs b') <-> feeds (buffer ++ data) fs e b'.
Proof.
  destruct (Feed_feeds buffer data) as (fs0 & e0 & b0 & -> & Hf). split; [by intros [= <- <- <-]|].
  intros H. by destruct (feeds_det _ _ _ _ _ _ _ Hf H) as (-> & -> & ->).
Qed.

(** Feeding in two parts. *)
Lemma feeds_app b fs b1 x fs' e b2 :
  feeds b fs None b1 -> feeds (b1 ++ x) fs' e b2 -> feeds (b ++ x) (fs ++ fs') e b2.
Proof.
  intros H. remember None as e0 eqn:He. induction H as [b E|b err E|b f rest fs e1 b' E H IH]; simplify_eq; [done|].
  intros Hx. econstructor; [|by apply IH]. pose proof (decode_step_app b x) as Ha. by rewrite E in Ha.
Qed.
Lemma feeds_app_reject b fs err b1 x : feeds b fs (Some err) b1 -> feeds (b ++ x) fs (Some err) (b1 ++ x).
Proof.
  intros H. remember (Some err) as e0 eqn:He. induction H as [b E|b e E|b f rest fs e1 b' E H IH]; simplify_eq.
  - constructor. pose proof (decode_step_app b x) as Ha. by rewrite E in Ha.
  - econstructor; [|by apply IH]. pose proof (decode_step_app b x) as Ha. by rewrite E in Ha.
Qed.
Lemma feeds_need_inv b fs b' : feeds b fs None b' -> decode_step b' = NeedMore.
Proof. intros H. remember None as e0. induction H; simplify_eq; auto. Qed.

Lemma feeds_frames fs rest fs' e b' :
  Forall frame_ok fs -> feeds rest fs' e b' -> feeds (concat (encode_frame <$> fs) ++ rest) (fs ++ fs') e b'.
Proof.
  intros Hf Hr. induction Hf as [|f fs Hf Hfs IH]; [done|]. cbn. rewrite <-app_assoc.
  econstructor; [by apply decode_step_encode|done].
Qed.

(** Feeding a part of a stream that decodes without error: the frames are split,
    and the rest of the stream decodes to the rest of them. *)
Lemma feeds_split b d rest fs b2 :
  feeds (b ++ d ++ rest) fs None b2 ->
  exists fs1 fs2 b1, Feed b d = Some (mkFeed None fs1 b1) /\ fs = fs1 ++ fs2 /\ decode_step b1 = NeedMore /\
    feeds (b1 ++ rest) fs2 None b2.
Proof.
  intros H. rewrite app_assoc in H. destruct (Feed_feeds b d) as (fs1 & e & b1 & HF & Hf). destruct e as [err|].
  - destruct (feeds_det _ _ _ _ _ _ _ H (feeds_app_reject _ _ _ _ rest Hf)) as (_ & [=] & _).
  - destruct (Feed_feeds b1 rest) as (fs2 & e2 & b3 & _ & Hf2). pose proof (feeds_app _ _ _ _ _ _ _ Hf Hf2) as Happ.
    destruct (feeds_det _ _ _ _ _ _ _ H Happ) as (-> & <- & ->). exists fs1, fs2, b1. split_and!; [done..| |done].
    by eapply feeds_need_inv.
Qed.
Lemma feeds_nothing b fs b' : decode_step b = NeedMore -> feeds b fs None b' -> fs = [] /\ b' = b.
Proof. intros Hn H. inversion H; subst; [done|]. congruence. Qed.

(** ** A connection

    What [coordinator.cpp] and [worker.cpp] do with a decoder: feed the chunks as
    they arrive and drop the connection at the first rejection. *)
Fixpoint feed_chunks (buffer : list byte) (chunks : list (list byte)) : option FeedResult :=
  match chunks with
  | [] => Some (mkFeed None [] buffer)
  | c :: cs =>
      match Feed buffer c with
      | None => None
      | Some r =>
          match fr_error r with
          | Some _ => Some r
          | None =>
              match feed_chunks (fr_buffer r) cs with
              | None => None
              | Some r' => Some (mkFeed (fr_error r') (fr_out r ++ fr_out r') (fr_buffer r'))
              end
          end
      end
  end.

Lemma feed_chunks_feeds buffer chunks :
  decode_step buffer = NeedMore ->
  exists fs e b', feed_chunks buffer chunks = Some (mkFeed e fs b') /\
    exists b2, feeds (buffer ++ concat chunks) fs e b2 /\ (e = None -> b2 = b').
Proof.
  revert buffer. induction chunks as [|c cs IH]; intros buffer Hn; cbn [feed_chunks concat].
  { exists [], None, buffer. split; [done|]. exists buffer. rewrite app_nil_r. split; [by constructor|done]. }
  destruct (Feed_feeds buffer c) as (fs & e & b1 & -> & Hf). cbn [fr_error fr_buffer fr_out]. destruct e as [err|].
  - exists fs, (Some err), b1. split; [done|]. exists (b1 ++ concat cs). split; [|done].
    rewrite app_assoc. by apply feeds_app_reject.
  - destruct (IH b1) as (fs' & e' & b' & -> & b2 & Hf' & Hb); [by eapply feeds_need_inv|].
    exists (fs ++ fs'), e', b'. split; [done|]. exists b2. split; [|done]. rewrite app_assoc. by eapply feeds_app.
Qed.
