(* ===== verification/ProtocolProps.v ===== *)
(** * What the wire protocol guarantees

    The claims about [Encode] and [FrameDecoder]: the decoder is total and
    bounded, recovers any stream of frames however it is cut into chunks,
    accepts nothing but encodings, and rejects every corrupted byte outside the
    length field. *)

From S2P Require Import Prelude Enums Bytes Protocol.

(** ** Helper lemmas *)
Definition body (f : Frame.t) : list byte := header f ++ Frame.payload f.

Lemma encode_body f : frame_ok f -> encode_frame f = body f ++ le_bytes 8 (Fnv (body f)).
Proof. intros Hf. rewrite encode_frame_eq by done. unfold body. by rewrite app_assoc. Qed.
Lemma length_body f : length (body f) = (kHeaderLen + length (Frame.payload f))%nat.
Proof. unfold body. by rewrite length_app, length_header. Qed.

Lemma GetU32_insert d i b off : ~ (off <= i < off + 4)%nat -> GetU32 (<[i := b]> d) off = GetU32 d off.
Proof.
  intros Hi. rewrite !GetU32_spec, length_insert. case_decide; [|done]. f_equal. f_equal.
  destruct (decide (i < off)%nat).
  - by rewrite drop_insert_lt by lia.
  - by rewrite drop_insert_ge, take_insert_ge by lia.
Qed.

Lemma corrupted_not_encoding f f' i b b' :
  frame_ok f -> frame_ok f' -> length (Frame.payload f') = length (Frame.payload f) ->
  encode_frame f !! i = Some b -> encode_frame f' = <[i := b']> (encode_frame f) -> b' = b.
Proof.
  intros Hf Hf' Hlen Hi Heq. rewrite encode_body in Hi, Heq by done. rewrite encode_body in Heq by done.
  assert (Hbl : length (body f') = length (body f)) by (rewrite !length_body; lia).
  assert (H64 : forall d, Fnv d < 256 ^ N.of_nat 8) by apply Fnv_u64.
  destruct (decide (i < length (body f))%nat) as [Hlt|Hge].
  - rewrite insert_app_l in Heq by done. apply app_inj_1 in Heq as [Hb Hs]; [|by rewrite length_insert].
    apply le_bytes_inj in Hs; [|done..]. rewrite lookup_app_l in Hi by done. rewrite Hb in Hs. by eapply Fnv_insert.
  - rewrite insert_app_r_alt in Heq by lia. apply app_inj_1 in Heq as [Hb Hs]; [|done].
    rewrite lookup_app_r in Hi by lia. rewrite Hb in Hs. pose proof (lookup_lt_Some _ _ _ Hi) as Hlt.
    rewrite Hs, list_lookup_insert_eq in Hi by done. congruence.
Qed.

Lemma NeedMore_inv buf n :
  decode_step buf = NeedMore -> (kHeaderLen <= length buf)%nat -> GetU32 buf 17 = Some n ->
  (length buf < kHeaderLen + N.to_nat n + 8)%nat /\ n <= 524288.
Proof.
  unfold decode_step. intros E Hh Hn. rewrite (proj2 (Nat.ltb_ge _ _) Hh), Hn in E.
  destruct (GetU32 buf 0), (buf !! 4%nat), (GetU32 buf 5); try done. destruct (negb _); [done|]. destruct (negb _); [done|].
  destruct (enum_of_code _) as [t|]; [|done]. cbv zeta in E. destruct (_ =? 0); [done|].
  destruct (N.ltb_spec (MaxFrameLen t) n); [done|]. cbn [orb] in E. destruct (_ <? n); [done|].
  destruct (Nat.ltb_spec (length buf) (kHeaderLen + N.to_nat n + 8)).
  - split; [done|]. pose proof (MaxFrameLen_bounds t). lia.
  - destruct (GetU64 buf _); [|done]. destruct (GetU64 buf 9); [|done]. by destruct (negb _).
Qed.

Lemma feeds_prefix b fs e b' : feeds b fs e b' -> Forall frame_ok fs /\ b = concat (encode_frame <$> fs) ++ b'.
Proof.
  induction 1 as [b E|b err E|b f rest fs e b' E H [IH ->]]; [done..|].
  apply decode_step_canonical in E as [Hf ->]. split; [by constructor|]. cbn. by rewrite <-app_assoc.
Qed.

(** ** Claims *)

(** C23: The decoder is total and bounded: on every buffer and every chunk [Feed] returns
    after finitely many iterations without a read outside its buffer, and when it
    accepts, fewer than 524317 bytes (header, greatest payload, checksum) stay
    buffered, whatever the peer sends. *)
Theorem feed_total_bounded buffer data :
  exists r, Feed buffer data = Some r /\
    (fr_error r = None -> N.of_nat (length (fr_buffer r)) < N.of_nat kHeaderLen + GlobalMaxFrameLen + 8).
Proof.
  destruct (Feed_feeds buffer data) as (fs & e & b' & -> & Hf). eexists. split; [done|]. cbn [fr_error fr_buffer]. intros ->.
  apply feeds_need_inv in Hf. rewrite GlobalMaxFrameLen_eq.
  destruct (decide (kHeaderLen <= length b')%nat) as [Hh|]; [|lia].
  destruct (GetU32_in b' 17) as [n Hn]; [unfold kHeaderLen in Hh; lia|].
  destruct (NeedMore_inv _ _ Hf Hh Hn). lia.
Qed.

(** C21: Round trip over a stream: if the chunks that arrive concatenate to the encodings
    of a sequence of frames, then feeding them one by one yields exactly that
    sequence, no error and an empty buffer, wherever the stream was cut. *)
Theorem stream_roundtrip fs chunks :
  Forall frame_ok fs -> concat chunks = concat (encode_frame <$> fs) ->
  feed_chunks [] chunks = Some (mkFeed None fs []).
Proof.
  intros Hfs Heq. destruct (feed_chunks_feeds [] chunks eq_refl) as (fs' & e & b' & -> & b2 & Hf & Hb).
  pose proof (feeds_frames fs [] [] None [] Hfs (feeds_need [] eq_refl)) as H. rewrite !app_nil_r, <-Heq in H.
  destruct (feeds_det _ _ _ _ _ _ _ Hf H) as (-> & -> & ->). by rewrite <-Hb.
Qed.

Definition hello : Frame.t := Frame.mk FrameType.HELLO 7 [x61; x62].
Definition bye : Frame.t := Frame.mk FrameType.BYE 8 [].
Lemma hello_bye_ok : Forall frame_ok [hello; bye].
Proof. repeat constructor; vm_compute; done. Qed.

(** The stream cut inside the first header and across the frame boundary. *)
Lemma stream_roundtrip_witness :
  feed_chunks [] (let s := concat (encode_frame <$> [hello; bye]) in [take 10 s; take 25 (drop 10 s); drop 35 s])
    = Some (mkFeed None [hello; bye] []).
Proof.
  apply (stream_roundtrip [hello; bye]); [exact hello_bye_ok|]. cbv zeta. vm_compute. reflexivity.
Defined.

(** Cutting a stream differently changes nothing: feeding chunks one by one gives the
    same frames and the same verdict as feeding their concatenation at once, also
    for malformed streams. *)
Theorem chunking_irrelevant chunks :
  exists r r', feed_chunks [] chunks = Some r /\ Feed [] (concat chunks) = Some r' /\
    fr_out r = fr_out r' /\ fr_error r = fr_error r' /\ (fr_error r = None -> fr_buffer r = fr_buffer r').
Proof.
  destruct (feed_chunks_feeds [] chunks eq_refl) as (fs & e & b' & -> & b2 & Hf & Hb).
  apply (Feed_spec [] (concat chunks)) in Hf. do 2 eexists. split; [done|]. split; [exact Hf|]. cbn.
  split_and!; try done. intros He. symmetry. auto.
Qed.

(** C22: The decoder accepts canonical bytes only: whatever it is fed, the frames it
    returns are frames that [Encode] accepts, and the bytes it consumed are exactly
    their encodings, in order. *)
Theorem decoder_canonical data r :
  Feed [] data = Some r ->
  Forall frame_ok (fr_out r) /\ data = concat (encode_frame <$> fr_out r) ++ fr_buffer r.
Proof. destruct r as [e fs b']. intros H%(Feed_spec [] data). by apply feeds_prefix in H. Qed.

Lemma decoder_canonical_witness :
  Forall frame_ok [hello] /\ encode_frame hello ++ [x44; x50] = concat (encode_frame <$> [hello]) ++ [x44; x50].
Proof. apply (decoder_canonical (encode_frame hello ++ [x44; x50]) (mkFeed None [hello] [x44; x50])). vm_compute. reflexivity. Defined.

(** Every single-byte corruption outside the length field is rejected: an encoded
    frame with one byte changed, at any position but the four bytes of the payload
    length, is rejected by the decoder, whatever follows it. *)
Theorem corruption_rejected f i b b' rest :
  frame_ok f -> encode_frame f !! i = Some b -> b' <> b -> ~ (17 <= i < 21)%nat ->
  exists e, decode_step (<[i := b']> (encode_frame f) ++ rest) = Reject e.
Proof.
  intros Hf Hi Hne Hlen. set (buf := <[i := b']> (encode_frame f)).
  assert (Hl : length buf = (kHeaderLen + length (Frame.payload f) + 8)%nat)
    by (unfold buf; by rewrite length_insert, length_encode_frame).
  assert (H17 : GetU32 buf 17 = Some (N.of_nat (length (Frame.payload f)))).
  { unfold buf. rewrite GetU32_insert by done. rewrite encode_frame_eq by done. by apply header_reads. }
  assert (Hrej : exists e, decode_step buf = Reject e).
  { pose proof (decode_step_in_range buf) as Hr. destruct (decode_step buf) as [|e|f' rest'|] eqn:E; [|by eauto| |done].
    - destruct (NeedMore_inv _ _ E ltac:(lia) H17) as [H _]. rewrite Nat2N.id in H. lia.
    - exfalso. apply Hne. apply decode_step_canonical in E as [Hf' Heq].
      assert (Hp : length (Frame.payload f') = length (Frame.payload f)).
      { rewrite Heq, (encode_frame_eq f'), <-!app_assoc in H17 by done.
        destruct (header_reads f' (Frame.payload f' ++ le_bytes 8 (Fnv (header f' ++ Frame.payload f')) ++ rest') Hf')
          as (_ & _ & _ & _ & H). rewrite H in H17. injection H17 as H17. lia. }
      assert (rest' = []) as ->.
      { apply nil_length_inv. rewrite Heq, length_app, length_encode_frame in Hl by done. lia. }
      rewrite app_nil_r in Heq. eapply corrupted_not_encoding; [exact Hf|exact Hf'|done|done|by symmetry]. }
  destruct Hrej as [e He]. exists e. pose proof (decode_step_app buf rest) as Ha. by rewrite He in Ha.
Qed.

Lemma corruption_rejected_witness :
  exists e, decode_step (<[21%nat := x63]> (encode_frame hello) ++ [x00]) = Reject e.
Proof.
  apply (corruption_rejected hello 21 x61 x63 [x00]).
  - exact (Forall_inv hello_bye_ok).
  - vm_compute. reflexivity.
  - discriminate.
  - lia.
Defined.

(** [Encode] refuses exactly the payloads above the canonical bound of their frame
    type (it returns no bytes); every other frame gets header, payload and checksum. *)
Theorem encode_bounds type correlation payload :
  length (Encode type correlation payload) =
    if MaxFrameLen type <? N.of_nat (length payload) then 0%nat else (kHeaderLen + length payload + 8)%nat.
Proof.
  pose proof (MaxFrameLen_bounds type) as [Hpos _]. unfold Encode. rewrite (proj2 (N.eqb_neq _ _)) by lia. cbn [orb].
  destruct (_ <? _); [done|]. cbv zeta. rewrite !PutU32_eq, !PutU64_eq, !length_app, !length_le_bytes.
  unfold kHeaderLen. cbn [length]. lia.
Qed.
