(* ===== verification/Ids.v ===== *)
(** * Strongly typed identities

    [include/dfabric/ids.hpp].  [StrongId<Tag>] and [StrongGeneration<Tag>] are
    one-field records over an unsigned 64-bit value, indexed by a phantom tag,
    so two identity kinds do not interconvert here either.  0 is the reserved
    invalid value.  [ToString] is [std::to_string]: decimal, no padding. *)

From S2P Require Import Prelude.

(** ** Identity tags *)
Inductive ResourceIdTag : Set := .
Inductive ResourceGenTag : Set := .
Inductive ResourceSetIdTag : Set := .
Inductive ResourceSetGenTag : Set := .
Inductive CompositionIdTag : Set := .
Inductive CompositionGenTag : Set := .
Inductive NodeIdTag : Set := .
Inductive NodeGenTag : Set := .
Inductive AttachmentIdTag : Set := .
Inductive AttachmentGenTag : Set := .
Inductive CapabilityIdTag : Set := .
Inductive CapabilityGenTag : Set := .
Inductive CompatibilityIdTag : Set := .
Inductive CompatibilityGenTag : Set := .
Inductive PathEvidenceIdTag : Set := .
Inductive PathGenTag : Set := .
Inductive ReservationIdTag : Set := .
Inductive ReservationGenTag : Set := .
Inductive PolicyIdTag : Set := .
Inductive PolicyGenTag : Set := .
Inductive EvidenceIdTag : Set := .
Inductive EvidenceGenTag : Set := .
Inductive WorkerIdTag : Set := .
Inductive WorkerBootIdTag : Set := .
Inductive CoordinatorIdTag : Set := .
Inductive CoordinatorEpochTag : Set := .
Inductive FailureDomainIdTag : Set := .
Inductive ConsumerIdTag : Set := .
Inductive ConsumerGenTag : Set := .

(** [StrongId] and [StrongGeneration] have the same representation and the same
    comparison operators; [Next] is only used on generations. *)
Record StrongId (Tag : Set) : Set := Id { Value : N }.
#[global] Arguments Id {Tag} _.
#[global] Arguments Value {Tag} _.

Definition zero_id {Tag : Set} : StrongId Tag := Id 0.

#[export] Instance StrongId_eq_dec (Tag : Set) : EqDecision (StrongId Tag).
Proof. solve_decision. Defined.
#[export] Instance StrongId_countable (Tag : Set) : Countable (StrongId Tag) :=
  inj_countable' Value Id (fun '(Id v) => eq_refl).
#[export] Instance StrongId_inhabited (Tag : Set) : Inhabited (StrongId Tag) := populate zero_id.
#[export] Instance Value_inj (Tag : Set) : Inj (=) (=) (@Value Tag).
Proof. by intros [] [] [= ->]. Qed.

Definition IsZero {Tag : Set} (i : StrongId Tag) : bool := Value i =? 0.
Definition IsValid {Tag : Set} (i : StrongId Tag) : bool := negb (Value i =? 0).
Definition id_eqb {Tag : Set} (a b : StrongId Tag) : bool := Value a =? Value b.
Definition id_ltb {Tag : Set} (a b : StrongId Tag) : bool := Value a <? Value b.

Definition id_neqb {Tag : Set} (a b : StrongId Tag) : bool := negb (Value a =? Value b).
Definition id_leb {Tag : Set} (a b : StrongId Tag) : bool := Value a <=? Value b.
Definition id_gtb {Tag : Set} (a b : StrongId Tag) : bool := Value b <? Value a.

(** [Require]: [None] is the thrown [IdentityError]. *)
Definition Require_ {Tag : Set} (v : N) : option (StrongId Tag) :=
  if v =? 0 then None else Some (Id v).

(** [StrongGeneration::Next]: 64-bit increment that skips the reserved 0. *)
Definition Next {Tag : Set} (g : StrongId Tag) : StrongId Tag :=
  let v := wrap64 (Value g + 1) in
  if v =? 0 then Id 1 else Id v.

Definition ToString {Tag : Set} (i : StrongId Tag) : string := pretty (Value i).

Abbreviation ResourceId := (StrongId ResourceIdTag).
Abbreviation ResourceGeneration := (StrongId ResourceGenTag).
Abbreviation ResourceSetId := (StrongId ResourceSetIdTag).
Abbreviation ResourceSetGeneration := (StrongId ResourceSetGenTag).
Abbreviation CompositionId := (StrongId CompositionIdTag).
Abbreviation CompositionGeneration := (StrongId CompositionGenTag).
Abbreviation NodeId := (StrongId NodeIdTag).
Abbreviation NodeGeneration := (StrongId NodeGenTag).
Abbreviation AttachmentId := (StrongId AttachmentIdTag).
Abbreviation AttachmentGeneration := (StrongId AttachmentGenTag).
Abbreviation CapabilityId := (StrongId CapabilityIdTag).
Abbreviation CapabilityGeneration := (StrongId CapabilityGenTag).
Abbreviation CompatibilityId := (StrongId CompatibilityIdTag).
Abbreviation CompatibilityGeneration := (StrongId CompatibilityGenTag).
Abbreviation PathEvidenceId := (StrongId PathEvidenceIdTag).
Abbreviation PathGeneration := (StrongId PathGenTag).
Abbreviation ReservationId := (StrongId ReservationIdTag).
Abbreviation ReservationGeneration := (StrongId ReservationGenTag).
Abbreviation PolicyId := (StrongId PolicyIdTag).
Abbreviation PolicyGeneration := (StrongId PolicyGenTag).
Abbreviation EvidenceId := (StrongId EvidenceIdTag).
Abbreviation EvidenceGeneration := (StrongId EvidenceGenTag).
Abbreviation WorkerId := (StrongId WorkerIdTag).
Abbreviation WorkerBootId := (StrongId WorkerBootIdTag).
Abbreviation CoordinatorId := (StrongId CoordinatorIdTag).
Abbreviation CoordinatorEpoch := (StrongId CoordinatorEpochTag).
Abbreviation FailureDomainId := (StrongId FailureDomainIdTag).
Abbreviation ConsumerId := (StrongId ConsumerIdTag).
Abbreviation ConsumerGeneration := (StrongId ConsumerGenTag).

(** ** Lemmas *)
Section ids.
Context {Tag : Set}.
Implicit Types a b : StrongId Tag.

Lemma id_eqb_eq a b : id_eqb a b = true <-> a = b.
Proof. unfold id_eqb. rewrite N.eqb_eq. split; [apply (inj Value)|by intros ->]. Qed.
Lemma id_eqb_neq a b : id_eqb a b = false <-> a <> b.
Proof. rewrite <-not_true_iff_false, id_eqb_eq. done. Qed.
Lemma id_eqb_refl a : id_eqb a a = true.
Proof. by apply id_eqb_eq. Qed.
Lemma id_ltb_trichotomy a b : id_ltb a b = false -> id_ltb b a = false -> a = b.
Proof. unfold id_ltb. intros ?%N.ltb_ge ?%N.ltb_ge. apply (inj Value). lia. Qed.

Lemma IsValid_zero : IsValid (zero_id (Tag := Tag)) = false.
Proof. done. Qed.

(** The doc of [Next] leaves overflow to "[IsZero()] on the returned value";
    the returned value is in fact never zero. *)
Lemma Next_valid a : IsValid (Next a) = true.
Proof. unfold Next. destruct (_ =? 0) eqn:E; [done|]. unfold IsValid. cbn. by rewrite E. Qed.
Lemma Next_u64 a : u64_ok (Value (Next a)).
Proof. unfold Next. case_match; cbn; [done|apply wrap64_ok]. Qed.
Lemma Next_neq a : u64_ok (Value a) -> Next a <> a.
Proof.
  destruct a as [v]. unfold Next, wrap64, u64_ok. cbn [Value]. intros Ha Heq.
  destruct (N.eq_dec v (2 ^ 64 - 1)) as [->|E]; [done|].
  rewrite N.mod_small in Heq by lia.
  destruct (v + 1 =? 0) eqn:E0; [apply N.eqb_eq in E0; lia|].
  injection Heq. lia.
Qed.

#[export] Instance ToString_inj : Inj (=) (=) (@ToString Tag).
Proof. intros a b Heq. by apply (inj Value), (inj pretty). Qed.
End ids.
#[export] Hint Rewrite @id_eqb_refl : fabric.
