(* ===== verification/Args.v ===== *)
(** * Command lines of the processes

    The option loops of [deploy/coordinator.cpp] and [deploy/worker.cpp], and what
    they use of the C library: [std::strtoull], [std::atoi], and the prefix tests
    and substrings of [std::string]. *)

From S2P Require Import Prelude Ids.
From Stdlib Require Import Ascii.

(** ** The C library *)
Definition is_space (c : ascii) : bool :=
  let n := N_of_ascii c in (n =? 32) || ((9 <=? n) && (n <=? 13)).
Definition digit_of (c : ascii) : option N :=
  let n := N_of_ascii c in if (48 <=? n) && (n <=? 57) then Some (n - 48) else None.

Fixpoint skip_space (s : string) : string :=
  match s with String c s' => if is_space c then skip_space s' else s | EmptyString => s end.
Definition take_sign (s : string) : bool * string :=
  match s with
  | String c s' => if Ascii.eqb c "-"%char then (true, s') else if Ascii.eqb c "+"%char then (false, s') else (false, s)
  | EmptyString => (false, s)
  end.
(** The value of the leading digits, accumulated from [acc]. *)
Fixpoint digits (acc : N) (s : string) : N :=
  match s with
  | String c s' => match digit_of c with Some d => digits (acc * 10 + d) s' | None => acc end
  | EmptyString => acc
  end.

(** [std::strtoull(s, nullptr, 10)]: out of range is [ULLONG_MAX], a minus sign
    negates in unsigned arithmetic. *)
Definition strtoull (s : string) : N :=
  let '(neg, s) := take_sign (skip_space s) in
  let v := digits 0 s in
  if 2 ^ 64 <=? v then 2 ^ 64 - 1 else if neg : bool then wrap64 (2 ^ 64 - v) else v.
(** [std::atoi], saturating at the bounds of [int]. *)
Definition atoi (s : string) : Z :=
  let '(neg, s) := take_sign (skip_space s) in
  let v := Z.of_N (digits 0 s) in
  if neg : bool then Z.max (- v) (- 2 ^ 31) else Z.min v (2 ^ 31 - 1).

(** [a.rfind(p, 0) == 0]. *)
Definition starts_with (p a : string) : bool := String.prefix p a.
(** [a.substr(n)]; all uses have [n] at most the length. *)
Fixpoint substr (n : nat) (a : string) : string :=
  match n, a with S n', String _ a' => substr n' a' | _, _ => a end.
(** [a.find(c)]: [None] is [npos]. *)
Fixpoint find_char (c : ascii) (a : string) : option nat :=
  match a with
  | EmptyString => None
  | String d a' => if Ascii.eqb c d then Some 0%nat else S <$> find_char c a'
  end.

(** ** The coordinator's options *)
Module CoordArgs.
Record t := mk { port : Z; epochVal : N; statePath : string; markdir : string }.
#[global] Instance eta_t : Eta t := fun o => mk (port o) (epochVal o) (statePath o) (markdir o).
Definition dflt : t := mk 0 1 "coordinator.state" "".
Definition arg (o : t) (a : string) : t :=
  let o := if starts_with "--port=" a then o <| port := atoi (substr 7 a) |> else o in
  let o := if starts_with "--epoch=" a then o <| epochVal := strtoull (substr 8 a) |> else o in
  let o := if starts_with "--state=" a then o <| statePath := substr 8 a |> else o in
  if starts_with "--markdir=" a then o <| markdir := substr 10 a |> else o.
(** [None]: the usage error. *)
Definition parse (argv : list string) : option t :=
  let o := fold_left arg argv dflt in if (port o <=? 0)%Z then None else Some o.
End CoordArgs.

(** ** The worker's options *)
Module WorkerArgs.
Record t := mk { host : string; port : Z; boot : N; nodesArg : string }.
#[global] Instance eta_t : Eta t := fun o => mk (host o) (port o) (boot o) (nodesArg o).
Definition dflt : t := mk "127.0.0.1" 0 0 "".
(** Without a colon [e] is [npos]: the host is the rest, and [e + 1] wraps to 0. *)
Definition arg (o : t) (a : string) : t :=
  let o :=
    if starts_with "--coord=" a then
      match find_char ":"%char a with
      | Some e => o <| host := String.substring 8 (e - 8) a |> <| port := atoi (substr (e + 1) a) |>
      | None => o <| host := substr 8 a |> <| port := atoi a |>
      end
    else o in
  let o := if starts_with "--boot=" a then o <| boot := strtoull (substr 7 a) |> else o in
  if starts_with "--nodes=" a then o <| nodesArg := substr 8 a |> else o.
Definition parse (argv : list string) : option t :=
  let o := fold_left arg argv dflt in if (port o <=? 0)%Z then None else Some o.
End WorkerArgs.

(** The comma-separated list: [cur] is the number being collected. *)
Definition flush (cur : string) : list N := match cur with EmptyString => [] | _ => [strtoull cur] end.
Fixpoint node_ids_from (cur arg : string) : list N :=
  match arg with
  | EmptyString => flush cur
  | String c arg' =>
      if Ascii.eqb c ","%char then flush cur ++ node_ids_from "" arg'
      else node_ids_from (cur +:+ String c "") arg'
  end.
Definition node_ids (arg : string) : list N := node_ids_from "" arg.

(** ** Printing and parsing numbers *)

(** All characters are decimal digits. *)
Fixpoint all_digits (s : string) : bool :=
  match s with String c s' => bool_decide (is_Some (digit_of c)) && all_digits s' | EmptyString => true end.

Lemma pretty_N_char_digit x : x < 10 -> digit_of (pretty_N_char x) = Some x.
Proof.
  intros H. rewrite <-(N2Nat.id x) in *. generalize dependent (N.to_nat x). intros n Hn.
  do 10 (destruct n as [|n]; [vm_compute; reflexivity|]). lia.
Qed.

Lemma digits_pretty x : forall s, exists k, forall acc, digits acc (pretty_N_go x s) = digits (acc * 10 ^ k + x) s.
Proof.
  induction (N.lt_wf_0 x) as [x _ IH]. intros s. destruct (N.eq_dec x 0) as [->|Hx].
  { exists 0. intros acc. rewrite pretty_N_go_0. f_equal. lia. }
  rewrite pretty_N_go_step by lia. destruct (IH (x `div` 10) ltac:(apply N.div_lt; lia) (String (pretty_N_char (x `mod` 10)) s)) as [k Hk].
  exists (N.succ k). intros acc. rewrite Hk. cbn [digits]. rewrite pretty_N_char_digit by (apply N.mod_lt; done).
  f_equal. rewrite N.pow_succ_r'. pose proof (N.div_mod x 10 ltac:(done)). lia.
Qed.
Lemma all_digits_pretty x : forall s, all_digits s = true -> all_digits (pretty_N_go x s) = true.
Proof.
  induction (N.lt_wf_0 x) as [x _ IH]. intros s Hs. destruct (N.eq_dec x 0) as [->|Hx]; [by rewrite pretty_N_go_0|].
  rewrite pretty_N_go_step by lia. apply IH; [apply N.div_lt; lia|]. cbn.
  by rewrite pretty_N_char_digit, bool_decide_eq_true_2 by (eauto || (apply N.mod_lt; done)).
Qed.

(** A string of digits is parsed from its first character. *)
Lemma digit_no_space c d : digit_of c = Some d -> is_space c = false /\ c <> "-"%char /\ c <> "+"%char.
Proof. destruct c as [[] [] [] [] [] [] [] []]; vm_compute; intros [=]; done. Qed.
Lemma strtoull_digits s : all_digits s = true -> strtoull s = if 2 ^ 64 <=? digits 0 s then 2 ^ 64 - 1 else digits 0 s.
Proof.
  unfold strtoull. destruct s as [|c s]; [done|]. cbn [all_digits]. intros [Hc _]%andb_prop.
  apply bool_decide_eq_true_1 in Hc as [d Hd]. destruct (digit_no_space c d Hd) as (Hs & Hm & Hp).
  cbn [skip_space]. rewrite Hs. cbn [take_sign].
  rewrite (proj2 (Ascii.eqb_neq _ _) Hm), (proj2 (Ascii.eqb_neq _ _) Hp). done.
Qed.
Lemma pretty_digits n : all_digits (pretty n) = true /\ digits 0 (pretty n) = n.
Proof.
  unfold pretty, pretty_N. case_decide as H; [by subst|]. split; [by apply all_digits_pretty|].
  destruct (digits_pretty n "") as [k Hk]. rewrite Hk. done.
Qed.
Lemma strtoull_pretty n : u64_ok n -> strtoull (pretty n) = n.
Proof.
  intros Hn. destruct (pretty_digits n) as [Ha Hd]. rewrite strtoull_digits, Hd by done.
  by rewrite (proj2 (N.leb_gt _ _)).
Qed.

Lemma strtoull_u64 s : u64_ok (strtoull s).
Proof.
  unfold strtoull. destruct (take_sign _) as [neg s']. destruct (N.leb_spec (2 ^ 64) (digits 0 s')) as [H|H]; [done|].
  destruct neg; [apply wrap64_ok|done].
Qed.
Lemma node_ids_u64 cur arg : Forall u64_ok (node_ids_from cur arg).
Proof.
  assert (Hf : forall c, Forall u64_ok (flush c)) by (intros [|a c]; repeat constructor; apply strtoull_u64).
  revert cur. induction arg as [|c arg IH]; intros cur; cbn [node_ids_from]; [apply Hf|].
  destruct (Ascii.eqb c ","%char); [apply Forall_app; auto|apply IH].
Qed.

(** ** Lists of numbers *)
Fixpoint print_ids (ids : list N) : string :=
  match ids with
  | [] => ""
  | [n] => pretty n
  | n :: ids' => pretty n +:+ "," +:+ print_ids ids'
  end.

Lemma string_app_assoc (a b c : string) : (a +:+ b) +:+ c = a +:+ (b +:+ c).
Proof. induction a as [|x a IH]; [done|]. exact (f_equal (String x) IH). Qed.
Lemma string_app_nil (a : string) : a +:+ "" = a.
Proof. induction a as [|x a IH]; [done|]. exact (f_equal (String x) IH). Qed.
(** Characters other than the comma are collected. *)
Lemma node_ids_collect s cur rest :
  all_digits s = true -> node_ids_from cur (s +:+ rest) = node_ids_from (cur +:+ s) rest.
Proof.
  revert cur. induction s as [|c s IH]; intros cur; [by rewrite string_app_nil|].
  change (String c s +:+ rest) with (String c (s +:+ rest)). cbn. intros [Hc Hs]%andb_prop. apply bool_decide_eq_true_1 in Hc as [d Hd].
  assert (Hcomma : Ascii.eqb c ","%char = false) by (apply Ascii.eqb_neq; by intros ->).
  rewrite Hcomma, IH by done. f_equal. apply string_app_assoc.
Qed.
Lemma flush_pretty n : u64_ok n -> flush (pretty n) = [n].
Proof.
  intros Hn. rewrite <-(strtoull_pretty n Hn) at 2. unfold flush. destruct (pretty n) eqn:E; [|done].
  pose proof (strtoull_pretty n Hn) as H. rewrite E in H. cbn in H. subst n. done.
Qed.
Lemma node_ids_print ids : Forall u64_ok ids -> node_ids (print_ids ids) = ids.
Proof.
  induction 1 as [|n ids Hn Hids IH]; [done|]. unfold node_ids in *. destruct (pretty_digits n) as [Ha _].
  destruct ids as [|m ids].
  - cbn [print_ids]. rewrite <-(string_app_nil (pretty n)), node_ids_collect by done. by apply flush_pretty.
  - change (print_ids (n :: m :: ids)) with (pretty n +:+ "," +:+ print_ids (m :: ids)).
    rewrite node_ids_collect by done. change (flush ("" +:+ pretty n) ++ node_ids_from "" (print_ids (m :: ids)) = n :: m :: ids).
    rewrite IH. change ("" +:+ pretty n) with (pretty n). by rewrite flush_pretty.
Qed.
