(* ===== verification/Double.v ===== *)
(** * IEEE 754 binary64

    C++ [double] is modelled by the Standard Library's executable specification
    of floating-point arithmetic ([SpecFloat], precision 53, maximal exponent
    1024): signed zeros, infinities, one NaN, and finite values with a signed
    mantissa and an exponent.  All rounding is to nearest, ties to even.  The
    only thing abstracted is the NaN payload: every NaN is [S754_nan], written
    as the default quiet NaN and read back from any NaN bit pattern. *)

From S2P Require Import Prelude.
From Stdlib Require Export SpecFloat.

Abbreviation double := spec_float.

Declare Scope double_scope.
Delimit Scope double_scope with D.

Definition dprec : Z := 53.
Definition demax : Z := 1024.

Definition dadd (x y : double) : double := SFadd dprec demax x y.
Definition dsub (x y : double) : double := SFsub dprec demax x y.
Definition dmul (x y : double) : double := SFmul dprec demax x y.

(** The C++ relational operators; every comparison with a NaN is false except
    [!=]. *)
Definition dlt (x y : double) : bool := SFltb x y.
Definition dle (x y : double) : bool := SFleb x y.
Definition deq (x y : double) : bool := SFeqb x y.
Infix "+" := dadd : double_scope.
Infix "-" := dsub : double_scope.
Infix "*" := dmul : double_scope.
Infix "<?" := dlt : double_scope.
Infix "<=?" := dle : double_scope.
Infix "=?" := deq : double_scope.
Notation "x >? y" := (dlt y x) (only parsing) : double_scope.
Notation "x >=? y" := (dle y x) (only parsing) : double_scope.

(** [std::max] and [std::min]: the first argument wins unless the comparison
    holds, which settles NaN and signed zeros. *)
Definition std_max (a b : double) : double := if (a <? b)%D then b else a.
Definition std_min (a b : double) : double := if (b <? a)%D then b else a.

(** [static_cast<double>] of an integer: correctly rounded. *)
Definition double_of_Z (z : Z) : double := binary_normalize dprec demax z 0 false.
Definition double_of_N (n : N) : double := double_of_Z (Z.of_N n).

Definition d0 : double := S754_zero false.
Definition d1 : double := double_of_Z 1.
Definition d10 : double := double_of_Z 10.
Definition d100 : double := double_of_Z 100.
Definition d1000 : double := double_of_Z 1000.
Definition dm1 : double := double_of_Z (-1).
Definition d1e12 : double := double_of_Z 1000000000000.
(** The literals [0.1] and [1e-6]. *)
Definition d_0_1 : double := S754_finite false 7205759403792794 (-56).
Definition d_1em6 : double := S754_finite false 4722366482869645 (-72).

Definition is_nan (x : double) : bool := match x with S754_nan => true | _ => false end.
Definition is_finite (x : double) : bool :=
  match x with S754_zero _ | S754_finite _ _ _ => true | _ => false end.

(** Finite and strictly positive: what a usable capacity is. *)
Definition dpos (x : double) : bool :=
  match x with S754_finite false _ _ => true | _ => false end.

(** ** Bit patterns: [std::memcpy] between [double] and [std::uint64_t] *)
Definition double_to_bits (x : double) : N :=
  let sign (s : bool) : N := if s then 2 ^ 63 else 0 in
  match x with
  | S754_zero s => sign s
  | S754_infinity s => sign s + 2047 * 2 ^ 52
  | S754_nan => 4095 * 2 ^ 51
  | S754_finite s m e =>
      if Npos m <? 2 ^ 52 then sign s + Npos m
      else sign s + Z.to_N (e + 1075) * 2 ^ 52 + (Npos m - 2 ^ 52)
  end.

Definition bits_to_double (u : N) : double :=
  let s := 2 ^ 63 <=? u in
  let ex := (u / 2 ^ 52) mod 2 ^ 11 in
  let mant := u mod 2 ^ 52 in
  if ex =? 0 then
    match mant with 0 => S754_zero s | Npos m => S754_finite s m (-1074) end
  else if ex =? 2047 then
    match mant with 0 => S754_infinity s | _ => S754_nan end
  else
    match mant + 2 ^ 52 with
    | 0 => S754_nan
    | Npos m => S754_finite s m (Z.of_N ex - 1075)
    end.

(** The representation invariant of a [double]: canonical mantissa and exponent. *)
Definition double_ok (x : double) : Prop := valid_binary dprec demax x = true.

(** ** Comparison as a lexicographic order

    [dkey] embeds the non-NaN doubles in triples of integers; the comparison
    becomes the lexicographic one, so order reasoning is left to [lia]. *)
Definition dkey (x : double) : Z * Z * Z :=
  match x with
  | S754_infinity true => (-2, 0, 0)%Z
  | S754_finite true m e => (-1, - e, - Zpos m)%Z
  | S754_zero _ | S754_nan => (0, 0, 0)%Z
  | S754_finite false m e => (1, e, Zpos m)%Z
  | S754_infinity false => (2, 0, 0)%Z
  end.

Definition key_lt (a b : Z * Z * Z) : Prop :=
  (a.1.1 < b.1.1 \/ a.1.1 = b.1.1 /\ (a.1.2 < b.1.2 \/ a.1.2 = b.1.2 /\ a.2 < b.2))%Z.

Definition key_cmp (a b : Z * Z * Z) : comparison :=
  match (a.1.1 ?= b.1.1)%Z with
  | Eq => match (a.1.2 ?= b.1.2)%Z with Eq => (a.2 ?= b.2)%Z | c => c end
  | c => c
  end.

Lemma key_cmp_spec a b :
  CompareSpec (a = b) (key_lt a b) (key_lt b a) (key_cmp a b).
Proof.
  destruct a as [[a1 a2] a3], b as [[b1 b2] b3]. unfold key_cmp, key_lt. cbn.
  destruct (Z.compare_spec a1 b1); [|constructor; lia..].
  destruct (Z.compare_spec a2 b2); [|constructor; lia..].
  destruct (Z.compare_spec a3 b3); constructor; first [lia|congruence].
Qed.

Lemma key_lt_irrefl a : ~ key_lt a a.
Proof. unfold key_lt. lia. Qed.
Lemma key_lt_trans a b c : key_lt a b -> key_lt b c -> key_lt a c.
Proof. unfold key_lt. lia. Qed.
Lemma key_trichotomy a b : key_lt a b \/ a = b \/ key_lt b a.
Proof. destruct (key_cmp_spec a b); auto. Qed.

Lemma Z_compare_opp_opp a b : (- a ?= - b)%Z = CompOpp (a ?= b)%Z.
Proof. destruct (Z.compare_spec a b), (Z.compare_spec (- a) (- b)); first [done|lia]. Qed.

Section dorder.
Implicit Types x y z : double.

Lemma SFcompare_key x y :
  is_nan x = false -> is_nan y = false -> SFcompare x y = Some (key_cmp (dkey x) (dkey y)).
Proof.
  destruct x as [[]|[]| |[] m e], y as [[]|[]| |[] m' e']; cbn; try done; intros _ _.
  unfold key_cmp. cbn. rewrite !Z_compare_opp_opp. by destruct (e ?= e')%Z.
Qed.

Lemma dlt_key x y :
  is_nan x = false -> is_nan y = false -> dlt x y = true <-> key_lt (dkey x) (dkey y).
Proof.
  intros Hx Hy. unfold dlt, SFltb. rewrite SFcompare_key by done.
  destruct (key_cmp_spec (dkey x) (dkey y)) as [E|E|E]; split; try done; intros E'; exfalso.
  - rewrite E in E'. by eapply key_lt_irrefl.
  - eapply key_lt_irrefl, key_lt_trans; eassumption.
Qed.

Lemma deq_key x y :
  is_nan x = false -> is_nan y = false -> deq x y = true <-> dkey x = dkey y.
Proof.
  intros Hx Hy. unfold deq, SFeqb. rewrite SFcompare_key by done.
  destruct (key_cmp_spec (dkey x) (dkey y)) as [E|E|E]; split; try done; intros E'; exfalso;
    rewrite E' in E; by eapply key_lt_irrefl.
Qed.

Lemma dle_key x y :
  is_nan x = false -> is_nan y = false ->
  dle x y = true <-> key_lt (dkey x) (dkey y) \/ dkey x = dkey y.
Proof.
  intros Hx Hy. unfold dle, SFleb. rewrite SFcompare_key by done.
  destruct (key_cmp_spec (dkey x) (dkey y)) as [E|E|E]; split; try done; try tauto.
  intros [E'|E']; exfalso; [eapply key_lt_irrefl, key_lt_trans; eassumption|].
  rewrite E' in E. by eapply key_lt_irrefl.
Qed.

Lemma dlt_not_nan x y : dlt x y = true -> is_nan x = false /\ is_nan y = false.
Proof. by destruct x as [[]|[]| |[] m e], y as [[]|[]| |[] m' e']. Qed.
Lemma dle_not_nan x y : dle x y = true -> is_nan x = false /\ is_nan y = false.
Proof. by destruct x as [[]|[]| |[] m e], y as [[]|[]| |[] m' e']. Qed.

Lemma dlt_irrefl x : dlt x x = false.
Proof.
  destruct (dlt x x) eqn:E; [|done]. pose proof (dlt_not_nan _ _ E) as [Hn _].
  apply dlt_key in E; [|done..]. by apply key_lt_irrefl in E.
Qed.

Lemma dlt_trans x y z : dlt x y = true -> dlt y z = true -> dlt x z = true.
Proof.
  intros H1 H2. pose proof (dlt_not_nan _ _ H1) as [? ?]. pose proof (dlt_not_nan _ _ H2) as [? ?].
  rewrite dlt_key in * by done. by eapply key_lt_trans.
Qed.

Lemma deq_refl x : is_nan x = false -> deq x x = true.
Proof. intros. by apply deq_key. Qed.

Lemma dpos_finite x : dpos x = true -> is_finite x = true.
Proof. by destruct x as [| | |[]]. Qed.

Lemma dpos_gt0 x : dpos x = true -> dlt d0 x = true.
Proof. by destruct x as [| | |[]]. Qed.

Lemma is_finite_not_nan x : is_finite x = true -> is_nan x = false.
Proof. by destruct x. Qed.
End dorder.

(** ** The arithmetic the reservation ledger relies on *)
Section dledger.
Implicit Types x : double.

(** A hold is taken by adding to a zero entry ... *)
Lemma dadd_0_l x : dpos x = true -> dadd d0 x = x.
Proof. by destruct x as [| | |[]]. Qed.

(** ... and given back by subtracting the same amount: exactly +0. *)
Lemma dsub_diag x : is_finite x = true -> dsub x x = d0.
Proof.
  destruct x as [[]| | |s m e]; cbn; try done. intros _.
  unfold dsub, SFsub. by rewrite Z.sub_diag.
Qed.

Lemma dsub_0_r x : dpos x = true -> dsub x d0 = x.
Proof. by destruct x as [| | |[]]. Qed.
End dledger.

(** ** Sums that are not NaN *)
Section not_nan.

Lemma shr_1_nonneg mrs : (0 <= shr_m mrs)%Z -> (0 <= shr_m (shr_1 mrs))%Z.
Proof. destruct mrs as [[|[]|] r s]; cbn; lia. Qed.

Lemma iter_shr_nonneg p mrs : (0 <= shr_m mrs)%Z -> (0 <= shr_m (iter_pos shr_1 p mrs))%Z.
Proof. revert mrs. induction p; cbn; auto using shr_1_nonneg. Qed.

Lemma shr_fexp_nonneg m e l : (0 <= m)%Z -> (0 <= shr_m (shr_fexp dprec demax m e l).1)%Z.
Proof.
  intros Hm. unfold shr_fexp, shr.
  assert (0 <= shr_m (shr_record_of_loc m l))%Z by by destruct l as [|[]].
  case_match; cbn; auto using iter_shr_nonneg.
Qed.

Lemma round_nearest_even_nonneg m l : (0 <= m)%Z -> (0 <= round_nearest_even m l)%Z.
Proof. destruct l as [|[]]; cbn; try lia. destruct (Z.even m); lia. Qed.

Lemma binary_round_aux_not_nan s m e l :
  (0 <= m)%Z -> is_nan (binary_round_aux dprec demax s m e l) = false.
Proof.
  intros Hm. unfold binary_round_aux.
  pose proof (shr_fexp_nonneg m e l Hm) as H1.
  destruct (shr_fexp dprec demax m e l) as [mrs e'] eqn:E1. cbn in H1.
  pose proof (shr_fexp_nonneg _ e' loc_Exact (round_nearest_even_nonneg _ (loc_of_shr_record mrs) H1)) as H2.
  destruct (shr_fexp _ _ _ e' _) as [mrs'' e''] eqn:E2. cbn in H2.
  destruct (shr_m mrs''); cbn; [done| |lia]. by case_match.
Qed.

Lemma binary_normalize_not_nan m e s : is_nan (binary_normalize dprec demax m e s) = false.
Proof.
  destruct m; cbn; [done| |]; unfold binary_round; case_match; by apply binary_round_aux_not_nan.
Qed.

(** Adding a finite value to a non-NaN never gives a NaN. *)
Lemma dadd_finite_not_nan x y :
  is_nan x = false -> is_finite y = true -> is_nan (dadd x y) = false.
Proof.
  destruct x as [[]|[]| |s m e], y as [[]| | |s' m' e']; cbn; try done; intros _ _;
    apply binary_normalize_not_nan.
Qed.

Lemma std_max_0_not_nan x : is_nan (std_max d0 x) = false.
Proof. unfold std_max. destruct (d0 <? x)%D eqn:E; [|done]. apply dlt_not_nan in E. tauto. Qed.
End not_nan.
#[export] Hint Resolve dadd_finite_not_nan std_max_0_not_nan dlt_irrefl dpos_finite dpos_gt0 is_finite_not_nan : fabric.

(** ** Bit patterns round-trip *)
Section bits.

Lemma digits2_pos_bounds m :
  (2 ^ (Zpos (digits2_pos m) - 1) <= Zpos m < 2 ^ Zpos (digits2_pos m))%Z.
Proof.
  induction m as [p IH|p IH|]; cbn [digits2_pos]; [| |done];
    rewrite Pos2Z.inj_succ;
    replace (Z.succ (Zpos (digits2_pos p)) - 1)%Z with (Z.succ (Zpos (digits2_pos p) - 1)) by lia;
    rewrite !Z.pow_succ_r by lia; lia.
Qed.

(** A canonical finite double is subnormal (small mantissa, least exponent) or
    has a 53-bit mantissa and an exponent in range. *)
Lemma double_ok_finite s m e :
  double_ok (S754_finite s m e) ->
  (Npos m < 2 ^ 52 /\ e = (-1074)%Z) \/ (2 ^ 52 <= Npos m < 2 ^ 53 /\ (-1074 <= e <= 971)%Z).
Proof.
  unfold double_ok. cbn. unfold bounded, canonical_mantissa, fexp, emin, dprec, demax.
  intros [Hc%Z.eqb_eq He%Z.leb_le]%andb_prop.
  pose proof (digits2_pos_bounds m) as [Hlo Hhi].
  set (d := Zpos (digits2_pos m)) in *.
  assert (d <= 53)%Z by lia.
  destruct (Z.eq_dec d 53) as [E|E].
  - right. rewrite E in *. lia.
  - left. assert (2 ^ d <= 2 ^ 52)%Z by (apply Z.pow_le_mono_r; lia). lia.
Qed.

Lemma double_to_bits_u64 x : double_ok x -> u64_ok (double_to_bits x).
Proof.
  destruct x as [[]|[]| |s m e]; [done..|]. intros Hx%double_ok_finite. unfold u64_ok. cbn [double_to_bits].
  destruct (N.ltb_spec (Npos m) (2 ^ 52)); destruct s; lia.
Qed.

Lemma bits_fields (s : bool) (ex mant : N) :
  ex < 2048 -> mant < 2 ^ 52 ->
  let u := (if s then 2 ^ 63 else 0) + ex * 2 ^ 52 + mant in
  (2 ^ 63 <=? u) = s /\ (u / 2 ^ 52) mod 2 ^ 11 = ex /\ u mod 2 ^ 52 = mant.
Proof.
  intros Hex Hm u. subst u. split; [|split].
  - destruct s; [apply N.leb_le|apply N.leb_gt]; lia.
  - assert (Hu : (if s then 2 ^ 63 else 0) + ex * 2 ^ 52 + mant
      = (ex + (if s then 1 else 0) * 2 ^ 11) * 2 ^ 52 + mant) by (destruct s; lia).
    rewrite Hu, N.div_add_l, (N.div_small mant), N.add_0_r by done.
    rewrite N.Div0.mod_add. by apply N.mod_small.
  - assert (Hu : (if s then 2 ^ 63 else 0) + ex * 2 ^ 52 + mant
      = mant + (ex + (if s then 1 else 0) * 2 ^ 11) * 2 ^ 52) by (destruct s; lia).
    rewrite Hu, N.Div0.mod_add. by apply N.mod_small.
Qed.

(** Reading back the bits of a canonical double gives that double. *)
Lemma bits_double_round x : double_ok x -> bits_to_double (double_to_bits x) = x.
Proof.
  destruct x as [[]|[]| |s m e]; [done..|]. intros Hx%double_ok_finite. cbn [double_to_bits].
  unfold bits_to_double. destruct (N.ltb_spec (Npos m) (2 ^ 52)) as [Hm|Hm].
  - destruct (bits_fields s 0 (Npos m)) as (Hs & He & Hmant); [lia..|].
    rewrite N.mul_0_l, N.add_0_r in Hs, He, Hmant. rewrite Hs, He, Hmant. cbn.
    f_equal. lia.
  - destruct (bits_fields s (Z.to_N (e + 1075)) (Npos m - 2 ^ 52)) as (Hs & He & Hmant); [lia..|].
    rewrite Hs, He, Hmant.
    destruct (N.eqb_spec (Z.to_N (e + 1075)) 0); [lia|].
    destruct (N.eqb_spec (Z.to_N (e + 1075)) 2047); [lia|].
    replace (Npos m - 2 ^ 52 + 2 ^ 52) with (Npos m) by lia. f_equal. lia.
Qed.

End bits.
