(* ===== verification/Codec.v ===== *)
(** * Byte writers and readers of the codecs

    [WireWriter] and [WireReader] of [include/dfabric/codec.hpp], which the
    structs [Writer] and [Reader] of [src/dfabric/persistence.cpp] repeat, and
    the shape that all decoders of both files have.

    A writer is a function from the buffer to the extended buffer or the thrown
    message ([W]).  A reader keeps [pos] and the sticky flag [ok] at their C++
    widths.  A decoder ([Dec]) threads the reader and the object it fills, so
    that a rejected input leaves the same partly filled object as the code does;
    its outcome is [Ret] ([return true] or the value read), [Fail]
    ([return false]) or [Fault], a read outside the buffer, which the theorems
    exclude.

    [transfers w m t a t'] relates the two: what [w] writes, [m] started on the
    object [t] reads back with result [a], leaving the object [t'] and the reader
    right after the bytes.  [safe m] says that [m] never faults, whatever the
    bytes. *)

From S2P Require Import Prelude Bytes Enums Ids Double.

(** [kWireMaxLen], [kWireMaxCount]; [kMaxLen], [kMaxCount] in persistence.cpp. *)
Definition kWireMaxLen : N := 2 ^ 15.
Definition kWireMaxCount : N := 2 ^ 20.

(** ** Writers *)
Definition W : Type := list byte -> string + list byte.

Module Wr.
Definition U8 (v : N) : W := fun buf => inr (buf ++ [byte_of v]).
Definition U16 (v : N) : W := fun buf =>
  inr (buf ++ [byte_of (N.land v 255)] ++ [byte_of (N.land (N.shiftr v 8) 255)]).
Definition U32 (v : N) : W := fun buf => inr (PutU32 buf v).
Definition U64 (v : N) : W := fun buf => inr (PutU64 buf v).
Definition Dbl (d : double) : W := U64 (double_to_bits d).
(** [too_long] is the text of the exception thrown for an oversized string. *)
Definition Str (too_long : string) (s : string) : W := fun buf =>
  if kWireMaxLen <? N.of_nat (String.length s) then inl too_long
  else inr (PutU32 buf (wrap32 (N.of_nat (String.length s))) ++ String.list_byte_of_string s).
Definition Bool (b : bool) : W := U8 (if b then 1 else 0).
Definition seq (a b : W) : W := fun buf => match a buf with inl e => inl e | inr buf' => b buf' end.
(** [throw]. *)
Definition throw (e : string) : W := fun _ => inl e.
(** [for (const auto& x : l) f(x);] *)
Fixpoint each {A : Type} (f : A -> W) (l : list A) : W :=
  match l with [] => inr | x :: l' => seq (f x) (each f l') end.
(** [w.U32(static_cast<std::uint32_t>(l.size())); for (const auto& x : l) f(x);] *)
Definition counted {A : Type} (f : A -> W) (l : list A) : W :=
  seq (U32 (wrap32 (N.of_nat (length l)))) (each f l).
Definition Enum {E : Type} `{EnumTraits E} (e : E) : W := U32 (enum_code e).
Definition Id {Tag : Set} (i : StrongId Tag) : W := U64 (Value i).
End Wr.

Notation "a ;>> b" := (Wr.seq a b) (at level 100, right associativity) : fabric_scope.

(** ** Readers *)
Module Rd.
Record t := mk { data : list byte; pos : N; ok : bool }.
#[global] Instance eta_t : Eta t := fun r => mk (data r) (pos r) (ok r).
Definition size (r : t) : N := N.of_nat (length (data r)).

(** [ok_ && n <= (size_ - pos_) && pos_ + n >= pos_], on [std::size_t]. *)
Definition Need (n : N) (r : t) : bool :=
  ok r && (n <=? wrap64 (size r + (2 ^ 64 - pos r))) && (pos r <=? wrap64 (pos r + n)).

Definition fail {A : Type} (v : A) (r : t) : option (A * t) := Some (v, r <| ok := false |>).
Definition advance (n : N) (r : t) : t := r <| pos ::= fun p => wrap64 (p + n) |>.

(** A read of [n] bytes with [get], which is [None] outside the buffer. *)
Definition read {A : Type} (n : N) (zero : A) (get : list byte -> nat -> option A) (r : t) : option (A * t) :=
  if negb (Need n r) then fail zero r
  else match get (data r) (N.to_nat (pos r)) with
  | Some v => Some (v, advance n r)
  | None => None
  end.
Definition U8 : t -> option (N * t) := read 1 0 (fun d off => Byte.to_N <$> d !! off).
Definition U16 : t -> option (N * t) := read 2 0 (fun d off => get_le_from 0 2 d off 0).
Definition U32 : t -> option (N * t) := read 4 0 GetU32.
Definition U64 : t -> option (N * t) := read 8 0 GetU64.
Definition Dbl (r : t) : option (double * t) :=
  match U64 r with Some (u, r') => Some (bits_to_double u, r') | None => None end.
Definition slice (n : N) (d : list byte) (off : nat) : option (list byte) :=
  if (off + N.to_nat n <=? length d)%nat then Some (take (N.to_nat n) (drop off d)) else None.
Definition Str (r : t) : option (string * t) :=
  match U32 r with
  | None => None
  | Some (n, r1) =>
      if negb (ok r1) || (kWireMaxLen <? n) || negb (Need n r1) then fail "" r1
      else match slice n (data r1) (N.to_nat (pos r1)) with
      | Some bs => Some (String.string_of_list_byte bs, advance n r1)
      | None => None
      end
  end.
Definition Bool (r : t) : option (bool * t) :=
  match U8 r with Some (v, r') => Some (negb (v =? 0), r') | None => None end.
(** [StrongId(r.U64())]. *)
Definition Id {Tag : Set} (r : t) : option (StrongId Tag * t) :=
  match U64 r with Some (v, r') => Some (Ids.Id v, r') | None => None end.
Definition Skip (n : N) (r : t) : t := if negb (Need n r) then r <| ok := false |> else advance n r.
End Rd.

Definition MakeReader (v : list byte) : Rd.t := Rd.mk v 0 true.

(** ** Decoders *)
Inductive outcome (A : Type) : Type := Ret (a : A) | Fail | Fault.
#[global] Arguments Ret {A} _.
#[global] Arguments Fail {A}.
#[global] Arguments Fault {A}.

Definition Dec (T A : Type) : Type := Rd.t * T -> outcome A * (Rd.t * T).

#[export] Instance Dec_ret {T : Type} : MRet (Dec T) := fun A a st => (Ret a, st).
#[export] Instance Dec_bind {T : Type} : MBind (Dec T) := fun A B k m st =>
  match m st with
  | (Ret a, st') => k a st'
  | (Fail, st') => (Fail, st')
  | (Fault, st') => (Fault, st')
  end.

Section decoders.
Context {T : Type}.

Definition reject {A : Type} : Dec T A := fun st => (Fail, st).
Definition rd {A : Type} (m : Rd.t -> option (A * Rd.t)) : Dec T A := fun '(r, t) =>
  match m r with Some (a, r') => (Ret a, (r', t)) | None => (Fault, (r, t)) end.
Definition assign (f : T -> T) : Dec T unit := fun '(r, t) => (Ret tt, (r, f t)).
(** [return r.ok();] *)
Definition return_ok : Dec T unit := fun '(r, t) => (if Rd.ok r then Ret tt else Fail, (r, t)).

(** [t.p = r.m();] *)
Definition store {A : Type} (p : T -> A) `{!Setter p} (m : Rd.t -> option (A * Rd.t)) : Dec T unit :=
  a ← rd m; assign (set_field p (fun _ => a)).
(** [std::uint32_t v = r.U32(); if (!WireValidEnum<E>(v)) return false;], the
    value [static_cast<E>(v)]. *)
Definition read_enum {E : Type} `{EnumTraits E} (dflt : E) : Dec T E :=
  v ← rd Rd.U32; if ValidEnum E v then mret (enum_cast dflt v) else reject.
Definition store_enum {E : Type} `{EnumTraits E} (p : T -> E) `{!Setter p} (dflt : E) : Dec T unit :=
  e ← read_enum dflt; assign (set_field p (fun _ => e)).
(** [if (!m(r, t.p)) return false;] *)
Definition zoom {U A : Type} (p : T -> U) `{!Setter p} (m : Dec U A) : Dec T A := fun '(r, t) =>
  let '(o, (r', u)) := m (r, p t) in (o, (r', set_field p (fun _ => u) t)).
(** [U u; if (!m(r, u)) return false;], the value [u]. *)
Definition local {U : Type} (dflt : U) (m : Dec U unit) : Dec T U := fun '(r, t) =>
  match m (r, dflt) with
  | (Ret _, (r', u)) => (Ret u, (r', t))
  | (Fail, (r', _)) => (Fail, (r', t))
  | (Fault, (r', _)) => (Fault, (r', t))
  end.
(** [t.p.push_back(m)]. *)
Definition push {A : Type} (p : T -> list A) `{!Setter p} (m : Dec T A) : Dec T unit :=
  a ← m; assign (set_field p (fun l => l ++ [a])).
(** [for (std::uint32_t i = 0; i < n; ++i) body] *)
Fixpoint loop (n : nat) (body : Dec T unit) : Dec T unit :=
  match n with O => mret tt | S n' => body;; loop n' body end.
(** [std::uint32_t n = r.U32(); if (n > kWireMaxCount) return false;] and the loop. *)
Definition counted (body : Dec T unit) : Dec T unit :=
  n ← rd Rd.U32; if kWireMaxCount <? n then reject else loop (N.to_nat n) body.
End decoders.

(** ** Reader states *)

(** The invariant of every reader: the position stays inside the buffer. *)
Definition reader_wf (r : Rd.t) : Prop := Rd.pos r <= Rd.size r /\ u64_ok (Rd.size r).

Lemma Need_spec n r : reader_wf r -> u64_ok n -> Rd.Need n r = Rd.ok r && (Rd.pos r + n <=? Rd.size r).
Proof.
  intros [Hp Hs] Hn. unfold Rd.Need, wrap64, u64_ok in *. rewrite <-andb_assoc. f_equal.
  replace (Rd.size r + (2 ^ 64 - Rd.pos r)) with (Rd.size r - Rd.pos r + 1 * 2 ^ 64) by lia.
  rewrite N.Div0.mod_add, (N.mod_small (Rd.size r - Rd.pos r)) by lia.
  destruct (N.leb_spec (Rd.pos r + n) (Rd.size r)) as [Hle|Hgt].
  - rewrite (N.mod_small (Rd.pos r + n)) by lia. apply andb_true_intro. split; apply N.leb_le; lia.
  - apply andb_false_intro1, N.leb_gt. lia.
Qed.

(** The reader stands, unfailed, before the bytes [bs]. *)
Definition ready (r : Rd.t) (bs : list byte) : Prop :=
  Rd.ok r = true /\ reader_wf r /\ drop (N.to_nat (Rd.pos r)) (Rd.data r) = bs.

Lemma ready_fits r bs rest : ready r (bs ++ rest) -> Rd.pos r + N.of_nat (length bs) <= Rd.size r.
Proof.
  intros (_ & [Hp _] & Hd). apply (f_equal length) in Hd. rewrite length_drop, length_app in Hd. unfold Rd.size in *. lia.
Qed.
Lemma ready_advance r bs rest n : ready r (bs ++ rest) -> n = N.of_nat (length bs) -> ready (Rd.advance n r) rest.
Proof.
  intros Hr ->. pose proof (ready_fits _ _ _ Hr). destruct Hr as (Hok & [Hp Hs] & Hd).
  assert (Hpos : Rd.pos (Rd.advance (N.of_nat (length bs)) r) = Rd.pos r + N.of_nat (length bs)).
  { cbn. apply wrap64_small. unfold u64_ok in *. lia. }
  unfold ready, reader_wf. rewrite Hpos. split_and!; [done..|].
  rewrite N2Nat.inj_add, Nat2N.id, <-drop_drop. cbn. by rewrite Hd, drop_app_length.
Qed.

(** [p[k] = v] for a key and a value that are read one after the other. *)
Definition store_entry {T K A : Type} `{Countable K} (p : T -> gmap K A) `{!Setter p}
    (mk : Rd.t -> option (K * Rd.t)) (mv : Rd.t -> option (A * Rd.t)) : Dec T unit :=
  k ← rd mk; v ← rd mv; assign (set_field p (fun m => <[k := v]> m)).
(** [p.insert(e)] for an enumerator that is read. *)
Definition insert_enum {T E : Type} `{EnumTraits E} `{Countable E} (p : T -> gset E) `{!Setter p} (dflt : E) : Dec T unit :=
  e ← read_enum dflt; assign (set_field p (fun s => {[e]} ∪ s)).

(** ** No read leaves the buffer *)

(** The reader moves forward on the same bytes, and a failure is never undone. *)
Definition moves (r r' : Rd.t) : Prop :=
  reader_wf r' /\ Rd.data r' = Rd.data r /\ Rd.pos r <= Rd.pos r' /\ (Rd.ok r' = true -> Rd.ok r = true).
Definition safe_read {A : Type} (m : Rd.t -> option (A * Rd.t)) : Prop :=
  forall r, reader_wf r -> exists a r', m r = Some (a, r') /\ moves r r'.
Definition safe {T A : Type} (m : Dec T A) : Prop :=
  forall r t, reader_wf r -> exists o r' t', m (r, t) = (o, (r', t')) /\ o <> Fault /\ moves r r'.

Lemma moves_refl r : reader_wf r -> moves r r.
Proof. intros H. by split; [|split]. Qed.
Lemma moves_trans r1 r2 r3 : moves r1 r2 -> moves r2 r3 -> moves r1 r3.
Proof. intros (? & ? & ? & ?) (? & ? & ? & ?). unfold moves. split_and!; [done|congruence|lia|auto]. Qed.
Lemma moves_fail r : reader_wf r -> moves r (r <| Rd.ok := false |>).
Proof. intros H. by split; [|split]. Qed.
Lemma moves_advance n r : reader_wf r -> Rd.pos r + n <= Rd.size r -> moves r (Rd.advance n r).
Proof.
  intros [Hp Hs] Hn. assert (wrap64 (Rd.pos r + n) = Rd.pos r + n) as Hw by (apply wrap64_small; unfold u64_ok in *; lia).
  unfold moves, reader_wf, Rd.advance, Rd.size in *. cbn. rewrite Hw. split_and!; try done; lia.
Qed.

Lemma read_safe {A : Type} n (zero : A) get :
  u64_ok n -> (forall d off, (off + N.to_nat n <= length d)%nat -> is_Some (get d off)) -> safe_read (Rd.read n zero get).
Proof.
  intros Hn Hget r Hwf. unfold Rd.read. rewrite Need_spec by done. destruct (Rd.ok r); cbn [andb negb].
  - destruct (N.leb_spec (Rd.pos r + n) (Rd.size r)) as [Hle|]; cbn [negb].
    + destruct (Hget (Rd.data r) (N.to_nat (Rd.pos r))) as [v ->]; [unfold Rd.size in Hle; lia|].
      eexists _, _. split; [done|]. by apply moves_advance.
    + eexists _, _. split; [done|]. by apply moves_fail.
  - eexists _, _. split; [done|]. by apply moves_fail.
Qed.
Lemma U8_safe : safe_read Rd.U8.
Proof. apply read_safe; [done|]. intros d off Hd. apply fmap_is_Some, lookup_lt_is_Some_2. lia. Qed.
Lemma U32_safe : safe_read Rd.U32.
Proof. apply read_safe; [done|]. intros d off Hd. by rewrite GetU32_spec, decide_True by done. Qed.
Lemma U64_safe : safe_read Rd.U64.
Proof. apply read_safe; [done|]. intros d off Hd. by rewrite GetU64_spec, decide_True by done. Qed.
Lemma Dbl_safe : safe_read Rd.Dbl.
Proof. intros r (v & r' & Hm & Hr')%U64_safe. unfold Rd.Dbl. rewrite Hm. eauto. Qed.
Lemma Id_safe {Tag : Set} : safe_read (Rd.Id (Tag := Tag)).
Proof. intros r (v & r' & Hm & Hr')%U64_safe. unfold Rd.Id. rewrite Hm. eauto. Qed.
Lemma Bool_safe : safe_read Rd.Bool.
Proof. intros r (v & r' & Hm & Hr')%U8_safe. unfold Rd.Bool. rewrite Hm. eauto. Qed.
Lemma Str_safe : safe_read Rd.Str.
Proof.
  intros r Hwf. destruct (U32_safe r Hwf) as (n & r1 & Hm & Hr1). unfold Rd.Str. rewrite Hm.
  assert (Hwf1 : reader_wf r1) by apply Hr1.
  destruct (negb (Rd.ok r1) || (kWireMaxLen <? n) || negb (Rd.Need n r1)) eqn:E.
  { eexists _, _. split; [done|]. eapply moves_trans; [exact Hr1|by apply moves_fail]. }
  apply orb_false_iff in E as [[_ Hn%N.ltb_ge]%orb_false_iff HN%negb_false_iff].
  rewrite Need_spec in HN by (done || unfold u64_ok, kWireMaxLen in *; lia).
  apply andb_prop in HN as [_ HN%N.leb_le].
  unfold Rd.slice. rewrite (proj2 (Nat.leb_le _ _)) by (unfold Rd.size in *; lia).
  eexists _, _. split; [done|]. eapply moves_trans; [exact Hr1|by apply moves_advance].
Qed.

Create HintDb safe.
#[export] Hint Resolve U8_safe U32_safe U64_safe Id_safe Dbl_safe Bool_safe Str_safe : safe.

Section safe_rules.
Context {T : Type}.

Lemma safe_bind {A B : Type} (m : Dec T A) (k : A -> Dec T B) : safe m -> (forall a, safe (k a)) -> safe (m ≫= k).
Proof.
  intros Hm Hk r t Hr. destruct (Hm r t Hr) as (o & r1 & t1 & E & Ho & H1). unfold mbind, Dec_bind. rewrite E.
  destruct o as [a| |]; [|eexists _, _, _; by split_and!|done].
  destruct (Hk a r1 t1) as (o & r2 & t2 & E2 & Ho2 & H2); [apply H1|].
  eexists _, _, _. split_and!; [exact E2|done|by eapply moves_trans].
Qed.
Lemma safe_seq {A B : Type} (m : Dec T A) (m' : Dec T B) : safe m -> safe m' -> safe (m;; m').
Proof. intros Hm Hm'. by apply safe_bind. Qed.
Lemma safe_ret {A : Type} (a : A) : safe (T := T) (mret a).
Proof. intros r t Hr. eexists _, _, _. split_and!; [done..|by apply moves_refl]. Qed.
Lemma safe_reject {A : Type} : safe (T := T) (A := A) reject.
Proof. intros r t Hr. eexists _, _, _. split_and!; [done..|by apply moves_refl]. Qed.
Lemma safe_assign (f : T -> T) : safe (assign f).
Proof. intros r t Hr. eexists _, _, _. split_and!; [done..|by apply moves_refl]. Qed.
Lemma safe_return_ok : safe (T := T) return_ok.
Proof. intros r t Hr. eexists _, _, _. split_and!; [done|by destruct (Rd.ok r)|by apply moves_refl]. Qed.
Lemma safe_rd {A : Type} (m : Rd.t -> option (A * Rd.t)) : safe_read m -> safe (T := T) (rd m).
Proof.
  intros Hm r t (a & r' & E & Hr')%Hm. eexists _, _, _. unfold rd. rewrite E. by split_and!.
Qed.
Lemma safe_zoom {U A : Type} (p : T -> U) `{!Setter p} (m : Dec U A) : safe m -> safe (zoom p m).
Proof.
  intros Hm r t Hr. destruct (Hm r (p t) Hr) as (o & r' & u & E & Ho & Hr'). unfold zoom. rewrite E.
  eexists _, _, _. by split_and!.
Qed.
Lemma safe_local {U : Type} (d : U) (m : Dec U unit) : safe m -> safe (T := T) (local d m).
Proof.
  intros Hm r t Hr. destruct (Hm r d Hr) as (o & r' & u & E & Ho & Hr'). unfold local. rewrite E.
  destruct o; [..|done]; eexists _, _, _; by split_and!.
Qed.
Lemma safe_loop n (body : Dec T unit) : safe body -> safe (loop n body).
Proof. intros Hb. induction n as [|n IH]; cbn [loop]; [apply safe_ret|]. by apply safe_bind. Qed.

Lemma safe_store {A : Type} (p : T -> A) `{!Setter p} m : safe_read m -> safe (store p m).
Proof. intros Hm. apply safe_bind; [by apply safe_rd|]. intros. apply safe_assign. Qed.
Lemma safe_read_enum {E : Type} `{EnumTraits E} (d : E) : safe (T := T) (read_enum d).
Proof. apply safe_bind; [apply safe_rd, U32_safe|]. intros v. destruct (ValidEnum _ v); [apply safe_ret|apply safe_reject]. Qed.
Lemma safe_store_enum {E : Type} `{EnumTraits E} (p : T -> E) `{!Setter p} (d : E) : safe (store_enum p d).
Proof. apply safe_bind; [apply safe_read_enum|]. intros. apply safe_assign. Qed.
Lemma safe_push {A : Type} (p : T -> list A) `{!Setter p} (m : Dec T A) : safe m -> safe (push p m).
Proof. intros Hm. apply safe_bind; [done|]. intros. apply safe_assign. Qed.
Lemma safe_counted (body : Dec T unit) : safe body -> safe (counted body).
Proof.
  intros Hb. apply safe_bind; [apply safe_rd, U32_safe|]. intros n. destruct (_ <? n); [apply safe_reject|by apply safe_loop].
Qed.
Lemma safe_store_entry {K A : Type} `{Countable K} (p : T -> gmap K A) `{!Setter p} mk mv :
  safe_read mk -> safe_read mv -> safe (store_entry p mk mv).
Proof.
  intros Hk Hv. apply safe_bind; [by apply safe_rd|]. intros. apply safe_bind; [by apply safe_rd|]. intros. apply safe_assign.
Qed.
Lemma safe_insert_enum {E : Type} `{EnumTraits E} `{Countable E} (p : T -> gset E) `{!Setter p} (d : E) : safe (insert_enum p d).
Proof. apply safe_bind; [apply safe_read_enum|]. intros. apply safe_assign. Qed.
End safe_rules.
#[export] Hint Resolve safe_seq safe_ret safe_reject safe_assign safe_return_ok safe_rd safe_zoom safe_local safe_store
  safe_read_enum safe_store_enum safe_push safe_counted safe_store_entry safe_insert_enum : safe.
(** A decoder written as a sequence of statements. *)
Ltac solve_safe := first [apply safe_seq; [by eauto 10 with safe|solve_safe]|by eauto 10 with safe].

(** ** What a writer writes and a reader reads back

    Besides reading back what was written, a codec notices truncation: on a
    strict prefix of the bytes ([short]) the decoder fails, or at least leaves
    the reader failed. *)
Definition encodes (w : W) (bs : list byte) : Prop := forall buf, w buf = inr (buf ++ bs).
Definition short {A : Type} (l' l : list A) : Prop := exists x k, l = l' ++ x :: k.

Record reads {A : Type} (m : Rd.t -> option (A * Rd.t)) (bs : list byte) (a : A) : Prop := {
  reads_safe : safe_read m;
  reads_back : forall r rest, ready r (bs ++ rest) -> exists r', m r = Some (a, r') /\ ready r' rest;
  reads_short : forall r bs' b r', ready r bs' -> short bs' bs -> m r = Some (b, r') -> Rd.ok r' = false;
}.
Record decodes {T A : Type} (m : Dec T A) (t : T) (bs : list byte) (a : A) (t' : T) : Prop := {
  decodes_safe : safe m;
  decodes_back : forall r rest, ready r (bs ++ rest) -> exists r', m (r, t) = (Ret a, (r', t')) /\ ready r' rest;
  decodes_short : forall r bs' b r' t2, ready r bs' -> short bs' bs -> m (r, t) = (Ret b, (r', t2)) -> Rd.ok r' = false;
}.

(** The same for a primitive reader and for a decoder. *)
Definition carries {A : Type} (w : W) (m : Rd.t -> option (A * Rd.t)) (a : A) : Prop :=
  exists bs, encodes w bs /\ reads m bs a.
Definition transfers {T A : Type} (w : W) (m : Dec T A) (t : T) (a : A) (t' : T) : Prop :=
  exists bs, encodes w bs /\ decodes m t bs a t'.

Lemma short_length {A : Type} (l' l : list A) : short l' l -> (length l' < length l)%nat.
Proof. intros (x & k & ->). rewrite length_app. cbn. lia. Qed.
Lemma short_nil {A : Type} (l : list A) : ~ short l [].
Proof. intros H%short_length. cbn in H. lia. Qed.
Lemma short_app {A : Type} (l l1 l2 : list A) :
  short l (l1 ++ l2) -> short l l1 \/ exists l', l = l1 ++ l' /\ short l' l2.
Proof.
  intros (x & k & [(l' & -> & Hl)|(l' & -> & ->)]%app_eq_inv).
  - destruct l' as [|y l']; cbn in Hl.
    + right. exists []. rewrite !app_nil_r. split; [done|]. by exists x, k.
    + injection Hl as <- ->. left. by exists x, l'.
  - right. exists l'. split; [done|]. by exists x, k.
Qed.
Lemma short_take {A : Type} n (l1 l2 : list A) : (n < length l1)%nat -> short (take n (l1 ++ l2)) l1.
Proof.
  intros Hn. rewrite take_app_le by lia. destruct (lookup_lt_is_Some_2 l1 n Hn) as [x Hx].
  exists x, (drop (S n) l1). by rewrite take_drop_middle.
Qed.
Lemma ready_size r bs : ready r bs -> Rd.pos r + N.of_nat (length bs) = Rd.size r.
Proof. intros (_ & [Hp _] & <-). unfold Rd.size in *. rewrite length_drop. lia. Qed.
Lemma ready_wf r bs : ready r bs -> reader_wf r.
Proof. by intros (_ & H & _). Qed.
(** A failed reader stays failed. *)
Lemma safe_sticky {T A : Type} (m : Dec T A) r t a r' t' :
  safe m -> reader_wf r -> Rd.ok r = false -> m (r, t) = (Ret a, (r', t')) -> Rd.ok r' = false.
Proof.
  intros Hs Hr Hok E. destruct (Hs r t Hr) as (o & r1 & t1 & E1 & _ & _ & _ & _ & Hk). rewrite E in E1. simplify_eq.
  destruct (Rd.ok r1); [|done]. rewrite Hk in Hok; done.
Qed.
Lemma safe_moves {T A : Type} (m : Dec T A) r t o r' t' : safe m -> reader_wf r -> m (r, t) = (o, (r', t')) -> moves r r'.
Proof. intros Hs Hr E. destruct (Hs r t Hr) as (o1 & r1 & t1 & E1 & _ & H). rewrite E in E1. by simplify_eq. Qed.

Lemma read_reads {A : Type} n (zero : A) get bs a :
  n = N.of_nat (length bs) -> u64_ok n -> (forall d off, (off + N.to_nat n <= length d)%nat -> is_Some (get d off)) ->
  (forall pre rest, get (pre ++ bs ++ rest) (length pre) = Some a) -> reads (Rd.read n zero get) bs a.
Proof.
  intros -> Hn Hin Hget. split; [by apply read_safe|intros r rest Hr|intros r bs' b r' Hr Hs].
  - exists (Rd.advance (N.of_nat (length bs)) r).
    split; [|by eapply ready_advance]. pose proof (ready_fits _ _ _ Hr). destruct Hr as (Hok & Hwf & Hd).
    unfold Rd.read. rewrite Need_spec, Hok by done. rewrite (proj2 (N.leb_le _ _)) by done. cbn [andb negb].
    assert (Hsplit : Rd.data r = take (N.to_nat (Rd.pos r)) (Rd.data r) ++ bs ++ rest) by (by rewrite <-Hd, take_drop).
    specialize (Hget (take (N.to_nat (Rd.pos r)) (Rd.data r)) rest). rewrite <-Hsplit, length_take, Nat.min_l in Hget.
    + by rewrite Hget.
    + unfold Rd.size in *. lia.
  - apply short_length in Hs. pose proof (ready_size _ _ Hr). unfold Rd.read.
    rewrite Need_spec by first [done|by eapply ready_wf]. rewrite (proj2 (N.leb_gt _ _)), andb_false_r by lia.
    by intros [= _ <-].
Qed.
(** Post-processing the value that is read. *)
Lemma reads_map {A B : Type} (f : A -> B) (m : Rd.t -> option (A * Rd.t)) bs a :
  reads m bs a -> reads (fun r => match m r with Some (a, r') => Some (f a, r') | None => None end) bs (f a).
Proof.
  intros [Hs Hb Hc]. split.
  - intros r (v & r' & -> & Hr')%Hs. eauto.
  - intros r rest (r' & -> & Hr')%Hb. eauto.
  - intros r bs' b r' Hr Hsh. destruct (m r) as [[v r1]|] eqn:E; [|done]. intros [= _ <-]. by eapply Hc.
Qed.

Lemma get_le_mid {get : list byte -> nat -> option N} k :
  (forall d off, get d off = if decide (off + k <= length d)%nat then Some (le_value (take k (drop off d))) else None) ->
  forall pre x rest, x < 256 ^ N.of_nat k -> get (pre ++ le_bytes k x ++ rest) (length pre) = Some x.
Proof.
  intros Hspec pre x rest Hx. rewrite Hspec, decide_True by (rewrite !length_app, length_le_bytes; lia).
  rewrite drop_app_length, take_app_length' by (by rewrite length_le_bytes). by rewrite le_value_bytes.
Qed.

Lemma U32_reads v : u32_ok v -> reads Rd.U32 (le_bytes 4 v) v.
Proof.
  intros Hv. apply read_reads; [by rewrite length_le_bytes|done| |intros; by apply (get_le_mid 4 GetU32_spec)].
  intros d off Hd. by rewrite GetU32_spec, decide_True by done.
Qed.
Lemma U64_reads v : u64_ok v -> reads Rd.U64 (le_bytes 8 v) v.
Proof.
  intros Hv. apply read_reads; [by rewrite length_le_bytes|done| |intros; by apply (get_le_mid 8 GetU64_spec)].
  intros d off Hd. by rewrite GetU64_spec, decide_True by done.
Qed.
Lemma U32_carries v : u32_ok v -> carries (Wr.U32 v) Rd.U32 v.
Proof.
  intros Hv. exists (le_bytes 4 v). split; [intros buf; unfold Wr.U32; by rewrite PutU32_eq|by apply U32_reads].
Qed.
Lemma U64_carries v : u64_ok v -> carries (Wr.U64 v) Rd.U64 v.
Proof.
  intros Hv. exists (le_bytes 8 v). split; [intros buf; unfold Wr.U64; by rewrite PutU64_eq|by apply U64_reads].
Qed.
Lemma Bool_carries b : carries (Wr.Bool b) Rd.Bool b.
Proof.
  exists [if b then x01 else x00]. split; [intros buf; by destruct b|].
  assert (H : reads Rd.U8 [if b then x01 else x00] (if b then 1 else 0)).
  { apply read_reads; [done..| |].
    - intros d off Hd. apply fmap_is_Some, lookup_lt_is_Some_2. lia.
    - intros pre rest'. rewrite lookup_app_r, Nat.sub_diag by done. by destruct b. }
  apply (reads_map (fun v => negb (v =? 0))) in H. by destruct b.
Qed.
Lemma Id_carries {Tag : Set} (i : StrongId Tag) : u64_ok (Value i) -> carries (Wr.Id i) Rd.Id i.
Proof.
  intros Hi. destruct (U64_carries (Value i) Hi) as (bs & Hw & Hr). exists bs. split; [exact Hw|].
  apply (reads_map (@Id Tag)) in Hr. by destruct i.
Qed.
Lemma Dbl_carries d : double_ok d -> carries (Wr.Dbl d) Rd.Dbl d.
Proof.
  intros Hd. destruct (U64_carries (double_to_bits d)) as (bs & Hw & Hr); [by apply double_to_bits_u64|].
  exists bs. split; [exact Hw|]. apply (reads_map bits_to_double) in Hr. by rewrite bits_double_round in Hr.
Qed.

Lemma length_list_byte_of_string s : length (String.list_byte_of_string s) = String.length s.
Proof. unfold String.list_byte_of_string. rewrite length_map. by induction s; cbn; f_equal. Qed.

Definition str_ok (s : string) : Prop := N.of_nat (String.length s) <= kWireMaxLen.

Lemma Str_reads bn s :
  str_ok s -> reads Rd.U32 bn (N.of_nat (String.length s)) -> reads Rd.Str (bn ++ String.list_byte_of_string s) s.
Proof.
  intros Hs [_ Hb Hc]. unfold str_ok, kWireMaxLen in Hs. set (n := N.of_nat (String.length s)) in *.
  assert (Hn : n = N.of_nat (length (String.list_byte_of_string s))) by (by rewrite length_list_byte_of_string).
  split; [exact Str_safe|intros r rest Hr|intros r bs' b r' Hr Hsh].
  - rewrite <-app_assoc in Hr. destruct (Hb _ _ Hr) as (r1 & Hm & Hr1).
    exists (Rd.advance n r1). split; [|by eapply ready_advance].
    pose proof (ready_fits _ _ _ Hr1) as Hfit. rewrite <-Hn in Hfit. destruct Hr1 as (Hok & Hwf & Hd).
    unfold Rd.Str. rewrite Hm, Hok, Need_spec, Hok by (done || unfold u64_ok; lia).
    rewrite (proj2 (N.ltb_ge _ _)), (proj2 (N.leb_le _ _)) by (done || unfold kWireMaxLen; lia). cbn [negb orb andb].
    unfold Rd.slice. rewrite (proj2 (Nat.leb_le _ _)) by (unfold Rd.size in *; lia).
    by rewrite Hd, Hn, Nat2N.id, take_app_length, String.string_of_list_byte_of_string.
  - unfold Rd.Str. destruct (short_app _ _ _ Hsh) as [Hsh1|(b' & -> & Hsh1)].
    + destruct (Rd.U32 r) as [[v r1]|] eqn:E; [|done]. rewrite (Hc _ _ _ _ Hr Hsh1 E). cbn [negb orb].
      by intros [= _ <-].
    + destruct (Hb _ _ Hr) as (r1 & -> & Hr1). apply short_length in Hsh1. pose proof (ready_size _ _ Hr1).
      rewrite Need_spec by first [by eapply ready_wf|unfold u64_ok; lia].
      rewrite (proj2 (N.leb_gt _ _)), andb_false_r by lia. cbn [negb]. rewrite orb_true_r. by intros [= _ <-].
Qed.
Lemma Str_carries e s : str_ok s -> carries (Wr.Str e s) Rd.Str s.
Proof.
  intros Hs. destruct (U32_carries (N.of_nat (String.length s))) as (bn & Hwn & Hrn).
  { unfold str_ok, kWireMaxLen, u32_ok in *. lia. }
  exists (bn ++ String.list_byte_of_string s). split; [|by apply Str_reads].
  intros buf. unfold Wr.Str. rewrite (proj2 (N.ltb_ge _ _)) by done.
  specialize (Hwn buf). unfold Wr.U32 in Hwn. injection Hwn as Hwn.
  rewrite wrap32_small by (unfold str_ok, kWireMaxLen, u32_ok in *; lia). by rewrite Hwn, app_assoc.
Qed.

(** ** Rules for decoders *)
Section rules.
Context {T : Type}.
Implicit Types (t : T) (w : W).

Lemma decodes_bind {A B : Type} (m : Dec T A) (k : A -> Dec T B) t b1 a t1 b2 b t2 :
  decodes m t b1 a t1 -> (forall a, safe (k a)) -> decodes (k a) t1 b2 b t2 -> decodes (m ≫= k) t (b1 ++ b2) b t2.
Proof.
  intros [Hs1 Hb1 Hc1] Hk [Hs2 Hb2 Hc2]. split; [by apply safe_bind|intros r rest Hr|intros r bs' b' r' t' Hr Hsh].
  - rewrite <-app_assoc in Hr. destruct (Hb1 _ _ Hr) as (r1 & Hm & Hr1).
    destruct (Hb2 _ _ Hr1) as (r2 & Hm2 & Hr2). exists r2. unfold mbind, Dec_bind. by rewrite Hm.
  - unfold mbind, Dec_bind. destruct (short_app _ _ _ Hsh) as [Hsh1|(b1' & -> & Hsh1)].
    + destruct (m (r, t)) as [[a'| |] [r1 t1']] eqn:E; [|done..]. intros E2.
      eapply safe_sticky; [apply Hk| | |exact E2].
      * eapply (safe_moves m); [exact Hs1|by eapply ready_wf|exact E].
      * by eapply Hc1.
    + destruct (Hb1 _ _ Hr) as (r1 & -> & Hr1). by eapply Hc2.
Qed.
Lemma tr_bind {A B : Type} w1 w2 (m : Dec T A) (k : A -> Dec T B) t a t1 b t2 :
  transfers w1 m t a t1 -> (forall a, safe (k a)) -> transfers w2 (k a) t1 b t2 ->
  transfers (w1 ;>> w2) (m ≫= k) t b t2.
Proof.
  intros (b1 & Hw1 & Hd1) Hk (b2 & Hw2 & Hd2). exists (b1 ++ b2). split; [|by eapply decodes_bind].
  intros buf. unfold Wr.seq. by rewrite Hw1, Hw2, app_assoc.
Qed.
(** Two statements. *)
Lemma tr_seq {A B : Type} w1 w2 (m : Dec T A) (m' : Dec T B) t a t1 b t2 :
  transfers w1 m t a t1 -> transfers w2 m' t1 b t2 -> transfers (w1 ;>> w2) (m;; m') t b t2.
Proof. intros H1 H2. eapply tr_bind; [exact H1| |exact H2]. intros _. by destruct H2 as (? & _ & [? _ _]). Qed.
(** A continuation that reads nothing. *)
Lemma tr_pure {A B : Type} w (m : Dec T A) (k : A -> Dec T B) t a t1 b t2 :
  transfers w m t a t1 -> (forall a, safe (k a)) -> transfers inr (k a) t1 b t2 -> transfers w (m ≫= k) t b t2.
Proof.
  intros H1 Hk H2. destruct (tr_bind _ _ _ _ _ _ _ _ _ H1 Hk H2) as (bs & Hw & Hd). exists bs. split; [|done].
  intros buf. specialize (Hw buf). unfold Wr.seq in Hw. destruct H1 as (? & Hw1 & _). rewrite Hw1 in *. done.
Qed.
Lemma tr_silent {A : Type} (m : Dec T A) t a t' :
  safe m -> (forall r, Rd.ok r = true -> m (r, t) = (Ret a, (r, t'))) -> transfers inr m t a t'.
Proof.
  intros Hs Hm. exists []. split; [intros buf; by rewrite app_nil_r|]. split; [done| |].
  - intros r rest Hr. exists r. split; [apply Hm, Hr|done].
  - intros r bs' b r' t2 _ Hsh. by apply short_nil in Hsh.
Qed.
Lemma tr_ret {A : Type} (a : A) t : transfers inr (mret a) t a t.
Proof. by apply tr_silent; [apply safe_ret|]. Qed.
Lemma tr_assign f t : transfers inr (assign f) t tt (f t).
Proof. by apply tr_silent; [apply safe_assign|]. Qed.
(** The last statement before [return r.ok();]. *)
Lemma tr_last w (m : Dec T unit) t t' : transfers w m t tt t' -> transfers w (m;; return_ok) t tt t'.
Proof.
  intros H. eapply tr_pure; [exact H|intros _; apply safe_return_ok|]. apply tr_silent; [apply safe_return_ok|].
  intros r Hr. unfold return_ok. by rewrite Hr.
Qed.

Lemma tr_eq {A : Type} w (m : Dec T A) t a t1 t2 : transfers w m t a t1 -> t1 = t2 -> transfers w m t a t2.
Proof. by intros ? <-. Qed.
Lemma decodes_rd {A : Type} (m : Rd.t -> option (A * Rd.t)) bs a t : reads m bs a -> decodes (rd m) t bs a t.
Proof.
  intros [Hs Hb Hc]. split; [by apply safe_rd| |].
  - intros r rest (r' & Hm & Hr')%Hb. exists r'. unfold rd. by rewrite Hm.
  - intros r bs' b r' t2 Hr Hsh. unfold rd. destruct (m r) as [[v r1]|] eqn:E; [|done]. intros [= _ <- _]. by eapply Hc.
Qed.
Lemma tr_rd {A : Type} w (m : Rd.t -> option (A * Rd.t)) a t : carries w m a -> transfers w (rd m) t a t.
Proof. intros (bs & Hw & Hr). exists bs. split; [done|by apply decodes_rd]. Qed.
Lemma tr_store {A : Type} (p : T -> A) `{!Setter p} w m a t :
  carries w m a -> transfers w (store p m) t tt (set_field p (fun _ => a) t).
Proof. intros H. eapply tr_pure; [by apply tr_rd|intros; apply safe_assign|]. apply tr_assign. Qed.

Definition enum_ok {E : Type} `{EnumTraits E} (e : E) : Prop := ValidEnum E (enum_code e) = true.
Lemma tr_read_enum {E : Type} `{EnumLaws E} (d e : E) t :
  enum_ok e -> transfers (Wr.Enum e) (read_enum d) t e t.
Proof.
  intros He. eapply tr_pure; [apply tr_rd, U32_carries; apply enum_code_u32| |].
  - intros v. destruct (ValidEnum E v); [apply safe_ret|apply safe_reject].
  - cbn beta. unfold enum_ok in He. rewrite He, enum_cast_code. apply tr_ret.
Qed.
Lemma tr_store_enum {E : Type} `{EnumLaws E} (p : T -> E) `{!Setter p} (d e : E) t :
  enum_ok e -> transfers (Wr.Enum e) (store_enum p d) t tt (set_field p (fun _ => e) t).
Proof. intros He. eapply tr_pure; [by apply tr_read_enum|intros; apply safe_assign|]. apply tr_assign. Qed.

Lemma tr_zoom {U A : Type} (p : T -> U) `{!Setter p} w (m : Dec U A) t a u' :
  transfers w m (p t) a u' -> transfers w (zoom p m) t a (set_field p (fun _ => u') t).
Proof.
  intros (bs & Hw & [Hs Hb Hc]). exists bs. split; [done|]. split; [by apply safe_zoom| |].
  - intros r rest (r' & Hm & Hr')%Hb. exists r'. unfold zoom. by rewrite Hm.
  - intros r bs' b r' t2 Hr Hsh. unfold zoom. destruct (m (r, p t)) as [o [r1 u1]] eqn:E. intros [= -> <- _]. by eapply Hc.
Qed.
Lemma tr_local {U : Type} (d : U) w (m : Dec U unit) t u :
  transfers w m d tt u -> transfers w (local d m) t u t.
Proof.
  intros (bs & Hw & [Hs Hb Hc]). exists bs. split; [done|]. split; [by apply safe_local| |].
  - intros r rest (r' & Hm & Hr')%Hb. exists r'. unfold local. by rewrite Hm.
  - intros r bs' b r' t2 Hr Hsh. unfold local. destruct (m (r, d)) as [[] [r1 u1]] eqn:E; [|done..].
    intros [= _ <- _]. by eapply Hc.
Qed.
Lemma tr_push {A : Type} (p : T -> list A) `{!Setter p} w (m : Dec T A) t a :
  transfers w m t a t -> transfers w (push p m) t tt (set_field p (fun l => l ++ [a]) t).
Proof. intros H. eapply tr_pure; [exact H|intros; apply safe_assign|]. apply tr_assign. Qed.

(** A counted loop whose body transfers each element in turn. *)
Definition count_ok {A : Type} (l : list A) : Prop := N.of_nat (length l) <= kWireMaxCount.
Lemma tr_loop {A : Type} (f : A -> W) (body : Dec T unit) (upd : A -> T -> T) l t :
  Forall (fun x => forall t, transfers (f x) body t tt (upd x t)) l ->
  transfers (Wr.each f l) (loop (length l) body) t tt (fold_left (fun t x => upd x t) l t).
Proof.
  intros Hl. revert t. induction Hl as [|x l Hx Hl IH]; intros t; cbn; [apply tr_ret|].
  eapply tr_seq; [apply Hx|apply IH].
Qed.
Lemma tr_counted {A : Type} (f : A -> W) (body : Dec T unit) (upd : A -> T -> T) l t :
  safe body -> count_ok l -> Forall (fun x => forall t, transfers (f x) body t tt (upd x t)) l ->
  transfers (Wr.counted f l) (counted body) t tt (fold_left (fun t x => upd x t) l t).
Proof.
  unfold count_ok, kWireMaxCount. intros Hb Hc Hl. eapply tr_bind.
  - apply tr_rd, U32_carries. unfold u32_ok, wrap32. by apply N.mod_lt.
  - intros n. destruct (_ <? n); [apply safe_reject|by apply safe_loop].
  - cbn beta. rewrite wrap32_small by (unfold u32_ok; lia).
    rewrite (proj2 (N.ltb_ge _ _)) by (unfold kWireMaxCount; lia). rewrite Nat2N.id. by apply tr_loop.
Qed.
End rules.

(** ** Lawful setters

    The setter that [solve_setter] finds behaves like a field; checked per field
    by computation. *)
Class SetterLaws {R A : Type} (p : R -> A) `{!Setter p} : Prop := {
  set_get : forall f r, p (set_field p f r) = f (p r);
  set_set : forall f g r, set_field p f (set_field p g r) = set_field p (fun x => f (g x)) r;
  set_same : forall r, set_field p (fun x => x) r = r;
  set_ext : forall f g r, f (p r) = g (p r) -> set_field p f r = set_field p g r;
}.
Ltac solve_setter_laws :=
  split; [intros ? []; reflexivity|intros ? ? []; reflexivity|intros []; reflexivity|intros ? ? [] ?; cbn in *; f_equal; assumption].
#[global] Hint Extern 1 (@SetterLaws _ _ _ _) => solve_setter_laws : typeclass_instances.

Section containers.
Context {T : Type}.
Implicit Types t : T.

Lemma fold_set_field {A B : Type} (p : T -> B) `{!Setter p} `{!SetterLaws p} (g : A -> B -> B) l t :
  fold_left (fun t x => set_field p (g x) t) l t = set_field p (fun _ => fold_left (fun b x => g x b) l (p t)) t.
Proof.
  revert t. induction l as [|x l IH]; intros t; cbn [fold_left].
  - rewrite <-(set_same t) at 1. by apply set_ext.
  - rewrite IH, set_set. apply set_ext. by rewrite set_get.
Qed.
Lemma tr_counted_field {A B : Type} (p : T -> B) `{!Setter p} `{!SetterLaws p} (f : A -> W) (body : Dec T unit)
    (g : A -> B -> B) l t :
  safe body -> count_ok l -> Forall (fun x => forall t, transfers (f x) body t tt (set_field p (g x) t)) l ->
  transfers (Wr.counted f l) (counted body) t tt (set_field p (fun _ => fold_left (fun b x => g x b) l (p t)) t).
Proof. intros Hb Hc Hl. rewrite <-(fold_set_field p g l t). by apply (tr_counted f body (fun x => set_field p (g x))). Qed.

Lemma fold_push {A B : Type} (h : A -> B) (l : list A) acc : fold_left (fun acc x => acc ++ [h x]) l acc = acc ++ (h <$> l).
Proof. revert acc. induction l as [|x l IH]; intros acc; cbn; [by rewrite app_nil_r|]. by rewrite IH, <-app_assoc. Qed.
(** Each element comes back as its image under [h]. *)
Lemma tr_counted_push_map {A B : Type} (p : T -> list B) `{!Setter p} `{!SetterLaws p} (h : A -> B) (f : A -> W) (m : Dec T B) l t :
  safe m -> p t = [] -> count_ok l -> Forall (fun x => forall t, transfers (f x) m t (h x) t) l ->
  transfers (Wr.counted f l) (counted (push p m)) t tt (set_field p (fun _ => h <$> l) t).
Proof.
  intros Hs Hp Hc Hl.
  pose proof (tr_counted_field p f (push p m) (fun x l => l ++ [h x]) l t (safe_push _ _ Hs) Hc) as H.
  rewrite Hp, fold_push in H. apply H. eapply Forall_impl; [exact Hl|]. cbn. intros x Hx t'. by apply tr_push.
Qed.
Lemma tr_counted_push {A : Type} (p : T -> list A) `{!Setter p} `{!SetterLaws p} (f : A -> W) (m : Dec T A) l t :
  safe m -> p t = [] -> count_ok l -> Forall (fun x => forall t, transfers (f x) m t x t) l ->
  transfers (Wr.counted f l) (counted (push p m)) t tt (set_field p (fun _ => l) t).
Proof. intros. pose proof (tr_counted_push_map p (fun x => x) f m l t) as Hm. rewrite list_fmap_id in Hm. by apply Hm. Qed.

Lemma fold_insert_map {K A : Type} `{Countable K} (m : gmap K A) l :
  l ≡ₚ map_to_list m -> fold_left (fun m kv => <[kv.1 := kv.2]> m) l ∅ = m.
Proof.
  intros Hl. symmetry. etrans; [|apply (fold_left_rev_right (fun kv (m : gmap K A) => <[kv.1 := kv.2]> m))].
  apply list_to_map_flip. by rewrite <-Hl, <-Permutation_rev.
Qed.
(** A map written in any order of its entries. *)
Lemma tr_counted_map {K A : Type} `{Countable K} (p : T -> gmap K A) `{!Setter p} `{!SetterLaws p}
    (wk : K -> W) (wv : A -> W) mk mv m l t :
  safe_read mk -> safe_read mv -> p t = ∅ -> l ≡ₚ map_to_list m -> count_ok l ->
  Forall (fun kv => carries (wk kv.1) mk kv.1 /\ carries (wv kv.2) mv kv.2) l ->
  transfers (Wr.counted (fun kv => wk kv.1 ;>> wv kv.2) l) (counted (store_entry p mk mv)) t tt (set_field p (fun _ => m) t).
Proof.
  intros Hsk Hsv Hp Hm Hc Hl. pose proof (tr_counted_field p (fun kv => wk kv.1 ;>> wv kv.2) (store_entry p mk mv)
    (fun kv m => <[kv.1 := kv.2]> m) l t (safe_store_entry _ _ _ Hsk Hsv) Hc) as Hf.
  rewrite Hp, (fold_insert_map m) in Hf by done. apply Hf. eapply Forall_impl; [exact Hl|].
  intros [k v] [Hk Hv] t'. eapply tr_bind; [by apply tr_rd|eauto using safe_bind with safe|].
  eapply tr_pure; [by apply tr_rd|eauto with safe|]. apply tr_assign.
Qed.

Lemma fold_insert_set {E : Type} `{Countable E} (s : gset E) l :
  l ≡ₚ elements s -> fold_left (fun s e => {[e]} ∪ s) l ∅ = s.
Proof.
  intros Hl. rewrite <-(fold_left_rev_right (fun e (s : gset E) => {[e]} ∪ s)).
  assert (Hf : forall l : list E, foldr (fun e (s : gset E) => {[e]} ∪ s) ∅ l = list_to_set l)
    by (intros l'; induction l' as [|e l' IH]; cbn; [done|by rewrite IH]).
  rewrite Hf. apply leibniz_equiv. rewrite <-Permutation_rev, Hl. apply list_to_set_elements.
Qed.
Lemma tr_counted_set {E : Type} `{EnumLaws E} `{Countable E} (p : T -> gset E) `{!Setter p} `{!SetterLaws p}
    (d : E) s l t :
  p t = ∅ -> l ≡ₚ elements s -> count_ok l -> Forall enum_ok l ->
  transfers (Wr.counted Wr.Enum l) (counted (insert_enum p d)) t tt (set_field p (fun _ => s) t).
Proof.
  intros Hp Hm Hc Hl. pose proof (tr_counted_field p Wr.Enum (insert_enum p d) (fun e s => {[e]} ∪ s) l t (safe_insert_enum _ _) Hc) as Hf.
  rewrite Hp, (fold_insert_set s) in Hf by done. apply Hf. eapply Forall_impl; [exact Hl|].
  intros e He t'. eapply tr_pure; [by apply tr_read_enum|eauto with safe|]. apply tr_assign.
Qed.
End containers.

Create HintDb codec.
#[export] Hint Resolve U32_carries U64_carries Id_carries Bool_carries Dbl_carries Str_carries : codec.

(** The two sides of a codec written statement by statement in the same order.
    [codec] holds the facts on the primitives and on the nested codecs. *)
Ltac transfer_step :=
  first
  [ solve [eauto with codec]
  | eapply tr_store; solve [eauto with codec]
  | eapply tr_rd; solve [eauto with codec]
  | eapply tr_store_enum; eassumption
  | eapply tr_zoom; transfer
  | eapply tr_local; transfer
  | eapply tr_counted_push; [apply _|solve [eauto with safe]|reflexivity|eassumption|];
    eapply Forall_impl; [eassumption|]; cbv beta; intros ? ? ?; transfer ]
with transfer :=
  first
  [ eapply tr_seq; [transfer_step|transfer]
  | eapply tr_last; transfer_step
  | transfer_step ].

