(* ===== verification/Model.v ===== *)
(** * The data model

    The structs of [model.hpp], [graph.hpp], [requirement.hpp], [authority.hpp]
    and [composition.hpp], field by field.  Each struct is a module of its name:
    [t] is the record, [dflt] the value its default member initialisers give.
    [std::map<std::string, double>] is [gmap string double] (its iteration order
    is [map_entries]), [std::set<ResourceClass>] is [gset], [std::vector] is
    [list], unsigned integers are [N], [double] is binary64. *)

From S2P Require Import Prelude Enums Ids Double.

(** [model.hpp: Capacity]. *)
Module Capacity.
Record t := mk {
  compute_units : double;
  accelerator_memory_bytes : double;
  host_memory_bytes : double;
  expanded_memory_bytes : double;
  storage_bytes : double;
  network_bandwidth_mbps : double;
  network_latency_us : double;
  extra : gmap string double;
}.
Definition dflt : t := mk d0 d0 d0 d0 d0 d0 d0 ∅.
#[global] Instance eta_t : Eta t := fun r => mk (compute_units r)
    (accelerator_memory_bytes r) (host_memory_bytes r) (expanded_memory_bytes r)
    (storage_bytes r) (network_bandwidth_mbps r) (network_latency_us r) (extra r).
#[global] Instance t_inhabited : Inhabited t := populate dflt.
End Capacity.

(** [model.hpp: Capability]. *)
Module Capability.
Record t := mk {
  kind : CapabilityKind.t;
  state : CapabilityState.t;
  generation : CapabilityGeneration;
  evidence : EvidenceId;
  detail : string;
}.
Definition dflt : t := mk CapabilityKind.UNKNOWN CapabilityState.UNKNOWN zero_id zero_id
    "".
#[global] Instance eta_t : Eta t := fun r => mk (kind r) (state r) (generation r)
    (evidence r) (detail r).
#[global] Instance t_inhabited : Inhabited t := populate dflt.
End Capability.

(** [model.hpp: CompatibilityPin]. *)
Module CompatibilityPin.
Record t := mk {
  name : string;
  value : string;
  generation : CompatibilityGeneration;
}.
Definition dflt : t := mk "" "" zero_id.
#[global] Instance eta_t : Eta t := fun r => mk (name r) (value r) (generation r).
#[global] Instance t_inhabited : Inhabited t := populate dflt.
End CompatibilityPin.

(** [model.hpp: Compatibility]. *)
Module Compatibility.
Record t := mk {
  id : CompatibilityId;
  generation : CompatibilityGeneration;
  pins : list CompatibilityPin.t;
}.
Definition dflt : t := mk zero_id zero_id [].
#[global] Instance eta_t : Eta t := fun r => mk (id r) (generation r) (pins r).
#[global] Instance t_inhabited : Inhabited t := populate dflt.
End Compatibility.

(** [model.hpp: FailureDomain]. *)
Module FailureDomain.
Record t := mk {
  id : FailureDomainId;
  type : FailureDomainType.t;
  name : string;
  synthetic : bool;
  locality_coords : gmap string double;
}.
Definition dflt : t := mk zero_id FailureDomainType.UNKNOWN "" false ∅.
#[global] Instance eta_t : Eta t := fun r => mk (id r) (type r) (name r) (synthetic r)
    (locality_coords r).
#[global] Instance t_inhabited : Inhabited t := populate dflt.
End FailureDomain.

(** [model.hpp: Evidence]. *)
Module Evidence.
Record t := mk {
  id : EvidenceId;
  generation : EvidenceGeneration;
  source : EvidenceSource.t;
  state : EvidenceState.t;
  timestamp_ms : N;
  max_age_ms : N;
  confidence : double;
  provenance : string;
  owner : string;
  durable : bool;
}.
Definition dflt : t := mk zero_id zero_id EvidenceSource.UNKNOWN
    EvidenceState.PROVENANCE_UNKNOWN 0 0 d0 "" "" false.
#[global] Instance eta_t : Eta t := fun r => mk (id r) (generation r) (source r) (state r)
    (timestamp_ms r) (max_age_ms r) (confidence r) (provenance r) (owner r) (durable r).
#[global] Instance t_inhabited : Inhabited t := populate dflt.
End Evidence.

(** [model.hpp: Locality]. *)
Module Locality.
Record t := mk {
  coords : list double;
  tags : gmap string double;
}.
Definition dflt : t := mk [] ∅.
#[global] Instance eta_t : Eta t := fun r => mk (coords r) (tags r).
#[global] Instance t_inhabited : Inhabited t := populate dflt.
End Locality.

(** [model.hpp: Resource]. *)
Module Resource.
Record t := mk {
  id : ResourceId;
  generation : ResourceGeneration;
  resource_class : ResourceClass.t;
  node_id : NodeId;
  provider : string;
  capabilities : list Capability.t;
  compatibility : list Compatibility.t;
  capacity : Capacity.t;
  health : ResourceHealth.t;
  readiness : Readiness.t;
  reachability : Reachability.t;
  locality : Locality.t;
  failure_domain : FailureDomain.t;
  evidence : Evidence.t;
  authority_owner : string;
  synthetic : bool;
}.
Definition dflt : t := mk zero_id zero_id ResourceClass.UNKNOWN zero_id "" [] []
    Capacity.dflt ResourceHealth.UNKNOWN Readiness.UNKNOWN Reachability.UNKNOWN
    Locality.dflt FailureDomain.dflt Evidence.dflt "" false.
#[global] Instance eta_t : Eta t := fun r => mk (id r) (generation r) (resource_class r)
    (node_id r) (provider r) (capabilities r) (compatibility r) (capacity r) (health r)
    (readiness r) (reachability r) (locality r) (failure_domain r) (evidence r)
    (authority_owner r) (synthetic r).
#[global] Instance t_inhabited : Inhabited t := populate dflt.
End Resource.

(** [model.hpp: Node]. *)
Module Node.
Record t := mk {
  id : NodeId;
  generation : NodeGeneration;
  hostname : string;
  provider : string;
  backend : BackendKind.t;
  inventory : list ResourceId;
  failure_domain : FailureDomain.t;
  locality : Locality.t;
  reachability : Reachability.t;
  health : ResourceHealth.t;
  worker_owner : string;
  worker_boot : WorkerBootId;
  evidence_freshness_ms : N;
  lifecycle : NodeLifecycle.t;
  synthetic : bool;
}.
Definition dflt : t := mk zero_id zero_id "" "" BackendKind.UNKNOWN [] FailureDomain.dflt
    Locality.dflt Reachability.UNKNOWN ResourceHealth.UNKNOWN "" zero_id 0
    NodeLifecycle.DISCOVERED false.
#[global] Instance eta_t : Eta t := fun r => mk (id r) (generation r) (hostname r)
    (provider r) (backend r) (inventory r) (failure_domain r) (locality r)
    (reachability r) (health r) (worker_owner r) (worker_boot r) (evidence_freshness_ms r)
    (lifecycle r) (synthetic r).
#[global] Instance t_inhabited : Inhabited t := populate dflt.
End Node.

(** [model.hpp: PathRequirement]. *)
Module PathRequirement.
Record t := mk {
  from : NodeId;
  to : NodeId;
  min_bandwidth_mbps : double;
  max_latency_us : double;
  required : bool;
  direct : bool;
  protocol : string;
}.
Definition dflt : t := mk zero_id zero_id d0 d0 false false "".
#[global] Instance eta_t : Eta t := fun r => mk (from r) (to r) (min_bandwidth_mbps r)
    (max_latency_us r) (required r) (direct r) (protocol r).
#[global] Instance t_inhabited : Inhabited t := populate dflt.
End PathRequirement.

(** [model.hpp: PathEvidence]. *)
Module PathEvidence.
Record t := mk {
  id : PathEvidenceId;
  generation : PathGeneration;
  requirement : PathRequirement.t;
  available : bool;
  bandwidth_mbps : double;
  latency_us : double;
  verified : bool;
  provider : string;
  source : string;
  evidence : Evidence.t;
}.
Definition dflt : t := mk zero_id zero_id PathRequirement.dflt false d0 d0 false "" ""
    Evidence.dflt.
#[global] Instance eta_t : Eta t := fun r => mk (id r) (generation r) (requirement r)
    (available r) (bandwidth_mbps r) (latency_us r) (verified r) (provider r) (source r)
    (evidence r).
#[global] Instance t_inhabited : Inhabited t := populate dflt.
End PathEvidence.

(** [graph.hpp: GraphEdge]. *)
Module GraphEdge.
Record t := mk {
  from : ResourceId;
  to : ResourceId;
  kind : GraphEdgeKind.t;
  required : bool;
  min_bandwidth_mbps : double;
  max_latency_us : double;
  protocol : string;
  compat_facet : string;
}.
Definition dflt : t := mk zero_id zero_id GraphEdgeKind.REACHABILITY true d0 d0 "" "".
#[global] Instance eta_t : Eta t := fun r => mk (from r) (to r) (kind r) (required r)
    (min_bandwidth_mbps r) (max_latency_us r) (protocol r) (compat_facet r).
#[global] Instance t_inhabited : Inhabited t := populate dflt.
End GraphEdge.

(** [graph.hpp: ResourceGraph]. *)
Module ResourceGraph.
Record t := mk {
  vertices : list ResourceId;
  edges : list GraphEdge.t;
}.
Definition dflt : t := mk [] [].
#[global] Instance eta_t : Eta t := fun r => mk (vertices r) (edges r).
#[global] Instance t_inhabited : Inhabited t := populate dflt.
End ResourceGraph.

(** [requirement.hpp: FailureDomainConstraint]. *)
Module FailureDomainConstraint.
Record t := mk {
  topology : TopologyConstraint.t;
  max_shared_risk : N;
  allowed_types : list FailureDomainType.t;
}.
Definition dflt : t := mk TopologyConstraint.NONE 0 [].
#[global] Instance eta_t : Eta t := fun r => mk (topology r) (max_shared_risk r)
    (allowed_types r).
#[global] Instance t_inhabited : Inhabited t := populate dflt.
End FailureDomainConstraint.

(** [requirement.hpp: CompositionRequest]. *)
Module CompositionRequest.
Record t := mk {
  compute_units : N;
  accelerator_count : N;
  accelerator_architectures : list string;
  accelerator_memory_bytes : double;
  host_memory_bytes : double;
  expanded_memory_bytes : double;
  storage_bytes : double;
  network_endpoint_count : N;
  min_bandwidth_mbps : double;
  max_latency_us : double;
  mandatory_classes : gset ResourceClass.t;
  optional_classes : gset ResourceClass.t;
  require_direct_path : bool;
  require_coherence : bool;
  require_persistence : bool;
  require_isolation : bool;
  staging_allowance : bool;
  ignore_reachability : bool;
  compatibility : CompatibilityId;
  failure_domain : FailureDomainConstraint.t;
  policy : PolicyId;
  policy_generation : PolicyGeneration;
  consumer : ConsumerId;
  consumer_generation : ConsumerGeneration;
  constraints : gmap string double;
}.
Definition dflt : t := mk 0 0 [] d0 d0 d0 d0 0 d0 d0 ∅ ∅ false false false false false
    false zero_id FailureDomainConstraint.dflt zero_id zero_id zero_id zero_id ∅.
#[global] Instance eta_t : Eta t := fun r => mk (compute_units r) (accelerator_count r)
    (accelerator_architectures r) (accelerator_memory_bytes r) (host_memory_bytes r)
    (expanded_memory_bytes r) (storage_bytes r) (network_endpoint_count r)
    (min_bandwidth_mbps r) (max_latency_us r) (mandatory_classes r) (optional_classes r)
    (require_direct_path r) (require_coherence r) (require_persistence r)
    (require_isolation r) (staging_allowance r) (ignore_reachability r) (compatibility r)
    (failure_domain r) (policy r) (policy_generation r) (consumer r)
    (consumer_generation r) (constraints r).
#[global] Instance t_inhabited : Inhabited t := populate dflt.
End CompositionRequest.

(** [authority.hpp: AuthorityTuple]. *)
Module AuthorityTuple.
Record t := mk {
  coordinator_epoch : CoordinatorEpoch;
  worker_boots : list WorkerBootId;
  node_generations : list NodeGeneration;
  resource_generations : list ResourceGeneration;
  path_generations : list PathGeneration;
  capability_generations : list CapabilityGeneration;
  compatibility_generations : list CompatibilityGeneration;
  policy_generation : PolicyGeneration;
  evidence_generations : list EvidenceGeneration;
  reservation_generations : list ReservationGeneration;
  composition_generation : CompositionGeneration;
}.
Definition dflt : t := mk zero_id [] [] [] [] [] [] zero_id [] [] zero_id.
#[global] Instance eta_t : Eta t := fun r => mk (coordinator_epoch r) (worker_boots r)
    (node_generations r) (resource_generations r) (path_generations r)
    (capability_generations r) (compatibility_generations r) (policy_generation r)
    (evidence_generations r) (reservation_generations r) (composition_generation r).
#[global] Instance t_inhabited : Inhabited t := populate dflt.
End AuthorityTuple.

(** [composition.hpp: RankingFactor]. *)
Module RankingFactor.
Record t := mk {
  name : string;
  weight : double;
  value : double;
  detail : string;
}.
Definition dflt : t := mk "" d1 d0 "".
#[global] Instance eta_t : Eta t := fun r => mk (name r) (weight r) (value r) (detail r).
#[global] Instance t_inhabited : Inhabited t := populate dflt.
End RankingFactor.

(** [composition.hpp: RankScore]. *)
Module RankScore.
Record t := mk {
  total : double;
  factors : list RankingFactor.t;
}.
Definition dflt : t := mk d0 [].
#[global] Instance eta_t : Eta t := fun r => mk (total r) (factors r).
#[global] Instance t_inhabited : Inhabited t := populate dflt.
End RankScore.

(** [composition.hpp: CompositionPlan]. *)
Module CompositionPlan.
Record t := mk {
  id : CompositionId;
  generation : CompositionGeneration;
  graph : ResourceGraph.t;
  nodes : list NodeId;
  request : CompositionRequest.t;
  rank : RankScore.t;
  authority : AuthorityTuple.t;
  lifecycle : CompositionLifecycle.t;
  paths : list PathEvidence.t;
}.
Definition dflt : t := mk zero_id zero_id ResourceGraph.dflt [] CompositionRequest.dflt
    RankScore.dflt AuthorityTuple.dflt CompositionLifecycle.PLANNED [].
#[global] Instance eta_t : Eta t := fun r => mk (id r) (generation r) (graph r) (nodes r)
    (request r) (rank r) (authority r) (lifecycle r) (paths r).
#[global] Instance t_inhabited : Inhabited t := populate dflt.
End CompositionPlan.

(** [composition.hpp: Composition]. *)
Module Composition.
Record t := mk {
  id : CompositionId;
  generation : CompositionGeneration;
  resource_set_id : ResourceSetId;
  resource_set_generation : ResourceSetGeneration;
  graph : ResourceGraph.t;
  nodes : list NodeId;
  request : CompositionRequest.t;
  authority : AuthorityTuple.t;
  lifecycle : CompositionLifecycle.t;
  rank : RankScore.t;
  reservation : ReservationId;
  paths : list PathEvidence.t;
  outcome : CompositionOutcome.t;
  explanation : string;
}.
Definition dflt : t := mk zero_id zero_id zero_id zero_id ResourceGraph.dflt []
    CompositionRequest.dflt AuthorityTuple.dflt CompositionLifecycle.REQUESTED
    RankScore.dflt zero_id [] CompositionOutcome.OUTCOME_UNKNOWN "".
#[global] Instance eta_t : Eta t := fun r => mk (id r) (generation r) (resource_set_id r)
    (resource_set_generation r) (graph r) (nodes r) (request r) (authority r)
    (lifecycle r) (rank r) (reservation r) (paths r) (outcome r) (explanation r).
#[global] Instance t_inhabited : Inhabited t := populate dflt.
End Composition.

(** [composition.hpp: ReservationItem]. *)
Module ReservationItem.
Record t := mk {
  resource : ResourceId;
  state : ReservationState.t;
  reserved_amount : double;
}.
Definition dflt : t := mk zero_id ReservationState.NONE d0.
#[global] Instance eta_t : Eta t := fun r => mk (resource r) (state r) (reserved_amount r).
#[global] Instance t_inhabited : Inhabited t := populate dflt.
End ReservationItem.

(** [composition.hpp: Reservation]. *)
Module Reservation.
Record t := mk {
  id : ReservationId;
  generation : ReservationGeneration;
  composition : CompositionId;
  items : list ReservationItem.t;
  state : ReservationState.t;
}.
Definition dflt : t := mk zero_id zero_id zero_id [] ReservationState.NONE.
#[global] Instance eta_t : Eta t := fun r => mk (id r) (generation r) (composition r)
    (items r) (state r).
#[global] Instance t_inhabited : Inhabited t := populate dflt.
End Reservation.

(** ** Member functions of the data model *)

(** [Evidence::IsCurrent]. *)
Definition IsCurrent (e : Evidence.t) : bool :=
  if bool_decide (Evidence.state e = EvidenceState.STALE)
     || bool_decide (Evidence.state e = EvidenceState.REVALIDATION_REQUIRED) then false
  else negb (Evidence.max_age_ms e =? 0).

(** [ResourceGraph::HasVertex], [AddVertex], [AddEdge]. *)
Definition HasVertex (g : ResourceGraph.t) (id : ResourceId) : bool :=
  existsb (id_eqb id) (ResourceGraph.vertices g).
Definition AddVertex (g : ResourceGraph.t) (id : ResourceId) : ResourceGraph.t :=
  if HasVertex g id then g else g <| ResourceGraph.vertices ::= fun vs => vs ++ [id] |>.
Definition AddEdge (g : ResourceGraph.t) (e : GraphEdge.t) : ResourceGraph.t :=
  g <| ResourceGraph.edges ::= fun es => es ++ [e] |>.
