(* ===== verification/Wire.v ===== *)
(** * The wire codec

    [include/dfabric/codec.hpp]: the [Encode] and [Decode] functions of the data
    model, statement by statement, on the writers and decoders of [Codec].
    Contiguous groups of statements that fill one member struct (capacity,
    locality, failure domain, path requirement) are one definition under a
    [zoom].  The encoders take the text of the exception for oversized strings,
    because persistence.cpp repeats some of them with a text of its own. *)

From S2P Require Import Prelude Bytes Enums Ids Double Model Codec.

(** [std::set<ResourceClass>] iterates in the order of the codes. *)
Definition set_entries (s : gset ResourceClass.t) : list ResourceClass.t :=
  isort (fun a b => ResourceClass.code a <? ResourceClass.code b) (elements s).

(** ** Encoders *)
Section encoders.
Context (msg : string).
#[local] Abbreviation Str := (Wr.Str msg).

Definition EncodeEvidence (e : Evidence.t) : W :=
  Wr.Id (Evidence.id e) ;>> Wr.Id (Evidence.generation e) ;>>
  Wr.Enum (Evidence.source e) ;>> Wr.Enum (Evidence.state e) ;>>
  Wr.U64 (Evidence.timestamp_ms e) ;>> Wr.U64 (Evidence.max_age_ms e) ;>> Wr.Dbl (Evidence.confidence e) ;>>
  Str (Evidence.provenance e) ;>> Str (Evidence.owner e) ;>> Wr.Bool (Evidence.durable e).

Definition EncodeCapability (c : Capability.t) : W :=
  Wr.Enum (Capability.kind c) ;>> Wr.Enum (Capability.state c) ;>>
  Wr.Id (Capability.generation c) ;>> Wr.Id (Capability.evidence c) ;>> Str (Capability.detail c).

Definition EncodePin (p : CompatibilityPin.t) : W :=
  Str (CompatibilityPin.name p) ;>> Str (CompatibilityPin.value p) ;>> Wr.Id (CompatibilityPin.generation p).
Definition EncodeCompatibility (c : Compatibility.t) : W :=
  Wr.Id (Compatibility.id c) ;>> Wr.Id (Compatibility.generation c) ;>>
  Wr.counted EncodePin (Compatibility.pins c).

(** [for (const auto& kv : m) { w.Str(kv.first); w.Dbl(kv.second); }] after the size. *)
Definition EncodeEntries (m : gmap string double) : W :=
  Wr.counted (fun kv => Str kv.1 ;>> Wr.Dbl kv.2) (map_entries m).

Definition EncodeCapacity (c : Capacity.t) : W :=
  Wr.Dbl (Capacity.compute_units c) ;>> Wr.Dbl (Capacity.accelerator_memory_bytes c) ;>>
  Wr.Dbl (Capacity.host_memory_bytes c) ;>> Wr.Dbl (Capacity.expanded_memory_bytes c) ;>>
  Wr.Dbl (Capacity.storage_bytes c) ;>> Wr.Dbl (Capacity.network_bandwidth_mbps c) ;>>
  Wr.Dbl (Capacity.network_latency_us c) ;>> EncodeEntries (Capacity.extra c).
Definition EncodeLocality (l : Locality.t) : W :=
  Wr.counted Wr.Dbl (Locality.coords l) ;>> EncodeEntries (Locality.tags l).
Definition EncodeFailureDomain (f : FailureDomain.t) : W :=
  Wr.Id (FailureDomain.id f) ;>> Wr.Enum (FailureDomain.type f) ;>>
  Str (FailureDomain.name f) ;>> Wr.Bool (FailureDomain.synthetic f).

Definition EncodeResource (res : Resource.t) : W :=
  Wr.Id (Resource.id res) ;>> Wr.Id (Resource.generation res) ;>>
  Wr.Enum (Resource.resource_class res) ;>> Wr.Id (Resource.node_id res) ;>>
  Str (Resource.provider res) ;>> Str (Resource.authority_owner res) ;>> Wr.Bool (Resource.synthetic res) ;>>
  Wr.Enum (Resource.health res) ;>> Wr.Enum (Resource.readiness res) ;>> Wr.Enum (Resource.reachability res) ;>>
  EncodeCapacity (Resource.capacity res) ;>> EncodeLocality (Resource.locality res) ;>>
  EncodeFailureDomain (Resource.failure_domain res) ;>> EncodeEvidence (Resource.evidence res) ;>>
  Wr.counted EncodeCapability (Resource.capabilities res) ;>>
  Wr.counted EncodeCompatibility (Resource.compatibility res).

Definition EncodeNode (n : Node.t) : W :=
  Wr.Id (Node.id n) ;>> Wr.Id (Node.generation n) ;>> Str (Node.hostname n) ;>> Str (Node.provider n) ;>>
  Wr.Enum (Node.backend n) ;>> Wr.counted Wr.Id (Node.inventory n) ;>>
  EncodeFailureDomain (Node.failure_domain n) ;>> EncodeLocality (Node.locality n) ;>>
  Wr.Enum (Node.reachability n) ;>> Wr.Enum (Node.health n) ;>>
  Str (Node.worker_owner n) ;>> Wr.Id (Node.worker_boot n) ;>> Wr.U64 (Node.evidence_freshness_ms n) ;>>
  Wr.Enum (Node.lifecycle n) ;>> Wr.Bool (Node.synthetic n).

Definition EncodePathRequirement (q : PathRequirement.t) : W :=
  Wr.Id (PathRequirement.from q) ;>> Wr.Id (PathRequirement.to q) ;>>
  Wr.Dbl (PathRequirement.min_bandwidth_mbps q) ;>> Wr.Dbl (PathRequirement.max_latency_us q) ;>>
  Wr.Bool (PathRequirement.required q) ;>> Wr.Bool (PathRequirement.direct q) ;>> Str (PathRequirement.protocol q).
Definition EncodePath (p : PathEvidence.t) : W :=
  Wr.Id (PathEvidence.id p) ;>> Wr.Id (PathEvidence.generation p) ;>>
  EncodePathRequirement (PathEvidence.requirement p) ;>>
  Wr.Bool (PathEvidence.available p) ;>> Wr.Dbl (PathEvidence.bandwidth_mbps p) ;>>
  Wr.Dbl (PathEvidence.latency_us p) ;>> Wr.Bool (PathEvidence.verified p) ;>>
  Str (PathEvidence.provider p) ;>> Str (PathEvidence.source p) ;>> EncodeEvidence (PathEvidence.evidence p).

Definition EncodeEdge (e : GraphEdge.t) : W :=
  Wr.Id (GraphEdge.from e) ;>> Wr.Id (GraphEdge.to e) ;>> Wr.Enum (GraphEdge.kind e) ;>>
  Wr.Bool (GraphEdge.required e) ;>> Wr.Dbl (GraphEdge.min_bandwidth_mbps e) ;>> Wr.Dbl (GraphEdge.max_latency_us e) ;>>
  Str (GraphEdge.protocol e) ;>> Str (GraphEdge.compat_facet e).
Definition EncodeGraph (g : ResourceGraph.t) : W :=
  Wr.counted Wr.Id (ResourceGraph.vertices g) ;>> Wr.counted EncodeEdge (ResourceGraph.edges g).

Definition EncodeAuthority (a : AuthorityTuple.t) : W :=
  Wr.Id (AuthorityTuple.coordinator_epoch a) ;>>
  Wr.counted Wr.Id (AuthorityTuple.worker_boots a) ;>>
  Wr.counted Wr.Id (AuthorityTuple.node_generations a) ;>>
  Wr.counted Wr.Id (AuthorityTuple.resource_generations a) ;>>
  Wr.counted Wr.Id (AuthorityTuple.path_generations a) ;>>
  Wr.counted Wr.Id (AuthorityTuple.capability_generations a) ;>>
  Wr.counted Wr.Id (AuthorityTuple.compatibility_generations a) ;>>
  Wr.Id (AuthorityTuple.policy_generation a) ;>>
  Wr.counted Wr.Id (AuthorityTuple.evidence_generations a) ;>>
  Wr.counted Wr.Id (AuthorityTuple.reservation_generations a) ;>>
  Wr.Id (AuthorityTuple.composition_generation a).

Definition EncodeRequest (q : CompositionRequest.t) : W :=
  Wr.U64 (CompositionRequest.compute_units q) ;>> Wr.U32 (CompositionRequest.accelerator_count q) ;>>
  Wr.counted Str (CompositionRequest.accelerator_architectures q) ;>>
  Wr.Dbl (CompositionRequest.accelerator_memory_bytes q) ;>> Wr.Dbl (CompositionRequest.host_memory_bytes q) ;>>
  Wr.Dbl (CompositionRequest.expanded_memory_bytes q) ;>> Wr.Dbl (CompositionRequest.storage_bytes q) ;>>
  Wr.U32 (CompositionRequest.network_endpoint_count q) ;>>
  Wr.Dbl (CompositionRequest.min_bandwidth_mbps q) ;>> Wr.Dbl (CompositionRequest.max_latency_us q) ;>>
  Wr.counted Wr.Enum (set_entries (CompositionRequest.mandatory_classes q)) ;>>
  Wr.counted Wr.Enum (set_entries (CompositionRequest.optional_classes q)) ;>>
  Wr.Bool (CompositionRequest.require_direct_path q) ;>> Wr.Bool (CompositionRequest.require_coherence q) ;>>
  Wr.Bool (CompositionRequest.require_persistence q) ;>> Wr.Bool (CompositionRequest.require_isolation q) ;>>
  Wr.Bool (CompositionRequest.staging_allowance q) ;>> Wr.Bool (CompositionRequest.ignore_reachability q) ;>>
  Wr.Id (CompositionRequest.compatibility q) ;>> Wr.Id (CompositionRequest.policy q) ;>>
  Wr.Id (CompositionRequest.policy_generation q) ;>>
  Wr.Id (CompositionRequest.consumer q) ;>> Wr.Id (CompositionRequest.consumer_generation q).

Definition EncodeFactor (f : RankingFactor.t) : W :=
  Str (RankingFactor.name f) ;>> Wr.Dbl (RankingFactor.weight f) ;>> Wr.Dbl (RankingFactor.value f) ;>>
  Str (RankingFactor.detail f).
Definition EncodePlan (p : CompositionPlan.t) : W :=
  Wr.Id (CompositionPlan.id p) ;>> Wr.Id (CompositionPlan.generation p) ;>>
  EncodeGraph (CompositionPlan.graph p) ;>> Wr.counted Wr.Id (CompositionPlan.nodes p) ;>>
  EncodeRequest (CompositionPlan.request p) ;>>
  (Wr.Dbl (RankScore.total (CompositionPlan.rank p)) ;>>
   Wr.counted EncodeFactor (RankScore.factors (CompositionPlan.rank p))) ;>>
  EncodeAuthority (CompositionPlan.authority p) ;>> Wr.Enum (CompositionPlan.lifecycle p) ;>>
  Wr.counted EncodePath (CompositionPlan.paths p).

Definition EncodeComposition (c : Composition.t) : W :=
  Wr.Id (Composition.id c) ;>> Wr.Id (Composition.generation c) ;>>
  Wr.Id (Composition.resource_set_id c) ;>> Wr.Id (Composition.resource_set_generation c) ;>>
  Wr.counted Wr.Id (Composition.nodes c) ;>> EncodeRequest (Composition.request c) ;>>
  EncodeGraph (Composition.graph c) ;>> EncodeAuthority (Composition.authority c) ;>>
  Wr.Enum (Composition.lifecycle c) ;>> Wr.Id (Composition.reservation c) ;>> Wr.Enum (Composition.outcome c) ;>>
  Wr.Dbl (RankScore.total (Composition.rank c)) ;>> Wr.counted EncodePath (Composition.paths c) ;>>
  Str (Composition.explanation c).

Definition EncodeItem (it : ReservationItem.t) : W :=
  Wr.Id (ReservationItem.resource it) ;>> Wr.Enum (ReservationItem.state it) ;>>
  Wr.Dbl (ReservationItem.reserved_amount it).
Definition EncodeReservation (r : Reservation.t) : W :=
  Wr.Id (Reservation.id r) ;>> Wr.Id (Reservation.generation r) ;>> Wr.Id (Reservation.composition r) ;>>
  Wr.counted EncodeItem (Reservation.items r) ;>> Wr.Enum (Reservation.state r).
End encoders.

(** The exception of [WireWriter::Str]. *)
Definition wire_too_long : string := "wire: string too long".

(** ** Decoders *)
Definition DecodeEvidence : Dec Evidence.t unit :=
  store Evidence.id Rd.Id;; store Evidence.generation Rd.Id;;
  store_enum Evidence.source EvidenceSource.UNKNOWN;;
  store_enum Evidence.state EvidenceState.PROVENANCE_UNKNOWN;;
  store Evidence.timestamp_ms Rd.U64;; store Evidence.max_age_ms Rd.U64;; store Evidence.confidence Rd.Dbl;;
  store Evidence.provenance Rd.Str;; store Evidence.owner Rd.Str;; store Evidence.durable Rd.Bool;;
  return_ok.

Definition DecodeCapability : Dec Capability.t unit :=
  store_enum Capability.kind CapabilityKind.UNKNOWN;; store_enum Capability.state CapabilityState.UNKNOWN;;
  store Capability.generation Rd.Id;; store Capability.evidence Rd.Id;; store Capability.detail Rd.Str;;
  return_ok.

Definition DecodePin : Dec CompatibilityPin.t unit :=
  store CompatibilityPin.name Rd.Str;; store CompatibilityPin.value Rd.Str;; store CompatibilityPin.generation Rd.Id.
Definition DecodeCompatibility : Dec Compatibility.t unit :=
  store Compatibility.id Rd.Id;; store Compatibility.generation Rd.Id;;
  counted (push Compatibility.pins (local CompatibilityPin.dflt DecodePin));;
  return_ok.

Definition DecodeCapacity : Dec Capacity.t unit :=
  store Capacity.compute_units Rd.Dbl;; store Capacity.accelerator_memory_bytes Rd.Dbl;;
  store Capacity.host_memory_bytes Rd.Dbl;; store Capacity.expanded_memory_bytes Rd.Dbl;;
  store Capacity.storage_bytes Rd.Dbl;; store Capacity.network_bandwidth_mbps Rd.Dbl;;
  store Capacity.network_latency_us Rd.Dbl;;
  counted (store_entry Capacity.extra Rd.Str Rd.Dbl).
Definition DecodeLocality : Dec Locality.t unit :=
  counted (push Locality.coords (rd Rd.Dbl));; counted (store_entry Locality.tags Rd.Str Rd.Dbl).
Definition DecodeFailureDomain : Dec FailureDomain.t unit :=
  store FailureDomain.id Rd.Id;; store_enum FailureDomain.type FailureDomainType.UNKNOWN;;
  store FailureDomain.name Rd.Str;; store FailureDomain.synthetic Rd.Bool.

Definition DecodeResource : Dec Resource.t unit :=
  store Resource.id Rd.Id;; store Resource.generation Rd.Id;;
  store_enum Resource.resource_class ResourceClass.UNKNOWN;; store Resource.node_id Rd.Id;;
  store Resource.provider Rd.Str;; store Resource.authority_owner Rd.Str;; store Resource.synthetic Rd.Bool;;
  store_enum Resource.health ResourceHealth.UNKNOWN;; store_enum Resource.readiness Readiness.UNKNOWN;;
  store_enum Resource.reachability Reachability.UNKNOWN;;
  zoom Resource.capacity DecodeCapacity;; zoom Resource.locality DecodeLocality;;
  zoom Resource.failure_domain DecodeFailureDomain;; zoom Resource.evidence DecodeEvidence;;
  counted (push Resource.capabilities (local Capability.dflt DecodeCapability));;
  counted (push Resource.compatibility (local Compatibility.dflt DecodeCompatibility));;
  return_ok.

Definition DecodeNode : Dec Node.t unit :=
  store Node.id Rd.Id;; store Node.generation Rd.Id;; store Node.hostname Rd.Str;; store Node.provider Rd.Str;;
  store_enum Node.backend BackendKind.UNKNOWN;; counted (push Node.inventory (rd Rd.Id));;
  zoom Node.failure_domain DecodeFailureDomain;; zoom Node.locality DecodeLocality;;
  store_enum Node.reachability Reachability.UNKNOWN;; store_enum Node.health ResourceHealth.UNKNOWN;;
  store Node.worker_owner Rd.Str;; store Node.worker_boot Rd.Id;; store Node.evidence_freshness_ms Rd.U64;;
  store_enum Node.lifecycle NodeLifecycle.DISCOVERED;; store Node.synthetic Rd.Bool;;
  return_ok.

Definition DecodePathRequirement : Dec PathRequirement.t unit :=
  store PathRequirement.from Rd.Id;; store PathRequirement.to Rd.Id;;
  store PathRequirement.min_bandwidth_mbps Rd.Dbl;; store PathRequirement.max_latency_us Rd.Dbl;;
  store PathRequirement.required Rd.Bool;; store PathRequirement.direct Rd.Bool;; store PathRequirement.protocol Rd.Str.
Definition DecodePath : Dec PathEvidence.t unit :=
  store PathEvidence.id Rd.Id;; store PathEvidence.generation Rd.Id;;
  zoom PathEvidence.requirement DecodePathRequirement;;
  store PathEvidence.available Rd.Bool;; store PathEvidence.bandwidth_mbps Rd.Dbl;;
  store PathEvidence.latency_us Rd.Dbl;; store PathEvidence.verified Rd.Bool;;
  store PathEvidence.provider Rd.Str;; store PathEvidence.source Rd.Str;;
  zoom PathEvidence.evidence DecodeEvidence.

Definition DecodeEdge : Dec GraphEdge.t unit :=
  store GraphEdge.from Rd.Id;; store GraphEdge.to Rd.Id;;
  store_enum GraphEdge.kind GraphEdgeKind.REACHABILITY;;
  store GraphEdge.required Rd.Bool;; store GraphEdge.min_bandwidth_mbps Rd.Dbl;; store GraphEdge.max_latency_us Rd.Dbl;;
  store GraphEdge.protocol Rd.Str;; store GraphEdge.compat_facet Rd.Str.
Definition DecodeGraph : Dec ResourceGraph.t unit :=
  counted (push ResourceGraph.vertices (rd Rd.Id));;
  counted (push ResourceGraph.edges (local GraphEdge.dflt DecodeEdge));;
  return_ok.

Definition DecodeAuthority : Dec AuthorityTuple.t unit :=
  store AuthorityTuple.coordinator_epoch Rd.Id;;
  counted (push AuthorityTuple.worker_boots (rd Rd.Id));;
  counted (push AuthorityTuple.node_generations (rd Rd.Id));;
  counted (push AuthorityTuple.resource_generations (rd Rd.Id));;
  counted (push AuthorityTuple.path_generations (rd Rd.Id));;
  counted (push AuthorityTuple.capability_generations (rd Rd.Id));;
  counted (push AuthorityTuple.compatibility_generations (rd Rd.Id));;
  store AuthorityTuple.policy_generation Rd.Id;;
  counted (push AuthorityTuple.evidence_generations (rd Rd.Id));;
  counted (push AuthorityTuple.reservation_generations (rd Rd.Id));;
  store AuthorityTuple.composition_generation Rd.Id;;
  return_ok.

Definition DecodeRequest : Dec CompositionRequest.t unit :=
  store CompositionRequest.compute_units Rd.U64;; store CompositionRequest.accelerator_count Rd.U32;;
  counted (push CompositionRequest.accelerator_architectures (rd Rd.Str));;
  store CompositionRequest.accelerator_memory_bytes Rd.Dbl;; store CompositionRequest.host_memory_bytes Rd.Dbl;;
  store CompositionRequest.expanded_memory_bytes Rd.Dbl;; store CompositionRequest.storage_bytes Rd.Dbl;;
  store CompositionRequest.network_endpoint_count Rd.U32;;
  store CompositionRequest.min_bandwidth_mbps Rd.Dbl;; store CompositionRequest.max_latency_us Rd.Dbl;;
  counted (insert_enum CompositionRequest.mandatory_classes ResourceClass.UNKNOWN);;
  counted (insert_enum CompositionRequest.optional_classes ResourceClass.UNKNOWN);;
  store CompositionRequest.require_direct_path Rd.Bool;; store CompositionRequest.require_coherence Rd.Bool;;
  store CompositionRequest.require_persistence Rd.Bool;; store CompositionRequest.require_isolation Rd.Bool;;
  store CompositionRequest.staging_allowance Rd.Bool;; store CompositionRequest.ignore_reachability Rd.Bool;;
  store CompositionRequest.compatibility Rd.Id;; store CompositionRequest.policy Rd.Id;;
  store CompositionRequest.policy_generation Rd.Id;;
  store CompositionRequest.consumer Rd.Id;; store CompositionRequest.consumer_generation Rd.Id;;
  return_ok.

Definition DecodeFactor : Dec RankingFactor.t unit :=
  store RankingFactor.name Rd.Str;; store RankingFactor.weight Rd.Dbl;; store RankingFactor.value Rd.Dbl;;
  store RankingFactor.detail Rd.Str.
Definition DecodePlan : Dec CompositionPlan.t unit :=
  store CompositionPlan.id Rd.Id;; store CompositionPlan.generation Rd.Id;;
  zoom CompositionPlan.graph DecodeGraph;; counted (push CompositionPlan.nodes (rd Rd.Id));;
  zoom CompositionPlan.request DecodeRequest;;
  zoom CompositionPlan.rank
    (store RankScore.total Rd.Dbl;; counted (push RankScore.factors (local RankingFactor.dflt DecodeFactor)));;
  zoom CompositionPlan.authority DecodeAuthority;;
  store_enum CompositionPlan.lifecycle CompositionLifecycle.PLANNED;;
  counted (push CompositionPlan.paths (local PathEvidence.dflt DecodePath));;
  return_ok.

Definition DecodeComposition : Dec Composition.t unit :=
  store Composition.id Rd.Id;; store Composition.generation Rd.Id;;
  store Composition.resource_set_id Rd.Id;; store Composition.resource_set_generation Rd.Id;;
  counted (push Composition.nodes (rd Rd.Id));; zoom Composition.request DecodeRequest;;
  zoom Composition.graph DecodeGraph;; zoom Composition.authority DecodeAuthority;;
  store_enum Composition.lifecycle CompositionLifecycle.REQUESTED;; store Composition.reservation Rd.Id;;
  store_enum Composition.outcome CompositionOutcome.OUTCOME_UNKNOWN;;
  zoom Composition.rank (store RankScore.total Rd.Dbl);;
  counted (push Composition.paths (local PathEvidence.dflt DecodePath));;
  store Composition.explanation Rd.Str;;
  return_ok.

Definition DecodeItem : Dec ReservationItem.t unit :=
  store ReservationItem.resource Rd.Id;; store_enum ReservationItem.state ReservationState.NONE;;
  store ReservationItem.reserved_amount Rd.Dbl.
Definition DecodeReservation : Dec Reservation.t unit :=
  store Reservation.id Rd.Id;; store Reservation.generation Rd.Id;; store Reservation.composition Rd.Id;;
  counted (push Reservation.items (local ReservationItem.dflt DecodeItem));;
  store_enum Reservation.state ReservationState.NONE;;
  return_ok.

(** ** Encodable values

    What the C++ types guarantee (integers of their width, well-formed doubles)
    and what the codec requires: strings and containers within the bounds, and
    enumerators inside the canonical tables, which excludes the value 0. *)
Definition id_ok {Tag : Set} (i : StrongId Tag) : Prop := u64_ok (Value i).
Definition all_ok {A : Type} (ok : A -> Prop) (l : list A) : Prop := count_ok l /\ Forall ok l.
Definition entries_ok (m : gmap string double) : Prop :=
  all_ok (fun kv : string * double => str_ok kv.1 /\ double_ok kv.2) (map_entries m).

Definition evidence_ok (e : Evidence.t) : Prop :=
  id_ok (Evidence.id e) /\ id_ok (Evidence.generation e) /\ enum_ok (Evidence.source e) /\ enum_ok (Evidence.state e) /\
  u64_ok (Evidence.timestamp_ms e) /\ u64_ok (Evidence.max_age_ms e) /\ double_ok (Evidence.confidence e) /\
  str_ok (Evidence.provenance e) /\ str_ok (Evidence.owner e).
Definition capability_ok (c : Capability.t) : Prop :=
  enum_ok (Capability.kind c) /\ enum_ok (Capability.state c) /\ id_ok (Capability.generation c) /\
  id_ok (Capability.evidence c) /\ str_ok (Capability.detail c).
Definition pin_ok (p : CompatibilityPin.t) : Prop :=
  str_ok (CompatibilityPin.name p) /\ str_ok (CompatibilityPin.value p) /\ id_ok (CompatibilityPin.generation p).
Definition compatibility_ok (c : Compatibility.t) : Prop :=
  id_ok (Compatibility.id c) /\ id_ok (Compatibility.generation c) /\ all_ok pin_ok (Compatibility.pins c).
Definition capacity_ok (c : Capacity.t) : Prop :=
  double_ok (Capacity.compute_units c) /\ double_ok (Capacity.accelerator_memory_bytes c) /\
  double_ok (Capacity.host_memory_bytes c) /\ double_ok (Capacity.expanded_memory_bytes c) /\
  double_ok (Capacity.storage_bytes c) /\ double_ok (Capacity.network_bandwidth_mbps c) /\
  double_ok (Capacity.network_latency_us c) /\ entries_ok (Capacity.extra c).
Definition locality_ok (l : Locality.t) : Prop := all_ok double_ok (Locality.coords l) /\ entries_ok (Locality.tags l).
Definition failure_domain_ok (f : FailureDomain.t) : Prop :=
  id_ok (FailureDomain.id f) /\ enum_ok (FailureDomain.type f) /\ str_ok (FailureDomain.name f).
Definition resource_ok (r : Resource.t) : Prop :=
  id_ok (Resource.id r) /\ id_ok (Resource.generation r) /\ enum_ok (Resource.resource_class r) /\
  id_ok (Resource.node_id r) /\ str_ok (Resource.provider r) /\ str_ok (Resource.authority_owner r) /\
  enum_ok (Resource.health r) /\ enum_ok (Resource.readiness r) /\ enum_ok (Resource.reachability r) /\
  capacity_ok (Resource.capacity r) /\ locality_ok (Resource.locality r) /\
  failure_domain_ok (Resource.failure_domain r) /\ evidence_ok (Resource.evidence r) /\
  all_ok capability_ok (Resource.capabilities r) /\ all_ok compatibility_ok (Resource.compatibility r).
Definition node_ok (n : Node.t) : Prop :=
  id_ok (Node.id n) /\ id_ok (Node.generation n) /\ str_ok (Node.hostname n) /\ str_ok (Node.provider n) /\
  enum_ok (Node.backend n) /\ all_ok id_ok (Node.inventory n) /\ failure_domain_ok (Node.failure_domain n) /\
  locality_ok (Node.locality n) /\ enum_ok (Node.reachability n) /\ enum_ok (Node.health n) /\
  str_ok (Node.worker_owner n) /\ id_ok (Node.worker_boot n) /\ u64_ok (Node.evidence_freshness_ms n) /\
  enum_ok (Node.lifecycle n).
Definition path_requirement_ok (q : PathRequirement.t) : Prop :=
  id_ok (PathRequirement.from q) /\ id_ok (PathRequirement.to q) /\ double_ok (PathRequirement.min_bandwidth_mbps q) /\
  double_ok (PathRequirement.max_latency_us q) /\ str_ok (PathRequirement.protocol q).
Definition path_ok (p : PathEvidence.t) : Prop :=
  id_ok (PathEvidence.id p) /\ id_ok (PathEvidence.generation p) /\ path_requirement_ok (PathEvidence.requirement p) /\
  double_ok (PathEvidence.bandwidth_mbps p) /\ double_ok (PathEvidence.latency_us p) /\
  str_ok (PathEvidence.provider p) /\ str_ok (PathEvidence.source p) /\ evidence_ok (PathEvidence.evidence p).
Definition edge_ok (e : GraphEdge.t) : Prop :=
  id_ok (GraphEdge.from e) /\ id_ok (GraphEdge.to e) /\ enum_ok (GraphEdge.kind e) /\
  double_ok (GraphEdge.min_bandwidth_mbps e) /\ double_ok (GraphEdge.max_latency_us e) /\
  str_ok (GraphEdge.protocol e) /\ str_ok (GraphEdge.compat_facet e).
Definition graph_ok (g : ResourceGraph.t) : Prop :=
  all_ok id_ok (ResourceGraph.vertices g) /\ all_ok edge_ok (ResourceGraph.edges g).
Definition authority_ok (a : AuthorityTuple.t) : Prop :=
  id_ok (AuthorityTuple.coordinator_epoch a) /\ all_ok id_ok (AuthorityTuple.worker_boots a) /\
  all_ok id_ok (AuthorityTuple.node_generations a) /\ all_ok id_ok (AuthorityTuple.resource_generations a) /\
  all_ok id_ok (AuthorityTuple.path_generations a) /\ all_ok id_ok (AuthorityTuple.capability_generations a) /\
  all_ok id_ok (AuthorityTuple.compatibility_generations a) /\ id_ok (AuthorityTuple.policy_generation a) /\
  all_ok id_ok (AuthorityTuple.evidence_generations a) /\ all_ok id_ok (AuthorityTuple.reservation_generations a) /\
  id_ok (AuthorityTuple.composition_generation a).
Definition request_ok (q : CompositionRequest.t) : Prop :=
  u64_ok (CompositionRequest.compute_units q) /\ u32_ok (CompositionRequest.accelerator_count q) /\
  all_ok str_ok (CompositionRequest.accelerator_architectures q) /\
  double_ok (CompositionRequest.accelerator_memory_bytes q) /\ double_ok (CompositionRequest.host_memory_bytes q) /\
  double_ok (CompositionRequest.expanded_memory_bytes q) /\ double_ok (CompositionRequest.storage_bytes q) /\
  u32_ok (CompositionRequest.network_endpoint_count q) /\
  double_ok (CompositionRequest.min_bandwidth_mbps q) /\ double_ok (CompositionRequest.max_latency_us q) /\
  all_ok enum_ok (set_entries (CompositionRequest.mandatory_classes q)) /\
  all_ok enum_ok (set_entries (CompositionRequest.optional_classes q)) /\
  id_ok (CompositionRequest.compatibility q) /\ id_ok (CompositionRequest.policy q) /\
  id_ok (CompositionRequest.policy_generation q) /\ id_ok (CompositionRequest.consumer q) /\
  id_ok (CompositionRequest.consumer_generation q).
Definition factor_ok (f : RankingFactor.t) : Prop :=
  str_ok (RankingFactor.name f) /\ double_ok (RankingFactor.weight f) /\ double_ok (RankingFactor.value f) /\
  str_ok (RankingFactor.detail f).
Definition plan_ok (p : CompositionPlan.t) : Prop :=
  id_ok (CompositionPlan.id p) /\ id_ok (CompositionPlan.generation p) /\ graph_ok (CompositionPlan.graph p) /\
  all_ok id_ok (CompositionPlan.nodes p) /\ request_ok (CompositionPlan.request p) /\
  double_ok (RankScore.total (CompositionPlan.rank p)) /\ all_ok factor_ok (RankScore.factors (CompositionPlan.rank p)) /\
  authority_ok (CompositionPlan.authority p) /\ enum_ok (CompositionPlan.lifecycle p) /\
  all_ok path_ok (CompositionPlan.paths p).
Definition composition_ok (c : Composition.t) : Prop :=
  id_ok (Composition.id c) /\ id_ok (Composition.generation c) /\ id_ok (Composition.resource_set_id c) /\
  id_ok (Composition.resource_set_generation c) /\ all_ok id_ok (Composition.nodes c) /\
  request_ok (Composition.request c) /\ graph_ok (Composition.graph c) /\ authority_ok (Composition.authority c) /\
  enum_ok (Composition.lifecycle c) /\ id_ok (Composition.reservation c) /\ enum_ok (Composition.outcome c) /\
  double_ok (RankScore.total (Composition.rank c)) /\ all_ok path_ok (Composition.paths c) /\
  str_ok (Composition.explanation c).
Definition item_ok (it : ReservationItem.t) : Prop :=
  id_ok (ReservationItem.resource it) /\ enum_ok (ReservationItem.state it) /\ double_ok (ReservationItem.reserved_amount it).
Definition reservation_ok (r : Reservation.t) : Prop :=
  id_ok (Reservation.id r) /\ id_ok (Reservation.generation r) /\ id_ok (Reservation.composition r) /\
  all_ok item_ok (Reservation.items r) /\ enum_ok (Reservation.state r).

(** Encodability is decidable: a concrete value is checked by evaluation. *)
#[export] Instance u64_ok_dec n : Decision (u64_ok n).
Proof. unfold u64_ok. apply _. Defined.
#[export] Instance u32_ok_dec n : Decision (u32_ok n).
Proof. unfold u32_ok. apply _. Defined.
#[export] Instance str_ok_dec s : Decision (str_ok s).
Proof. unfold str_ok. apply _. Defined.
#[export] Instance double_ok_dec x : Decision (double_ok x).
Proof. unfold double_ok. apply _. Defined.
#[export] Instance enum_ok_dec {E : Type} `{EnumTraits E} (e : E) : Decision (enum_ok e).
Proof. unfold enum_ok. apply _. Defined.
#[export] Instance id_ok_dec {Tag : Set} (i : StrongId Tag) : Decision (id_ok i).
Proof. unfold id_ok. apply _. Defined.
#[export] Instance all_ok_dec {A : Type} (ok : A -> Prop) `{!forall x, Decision (ok x)} l : Decision (all_ok ok l).
Proof. unfold all_ok, count_ok. apply _. Defined.
#[export] Instance entries_ok_dec m : Decision (entries_ok m).
Proof. unfold entries_ok. apply _. Defined.
#[export] Instance evidence_ok_dec x : Decision (evidence_ok x).
Proof. unfold evidence_ok. apply _. Defined.
#[export] Instance capability_ok_dec x : Decision (capability_ok x).
Proof. unfold capability_ok. apply _. Defined.
#[export] Instance pin_ok_dec x : Decision (pin_ok x).
Proof. unfold pin_ok. apply _. Defined.
#[export] Instance compatibility_ok_dec x : Decision (compatibility_ok x).
Proof. unfold compatibility_ok. apply _. Defined.
#[export] Instance capacity_ok_dec x : Decision (capacity_ok x).
Proof. unfold capacity_ok. apply _. Defined.
#[export] Instance locality_ok_dec x : Decision (locality_ok x).
Proof. unfold locality_ok. apply _. Defined.
#[export] Instance failure_domain_ok_dec x : Decision (failure_domain_ok x).
Proof. unfold failure_domain_ok. apply _. Defined.
#[export] Instance resource_ok_dec x : Decision (resource_ok x).
Proof. unfold resource_ok. apply _. Defined.
#[export] Instance node_ok_dec x : Decision (node_ok x).
Proof. unfold node_ok. apply _. Defined.
#[export] Instance path_requirement_ok_dec x : Decision (path_requirement_ok x).
Proof. unfold path_requirement_ok. apply _. Defined.
#[export] Instance path_ok_dec x : Decision (path_ok x).
Proof. unfold path_ok. apply _. Defined.
#[export] Instance edge_ok_dec x : Decision (edge_ok x).
Proof. unfold edge_ok. apply _. Defined.
#[export] Instance graph_ok_dec x : Decision (graph_ok x).
Proof. unfold graph_ok. apply _. Defined.
#[export] Instance authority_ok_dec x : Decision (authority_ok x).
Proof. unfold authority_ok. apply _. Defined.
#[export] Instance request_ok_dec x : Decision (request_ok x).
Proof. unfold request_ok. apply _. Defined.
#[export] Instance factor_ok_dec x : Decision (factor_ok x).
Proof. unfold factor_ok. apply _. Defined.
#[export] Instance plan_ok_dec x : Decision (plan_ok x).
Proof. unfold plan_ok. apply _. Defined.
#[export] Instance composition_ok_dec x : Decision (composition_ok x).
Proof. unfold composition_ok. apply _. Defined.
#[export] Instance item_ok_dec x : Decision (item_ok x).
Proof. unfold item_ok. apply _. Defined.
#[export] Instance reservation_ok_dec x : Decision (reservation_ok x).
Proof. unfold reservation_ok. apply _. Defined.
#[global] Typeclasses Opaque u64_ok u32_ok str_ok double_ok enum_ok id_ok all_ok entries_ok evidence_ok capability_ok pin_ok compatibility_ok capacity_ok locality_ok failure_domain_ok
  resource_ok node_ok path_requirement_ok path_ok edge_ok graph_ok authority_ok request_ok factor_ok plan_ok composition_ok item_ok
  reservation_ok.
(** Decides an encodability condition on a closed value. *)
Ltac decide_ok := apply (bool_decide_unpack _); vm_compute; exact I.

(** ** What the codec keeps

    The members that no encoder writes come back with their default values. *)
Definition wire_domain (f : FailureDomain.t) : FailureDomain.t := f <| FailureDomain.locality_coords := ∅ |>.
Definition wire_resource (r : Resource.t) : Resource.t := r <| Resource.failure_domain ::= wire_domain |>.
Definition wire_node (n : Node.t) : Node.t := n <| Node.failure_domain ::= wire_domain |>.
Definition wire_request (q : CompositionRequest.t) : CompositionRequest.t :=
  q <| CompositionRequest.failure_domain := FailureDomainConstraint.dflt |> <| CompositionRequest.constraints := ∅ |>.
Definition wire_plan (p : CompositionPlan.t) : CompositionPlan.t := p <| CompositionPlan.request ::= wire_request |>.
Definition wire_composition (c : Composition.t) : Composition.t :=
  c <| Composition.request ::= wire_request |> <| Composition.rank ::= fun s => s <| RankScore.factors := [] |> |>.

(** ** No decoder reads outside its buffer *)
Lemma DecodeEvidence_safe : safe DecodeEvidence.
Proof. solve_safe. Qed.
#[export] Hint Resolve DecodeEvidence_safe : safe.
Lemma DecodeCapability_safe : safe DecodeCapability.
Proof. solve_safe. Qed.
#[export] Hint Resolve DecodeCapability_safe : safe.
Lemma DecodePin_safe : safe DecodePin.
Proof. solve_safe. Qed.
#[export] Hint Resolve DecodePin_safe : safe.
Lemma DecodeCompatibility_safe : safe DecodeCompatibility.
Proof. solve_safe. Qed.
#[export] Hint Resolve DecodeCompatibility_safe : safe.
Lemma DecodeCapacity_safe : safe DecodeCapacity.
Proof. solve_safe. Qed.
#[export] Hint Resolve DecodeCapacity_safe : safe.
Lemma DecodeLocality_safe : safe DecodeLocality.
Proof. solve_safe. Qed.
#[export] Hint Resolve DecodeLocality_safe : safe.
Lemma DecodeFailureDomain_safe : safe DecodeFailureDomain.
Proof. solve_safe. Qed.
#[export] Hint Resolve DecodeFailureDomain_safe : safe.
Lemma DecodeResource_safe : safe DecodeResource.
Proof. solve_safe. Qed.
#[export] Hint Resolve DecodeResource_safe : safe.
Lemma DecodeNode_safe : safe DecodeNode.
Proof. solve_safe. Qed.
#[export] Hint Resolve DecodeNode_safe : safe.
Lemma DecodePathRequirement_safe : safe DecodePathRequirement.
Proof. solve_safe. Qed.
#[export] Hint Resolve DecodePathRequirement_safe : safe.
Lemma DecodePath_safe : safe DecodePath.
Proof. solve_safe. Qed.
#[export] Hint Resolve DecodePath_safe : safe.
Lemma DecodeEdge_safe : safe DecodeEdge.
Proof. solve_safe. Qed.
#[export] Hint Resolve DecodeEdge_safe : safe.
Lemma DecodeGraph_safe : safe DecodeGraph.
Proof. solve_safe. Qed.
#[export] Hint Resolve DecodeGraph_safe : safe.
Lemma DecodeAuthority_safe : safe DecodeAuthority.
Proof. solve_safe. Qed.
#[export] Hint Resolve DecodeAuthority_safe : safe.
Lemma DecodeRequest_safe : safe DecodeRequest.
Proof. solve_safe. Qed.
#[export] Hint Resolve DecodeRequest_safe : safe.
Lemma DecodeFactor_safe : safe DecodeFactor.
Proof. solve_safe. Qed.
#[export] Hint Resolve DecodeFactor_safe : safe.
Lemma DecodePlan_safe : safe DecodePlan.
Proof. solve_safe. Qed.
#[export] Hint Resolve DecodePlan_safe : safe.
Lemma DecodeComposition_safe : safe DecodeComposition.
Proof. solve_safe. Qed.
#[export] Hint Resolve DecodeComposition_safe : safe.
Lemma DecodeItem_safe : safe DecodeItem.
Proof. solve_safe. Qed.
#[export] Hint Resolve DecodeItem_safe : safe.
Lemma DecodeReservation_safe : safe DecodeReservation.
Proof. solve_safe. Qed.
#[export] Hint Resolve DecodeReservation_safe : safe.

(** ** Transfer lemmas *)
Section entries.
Context {T : Type} (msg : string).
Lemma tr_entries (p : T -> gmap string double) `{!Setter p} `{!SetterLaws p} m t :
  p t = ∅ -> entries_ok m ->
  transfers (EncodeEntries msg m) (counted (store_entry p Rd.Str Rd.Dbl)) t tt (set_field p (fun _ => m) t).
Proof.
  intros Hp [Hc Hm]. apply (tr_counted_map p (Wr.Str msg) Wr.Dbl); [auto with safe..|done|apply isort_permutation|done|].
  eapply Forall_impl; [exact Hm|]. intros kv [? ?]. split; auto with codec.
Qed.
Lemma tr_classes (p : T -> gset ResourceClass.t) `{!Setter p} `{!SetterLaws p} s t :
  p t = ∅ -> all_ok enum_ok (set_entries s) ->
  transfers (Wr.counted Wr.Enum (set_entries s)) (counted (insert_enum p ResourceClass.UNKNOWN)) t tt (set_field p (fun _ => s) t).
Proof. intros Hp [Hc Hs]. apply (tr_counted_set p); [exact Hp|apply isort_permutation|done..]. Qed.
End entries.
#[export] Hint Extern 1 (transfers (EncodeEntries _ _) _ _ _ _) => (eapply tr_entries; [apply _|reflexivity|eassumption]) : codec.
#[export] Hint Extern 1 (transfers (Wr.counted Wr.Enum (set_entries _)) _ _ _ _) => (eapply tr_classes; [apply _|reflexivity|eassumption]) : codec.

(** Each lemma opens the encodability condition and runs the two sides in step. *)
Ltac solve_transfer ok enc dec :=
  intros H; unfold ok in H; unfold enc, dec; destruct_and!;
  repeat match goal with H : all_ok ?P _ |- _ => lazymatch P with enum_ok => fail | _ => destruct H end end;
  eapply tr_eq; [transfer|].

Section transfer.
Context (msg : string).

Lemma tr_evidence e : evidence_ok e -> transfers (EncodeEvidence msg e) DecodeEvidence Evidence.dflt tt e.
Proof. solve_transfer evidence_ok EncodeEvidence DecodeEvidence. by destruct e. Qed.
Hint Resolve tr_evidence : codec.
Lemma tr_capability c : capability_ok c -> transfers (EncodeCapability msg c) DecodeCapability Capability.dflt tt c.
Proof. solve_transfer capability_ok EncodeCapability DecodeCapability. by destruct c. Qed.
Hint Resolve tr_capability : codec.
Lemma tr_pin p : pin_ok p -> transfers (EncodePin msg p) DecodePin CompatibilityPin.dflt tt p.
Proof. solve_transfer pin_ok EncodePin DecodePin. by destruct p. Qed.
Hint Resolve tr_pin : codec.
Lemma tr_compatibility c : compatibility_ok c -> transfers (EncodeCompatibility msg c) DecodeCompatibility Compatibility.dflt tt c.
Proof. solve_transfer compatibility_ok EncodeCompatibility DecodeCompatibility. by destruct c. Qed.
Hint Resolve tr_compatibility : codec.
Lemma tr_capacity c : capacity_ok c -> transfers (EncodeCapacity msg c) DecodeCapacity Capacity.dflt tt c.
Proof. solve_transfer capacity_ok EncodeCapacity DecodeCapacity. by destruct c. Qed.
Hint Resolve tr_capacity : codec.
Lemma tr_locality l : locality_ok l -> transfers (EncodeLocality msg l) DecodeLocality Locality.dflt tt l.
Proof. solve_transfer locality_ok EncodeLocality DecodeLocality. by destruct l. Qed.
Hint Resolve tr_locality : codec.
Lemma tr_failure_domain f :
  failure_domain_ok f -> transfers (EncodeFailureDomain msg f) DecodeFailureDomain FailureDomain.dflt tt (wire_domain f).
Proof. solve_transfer failure_domain_ok EncodeFailureDomain DecodeFailureDomain. by destruct f. Qed.
Hint Resolve tr_failure_domain : codec.
Lemma tr_resource r : resource_ok r -> transfers (EncodeResource msg r) DecodeResource Resource.dflt tt (wire_resource r).
Proof. solve_transfer resource_ok EncodeResource DecodeResource. by destruct r. Qed.
Lemma tr_node n : node_ok n -> transfers (EncodeNode msg n) DecodeNode Node.dflt tt (wire_node n).
Proof. solve_transfer node_ok EncodeNode DecodeNode. by destruct n. Qed.
Lemma tr_path_requirement q :
  path_requirement_ok q -> transfers (EncodePathRequirement msg q) DecodePathRequirement PathRequirement.dflt tt q.
Proof. solve_transfer path_requirement_ok EncodePathRequirement DecodePathRequirement. by destruct q. Qed.
Hint Resolve tr_path_requirement : codec.
Lemma tr_path p : path_ok p -> transfers (EncodePath msg p) DecodePath PathEvidence.dflt tt p.
Proof. solve_transfer path_ok EncodePath DecodePath. by destruct p. Qed.
Hint Resolve tr_path : codec.
Lemma tr_edge e : edge_ok e -> transfers (EncodeEdge msg e) DecodeEdge GraphEdge.dflt tt e.
Proof. solve_transfer edge_ok EncodeEdge DecodeEdge. by destruct e. Qed.
Hint Resolve tr_edge : codec.
Lemma tr_graph g : graph_ok g -> transfers (EncodeGraph msg g) DecodeGraph ResourceGraph.dflt tt g.
Proof. solve_transfer graph_ok EncodeGraph DecodeGraph. by destruct g. Qed.
Hint Resolve tr_graph : codec.
Lemma tr_authority a : authority_ok a -> transfers (EncodeAuthority a) DecodeAuthority AuthorityTuple.dflt tt a.
Proof. solve_transfer authority_ok EncodeAuthority DecodeAuthority. by destruct a. Qed.
Hint Resolve tr_authority : codec.
Lemma tr_request q : request_ok q -> transfers (EncodeRequest msg q) DecodeRequest CompositionRequest.dflt tt (wire_request q).
Proof. solve_transfer request_ok EncodeRequest DecodeRequest. by destruct q. Qed.
Hint Resolve tr_request : codec.
Lemma tr_factor f : factor_ok f -> transfers (EncodeFactor msg f) DecodeFactor RankingFactor.dflt tt f.
Proof. solve_transfer factor_ok EncodeFactor DecodeFactor. by destruct f. Qed.
Hint Resolve tr_factor : codec.
Lemma tr_plan p : plan_ok p -> transfers (EncodePlan msg p) DecodePlan CompositionPlan.dflt tt (wire_plan p).
Proof. solve_transfer plan_ok EncodePlan DecodePlan. by destruct p as [? ? ? ? ? []]. Qed.
Lemma tr_composition c :
  composition_ok c -> transfers (EncodeComposition msg c) DecodeComposition Composition.dflt tt (wire_composition c).
Proof. solve_transfer composition_ok EncodeComposition DecodeComposition. by destruct c. Qed.
Lemma tr_item it : item_ok it -> transfers (EncodeItem it) DecodeItem ReservationItem.dflt tt it.
Proof. solve_transfer item_ok EncodeItem DecodeItem. by destruct it. Qed.
Hint Resolve tr_item : codec.
Lemma tr_reservation r : reservation_ok r -> transfers (EncodeReservation r) DecodeReservation Reservation.dflt tt r.
Proof. solve_transfer reservation_ok EncodeReservation DecodeReservation. by destruct r. Qed.
End transfer.
#[export] Hint Resolve tr_evidence tr_capability tr_pin tr_compatibility tr_capacity tr_locality tr_failure_domain
  tr_path_requirement tr_path tr_edge tr_graph tr_authority tr_request tr_factor tr_item : codec.
