(* ===== verification/WireSize.v ===== *)
(** * Sizes of encoded messages

    Upper bounds for the encodings of nodes and resources, from which follows
    that the descriptors of the topology fit into their frames whatever worker
    stamps them. *)

From S2P Require Import Prelude Bytes Enums Ids Args Double Model Codec Wire Protocol.

Definition wsize (w : W) (n : nat) : Prop := forall buf b, w buf = inr b -> (length b <= length buf + n)%nat.

Section rules.
Context (msg : string).

Lemma wsize_seq a b n m : wsize a n -> wsize b m -> wsize (a ;>> b) (n + m).
Proof.
  intros Ha Hb buf out. unfold Wr.seq. destruct (a buf) as [e|buf1] eqn:E; [done|]. intros H. apply Ha in E. apply Hb in H. lia.
Qed.
Lemma wsize_u8 v : wsize (Wr.U8 v) 1.
Proof. intros buf b [= <-]. rewrite length_app. cbn. lia. Qed.
Lemma wsize_u32 v : wsize (Wr.U32 v) 4.
Proof. intros buf b [= <-]. rewrite PutU32_eq, length_app, length_le_bytes. lia. Qed.
Lemma wsize_u64 v : wsize (Wr.U64 v) 8.
Proof. intros buf b [= <-]. rewrite PutU64_eq, length_app, length_le_bytes. lia. Qed.
Lemma wsize_bool v : wsize (Wr.Bool v) 1.
Proof. apply wsize_u8. Qed.
Lemma wsize_dbl d : wsize (Wr.Dbl d) 8.
Proof. apply wsize_u64. Qed.
Lemma wsize_enum {E : Type} `{EnumTraits E} (e : E) : wsize (Wr.Enum e) 4.
Proof. apply wsize_u32. Qed.
Lemma wsize_id {Tag : Set} (i : StrongId Tag) : wsize (Wr.Id i) 8.
Proof. apply wsize_u64. Qed.
Lemma length_list_byte s : length (String.list_byte_of_string s) = String.length s.
Proof. unfold String.list_byte_of_string. rewrite length_map. induction s as [|c s IH]; cbn; [done|]. by rewrite IH. Qed.
Lemma wsize_str s : wsize (Wr.Str msg s) (4 + String.length s).
Proof.
  intros buf b. unfold Wr.Str. destruct (_ <? _); [done|]. intros [= <-].
  rewrite length_app, PutU32_eq, length_app, length_le_bytes, length_list_byte. lia.
Qed.
Lemma wsize_each {A : Type} (f : A -> W) (g : A -> nat) l :
  (forall x, wsize (f x) (g x)) -> wsize (Wr.each f l) (sum_list_with g l).
Proof.
  intros Hf. induction l as [|x l IH]; cbn [Wr.each sum_list_with]; [intros buf b [= <-]; lia|]. by apply wsize_seq.
Qed.
Lemma wsize_counted {A : Type} (f : A -> W) (g : A -> nat) l :
  (forall x, wsize (f x) (g x)) -> wsize (Wr.counted f l) (4 + sum_list_with g l).
Proof. intros Hf. apply wsize_seq; [apply wsize_u32|by apply wsize_each]. Qed.
Lemma wsize_le w n m : wsize w n -> (n <= m)%nat -> wsize w m.
Proof. intros H Hl buf b E. apply H in E. lia. Qed.
End rules.

Create HintDb wsize.
#[export] Hint Resolve wsize_u8 wsize_u32 wsize_u64 wsize_bool wsize_dbl wsize_enum wsize_id wsize_str : wsize.
(** A sequence of statements within a bound. *)
Ltac wsize_statements := first [by eauto 3 with wsize|eapply wsize_seq; [by eauto 3 with wsize|wsize_statements]].
Ltac solve_wsize := eapply wsize_le; [wsize_statements|].

Definition str_size (s : string) : nat := 4 + String.length s.
Definition entries_size (m : gmap string double) : nat := 4 + sum_list_with (fun kv => str_size kv.1 + 8)%nat (map_entries m).
Definition evidence_size (e : Evidence.t) : nat := 49 + str_size (Evidence.provenance e) + str_size (Evidence.owner e).
Definition capability_size (c : Capability.t) : nat := 24 + str_size (Capability.detail c).
Definition pin_size (p : CompatibilityPin.t) : nat := str_size (CompatibilityPin.name p) + str_size (CompatibilityPin.value p) + 8.
Definition compatibility_size (c : Compatibility.t) : nat := 20 + sum_list_with pin_size (Compatibility.pins c).
Definition capacity_size (c : Capacity.t) : nat := 56 + entries_size (Capacity.extra c).
Definition locality_size (l : Locality.t) : nat :=
  4 + sum_list_with (fun _ => 8%nat) (Locality.coords l) + entries_size (Locality.tags l).
Definition domain_size (f : FailureDomain.t) : nat := 13 + str_size (FailureDomain.name f).
Definition resource_size (r : Resource.t) : nat :=
  41 + str_size (Resource.provider r) + str_size (Resource.authority_owner r) + capacity_size (Resource.capacity r) +
  locality_size (Resource.locality r) + domain_size (Resource.failure_domain r) + evidence_size (Resource.evidence r) +
  (4 + sum_list_with capability_size (Resource.capabilities r)) +
  (4 + sum_list_with compatibility_size (Resource.compatibility r)).
Definition node_size (n : Node.t) : nat :=
  49 + str_size (Node.hostname n) + str_size (Node.provider n) + (4 + sum_list_with (fun _ => 8%nat) (Node.inventory n)) +
  domain_size (Node.failure_domain n) + locality_size (Node.locality n) + str_size (Node.worker_owner n).

Section sizes.
Context (msg : string).
Lemma wsize_entries m : wsize (EncodeEntries msg m) (entries_size m).
Proof. apply wsize_counted. intros kv. apply wsize_seq; [apply wsize_str|apply wsize_dbl]. Qed.
Lemma wsize_evidence e : wsize (EncodeEvidence msg e) (evidence_size e).
Proof. unfold EncodeEvidence. solve_wsize. unfold evidence_size, str_size. lia. Qed.
Lemma wsize_capability c : wsize (EncodeCapability msg c) (capability_size c).
Proof. unfold EncodeCapability. solve_wsize. unfold capability_size, str_size. lia. Qed.
Lemma wsize_pin p : wsize (EncodePin msg p) (pin_size p).
Proof. unfold EncodePin. solve_wsize. unfold pin_size, str_size. lia. Qed.
Lemma wsize_compatibility c : wsize (EncodeCompatibility msg c) (compatibility_size c).
Proof.
  eapply wsize_le; [eapply wsize_seq; [apply wsize_id|]; eapply wsize_seq; [apply wsize_id|]; apply wsize_counted, wsize_pin|].
  unfold compatibility_size. lia.
Qed.
#[local] Hint Resolve wsize_entries wsize_evidence : wsize.
Lemma wsize_capacity c : wsize (EncodeCapacity msg c) (capacity_size c).
Proof. unfold EncodeCapacity. solve_wsize. unfold capacity_size. lia. Qed.
Lemma wsize_locality l : wsize (EncodeLocality msg l) (locality_size l).
Proof. apply wsize_seq; [apply wsize_counted, wsize_dbl|apply wsize_entries]. Qed.
Lemma wsize_domain f : wsize (EncodeFailureDomain msg f) (domain_size f).
Proof. unfold EncodeFailureDomain. solve_wsize. unfold domain_size, str_size. lia. Qed.
#[local] Hint Resolve wsize_capacity wsize_locality wsize_domain : wsize.
#[local] Hint Resolve wsize_counted wsize_capability wsize_compatibility : wsize.
Lemma wsize_resource r : wsize (EncodeResource msg r) (resource_size r).
Proof.
  unfold EncodeResource. solve_wsize. unfold resource_size, str_size. lia.
Qed.
Lemma wsize_ids {Tag : Set} (l : list (StrongId Tag)) : wsize (Wr.counted Wr.Id l) (4 + sum_list_with (fun _ => 8%nat) l).
Proof. apply wsize_counted. intros i. apply wsize_id. Qed.
#[local] Hint Resolve wsize_ids : wsize.
Lemma wsize_node n : wsize (EncodeNode msg n) (node_size n).
Proof. unfold EncodeNode. solve_wsize. unfold node_size, str_size. lia. Qed.
End sizes.
