(* ===== verification/Planner.v ===== *)
(** * Planning functions

    The two anonymous namespaces of [src/dfabric/engine.cpp]: eligibility,
    demands, composition graphs, their validation, ranking, authority binding
    and the bounded enumeration of selections.  They are pure functions of the
    registry maps they are given.

    A C++ function that returns [bool] and fills [out] / [notes] pushes exactly
    one reason and one note on each failing path after clearing both, so its
    model returns [None] for [true] and [Some (reason, note)] for [false]. *)

From S2P Require Import Prelude Enums Ids Double Model.

Abbreviation verdict := (option (RejectionReason.t * string)).

Record ClassDemand := mkDemand {
  cls : ResourceClass.t;
  mandatory : bool;
  amount_based : bool;
  amount : double;
  count : N;
  dimension : string;
}.
#[export] Instance eta_ClassDemand : Eta ClassDemand := fun d =>
  mkDemand (cls d) (mandatory d) (amount_based d) (amount d) (count d) (dimension d).

Definition PathKey (a b : NodeId) : string := ToString a +:+ "->" +:+ ToString b.

Definition ClassCapabilityKinds (c : ResourceClass.t) : list CapabilityKind.t :=
  match c with
  | ResourceClass.COMPUTE => [CapabilityKind.CPU_EXECUTION]
  | ResourceClass.ACCELERATOR =>
      [CapabilityKind.CUDA_EXECUTION; CapabilityKind.ROCM_EXECUTION; CapabilityKind.CPU_EXECUTION]
  | ResourceClass.HOST_MEMORY => [CapabilityKind.HOST_MEMORY_ACCESS]
  | ResourceClass.EXPANDED_MEMORY => [CapabilityKind.EXPANDED_MEMORY_ACCESS]
  | ResourceClass.STORAGE => [CapabilityKind.PERSISTENT_STORAGE]
  | ResourceClass.NETWORK_ENDPOINT | ResourceClass.NIC =>
      [CapabilityKind.DIRECT_NETWORK_ACCESS; CapabilityKind.NETWORK_PROTOCOL]
  | ResourceClass.FABRIC_ENDPOINT => [CapabilityKind.NETWORK_PROTOCOL; CapabilityKind.RDMA_CAPABLE]
  | ResourceClass.DPU => [CapabilityKind.CPU_EXECUTION; CapabilityKind.DIRECT_NETWORK_ACCESS]
  | ResourceClass.SERVICE_ENDPOINT | ResourceClass.CONTROL_PROCESS | ResourceClass.OTHER_REGISTERED =>
      [CapabilityKind.CPU_EXECUTION; CapabilityKind.NETWORK_PROTOCOL]
  | ResourceClass.UNKNOWN => []
  end.

Definition FindCapability (r : Resource.t) (kind : CapabilityKind.t) : option Capability.t :=
  List.find (fun c => bool_decide (Capability.kind c = kind)) (Resource.capabilities r).

Definition CapabilitySupported (r : Resource.t) (kind : CapabilityKind.t) : bool :=
  match FindCapability r kind with
  | Some c => bool_decide (Capability.state c = CapabilityState.SUPPORTED)
  | None => false
  end.

Definition CapacityForDimension (r : Resource.t) (dim : string) : double :=
  let c := Resource.capacity r in
  if String.eqb dim "compute_units" then Capacity.compute_units c
  else if String.eqb dim "accelerator_memory_bytes" then Capacity.accelerator_memory_bytes c
  else if String.eqb dim "host_memory_bytes" then Capacity.host_memory_bytes c
  else if String.eqb dim "expanded_memory_bytes" then Capacity.expanded_memory_bytes c
  else if String.eqb dim "storage_bytes" then Capacity.storage_bytes c
  else if String.eqb dim "network_bandwidth_mbps" then Capacity.network_bandwidth_mbps c
  else default d0 (Capacity.extra c !! dim).

(** The capability scan of [ResourceEligible]: [any_claim], [any_unknown], [any_ok]. *)
Definition CapabilityScan (res : Resource.t) : bool * bool * bool :=
  fold_left (fun '(any_claim, any_unknown, any_ok) kind =>
    match FindCapability res kind with
    | None => (any_claim, any_unknown, any_ok)
    | Some c =>
        (true,
         any_unknown || bool_decide (Capability.state c = CapabilityState.UNKNOWN),
         any_ok || bool_decide (Capability.state c = CapabilityState.SUPPORTED))
    end) (ClassCapabilityKinds (Resource.resource_class res)) (false, false, false).

(** The accelerator architecture test of [ResourceEligible]. *)
Definition ArchMatched (res : Resource.t) (req : CompositionRequest.t) : bool :=
  match FindCapability res CapabilityKind.ARCH_GENERATION with
  | Some arch =>
      negb (String.eqb (Capability.detail arch) "")
      && existsb (String.eqb (Capability.detail arch)) (CompositionRequest.accelerator_architectures req)
  | None => false
  end.

Definition ResourceEligible (res : Resource.t) (req : CompositionRequest.t) : verdict :=
  let ids := ToString (Resource.id res) in
  if negb (IsValid (Resource.id res)) then Some (RejectionReason.RESOURCE_OFFLINE, "zero resource id")
  else match Resource.health res with
  | ResourceHealth.OFFLINE => Some (RejectionReason.RESOURCE_OFFLINE, "offline " +:+ ids)
  | ResourceHealth.DEGRADED | ResourceHealth.UNKNOWN =>
      Some (RejectionReason.RESOURCE_DEGRADED,
            "health " +:+ ResourceHealth.ToString (Resource.health res) +:+ " (" +:+ ids +:+ ")")
  | ResourceHealth.HEALTHY =>
  if negb (CompositionRequest.ignore_reachability req)
     && negb (bool_decide (Resource.reachability res = Reachability.REACHABLE))
  then Some (RejectionReason.RESOURCE_UNREACHABLE, "unreachable " +:+ ids)
  else if bool_decide (Resource.readiness res = Readiness.NOT_READY)
     || bool_decide (Resource.readiness res = Readiness.UNKNOWN)
  then Some (RejectionReason.RESOURCE_DEGRADED, "not ready " +:+ ids)
  else if negb (IsCurrent (Resource.evidence res))
  then Some (RejectionReason.STALE_EVIDENCE, "stale evidence " +:+ ids)
  else
    let '(any_claim, any_unknown, any_ok) := CapabilityScan res in
    if any_claim && any_unknown && negb any_ok
    then Some (RejectionReason.CAPABILITY_UNKNOWN, "capability unknown " +:+ ids)
    else if bool_decide (Resource.resource_class res = ResourceClass.ACCELERATOR)
       && negb (bool_decide (CompositionRequest.accelerator_architectures req = []))
       && negb (ArchMatched res req)
    then Some (RejectionReason.COMPATIBILITY_MISMATCH, "arch mismatch " +:+ ids)
    else None
  end.

Definition eligible (req : CompositionRequest.t) (res : Resource.t) : bool :=
  match ResourceEligible res req with None => true | Some _ => false end.

(** [SuppliesCapacity] has no caller in the source. *)
Definition SuppliesCapacity (res : Resource.t) (d : ClassDemand) : bool :=
  if negb (amount_based d) then
    if bool_decide (cls d = ResourceClass.COMPUTE)
    then (Capacity.compute_units (Resource.capacity res) >? d0)%D else true
  else (CapacityForDimension res (dimension d) >=? d0)%D.

Definition ClassScore (res : Resource.t) (d : ClassDemand) : double :=
  let s :=
    if amount_based d then std_max d0 (CapacityForDimension res (dimension d))
    else if bool_decide (cls d = ResourceClass.COMPUTE)
         then std_max d0 (Capacity.compute_units (Resource.capacity res)) else d1 in
  let s := if bool_decide (Resource.health res = ResourceHealth.HEALTHY) then (s + d1000)%D else s in
  let s := if bool_decide (Resource.readiness res = Readiness.READY) then (s + d100)%D else s in
  if bool_decide (Resource.reachability res = Reachability.REACHABLE) then (s + d10)%D else s.

Definition ComputeDemands (req : CompositionRequest.t) : list ClassDemand :=
  let add c ab am n dim := mkDemand c false ab am n dim in
  let out :=
    [ add ResourceClass.COMPUTE true (double_of_N (CompositionRequest.compute_units req)) 0 "compute_units";
      add ResourceClass.ACCELERATOR false (CompositionRequest.accelerator_memory_bytes req)
        (CompositionRequest.accelerator_count req) "accelerator_memory_bytes";
      add ResourceClass.HOST_MEMORY true (CompositionRequest.host_memory_bytes req) 0 "host_memory_bytes";
      add ResourceClass.EXPANDED_MEMORY true (CompositionRequest.expanded_memory_bytes req) 0 "expanded_memory_bytes";
      add ResourceClass.STORAGE true (CompositionRequest.storage_bytes req) 0 "storage_bytes";
      add ResourceClass.NETWORK_ENDPOINT false (CompositionRequest.min_bandwidth_mbps req)
        (CompositionRequest.network_endpoint_count req) "network_bandwidth_mbps" ] in
  (fun d =>
     let named := bool_decide (cls d ∈ CompositionRequest.mandatory_classes req) in
     let nonzero := (amount_based d && (amount d >? d0)%D) || (negb (amount_based d) && (0 <? count d)) in
     let d := if nonzero || named then d <| mandatory := true |> else d in
     if bool_decide (cls d = ResourceClass.NETWORK_ENDPOINT) && named
        && (CompositionRequest.network_endpoint_count req =? 0)
     then d <| count := 1 |> else d) <$> out.

(** ** Composition graphs *)
Definition has_class (c : ResourceClass.t) (r : Resource.t) : bool :=
  bool_decide (Resource.resource_class r = c).

Definition mk_edge (req : CompositionRequest.t) (a b : Resource.t) (kind : GraphEdgeKind.t) : list GraphEdge.t :=
  if id_eqb (Resource.id a) (Resource.id b) then []
  else [GraphEdge.mk (Resource.id a) (Resource.id b) kind true
          (CompositionRequest.min_bandwidth_mbps req) (CompositionRequest.max_latency_us req) "" ""].

(** The doubly nested loops of [BuildGraph]: every pair of a [p] and a [q]
    member gets the given edges. *)
Definition edges_between (req : CompositionRequest.t) (set : list Resource.t)
    (p q : Resource.t -> bool) (kinds : list GraphEdgeKind.t) : list GraphEdge.t :=
  flat_map (fun a => if p a then
    flat_map (fun b => if q b && negb (id_eqb (Resource.id b) (Resource.id a)) then
      flat_map (mk_edge req a b) kinds else []) set else []) set.

Definition BuildGraph (req : CompositionRequest.t) (set : list Resource.t) : ResourceGraph.t :=
  let g := fold_left (fun g r => AddVertex g (Resource.id r)) set ResourceGraph.dflt in
  let is_memory r := has_class ResourceClass.HOST_MEMORY r || has_class ResourceClass.EXPANDED_MEMORY r in
  let is_net r := has_class ResourceClass.NIC r || has_class ResourceClass.NETWORK_ENDPOINT r in
  let es :=
    edges_between req set (has_class ResourceClass.COMPUTE) (has_class ResourceClass.ACCELERATOR)
      [GraphEdgeKind.REACHABILITY; GraphEdgeKind.COMPATIBILITY]
    ++ edges_between req set (has_class ResourceClass.ACCELERATOR) is_memory
      [GraphEdgeKind.REACHABILITY; GraphEdgeKind.BANDWIDTH_BOUND; GraphEdgeKind.LATENCY_BOUND]
    ++ edges_between req set (has_class ResourceClass.ACCELERATOR) is_net
      [GraphEdgeKind.REACHABILITY; GraphEdgeKind.BANDWIDTH_BOUND]
    ++ edges_between req set (has_class ResourceClass.COMPUTE) (has_class ResourceClass.STORAGE)
      [GraphEdgeKind.REACHABILITY; GraphEdgeKind.BANDWIDTH_BOUND] in
  fold_left AddEdge es g.

(** One iteration of the edge loop of [ValidateGraph]. *)
Definition ValidateEdge (e : GraphEdge.t) (resources : gmap ResourceId Resource.t)
    (paths : gmap string PathEvidence.t) : verdict :=
  match resources !! GraphEdge.from e, resources !! GraphEdge.to e with
  | Some from, Some to =>
      let name := ToString (Resource.node_id from) +:+ "->" +:+ ToString (Resource.node_id to) in
      let pair := ToString (Resource.id from) +:+ "-" +:+ ToString (Resource.id to) in
      let bounds (bw lat : double) : verdict :=
        if bool_decide (GraphEdge.kind e = GraphEdgeKind.BANDWIDTH_BOUND)
           && (GraphEdge.min_bandwidth_mbps e >? d0)%D && (bw <? GraphEdge.min_bandwidth_mbps e)%D
        then Some (RejectionReason.BANDWIDTH_INSUFFICIENT, "bw edge " +:+ pair)
        else if bool_decide (GraphEdge.kind e = GraphEdgeKind.LATENCY_BOUND)
           && (GraphEdge.max_latency_us e >? d0)%D && (lat >? GraphEdge.max_latency_us e)%D
        then Some (RejectionReason.LATENCY_LIMIT_EXCEEDED, "latency edge " +:+ pair)
        else None in
      if id_eqb (Resource.node_id from) (Resource.node_id to) then bounds d1e12 d0
      else match paths !! PathKey (Resource.node_id from) (Resource.node_id to) with
      | None => Some (RejectionReason.PATH_UNAVAILABLE, "no verified path " +:+ name)
      | Some p =>
          if negb (PathEvidence.verified p) || negb (PathEvidence.available p)
          then Some (RejectionReason.PATH_UNAVAILABLE, "no verified path " +:+ name)
          else if bool_decide (Evidence.state (PathEvidence.evidence p) = EvidenceState.STALE)
             || negb (IsCurrent (PathEvidence.evidence p))
          then Some (RejectionReason.PATH_STALE, "stale path " +:+ name)
          else bounds (PathEvidence.bandwidth_mbps p) (PathEvidence.latency_us p)
      end
  | _, _ => Some (RejectionReason.RESOURCE_OFFLINE, "edge endpoint missing")
  end.

Fixpoint ValidateEdges (es : list GraphEdge.t) (resources : gmap ResourceId Resource.t)
    (paths : gmap string PathEvidence.t) : verdict :=
  match es with
  | [] => None
  | e :: es' =>
      match ValidateEdge e resources paths with
      | Some v => Some v
      | None => ValidateEdges es' resources paths
      end
  end.

Definition ValidateGraph (g : ResourceGraph.t) (resources : gmap ResourceId Resource.t)
    (paths : gmap string PathEvidence.t) : verdict :=
  ValidateEdges (ResourceGraph.edges g) resources paths.

(** ** Failure domains *)
Definition distinct (l : list string) : nat := size (list_to_set l : gset string).

(** [counts] and [maxc] of the [MAX_SHARED_RISK] branch: the largest number of
    members that share a failure-domain name. *)
Definition max_shared (set : list Resource.t) : N :=
  let names := (fun r => FailureDomain.name (Resource.failure_domain r)) <$> set in
  fold_left (fun m n => N.max m (N.of_nat (length (filter (fun n' => n' = n) names)))) names 0.

Definition ValidateFailureDomains (set : list Resource.t) (req : CompositionRequest.t) : verdict :=
  let fd := CompositionRequest.failure_domain req in
  let domains := (fun r => ToString (Resource.node_id r) +:+ ":" +:+ FailureDomain.name (Resource.failure_domain r)) <$> set in
  let node_keys := (fun r => ToString (Resource.node_id r)) <$> set in
  match FailureDomainConstraint.topology fd with
  | TopologyConstraint.NONE => None
  | TopologyConstraint.DISTINCT_FAILURE_DOMAINS =>
      if (distinct domains <? 2)%nat
      then Some (RejectionReason.FAILURE_DOMAIN_CONFLICT, "distinct domains required") else None
  | TopologyConstraint.MAX_SHARED_RISK =>
      if (0 <? FailureDomainConstraint.max_shared_risk fd)
         && (FailureDomainConstraint.max_shared_risk fd <? wrap32 (max_shared set))
      then Some (RejectionReason.FAILURE_DOMAIN_CONFLICT, "max shared risk exceeded") else None
  | TopologyConstraint.COLOCATE =>
      if (1 <? distinct node_keys)%nat
      then Some (RejectionReason.FAILURE_DOMAIN_CONFLICT, "colocate required") else None
  | TopologyConstraint.SPREAD =>
      if (distinct node_keys <? 2)%nat
      then Some (RejectionReason.FAILURE_DOMAIN_CONFLICT, "spread required") else None
  end.

(** ** Authority *)
Definition MakeAuthority (gen : CompositionGeneration) (req : CompositionRequest.t)
    (set : list Resource.t) (nodes : gmap NodeId Node.t) (paths : gmap string PathEvidence.t)
    (epoch : CoordinatorEpoch) : AuthorityTuple.t :=
  let member_nodes := omap (fun r => nodes !! Resource.node_id r) set in
  AuthorityTuple.dflt
    <| AuthorityTuple.coordinator_epoch := epoch |>
    <| AuthorityTuple.policy_generation := CompositionRequest.policy_generation req |>
    <| AuthorityTuple.composition_generation := gen |>
    <| AuthorityTuple.resource_generations := Resource.generation <$> set |>
    <| AuthorityTuple.evidence_generations := (fun r => Evidence.generation (Resource.evidence r)) <$> set |>
    <| AuthorityTuple.capability_generations :=
         set ≫= (fun r => Capability.generation <$> Resource.capabilities r) |>
    <| AuthorityTuple.compatibility_generations :=
         set ≫= (fun r => Compatibility.generation <$> Resource.compatibility r) |>
    <| AuthorityTuple.node_generations := Node.generation <$> member_nodes |>
    <| AuthorityTuple.worker_boots := filter (fun b => IsValid b = true) (Node.worker_boot <$> member_nodes) |>
    <| AuthorityTuple.path_generations := (fun kv => PathEvidence.generation kv.2) <$> map_entries paths |>.

(** The vertex loop of [RevalidationHolds]; [gens] is the part of
    [resource_generations] from the current index on. *)
Fixpoint RevalidateVertices (vs : list ResourceId) (gens : list ResourceGeneration)
    (resources : gmap ResourceId Resource.t) : verdict :=
  match vs with
  | [] => None
  | rid :: vs' =>
      match resources !! rid with
      | None => Some (RejectionReason.RESOURCE_OFFLINE, "resource missing " +:+ ToString rid)
      | Some r =>
          if negb (IsValid (Resource.id r))
          then Some (RejectionReason.RESOURCE_OFFLINE, "resource missing " +:+ ToString rid)
          else if match head gens with Some g => negb (id_eqb g (Resource.generation r)) | None => false end
          then Some (RejectionReason.WRONG_RESOURCE_GENERATION, "resource gen changed " +:+ ToString rid)
          else if negb (IsCurrent (Resource.evidence r))
          then Some (RejectionReason.STALE_EVIDENCE, "evidence stale " +:+ ToString rid)
          else RevalidateVertices vs' (tail gens) resources
      end
  end.

Definition RevalidationHolds (c : Composition.t) (resources : gmap ResourceId Resource.t)
    (epoch : CoordinatorEpoch) : verdict :=
  if negb (id_eqb (AuthorityTuple.coordinator_epoch (Composition.authority c)) epoch)
  then Some (RejectionReason.WRONG_EPOCH, "epoch mismatch")
  else RevalidateVertices (ResourceGraph.vertices (Composition.graph c))
         (AuthorityTuple.resource_generations (Composition.authority c)) resources.

(** ** Ranking *)
Definition Rank (set : list Resource.t) : RankScore.t :=
  let capacity := fold_left (fun acc r =>
    (acc + (CapacityForDimension r "compute_units" + CapacityForDimension r "host_memory_bytes" * d_1em6))%D) set d0 in
  let health := fold_left (fun acc r =>
    if bool_decide (Resource.health r = ResourceHealth.HEALTHY) then (acc + d10)%D else acc) set d0 in
  let headroom := fold_left (fun acc r =>
    (acc + ((if Capacity.compute_units (Resource.capacity r) >? d0 then d1 else d0)
            + (if Capacity.storage_bytes (Resource.capacity r) >? d0 then d1 else d0)))%D) set d0 in
  let diversity := double_of_N (N.of_nat (distinct ((fun r => ToString (Resource.node_id r)) <$> set))) in
  let factors :=
    [ RankingFactor.mk "health" d1 health "aggregate member health";
      RankingFactor.mk "capacity" d1 (std_min d1 (capacity * d_0_1)%D) "aggregate capacity";
      RankingFactor.mk "failure_domain_diversity" d1 diversity "distinct nodes";
      RankingFactor.mk "headroom" d1 (std_min d1 (headroom * d_0_1)%D) "spare capacity" ] in
  RankScore.mk
    (fold_left (fun acc f => (acc + RankingFactor.weight f * RankingFactor.value f)%D) factors d0) factors.

Definition CanonicalKey (set : list Resource.t) : string :=
  fold_left (fun k id => k +:+ (ToString id +:+ ",")) (isort id_ltb (Resource.id <$> set)) "".

(** ** Demand satisfaction and bounded enumeration *)
Definition MeetsDemand (sel : list Resource.t) (d : ClassDemand) : bool :=
  match sel with
  | [] => false
  | _ =>
      if amount_based d then
        (fold_left (fun sum r => (sum + CapacityForDimension r (dimension d))%D) sel d0 >=? amount d)%D
      else count d <=? wrap32 (N.of_nat (length sel))
  end.

(** The recursive lambda [combine] of [EnumerateSelections].  The suffix is
    [items[i..k)]; the loop bound [i <= k - need] says that the suffix still has
    [need] items. *)
Fixpoint combine_sel (cap need : nat) (suffix cur : list ResourceId)
    (out : list (list ResourceId)) : list (list ResourceId) :=
  if (cap <=? length out)%nat then out
  else match need with
  | O => out ++ [cur]
  | S need' =>
      (fix loop (suffix : list ResourceId) (out : list (list ResourceId)) :=
         match suffix with
         | [] => out
         | x :: rest =>
             if (length suffix <? need)%nat then out
             else
               let out' := combine_sel cap need' rest (cur ++ [x]) out in
               if (cap <=? length out')%nat then out' else loop rest out'
         end) suffix out
  end.

(** The single-item and the pair loops of the amount-based branch. *)
Fixpoint single_sels (cap : nat) (items : list Resource.t) (out : list (list ResourceId)) : list (list ResourceId) :=
  match items with
  | [] => out
  | x :: items' => if (length out <? cap)%nat then single_sels cap items' (out ++ [[Resource.id x]]) else out
  end.
Fixpoint pair_sels_with (cap : nat) (d : ClassDemand) (x : Resource.t) (items : list Resource.t)
    (out : list (list ResourceId)) : list (list ResourceId) :=
  match items with
  | [] => out
  | y :: items' =>
      if (length out <? cap)%nat then
        pair_sels_with cap d x items'
          (if (CapacityForDimension x (dimension d) + CapacityForDimension y (dimension d) >=? amount d)%D
           then out ++ [[Resource.id x; Resource.id y]] else out)
      else out
  end.
Fixpoint pair_sels (cap : nat) (d : ClassDemand) (items : list Resource.t)
    (out : list (list ResourceId)) : list (list ResourceId) :=
  match items with
  | [] => out
  | x :: items' =>
      if (length out <? cap)%nat then pair_sels cap d items' (pair_sels_with cap d x items' out) else out
  end.

Definition EnumerateSelections (items : list Resource.t) (d : ClassDemand) (cap : nat) : list (list ResourceId) :=
  match items with
  | [] => []
  | _ =>
      let items := take 8 items in
      let k := length items in
      let want := if count d =? 0 then 1 else count d in
      if N.of_nat k <? want then []
      else if negb (amount_based d) then combine_sel cap (N.to_nat want) (Resource.id <$> items) [] []
      else
        let out := single_sels cap items [] in
        if (amount d >? d0)%D && (2 <=? k)%nat then pair_sels cap d items out else out
  end.

(** Amount to hold for a resource in a reservation (exclusive semantics). *)
Definition HoldAmountForResource (r : Resource.t) (req : CompositionRequest.t) : double :=
  match List.find (fun d => bool_decide (cls d = Resource.resource_class r)) (ComputeDemands req) with
  | Some d => if amount_based d then CapacityForDimension r (dimension d) else d1
  | None => d1
  end.

(** ** Path keys *)
Abbreviation dash := (Ascii.Ascii true false true true false true false false).
Definition not_dash (a : Ascii.ascii) : Prop := a <> dash.
Fixpoint no_dash (s : string) : Prop :=
  match s with EmptyString => True | String a s' => not_dash a /\ no_dash s' end.

Lemma pretty_N_char_not_dash x : not_dash (pretty_N_char x).
Proof. unfold not_dash, pretty_N_char. repeat (case_match; try done). Qed.
Lemma pretty_N_go_no_dash x s : no_dash s -> no_dash (pretty_N_go x s).
Proof.
  revert s. induction (N.lt_wf_0 x) as [x _ IH]. intros s Hs. destruct (decide (x = 0)) as [->|Hx]; [done|].
  rewrite pretty_N_go_step by lia. apply IH; [apply N.div_lt; lia|]. split; [apply pretty_N_char_not_dash|done].
Qed.
Lemma ToString_no_dash {Tag : Set} (i : StrongId Tag) : no_dash (ToString i).
Proof.
  unfold ToString, pretty, pretty_N. case_decide; [|by apply pretty_N_go_no_dash]. done.
Qed.

Lemma no_dash_split a a' b b' :
  no_dash a -> no_dash a' -> a +:+ String dash b = a' +:+ String dash b' -> a = a' /\ b = b'.
Proof.
  revert a'. induction a as [|x a IH]; intros [|x' a']; cbn.
  - by intros _ _ [= ->].
  - intros _ [Hx _] H. injection H as H _. by destruct Hx.
  - intros [Hx _] _ H. injection H as H _. by destruct Hx.
  - intros [_ Ha] [_ Ha'] [= -> Heq]. destruct (IH a' Ha Ha' Heq) as [-> ->]. done.
Qed.

(** Different node pairs have different keys. *)
Lemma PathKey_inj a b a' b' : PathKey a b = PathKey a' b' -> a = a' /\ b = b'.
Proof.
  unfold PathKey. cbn. intros H. apply no_dash_split in H as [Ha Hb]; [|apply ToString_no_dash..].
  apply ToString_inj in Ha. injection Hb as Hb. by apply ToString_inj in Hb.
Qed.
