(* ===== verification/Engine.v ===== *)
(** * The fabric engine

    [FabricEngine] of [include/dfabric/engine.hpp] and [src/dfabric/engine.cpp].
    Every public operation takes [std::lock_guard lk(impl_->mu)] around its
    whole body, so an operation is a function from the state to its result and
    the next state ([Recompute] is the exception: it takes the lock several
    times, and is modelled as that sequence).  [Impl.t] is [FabricEngine::Impl].

    [std::unordered_map] is [gmap]; a loop that updates each mapped value
    independently is [fmap].  Where the iteration order can be observed
    ([ComposeDeterministic]) the order is an argument of the definition. *)

From S2P Require Import Prelude Enums Ids Double Model Planner.

(** ** State and results *)

(** [backend.hpp]: what the engine calls of a backend, at its current state. *)
Record Backend := mkBackend {
  DiscoverNodes : list Node.t;
  DiscoverResources : list Resource.t;
  ResolvePath : PathRequirement.t -> option PathEvidence.t;
}.

Module EngineConfig.
Record t := mk {
  coordinator : CoordinatorId;
  epoch : CoordinatorEpoch;
  node_authority : string;
  persist_authority_only : bool;
}.
Definition dflt : t := mk zero_id zero_id "" true.
#[global] Instance eta_t : Eta t := fun c =>
  mk (coordinator c) (epoch c) (node_authority c) (persist_authority_only c).
End EngineConfig.

Module Impl.
Record t := mk {
  config : EngineConfig.t;
  resources : gmap ResourceId Resource.t;
  nodes : gmap NodeId Node.t;
  backends : list Backend;
  paths : gmap string PathEvidence.t;
  compositions : gmap CompositionId Composition.t;
  reservations : gmap ReservationId Reservation.t;
  reserved_amount : gmap ResourceId double;
  policies : gmap PolicyId PolicyGeneration;
  draining : gset CompositionId;
  fenced : gset CompositionId;
  next_comp : N;
  next_res : N;
  next_rs : N;
  next_resv : N;
}.
#[global] Instance eta_t : Eta t := fun s =>
  mk (config s) (resources s) (nodes s) (backends s) (paths s) (compositions s) (reservations s)
     (reserved_amount s) (policies s) (draining s) (fenced s) (next_comp s) (next_res s) (next_rs s) (next_resv s).
End Impl.

Record ComposeResult := mkComposeResult {
  cr_outcome : CompositionOutcome.t; cr_plan : CompositionPlan.t;
  cr_reasons : list RejectionReason.t; cr_notes : list string }.
Record ReserveResult := mkReserveResult {
  rr_outcome : CompositionOutcome.t; rr_reservation : Reservation.t;
  rr_reasons : list RejectionReason.t; rr_notes : list string }.
Record CommitResult := mkCommitResult {
  cc_outcome : CompositionOutcome.t; cc_composition : Composition.t;
  cc_reasons : list RejectionReason.t; cc_notes : list string }.
Record ActivateResult := mkActivateResult {
  ar_outcome : CompositionOutcome.t; ar_composition : Composition.t;
  ar_reasons : list RejectionReason.t; ar_notes : list string }.
Record RevalidateResult := mkRevalidateResult {
  rv_valid : bool; rv_reasons : list RejectionReason.t; rv_notes : list string }.
Record EligibilityDetail := mkEligibilityDetail {
  ed_eligible : bool; ed_reasons : list RejectionReason.t; ed_notes : list string }.
Record DiscoveryResult := mkDiscoveryResult {
  dr_nodes : list Node.t; dr_resources : list Resource.t }.
Record RegistrySnapshot := mkSnapshot {
  sn_nodes : list Node.t; sn_resources : list Resource.t;
  sn_compositions : list Composition.t; sn_reservations : list Reservation.t;
  sn_epoch : CoordinatorEpoch }.

Definition is_success (o : CompositionOutcome.t) : bool := bool_decide (o = CompositionOutcome.SUCCESS).

Abbreviation with_lifecycle := (fun lc c => c <| Composition.lifecycle := lc |>).
Definition lifecycle_is (lc : CompositionLifecycle.t) (c : Composition.t) : bool :=
  bool_decide (Composition.lifecycle c = lc).
Definition is_member (rid : ResourceId) (c : Composition.t) : bool :=
  existsb (id_eqb rid) (ResourceGraph.vertices (Composition.graph c)).

(** ** Construction and ingestion *)
Definition FabricEngine (cfg : EngineConfig.t) : Impl.t :=
  let cfg := if IsValid (EngineConfig.coordinator cfg) then cfg else cfg <| EngineConfig.coordinator := Id 1 |> in
  let cfg := if IsValid (EngineConfig.epoch cfg) then cfg else cfg <| EngineConfig.epoch := Id 1 |> in
  Impl.mk cfg ∅ ∅ [] ∅ ∅ ∅ ∅ ∅ ∅ ∅ 1 1 1 1.

(** [None] is a null [BackendPtr]. *)
Definition AddBackend (b : option Backend) (s : Impl.t) : Impl.t :=
  match b with None => s | Some b => s <| Impl.backends ::= fun bs => bs ++ [b] |> end.

(** The lifecycle change shared by the two ingestion loops. *)
Definition invalidate_on_generation (c : Composition.t) : Composition.t :=
  if lifecycle_is CompositionLifecycle.ACTIVE c
  then with_lifecycle CompositionLifecycle.RECOMPOSITION_REQUIRED c
  else if lifecycle_is CompositionLifecycle.COMMITTED c || lifecycle_is CompositionLifecycle.RESERVED c
  then with_lifecycle CompositionLifecycle.REVALIDATION_REQUIRED c
  else c.

Definition IngestNodeLocked (n : Node.t) (s : Impl.t) : Impl.t :=
  if negb (IsValid (Node.id n)) then s
  else
    let changed := match Impl.nodes s !! Node.id n with
                   | Some old => negb (id_eqb (Node.generation old) (Node.generation n))
                   | None => false end in
    let s := if changed then s <| Impl.compositions ::= fmap invalidate_on_generation |> else s in
    s <| Impl.nodes ::= <[Node.id n := n]> |>.

Definition IngestResourceLocked (r : Resource.t) (s : Impl.t) : Impl.t :=
  if negb (IsValid (Resource.id r)) then s
  else
    let changed := match Impl.resources s !! Resource.id r with
                   | Some old => negb (id_eqb (Resource.generation old) (Resource.generation r))
                   | None => false end in
    let s := if changed
             then s <| Impl.compositions ::= fmap (fun c =>
                    if is_member (Resource.id r) c then invalidate_on_generation c else c) |>
             else s in
    s <| Impl.resources ::= <[Resource.id r := r]> |>.

(** The per-backend ingestion loop of [Discover]. *)
Definition discover_resource (acc : Impl.t * list Resource.t) (r : Resource.t) : Impl.t * list Resource.t :=
  let '(s, out) := acc in
  let rr := match Impl.nodes s !! Resource.node_id r with
            | Some n => r <| Resource.synthetic := Node.synthetic n |>
            | None => r end in
  (IngestResourceLocked rr s, out ++ [rr]).
Definition discover_backend (acc : Impl.t * DiscoveryResult) (b : Backend) : Impl.t * DiscoveryResult :=
  let '(s, out) := acc in
  let s := fold_left (fun s n => IngestNodeLocked n s) (DiscoverNodes b) s in
  let '(s, rs) := fold_left discover_resource (DiscoverResources b) (s, []) in
  (s, mkDiscoveryResult (dr_nodes out ++ DiscoverNodes b) (dr_resources out ++ rs)).

(** The first backend that resolves a path wins. *)
Definition resolve_first (bs : list Backend) (pr : PathRequirement.t) : option PathEvidence.t :=
  fold_left (fun acc b => match acc with Some pe => Some pe | None => ResolvePath b pr end) bs None.

(** The path loop of [Discover]; [ids] is the iteration order of [impl_->nodes]. *)
Definition discover_path (bs : list Backend) (paths : gmap string PathEvidence.t) (ab : NodeId * NodeId)
    : gmap string PathEvidence.t :=
  let '(a, b) := ab in
  if id_eqb a b then paths
  else
    let pr := PathRequirement.dflt <| PathRequirement.from := a |> <| PathRequirement.to := b |>
                <| PathRequirement.required := true |> in
    match resolve_first bs pr with Some pe => <[PathKey a b := pe]> paths | None => paths end.
Definition discover_paths (ids : list NodeId) (s : Impl.t) : Impl.t :=
  s <| Impl.paths ::= fun paths =>
    fold_left (discover_path (Impl.backends s)) (a ← ids; b ← ids; [(a, b)]) paths |>.

Definition Discover (s : Impl.t) : DiscoveryResult * Impl.t :=
  let '(s, out) := fold_left discover_backend (Impl.backends s) (s, mkDiscoveryResult [] []) in
  (out, discover_paths (map_to_list (Impl.nodes s)).*1 s).

Definition RegisterNode (n : Node.t) (s : Impl.t) : bool * Impl.t :=
  if negb (IsValid (Node.id n)) then (false, s) else (true, IngestNodeLocked n s).
Definition RegisterResource (r : Resource.t) (s : Impl.t) : bool * Impl.t :=
  if negb (IsValid (Resource.id r)) then (false, s) else (true, IngestResourceLocked r s).

Definition require_revalidation (e : Evidence.t) : Evidence.t :=
  e <| Evidence.state := EvidenceState.REVALIDATION_REQUIRED |> <| Evidence.max_age_ms := 0 |>.

Definition InvalidateNode (rid : ResourceId) (s : Impl.t) : Impl.t :=
  s <| Impl.resources ::= alter (fun r => r <| Resource.evidence ::= require_revalidation |>) rid |>.

Definition WithdrawResource (rid : ResourceId) (s : Impl.t) : Impl.t :=
  match Impl.resources s !! rid with
  | None => s
  | Some r =>
      let r := r <| Resource.health := ResourceHealth.OFFLINE |>
                 <| Resource.readiness := Readiness.NOT_READY |>
                 <| Resource.reachability := Reachability.UNREACHABLE |>
                 <| Resource.evidence ::= fun e => e <| Evidence.state := EvidenceState.REVALIDATION_REQUIRED |> |> in
      s <| Impl.resources ::= <[rid := r]> |>
        <| Impl.compositions ::= fmap (fun c =>
             if is_member rid c && lifecycle_is CompositionLifecycle.ACTIVE c
             then with_lifecycle CompositionLifecycle.RECOMPOSITION_REQUIRED c else c) |>
  end.

Definition owned_by (owner : string) (r : Resource.t) : bool :=
  String.eqb (Evidence.owner (Resource.evidence r)) owner
  || String.eqb (Evidence.provenance (Resource.evidence r)) owner.

Definition MarkEvidenceRevalidationRequired (owner : WorkerBootId) (s : Impl.t) : Impl.t :=
  let ownerStr := ToString owner in
  let rs := (fun r => if owned_by ownerStr r
                      then r <| Resource.evidence ::= require_revalidation |>
                             <| Resource.health := ResourceHealth.UNKNOWN |>
                      else r) <$> Impl.resources s in
  let affected c := existsb (fun v => match rs !! v with Some r => owned_by ownerStr r | None => false end)
                      (ResourceGraph.vertices (Composition.graph c)) in
  s <| Impl.resources := rs |>
    <| Impl.compositions ::= fmap (fun c =>
         if lifecycle_is CompositionLifecycle.ACTIVE c && affected c
         then with_lifecycle CompositionLifecycle.RECOMPOSITION_REQUIRED c else c) |>.

Definition AdvanceEpoch (next : CoordinatorEpoch) (s : Impl.t) : Impl.t :=
  if negb (IsValid next) then s
  else
    s <| Impl.config ::= fun c => c <| EngineConfig.epoch := next |> |>
      <| Impl.resources ::= fmap (fun r =>
           if Evidence.durable (Resource.evidence r) then r
           else r <| Resource.evidence ::= require_revalidation |>) |>
      <| Impl.compositions ::= fmap (fun c =>
           if lifecycle_is CompositionLifecycle.ACTIVE c
           then with_lifecycle CompositionLifecycle.REVALIDATION_REQUIRED c else c) |>.

(** ** Queries *)
Definition NodeCount (s : Impl.t) : nat := size (Impl.nodes s).
Definition ResourceCount (s : Impl.t) : nat := size (Impl.resources s).
Definition CompositionCount (s : Impl.t) : nat := size (Impl.compositions s).
Definition GetResource (id : ResourceId) (s : Impl.t) : option Resource.t := Impl.resources s !! id.
Definition GetNode (id : NodeId) (s : Impl.t) : option Node.t := Impl.nodes s !! id.
Definition GetComposition (id : CompositionId) (s : Impl.t) : option Composition.t := Impl.compositions s !! id.
Definition GetReservation (id : ReservationId) (s : Impl.t) : option Reservation.t := Impl.reservations s !! id.
Definition epoch (s : Impl.t) : CoordinatorEpoch := EngineConfig.epoch (Impl.config s).

(** The vectors are in hash order; [map_to_list] is one such order. *)
Definition Snapshot (s : Impl.t) : RegistrySnapshot :=
  mkSnapshot (map_to_list (Impl.nodes s)).*2 (map_to_list (Impl.resources s)).*2
    (map_to_list (Impl.compositions s)).*2 (map_to_list (Impl.reservations s)).*2 (epoch s).

Definition CheckEligibility (id : ResourceId) (req : CompositionRequest.t) (s : Impl.t) : EligibilityDetail :=
  match Impl.resources s !! id with
  | None => mkEligibilityDetail false [RejectionReason.RESOURCE_OFFLINE] ["resource not registered"]
  | Some r =>
      match ResourceEligible r req with
      | None => mkEligibilityDetail true [] []
      | Some (reason, note) => mkEligibilityDetail false [reason] [note]
      end
  end.

Definition ExplainEligibility (id : ResourceId) (req : CompositionRequest.t) (s : Impl.t) : string :=
  let d := CheckEligibility id req s in
  if ed_eligible d then "ELIGIBLE " +:+ ToString id
  else fold_left (fun os r => os +:+ " " +:+ RejectionReason.ToString r) (ed_reasons d) ("REJECTED " +:+ ToString id).

Definition ExplainCompositionResult (cr : ComposeResult) : string :=
  fold_left (fun os r => os +:+ " " +:+ RejectionReason.ToString r) (cr_reasons cr)
    ((if is_success (cr_outcome cr) then "OK" else "REJECTED") +:+ " outcome=" +:+ CompositionOutcome.ToString (cr_outcome cr)).

(** ** Compose *)

(** The comparator of the candidate sort: higher score first, then lower id. *)
Definition candidate_lt (d : ClassDemand) (a b : Resource.t) : bool :=
  let sa := ClassScore a d in
  let sb := ClassScore b d in
  if negb (sa =? sb)%D then (sa >? sb)%D else id_ltb (Resource.id a) (Resource.id b).

(** The sorted eligible candidates of one class; [rs] is the iteration order of
    [impl_->resources], which [byClass] preserves inside a class. *)
Definition candidates (rs : list Resource.t) (req : CompositionRequest.t) (d : ClassDemand) : list Resource.t :=
  isort (candidate_lt d) (filter (fun r => eligible req r = true /\ Resource.resource_class r = cls d) rs).

Definition selection_cap : nat := 24.
Definition kComboCap : nat := 400.

(** The selection loop: [inl note] is the early return on a mandatory class
    without a pick. *)
Fixpoint build_selections (rs : list Resource.t) (req : CompositionRequest.t) (ds : list ClassDemand)
    : string + list (ClassDemand * list (list ResourceId)) :=
  match ds with
  | [] => inr []
  | d :: ds' =>
      if negb (mandatory d) then build_selections rs req ds'
      else match EnumerateSelections (candidates rs req d) d selection_cap with
      | [] => inl ("no eligible candidate for mandatory class " +:+ ResourceClass.ToString (cls d))
      | picks =>
          match build_selections rs req ds' with
          | inl note => inl note
          | inr sels => inr ((d, picks) :: sels)
          end
      end
  end.

(** One class of the bounded Cartesian product: the two nested loops with their
    cap, in the order of the source. *)
Fixpoint extend_combo (combo : list ResourceId) (picks next : list (list ResourceId)) : list (list ResourceId) :=
  match picks with
  | [] => next
  | pick :: picks' =>
      if existsb (fun rid => existsb (id_eqb rid) combo) pick then extend_combo combo picks' next
      else
        let next := next ++ [combo ++ pick] in
        if (kComboCap <=? length next)%nat then next else extend_combo combo picks' next
  end.
Fixpoint extend_combos (combos picks next : list (list ResourceId)) : list (list ResourceId) :=
  match combos with
  | [] => next
  | combo :: combos' =>
      let next := extend_combo combo picks next in
      if (kComboCap <=? length next)%nat then next else extend_combos combos' picks next
  end.
Fixpoint product (sels : list (ClassDemand * list (list ResourceId))) (combos : list (list ResourceId))
    : option (list (list ResourceId)) :=
  match sels with
  | [] => Some combos
  | (_, picks) :: sels' =>
      match extend_combos combos picks [] with
      | [] => None
      | next => product sels' next
      end
  end.

(** The path evidence collected for the best plan: [impl_->paths] is refreshed
    from the backends on the way. *)
Definition plan_path (bs : list Backend) (resources : gmap ResourceId Resource.t) (req : CompositionRequest.t)
    (acc : gmap string PathEvidence.t * list PathEvidence.t) (e : GraphEdge.t)
    : gmap string PathEvidence.t * list PathEvidence.t :=
  let '(paths, out) := acc in
  match resources !! GraphEdge.from e, resources !! GraphEdge.to e with
  | Some f, Some t =>
      if id_eqb (Resource.node_id f) (Resource.node_id t) then acc
      else
        let pr := PathRequirement.mk (Resource.node_id f) (Resource.node_id t)
                    (CompositionRequest.min_bandwidth_mbps req) (CompositionRequest.max_latency_us req)
                    true (CompositionRequest.require_direct_path req) "" in
        let key := PathKey (Resource.node_id f) (Resource.node_id t) in
        match resolve_first bs pr with
        | Some pe => (<[key := pe]> paths, out ++ [pe])
        | None => match paths !! key with Some pe => (paths, out ++ [pe]) | None => acc end
        end
  | _, _ => acc
  end.

(** Hard feasibility of one candidate combination: members present, demands
    met, graph and failure domains valid, coherence; the member set if all hold. *)
Definition feasible_set (resources : gmap ResourceId Resource.t) (paths : gmap string PathEvidence.t)
    (req : CompositionRequest.t) (ds : list ClassDemand) (combo : list ResourceId) : option (list Resource.t) :=
  match mapM (fun rid => resources !! rid) combo with
  | None => None
  | Some set =>
      if forallb (fun d => MeetsDemand (filter (fun r => Resource.resource_class r = cls d) set) d) ds
         && bool_decide (ValidateGraph (BuildGraph req set) resources paths = None)
         && bool_decide (ValidateFailureDomains set req = None)
         && (negb (CompositionRequest.require_coherence req)
             || forallb (fun r => CapabilitySupported r CapabilityKind.COHERENT_MEMORY_ACCESS) set)
      then Some set else None
  end.

Definition distinct_nodes (set : list Resource.t) : list NodeId :=
  fold_left (fun ns r => if existsb (id_eqb (Resource.node_id r)) ns then ns else ns ++ [Resource.node_id r]) set [].

(** One iteration of the evaluation loop; [best] is [None] until a candidate
    beats the initial total of -1.0. *)
Definition best_total (best : option CompositionPlan.t) : double :=
  match best with Some p => RankScore.total (CompositionPlan.rank p) | None => dm1 end.

Definition evaluate (bs : list Backend) (resources : gmap ResourceId Resource.t) (req : CompositionRequest.t)
    (ds : list ClassDemand) (acc : gmap string PathEvidence.t * option CompositionPlan.t) (combo : list ResourceId)
    : gmap string PathEvidence.t * option CompositionPlan.t :=
  let '(paths, best) := acc in
  match feasible_set resources paths req ds combo with
  | None => acc
  | Some set =>
      let rank := Rank set in
      if (RankScore.total rank >? best_total best)%D then
        let g := BuildGraph req set in
        let '(paths, pes) := fold_left (plan_path bs resources req) (ResourceGraph.edges g) (paths, []) in
        (paths, Some (CompositionPlan.dflt
           <| CompositionPlan.graph := g |> <| CompositionPlan.request := req |>
           <| CompositionPlan.rank := rank |> <| CompositionPlan.nodes := distinct_nodes set |>
           <| CompositionPlan.paths := pes |>))
      else acc
  end.

Definition compose_rejected (notes : list string) : ComposeResult :=
  mkComposeResult CompositionOutcome.REJECTED CompositionPlan.dflt [RejectionReason.NO_VALID_COMPOSITION] notes.

(** [ComposeDeterministic] with the iteration order [rs] of [impl_->resources];
    the seed is ignored by the source. *)
Definition ComposeOrdered (rs : list Resource.t) (req : CompositionRequest.t) (s : Impl.t) : ComposeResult * Impl.t :=
  match build_selections rs req (ComputeDemands req) with
  | inl note => (compose_rejected [note], s)
  | inr [] => (compose_rejected ["request defines no mandatory resource class"], s)
  | inr sels =>
      match product sels [[]] with
      | None => (compose_rejected [], s)
      | Some combos =>
          let '(paths, best) :=
            fold_left (evaluate (Impl.backends s) (Impl.resources s) req sels.*1) combos (Impl.paths s, None) in
          let s := s <| Impl.paths := paths |> in
          match best with
          | None => (compose_rejected ["no feasible cross-resource combination"], s)
          | Some plan =>
              let gen := Id (Impl.next_comp s) in
              let set2 := omap (fun rid => Impl.resources s !! rid) (ResourceGraph.vertices (CompositionPlan.graph plan)) in
              let plan := plan
                <| CompositionPlan.generation := gen |>
                <| CompositionPlan.id := Id (Impl.next_comp s) |>
                <| CompositionPlan.authority := MakeAuthority gen req set2 (Impl.nodes s) paths (epoch s) |>
                <| CompositionPlan.lifecycle := CompositionLifecycle.PLANNED |> in
              (mkComposeResult CompositionOutcome.SUCCESS plan [] [],
               s <| Impl.next_comp ::= fun n => wrap64 (n + 1) |>)
          end
      end
  end.

Definition ComposeDeterministic (req : CompositionRequest.t) (seed : N) (s : Impl.t) : ComposeResult * Impl.t :=
  ComposeOrdered (map_to_list (Impl.resources s)).*2 req s.
Definition Compose (req : CompositionRequest.t) (s : Impl.t) : ComposeResult * Impl.t :=
  ComposeDeterministic req 0 s.

(** ** Reservation ledger *)

(** Giving one hold back: the statement repeated in [Reserve], [Commit],
    [EndDrain], [Recompute] and [Release]. *)
Definition release_hold (m : gmap ResourceId double) (hold : ResourceId * double) : gmap ResourceId double :=
  match m !! hold.1 with
  | None => m
  | Some v =>
      let nv := (v - hold.2)%D in
      let nv := if (nv <? d0)%D then d0 else nv in
      if (nv =? d0)%D then delete hold.1 m else <[hold.1 := nv]> m
  end.
Definition release_holds (holds : list (ResourceId * double)) (m : gmap ResourceId double) : gmap ResourceId double :=
  fold_left release_hold holds m.
Definition item_holds (items : list ReservationItem.t) : list (ResourceId * double) :=
  (fun i => (ReservationItem.resource i, ReservationItem.reserved_amount i)) <$> items.

(** [impl_->reserved_amount[rid]]: [operator[]] inserts 0.0 for a missing key. *)
Definition touch (rid : ResourceId) (m : gmap ResourceId double) : gmap ResourceId double :=
  match m !! rid with Some _ => m | None => <[rid := d0]> m end.

(** The hold loop of [Reserve]: [inl] is the [break] with its reason and note,
    together with the holds applied so far. *)
Fixpoint reserve_loop (resources : gmap ResourceId Resource.t) (req : CompositionRequest.t) (vs : list ResourceId)
    (m : gmap ResourceId double) (items : list ReservationItem.t)
    : gmap ResourceId double * list ReservationItem.t * option (RejectionReason.t * string) :=
  match vs with
  | [] => (m, items, None)
  | rid :: vs' =>
      match resources !! rid with
      | None => (m, items, Some (RejectionReason.RESOURCE_OFFLINE, "member missing " +:+ ToString rid))
      | Some r =>
          match ResourceEligible r req with
          | Some (reason, _) => (m, items, Some (reason, "member ineligible " +:+ ToString rid))
          | None =>
              let m := touch rid m in
              let held := default d0 (m !! rid) in
              if (held >? d0)%D
              then (m, items, Some (RejectionReason.RESERVATION_CONFLICT, "already reserved " +:+ ToString rid))
              else if (Capacity.compute_units (Resource.capacity r) <? d0)%D
                      || (Capacity.host_memory_bytes (Resource.capacity r) <? d0)%D
              then (m, items, Some (RejectionReason.CAPACITY_NEGATIVE, "negative capacity " +:+ ToString rid))
              else
                let amt := HoldAmountForResource r req in
                reserve_loop resources req vs' (<[rid := (held + amt)%D]> m)
                  (items ++ [ReservationItem.mk rid ReservationState.PROVISIONAL amt])
          end
      end
  end.

Definition reserve_rejected (reason : RejectionReason.t) (note : string) : ReserveResult :=
  mkReserveResult CompositionOutcome.REJECTED Reservation.dflt [reason] [note].

(** The composition that a successful reservation stores. *)
Definition reserved_composition (plan : CompositionPlan.t) (next_rs : N) (resv : ReservationId) : Composition.t :=
  Composition.mk (CompositionPlan.id plan) (CompositionPlan.generation plan)
    (Id next_rs) (Id 1) (CompositionPlan.graph plan) (CompositionPlan.nodes plan)
    (CompositionPlan.request plan) (CompositionPlan.authority plan) CompositionLifecycle.RESERVED
    (CompositionPlan.rank plan) resv (CompositionPlan.paths plan) CompositionOutcome.OUTCOME_UNKNOWN "".

Definition Reserve (plan : CompositionPlan.t) (s : Impl.t) : ReserveResult * Impl.t :=
  if negb (bool_decide (CompositionPlan.lifecycle plan = CompositionLifecycle.PLANNED))
  then (reserve_rejected RejectionReason.INVALID_STATE_TRANSITION "plan not PLANNED", s)
  else if negb (IsValid (CompositionPlan.id plan))
  then (reserve_rejected RejectionReason.INVALID_STATE_TRANSITION "plan has zero id", s)
  else
    let rid := Id (Impl.next_resv s) in
    let s := s <| Impl.next_resv ::= fun n => wrap64 (n + 1) |> in
    let '(m, items, failure) :=
      reserve_loop (Impl.resources s) (CompositionPlan.request plan)
        (ResourceGraph.vertices (CompositionPlan.graph plan)) (Impl.reserved_amount s) [] in
    match failure with
    | Some (reason, note) =>
        (reserve_rejected reason note,
         s <| Impl.reserved_amount := release_holds (item_holds items) m |>)
    | None =>
        let resv := Reservation.mk rid (Id 1) (CompositionPlan.id plan) items ReservationState.PROVISIONAL in
        let comp := reserved_composition plan (Impl.next_rs s) rid in
        (mkReserveResult CompositionOutcome.SUCCESS resv [] [],
         s <| Impl.reserved_amount := m |>
           <| Impl.next_rs ::= fun n => wrap64 (n + 1) |>
           <| Impl.compositions ::= <[Composition.id comp := comp]> |>
           <| Impl.reservations ::= <[Reservation.id resv := resv]> |>)
    end.

Definition Revalidate (c : Composition.t) (s : Impl.t) : RevalidateResult :=
  match RevalidationHolds c (Impl.resources s) (epoch s) with
  | None => mkRevalidateResult true [] []
  | Some (reason, note) => mkRevalidateResult false [reason] [note]
  end.

(** The member check of [Commit]; [reserved_amount[item.resource]] is again the
    inserting [operator[]]. *)
Fixpoint commit_loop (resources : gmap ResourceId Resource.t) (req : CompositionRequest.t)
    (items : list ReservationItem.t) (m : gmap ResourceId double)
    : gmap ResourceId double * option RejectionReason.t :=
  match items with
  | [] => (m, None)
  | item :: items' =>
      match resources !! ReservationItem.resource item with
      | None => (m, Some RejectionReason.RESOURCE_OFFLINE)
      | Some r =>
          match ResourceEligible r req with
          | Some (reason, _) => (m, Some reason)
          | None =>
              let m := touch (ReservationItem.resource item) m in
              if (default d0 (m !! ReservationItem.resource item) <? ReservationItem.reserved_amount item)%D
              then (m, Some RejectionReason.OVERCOMMIT)
              else commit_loop resources req items' m
          end
      end
  end.

Definition commit_rejected (reason : RejectionReason.t) (note : string) : CommitResult :=
  mkCommitResult CompositionOutcome.REJECTED Composition.dflt [reason] [note].

Definition Commit (resIn : Reservation.t) (s : Impl.t) : CommitResult * Impl.t :=
  match Impl.reservations s !! Reservation.id resIn with
  | None => (commit_rejected RejectionReason.RESERVATION_CONFLICT "reservation unknown", s)
  | Some resv =>
  if negb (bool_decide (Reservation.state resv = ReservationState.PROVISIONAL))
  then (commit_rejected RejectionReason.INVALID_STATE_TRANSITION "reservation not PROVISIONAL", s)
  else match Impl.compositions s !! Reservation.composition resv with
  | None => (commit_rejected RejectionReason.RESERVATION_CONFLICT "composition unknown", s)
  | Some comp =>
  if negb (lifecycle_is CompositionLifecycle.RESERVED comp)
  then (commit_rejected RejectionReason.INVALID_STATE_TRANSITION "composition not RESERVED", s)
  else
    let '(m, failure) :=
      commit_loop (Impl.resources s) (Composition.request comp) (Reservation.items resv) (Impl.reserved_amount s) in
    match failure with
    | Some reason =>
        let resv := resv <| Reservation.state := ReservationState.ROLLED_BACK |> in
        let comp := comp <| Composition.lifecycle := CompositionLifecycle.REVALIDATION_REQUIRED |>
                         <| Composition.outcome := CompositionOutcome.FAILED |> in
        (mkCommitResult CompositionOutcome.REJECTED comp [reason] [],
         s <| Impl.reserved_amount := release_holds (item_holds (Reservation.items resv)) m |>
           <| Impl.reservations ::= <[Reservation.id resIn := resv]> |>
           <| Impl.compositions ::= <[Reservation.composition resv := comp]> |>)
    | None =>
        let resv := resv
          <| Reservation.items ::= fmap (fun i => i <| ReservationItem.state := ReservationState.COMMITTED |>) |>
          <| Reservation.state := ReservationState.COMMITTED |> in
        let comp := with_lifecycle CompositionLifecycle.COMMITTED comp in
        (mkCommitResult CompositionOutcome.SUCCESS comp [] [],
         s <| Impl.reserved_amount := m |>
           <| Impl.reservations ::= <[Reservation.id resIn := resv]> |>
           <| Impl.compositions ::= <[Reservation.composition resv := comp]> |>)
    end
  end end.

Definition activate_rejected (reason : RejectionReason.t) (note : string) : ActivateResult :=
  mkActivateResult CompositionOutcome.REJECTED Composition.dflt [reason] [note].

Definition Activate (id : CompositionId) (s : Impl.t) : ActivateResult * Impl.t :=
  match Impl.compositions s !! id with
  | None => (activate_rejected RejectionReason.NO_VALID_COMPOSITION "composition unknown", s)
  | Some comp =>
  if negb (lifecycle_is CompositionLifecycle.COMMITTED comp)
  then (activate_rejected RejectionReason.INVALID_STATE_TRANSITION "composition not COMMITTED", s)
  else if bool_decide (Composition.id comp ∈ Impl.fenced s)
  then (activate_rejected RejectionReason.POLICY_DENIED "composition fenced", s)
  else match RevalidationHolds comp (Impl.resources s) (epoch s) with
  | Some (reason, note) =>
      let comp := comp <| Composition.lifecycle := CompositionLifecycle.REVALIDATION_REQUIRED |>
                       <| Composition.outcome := CompositionOutcome.REJECTED |> in
      (mkActivateResult CompositionOutcome.REJECTED comp [reason] [note],
       s <| Impl.compositions ::= <[id := comp]> |>)
  | None =>
      let comp := comp <| Composition.lifecycle := CompositionLifecycle.ACTIVE |>
                       <| Composition.outcome := CompositionOutcome.SUCCESS |> in
      (mkActivateResult CompositionOutcome.SUCCESS comp [] [],
       s <| Impl.compositions ::= <[id := comp]> |>)
  end end.

(** ** Invalidation and lifecycle *)
Definition OnResourceUpdate (updated : Resource.t) (s : Impl.t) : Impl.t := IngestResourceLocked updated s.
Definition OnNodeUpdate (updated : Node.t) (s : Impl.t) : Impl.t := IngestNodeLocked updated s.

Definition OnPolicyUpdate (policy : PolicyId) (gen : PolicyGeneration) (s : Impl.t) : Impl.t :=
  s <| Impl.policies ::= <[policy := gen]> |>
    <| Impl.compositions ::= fmap (fun c =>
         let stale := negb (id_eqb (AuthorityTuple.policy_generation (Composition.authority c)) gen) in
         if lifecycle_is CompositionLifecycle.ACTIVE c && stale
         then with_lifecycle CompositionLifecycle.RECOMPOSITION_REQUIRED c
         else if lifecycle_is CompositionLifecycle.COMMITTED c && stale
         then with_lifecycle CompositionLifecycle.REVALIDATION_REQUIRED c
         else c) |>.

Definition OnPathUpdate (pe : PathEvidence.t) (s : Impl.t) : Impl.t :=
  let from := PathRequirement.from (PathEvidence.requirement pe) in
  let to := PathRequirement.to (PathEvidence.requirement pe) in
  let used c := existsb (fun p =>
    id_eqb (PathRequirement.from (PathEvidence.requirement p)) from
    && id_eqb (PathRequirement.to (PathEvidence.requirement p)) to
    && negb (id_eqb (PathEvidence.generation p) (PathEvidence.generation pe))) (Composition.paths c) in
  s <| Impl.paths ::= <[PathKey from to := pe]> |>
    <| Impl.compositions ::= fmap (fun c =>
         if lifecycle_is CompositionLifecycle.ACTIVE c && used c
         then with_lifecycle CompositionLifecycle.RECOMPOSITION_REQUIRED c else c) |>.

Definition OnResourceFailure (rid : ResourceId) (s : Impl.t) : Impl.t :=
  s <| Impl.resources ::= alter (fun r =>
         r <| Resource.health := ResourceHealth.OFFLINE |>
           <| Resource.readiness := Readiness.NOT_READY |>
           <| Resource.evidence ::= fun e => e <| Evidence.state := EvidenceState.REVALIDATION_REQUIRED |> |>) rid |>
    <| Impl.compositions ::= fmap (fun c =>
         if is_member rid c && lifecycle_is CompositionLifecycle.ACTIVE c
         then with_lifecycle CompositionLifecycle.RECOMPOSITION_REQUIRED c
         else if is_member rid c && lifecycle_is CompositionLifecycle.COMMITTED c
         then with_lifecycle CompositionLifecycle.REVALIDATION_REQUIRED c
         else c) |>.

Definition BeginDrain (id : CompositionId) (s : Impl.t) : bool * Impl.t :=
  match Impl.compositions s !! id with
  | None => (false, s)
  | Some c =>
      if lifecycle_is CompositionLifecycle.ACTIVE c || lifecycle_is CompositionLifecycle.COMMITTED c
         || lifecycle_is CompositionLifecycle.DEGRADED c
      then (true, s <| Impl.compositions ::= <[id := with_lifecycle CompositionLifecycle.DRAINING c]> |>
                    <| Impl.draining ::= fun d => {[id]} ∪ d |>)
      else (false, s)
  end.

(** Releasing the reservation of a composition: the block shared by [EndDrain],
    [Recompute] and [Release].  The reservation's state is not consulted. *)
Definition release_reservation (rid : ReservationId) (s : Impl.t) : Impl.t :=
  match Impl.reservations s !! rid with
  | None => s
  | Some resv =>
      s <| Impl.reserved_amount ::= release_holds (item_holds (Reservation.items resv)) |>
        <| Impl.reservations ::= <[rid := resv <| Reservation.state := ReservationState.RELEASED |>]> |>
  end.

Definition EndDrain (id : CompositionId) (s : Impl.t) : bool * Impl.t :=
  match Impl.compositions s !! id with
  | None => (false, s)
  | Some c =>
      if negb (lifecycle_is CompositionLifecycle.DRAINING c) then (false, s)
      else
        let s := release_reservation (Composition.reservation c) s in
        (true, s <| Impl.compositions ::= <[id := with_lifecycle CompositionLifecycle.RELEASED c]> |>
                 <| Impl.draining ::= fun d => d ∖ {[id]} |>)
  end.

Definition Release (id : CompositionId) (s : Impl.t) : bool * Impl.t :=
  match Impl.compositions s !! id with
  | None => (false, s)
  | Some c =>
      if lifecycle_is CompositionLifecycle.RELEASED c || lifecycle_is CompositionLifecycle.RETIRED c then (false, s)
      else
        let s := release_reservation (Composition.reservation c) s in
        (true, s <| Impl.compositions ::= <[id := with_lifecycle CompositionLifecycle.RELEASED c]> |>
                 <| Impl.draining ::= fun d => d ∖ {[id]} |>
                 <| Impl.fenced ::= fun f => {[id]} ∪ f |>)
  end.

(** The second critical section of [Recompute]: break before make. *)
Definition recompute_release (oldId : CompositionId) (s : Impl.t) : Impl.t :=
  match Impl.compositions s !! oldId with
  | None => s
  | Some c =>
      let s := release_reservation (Composition.reservation c) s in
      s <| Impl.compositions ::= <[oldId := with_lifecycle CompositionLifecycle.RELEASED c]> |>
        <| Impl.fenced ::= fun f => {[Composition.id c]} ∪ f |>
  end.

(** [Recompute] without another thread between its critical sections. *)
Definition Recompute (id : CompositionId) (s : Impl.t) : bool * Impl.t :=
  match Impl.compositions s !! id with
  | None => (false, s)
  | Some c =>
      let '(cr, s) := ComposeDeterministic (Composition.request c) 0 s in
      if negb (is_success (cr_outcome cr)) then (false, s)
      else
        let s := recompute_release id s in
        let '(rr, s) := Reserve (cr_plan cr) s in
        if negb (is_success (rr_outcome rr)) then (false, s)
        else
          let '(cc, s) := Commit (rr_reservation rr) s in
          if negb (is_success (cc_outcome cc)) then (false, s)
          else
            let '(ar, s) := Activate (Composition.id (cc_composition cc)) s in
            (is_success (ar_outcome ar), s)
  end.

(** ** Durable state: the engine's half of [Save] and [Load] *)
Module DurableState.
Record t := mk {
  epoch : CoordinatorEpoch;
  nodes : list Node.t;
  resources : list Resource.t;
  policies : gmap PolicyId PolicyGeneration;
  compositions : list Composition.t;
}.
#[global] Instance eta_t : Eta t := fun d => mk (epoch d) (nodes d) (resources d) (policies d) (compositions d).
Definition dflt : t := mk zero_id [] [] ∅ [].
End DurableState.

Definition SaveState (s : Impl.t) : DurableState.t :=
  DurableState.mk (epoch s) (map_to_list (Impl.nodes s)).*2 (map_to_list (Impl.resources s)).*2
    (Impl.policies s) (map_to_list (Impl.compositions s)).*2.

Definition load_resource (r : Resource.t) : Resource.t :=
  if Evidence.durable (Resource.evidence r) then r else r <| Resource.evidence ::= require_revalidation |>.
Definition load_composition (c : Composition.t) : Composition.t :=
  (if lifecycle_is CompositionLifecycle.ACTIVE c || lifecycle_is CompositionLifecycle.COMMITTED c
   then with_lifecycle CompositionLifecycle.RECOMPOSITION_REQUIRED c else c)
  <| Composition.outcome := CompositionOutcome.OUTCOME_UNKNOWN |>.

(** [m[key(x)] = x] for each element of a vector, in order. *)
Definition insert_all {Tag : Set} {A : Type} (key : A -> StrongId Tag) (l : list A) : gmap (StrongId Tag) A :=
  fold_left (fun m x => <[key x := x]> m) l ∅.

(** A counter is moved past every key of a map.  The unordered map is visited in some
    order; the order matters only if a key is 2^64 - 1, where the counter wraps
    ([bump_order]). *)
Definition bump_counter {Tag : Set} {A : Type} (m : gmap (StrongId Tag) A) (n : N) : N :=
  fold_left (fun n kv => if n <=? Value (kv.1) then wrap64 (Value (kv.1) + 1) else n) (map_to_list m) n.

Lemma bump_order {Tag : Set} {A : Type} (l l' : list (StrongId Tag * A)) n :
  l ≡ₚ l' -> Forall (fun kv => Value kv.1 < 2 ^ 64 - 1) l ->
  fold_left (fun n kv => if n <=? Value (kv.1) then wrap64 (Value (kv.1) + 1) else n) l n =
  fold_left (fun n kv => if n <=? Value (kv.1) then wrap64 (Value (kv.1) + 1) else n) l' n.
Proof.
  intros Hp. revert n. induction Hp as [|x l l' Hp IH|x y l|l1 l2 l3 H1 IH1 H2 IH2]; intros n Hl; [done| | |].
  - apply Forall_cons in Hl as [_ Hl]. cbn [fold_left]. by apply IH.
  - apply Forall_cons in Hl as [Hy Hl]. apply Forall_cons in Hl as [Hx _]. cbn [fold_left]. f_equal.
    rewrite !wrap64_small by (unfold u64_ok; lia).
    destruct (N.leb_spec n (Value x.1)), (N.leb_spec n (Value y.1)); repeat case_match; rewrite ?N.leb_le, ?N.leb_gt in *; lia.
  - rewrite IH1 by done. apply IH2. by rewrite <-H1.
Qed.

Definition LoadState (d : DurableState.t) (s : Impl.t) : Impl.t :=
  let nodes := insert_all Node.id (DurableState.nodes d) in
  let resources := insert_all Resource.id (load_resource <$> DurableState.resources d) in
  let compositions := insert_all Composition.id (load_composition <$> DurableState.compositions d) in
  s <| Impl.config ::= fun c => c <| EngineConfig.epoch := DurableState.epoch d |> |>
    <| Impl.nodes := nodes |>
    <| Impl.resources := resources |>
    <| Impl.policies := DurableState.policies d |>
    <| Impl.compositions := compositions |>
    <| Impl.reservations := ∅ |>
    <| Impl.next_comp ::= bump_counter compositions |>
    <| Impl.next_res ::= bump_counter resources |>
    <| Impl.next_rs ::= bump_counter nodes |>.
