(* ===== verification/Persistence.v ===== *)
(** * Persistence

    [src/dfabric/persistence.cpp] on the contents of the file: [SaveBytes] is
    what [SaveImpl] writes, [LoadImpl] what it makes of the bytes it has read,
    and [EngineSave] and [EngineLoad] are [FabricEngine::Save] and
    [FabricEngine::Load].  Here a file is its bytes, or [None] when it cannot be
    opened; the calls to the file system are in [Storage].

    [Writer] and [Reader] repeat [WireWriter] and [WireReader], and [Checksum]
    repeats [Fnv]; that the two forms of [Need], and with it all reads, agree on
    every reader is [readers_agree].  The functions that repeat
    the wire codec statement by statement are defined as it; the ones that differ
    ([WriteResource], [ReadResource], [WriteRequest], [ReadRequest],
    [WriteComposition], [ReadComposition]) are written out. *)

From S2P Require Import Prelude Bytes Enums Ids Double Model Codec Wire Planner Engine.

Definition kMagic : N := 0x46414244.
Definition kFormatVersion : N := 1.
(** [Writer::Str] throws this. *)
Definition persist_too_long : string := "persist: string too long".

(** [Reader::Need]: [ok && pos + n <= size && pos + n >= pos]. *)
Definition persist_Need (n : N) (r : Rd.t) : bool :=
  Rd.ok r && (wrap64 (Rd.pos r + n) <=? Rd.size r) && (Rd.pos r <=? wrap64 (Rd.pos r + n)).
Lemma persist_Need_eq n r : reader_wf r -> u64_ok n -> persist_Need n r = Rd.Need n r.
Proof.
  intros Hr Hn. rewrite Need_spec by done. destruct Hr as [Hp Hs]. unfold persist_Need, wrap64, u64_ok in *.
  rewrite <-andb_assoc. f_equal. destruct (N.lt_ge_cases (Rd.pos r + n) (2 ^ 64)) as [Hlt|Hge].
  - rewrite N.mod_small by done. destruct (N.leb_spec (Rd.pos r + n) (Rd.size r)); [apply N.leb_le; lia|done].
  - rewrite (proj2 (N.leb_gt (Rd.pos r + n) _)) by lia. apply andb_false_intro2, N.leb_gt.
    replace (Rd.pos r + n) with (Rd.pos r + n - 2 ^ 64 + 1 * 2 ^ 64) by lia. rewrite N.Div0.mod_add, N.mod_small by lia. lia.
Qed.

(** ** Reader and Checksum *)
Module Reader.
Definition read {A : Type} (n : N) (zero : A) (get : list byte -> nat -> option A) (r : Rd.t) : option (A * Rd.t) :=
  if negb (persist_Need n r) then Rd.fail zero r
  else match get (Rd.data r) (N.to_nat (Rd.pos r)) with
  | Some v => Some (v, Rd.advance n r)
  | None => None
  end.
Definition U8 : Rd.t -> option (N * Rd.t) := read 1 0 (fun d off => Byte.to_N <$> d !! off).
Definition U16 : Rd.t -> option (N * Rd.t) := read 2 0 (fun d off => get_le_from 0 2 d off 0).
Definition U32 : Rd.t -> option (N * Rd.t) := read 4 0 GetU32.
Definition U64 : Rd.t -> option (N * Rd.t) := read 8 0 GetU64.
Definition Dbl (r : Rd.t) : option (double * Rd.t) :=
  match U64 r with Some (u, r') => Some (bits_to_double u, r') | None => None end.
Definition Str (r : Rd.t) : option (string * Rd.t) :=
  match U32 r with
  | None => None
  | Some (n, r1) =>
      if negb (Rd.ok r1) || (kWireMaxLen <? n) || negb (persist_Need n r1) then Rd.fail "" r1
      else match Rd.slice n (Rd.data r1) (N.to_nat (Rd.pos r1)) with
      | Some bs => Some (String.string_of_list_byte bs, Rd.advance n r1)
      | None => None
      end
  end.
End Reader.
Definition Checksum (data : list byte) : N :=
  fold_left (fun h b => wrap64 (N.lxor h (Byte.to_N b) * 0x100000001b3)) data 0xcbf29ce484222325.

(** The copies agree with the routines of the codec and the protocol. *)
Lemma read_agrees {A : Type} n (zero : A) get r :
  reader_wf r -> u64_ok n -> Reader.read n zero get r = Rd.read n zero get r.
Proof. intros Hr Hn. unfold Reader.read, Rd.read. by rewrite persist_Need_eq. Qed.
Lemma Str_agrees r : reader_wf r -> Reader.Str r = Rd.Str r.
Proof.
  intros Hr. unfold Reader.Str, Rd.Str. unfold Reader.U32. rewrite read_agrees by done. fold (Rd.U32 r).
  destruct (U32_safe r Hr) as (n & r1 & -> & Hr1 & _).
  destruct (negb (Rd.ok r1)); [done|]. destruct (N.ltb_spec kWireMaxLen n) as [|Hn]; [done|].
  rewrite persist_Need_eq; [done..|]. unfold u64_ok, kWireMaxLen in *. lia.
Qed.
Lemma readers_agree r :
  reader_wf r ->
  Reader.U8 r = Rd.U8 r /\ Reader.U16 r = Rd.U16 r /\ Reader.U32 r = Rd.U32 r /\ Reader.U64 r = Rd.U64 r /\
  Reader.Dbl r = Rd.Dbl r /\ Reader.Str r = Rd.Str r.
Proof.
  intros Hr. split_and!; try (by apply read_agrees); [|by apply Str_agrees].
  unfold Reader.Dbl, Rd.Dbl. unfold Reader.U64. by rewrite read_agrees.
Qed.
Lemma Checksum_Fnv data : Checksum data = Fnv data.
Proof. done. Qed.

(** ** Writers *)
Definition WriteNode : Node.t -> W := EncodeNode persist_too_long.
Definition WriteEvidence : Evidence.t -> W := EncodeEvidence persist_too_long.
Definition WritePath : PathEvidence.t -> W := EncodePath persist_too_long.
Definition WriteGraph : ResourceGraph.t -> W := EncodeGraph persist_too_long.
Definition WriteAuthority : AuthorityTuple.t -> W := EncodeAuthority.

Definition WriteCapacity (c : Capacity.t) : W :=
  Wr.Dbl (Capacity.compute_units c) ;>> Wr.Dbl (Capacity.accelerator_memory_bytes c) ;>>
  Wr.Dbl (Capacity.host_memory_bytes c) ;>> Wr.Dbl (Capacity.expanded_memory_bytes c) ;>>
  Wr.Dbl (Capacity.storage_bytes c) ;>> Wr.Dbl (Capacity.network_bandwidth_mbps c) ;>>
  Wr.Dbl (Capacity.network_latency_us c) ;>>
  (if kWireMaxCount <? N.of_nat (length (map_entries (Capacity.extra c))) then Wr.throw "persist: extra too large"
   else EncodeEntries persist_too_long (Capacity.extra c)).
Definition WriteResource (r : Resource.t) : W :=
  Wr.Id (Resource.id r) ;>> Wr.Id (Resource.generation r) ;>>
  Wr.Enum (Resource.resource_class r) ;>> Wr.Id (Resource.node_id r) ;>>
  Wr.Str persist_too_long (Resource.provider r) ;>> Wr.Str persist_too_long (Resource.authority_owner r) ;>>
  Wr.Bool (Resource.synthetic r) ;>>
  Wr.Enum (Resource.health r) ;>> Wr.Enum (Resource.readiness r) ;>> Wr.Enum (Resource.reachability r) ;>>
  WriteCapacity (Resource.capacity r) ;>> EncodeLocality persist_too_long (Resource.locality r) ;>>
  EncodeFailureDomain persist_too_long (Resource.failure_domain r) ;>>
  EncodeEvidence persist_too_long (Resource.evidence r) ;>>
  Wr.counted (EncodeCapability persist_too_long) (Resource.capabilities r) ;>>
  Wr.counted (EncodeCompatibility persist_too_long) (Resource.compatibility r).

Definition WriteRequest (q : CompositionRequest.t) : W :=
  Wr.U64 (CompositionRequest.compute_units q) ;>> Wr.U32 (CompositionRequest.accelerator_count q) ;>>
  Wr.counted (Wr.Str persist_too_long) (CompositionRequest.accelerator_architectures q) ;>>
  Wr.Dbl (CompositionRequest.accelerator_memory_bytes q) ;>> Wr.Dbl (CompositionRequest.host_memory_bytes q) ;>>
  Wr.Dbl (CompositionRequest.expanded_memory_bytes q) ;>> Wr.Dbl (CompositionRequest.storage_bytes q) ;>>
  Wr.U32 (CompositionRequest.network_endpoint_count q) ;>>
  Wr.Dbl (CompositionRequest.min_bandwidth_mbps q) ;>> Wr.Dbl (CompositionRequest.max_latency_us q) ;>>
  Wr.counted Wr.Enum (set_entries (CompositionRequest.mandatory_classes q)) ;>>
  Wr.counted Wr.Enum (set_entries (CompositionRequest.optional_classes q)) ;>>
  Wr.Bool (CompositionRequest.require_direct_path q) ;>> Wr.Bool (CompositionRequest.require_coherence q) ;>>
  Wr.Bool (CompositionRequest.require_persistence q) ;>> Wr.Bool (CompositionRequest.require_isolation q) ;>>
  Wr.Bool (CompositionRequest.staging_allowance q) ;>>
  Wr.Id (CompositionRequest.compatibility q) ;>> Wr.Id (CompositionRequest.policy q) ;>>
  Wr.Id (CompositionRequest.policy_generation q) ;>>
  Wr.Id (CompositionRequest.consumer q) ;>> Wr.Id (CompositionRequest.consumer_generation q).

Definition WriteComposition (c : Composition.t) : W :=
  Wr.Id (Composition.id c) ;>> Wr.Id (Composition.generation c) ;>>
  Wr.Id (Composition.resource_set_id c) ;>> Wr.Id (Composition.resource_set_generation c) ;>>
  Wr.counted Wr.Id (Composition.nodes c) ;>> WriteRequest (Composition.request c) ;>>
  WriteGraph (Composition.graph c) ;>> WriteAuthority (Composition.authority c) ;>>
  Wr.Enum (Composition.lifecycle c) ;>> Wr.Id (Composition.reservation c) ;>> Wr.Enum (Composition.outcome c) ;>>
  Wr.Dbl (RankScore.total (Composition.rank c)) ;>> Wr.counted WritePath (Composition.paths c).

(** ** Readers *)
Definition ReadNode : Dec Node.t unit := DecodeNode.
Definition ReadEvidence : Dec Evidence.t unit := DecodeEvidence.
Definition ReadPath : Dec PathEvidence.t unit := DecodePath.
Definition ReadGraph : Dec ResourceGraph.t unit := DecodeGraph.
Definition ReadAuthority : Dec AuthorityTuple.t unit := DecodeAuthority.

(** The evidence, capabilities and compatibilities of [ReadResource] are read in
    place: the reader is checked once, at the end. *)
Definition ReadResourceEvidence : Dec Evidence.t unit :=
  store Evidence.id Rd.Id;; store Evidence.generation Rd.Id;;
  store_enum Evidence.source EvidenceSource.UNKNOWN;;
  store_enum Evidence.state EvidenceState.PROVENANCE_UNKNOWN;;
  store Evidence.timestamp_ms Rd.U64;; store Evidence.max_age_ms Rd.U64;; store Evidence.confidence Rd.Dbl;;
  store Evidence.provenance Rd.Str;; store Evidence.owner Rd.Str;; store Evidence.durable Rd.Bool.
Definition ReadCapability : Dec Capability.t unit :=
  store_enum Capability.kind CapabilityKind.UNKNOWN;; store_enum Capability.state CapabilityState.UNKNOWN;;
  store Capability.generation Rd.Id;; store Capability.evidence Rd.Id;; store Capability.detail Rd.Str.
Definition ReadCompatibility : Dec Compatibility.t unit :=
  store Compatibility.id Rd.Id;; store Compatibility.generation Rd.Id;;
  counted (push Compatibility.pins (local CompatibilityPin.dflt DecodePin)).
Definition ReadResource : Dec Resource.t unit :=
  store Resource.id Rd.Id;; store Resource.generation Rd.Id;;
  store_enum Resource.resource_class ResourceClass.UNKNOWN;; store Resource.node_id Rd.Id;;
  store Resource.provider Rd.Str;; store Resource.authority_owner Rd.Str;; store Resource.synthetic Rd.Bool;;
  store_enum Resource.health ResourceHealth.UNKNOWN;; store_enum Resource.readiness Readiness.UNKNOWN;;
  store_enum Resource.reachability Reachability.UNKNOWN;;
  zoom Resource.capacity DecodeCapacity;; zoom Resource.locality DecodeLocality;;
  zoom Resource.failure_domain DecodeFailureDomain;; zoom Resource.evidence ReadResourceEvidence;;
  counted (push Resource.capabilities (local Capability.dflt ReadCapability));;
  counted (push Resource.compatibility (local Compatibility.dflt ReadCompatibility));;
  return_ok.

Definition ReadRequest : Dec CompositionRequest.t unit :=
  store CompositionRequest.compute_units Rd.U64;; store CompositionRequest.accelerator_count Rd.U32;;
  counted (push CompositionRequest.accelerator_architectures (rd Rd.Str));;
  store CompositionRequest.accelerator_memory_bytes Rd.Dbl;; store CompositionRequest.host_memory_bytes Rd.Dbl;;
  store CompositionRequest.expanded_memory_bytes Rd.Dbl;; store CompositionRequest.storage_bytes Rd.Dbl;;
  store CompositionRequest.network_endpoint_count Rd.U32;;
  store CompositionRequest.min_bandwidth_mbps Rd.Dbl;; store CompositionRequest.max_latency_us Rd.Dbl;;
  counted (insert_enum CompositionRequest.mandatory_classes ResourceClass.UNKNOWN);;
  counted (insert_enum CompositionRequest.optional_classes ResourceClass.UNKNOWN);;
  store CompositionRequest.require_direct_path Rd.Bool;; store CompositionRequest.require_coherence Rd.Bool;;
  store CompositionRequest.require_persistence Rd.Bool;; store CompositionRequest.require_isolation Rd.Bool;;
  store CompositionRequest.staging_allowance Rd.Bool;;
  store CompositionRequest.compatibility Rd.Id;; store CompositionRequest.policy Rd.Id;;
  store CompositionRequest.policy_generation Rd.Id;;
  store CompositionRequest.consumer Rd.Id;; store CompositionRequest.consumer_generation Rd.Id;;
  return_ok.

Definition ReadComposition : Dec Composition.t unit :=
  store Composition.id Rd.Id;; store Composition.generation Rd.Id;;
  store Composition.resource_set_id Rd.Id;; store Composition.resource_set_generation Rd.Id;;
  counted (push Composition.nodes (rd Rd.Id));; zoom Composition.request ReadRequest;;
  zoom Composition.graph ReadGraph;; zoom Composition.authority ReadAuthority;;
  store_enum Composition.lifecycle CompositionLifecycle.REQUESTED;; store Composition.reservation Rd.Id;;
  store_enum Composition.outcome CompositionOutcome.OUTCOME_UNKNOWN;;
  zoom Composition.rank (store RankScore.total Rd.Dbl);;
  counted (push Composition.paths (local PathEvidence.dflt ReadPath));;
  return_ok.

(** ** [SaveImpl] and [LoadImpl] *)

(** [std::map<PolicyId, PolicyGeneration>] iterates in the order of the ids. *)
Definition policy_entries (m : gmap PolicyId PolicyGeneration) : list (PolicyId * PolicyGeneration) :=
  isort (fun a b => id_ltb a.1 b.1) (map_to_list m).

Definition WriteState (s : DurableState.t) : W :=
  Wr.U32 kMagic ;>> Wr.U32 kFormatVersion ;>>
  Wr.Id (DurableState.epoch s) ;>>
  Wr.counted WriteNode (DurableState.nodes s) ;>>
  Wr.counted WriteResource (DurableState.resources s) ;>>
  Wr.counted (fun kv => Wr.Id kv.1 ;>> Wr.Id kv.2) (policy_entries (DurableState.policies s)) ;>>
  Wr.counted WriteComposition (DurableState.compositions s).
(** The buffer that [SaveImpl] writes to the file, or the text of the exception
    that makes it return false. *)
Definition SaveBytes (s : DurableState.t) : string + list byte :=
  match WriteState s [] with
  | inl e => inl e
  | inr buf => inr (PutU64 buf (Fnv buf))
  end.

Inductive LoadResult : Type :=
  | Loaded (s : DurableState.t)
  | LoadError (err : string)
  | LoadFault.

(** A count with its bound, then a loop of the body; the two error texts. *)
Definition load_section (overflow malformed : string) (body : Dec DurableState.t unit)
    (k : Rd.t * DurableState.t -> LoadResult) (st : Rd.t * DurableState.t) : LoadResult :=
  match rd Rd.U32 st with
  | (Ret n, st1) =>
      if kWireMaxCount <? n then LoadError overflow
      else match loop (N.to_nat n) body st1 with
      | (Ret _, st2) => k st2
      | (Fail, _) => LoadError malformed
      | (Fault, _) => LoadFault
      end
  | _ => LoadFault
  end.

(** The part of [LoadImpl] after the checksum. *)
Definition load_payload (r : Rd.t) (out : DurableState.t) : LoadResult :=
  match store DurableState.epoch Rd.Id (r, out) with
  | (Ret _, st) =>
      load_section "node count overflow" "malformed node"
        (push DurableState.nodes (local Node.dflt ReadNode))
      (load_section "resource count overflow" "malformed resource"
        (push DurableState.resources (local Resource.dflt ReadResource))
      (load_section "policy count overflow" ""
        (store_entry DurableState.policies Rd.Id Rd.Id)
      (load_section "composition count overflow" "malformed composition"
        (push DurableState.compositions (local Composition.dflt ReadComposition))
      (fun '(r, out) => if Rd.ok r then Loaded out else LoadError "truncated payload")))) st
  | _ => LoadFault
  end.

(** [LoadImpl] on the bytes of a file that was read. *)
Definition LoadBytes (buf : list byte) : LoadResult :=
  if (length buf =? 0)%nat then LoadError "empty/truncated file"
  else match Rd.U32 (MakeReader buf) with
  | None => LoadFault
  | Some (magic, r) =>
      if negb (magic =? kMagic) then LoadError "bad magic"
      else match Rd.U32 r with
      | None => LoadFault
      | Some (version, r) =>
          if negb (version =? kFormatVersion) then LoadError "unsupported format version"
          else if (length buf <? 8)%nat then LoadError "truncated (no checksum)"
          else match Rd.U64 ((MakeReader buf) <| Rd.pos := N.of_nat (length buf - 8) |>) with
          | None => LoadFault
          | Some (stored, _) =>
              let computed := Fnv (take (length buf - 8) buf) in
              if negb (stored =? computed) then LoadError "checksum mismatch"
              else load_payload r DurableState.dflt
          end
      end
  end.
(** What the stream reports about an existing file: it does not open, [tellg] fails
    and gives -1, [read] stops early, or the whole file is read. *)
Inductive ReadOutcome : Set := NotOpened | NoSize | ReadShort | ReadWhole.
Definition LoadImpl (o : ReadOutcome) (file : option (list byte)) : LoadResult :=
  match file with
  | None => LoadError "cannot open path for read"
  | Some buf =>
      match o with
      | NotOpened => LoadError "cannot open path for read"
      | NoSize => LoadError "empty/truncated file"
      | ReadShort => if (length buf =? 0)%nat then LoadError "empty/truncated file" else LoadError "read failed (truncation)"
      | ReadWhole => LoadBytes buf
      end
  end.

(** [FabricEngine::Save]: the new contents of the file, [None] when it returns
    false. *)
Definition EngineSave (s : Impl.t) : option (list byte) :=
  match SaveBytes (SaveState s) with inl _ => None | inr bytes => Some bytes end.
(** [FabricEngine::Load]: the error of the [LoadResult] and the engine. *)
Definition EngineLoad (o : ReadOutcome) (file : option (list byte)) (s : Impl.t) : option string * Impl.t :=
  match LoadImpl o file with
  | Loaded d => (None, LoadState d s)
  | LoadError e => (Some e, s)
  | LoadFault => (Some "", s)
  end.

(** ** What persistence keeps *)
Definition persist_request (q : CompositionRequest.t) : CompositionRequest.t :=
  (wire_request q) <| CompositionRequest.ignore_reachability := false |>.
Definition persist_composition (c : Composition.t) : Composition.t :=
  c <| Composition.request ::= persist_request |> <| Composition.rank ::= fun s => s <| RankScore.factors := [] |> |>
    <| Composition.explanation := "" |>.
Definition persist_state (s : DurableState.t) : DurableState.t :=
  s <| DurableState.nodes ::= fmap wire_node |> <| DurableState.resources ::= fmap wire_resource |>
    <| DurableState.compositions ::= fmap persist_composition |>.

Definition persistable (c : Composition.t) : Prop := composition_ok (c <| Composition.explanation := "" |>).
Definition state_ok (s : DurableState.t) : Prop :=
  id_ok (DurableState.epoch s) /\ all_ok node_ok (DurableState.nodes s) /\ all_ok resource_ok (DurableState.resources s) /\
  all_ok (fun kv : PolicyId * PolicyGeneration => id_ok kv.1 /\ id_ok kv.2) (policy_entries (DurableState.policies s)) /\
  all_ok persistable (DurableState.compositions s).
#[export] Instance persistable_dec c : Decision (persistable c).
Proof. unfold persistable. apply _. Defined.
#[export] Instance state_ok_dec s : Decision (state_ok s).
Proof. unfold state_ok. apply _. Defined.
#[global] Typeclasses Opaque persistable state_ok.

(** ** Safety and transfer of the readers that differ from the wire codec *)
Lemma ReadResourceEvidence_safe : safe ReadResourceEvidence.
Proof. solve_safe. Qed.
#[export] Hint Resolve ReadResourceEvidence_safe : safe.
Lemma ReadCapability_safe : safe ReadCapability.
Proof. solve_safe. Qed.
#[export] Hint Resolve ReadCapability_safe : safe.
Lemma ReadCompatibility_safe : safe ReadCompatibility.
Proof. solve_safe. Qed.
#[export] Hint Resolve ReadCompatibility_safe : safe.
Lemma ReadResource_safe : safe ReadResource.
Proof. solve_safe. Qed.
#[export] Hint Resolve ReadResource_safe : safe.
Lemma ReadRequest_safe : safe ReadRequest.
Proof. solve_safe. Qed.
#[export] Hint Resolve ReadRequest_safe : safe.
Lemma ReadComposition_safe : safe ReadComposition.
Proof. solve_safe. Qed.
#[export] Hint Resolve ReadComposition_safe : safe.
Lemma ReadNode_safe : safe ReadNode.
Proof. exact DecodeNode_safe. Qed.
#[export] Hint Resolve ReadNode_safe : safe.

Lemma tr_persist_evidence e : evidence_ok e -> transfers (EncodeEvidence persist_too_long e) ReadResourceEvidence Evidence.dflt tt e.
Proof. solve_transfer evidence_ok EncodeEvidence ReadResourceEvidence. by destruct e. Qed.
Lemma tr_persist_capability c : capability_ok c -> transfers (EncodeCapability persist_too_long c) ReadCapability Capability.dflt tt c.
Proof. solve_transfer capability_ok EncodeCapability ReadCapability. by destruct c. Qed.
Lemma tr_persist_compatibility c :
  compatibility_ok c -> transfers (EncodeCompatibility persist_too_long c) ReadCompatibility Compatibility.dflt tt c.
Proof. solve_transfer compatibility_ok EncodeCompatibility ReadCompatibility. by destruct c. Qed.
Lemma tr_persist_capacity c : capacity_ok c -> transfers (WriteCapacity c) DecodeCapacity Capacity.dflt tt c.
Proof.
  intros H. unfold WriteCapacity. rewrite (proj2 (N.ltb_ge _ _)) by apply H. by apply tr_capacity.
Qed.
#[export] Hint Resolve tr_persist_evidence tr_persist_capability tr_persist_compatibility tr_persist_capacity : codec.
Lemma tr_persist_resource r : resource_ok r -> transfers (WriteResource r) ReadResource Resource.dflt tt (wire_resource r).
Proof. solve_transfer resource_ok WriteResource ReadResource. by destruct r. Qed.
Lemma tr_persist_request q :
  request_ok q -> transfers (WriteRequest q) ReadRequest CompositionRequest.dflt tt (persist_request q).
Proof. solve_transfer request_ok WriteRequest ReadRequest. by destruct q. Qed.
#[export] Hint Resolve tr_persist_request : codec.
Lemma tr_persist_composition c :
  persistable c -> transfers (WriteComposition c) ReadComposition Composition.dflt tt (persist_composition c).
Proof.
  intros H. unfold persistable in H. unfold composition_ok in H; cbn in H. unfold WriteComposition, ReadComposition.
  unfold WriteGraph, ReadGraph, WriteAuthority, ReadAuthority, WritePath, ReadPath.
  destruct_and!; repeat match goal with H : all_ok _ _ |- _ => destruct H end.
  eapply tr_eq; [transfer|by destruct c].
Qed.
Lemma tr_persist_node n : node_ok n -> transfers (WriteNode n) ReadNode Node.dflt tt (wire_node n).
Proof. apply tr_node. Qed.
