(* ===== verification/Storage.v ===== *)
(** * Files

    The file-system half of [src/dfabric/persistence.cpp]: [SaveImpl] as the
    sequence of its stream operations, and [LoadImpl] on a path.  The file system
    maps paths to contents.  [fs_step] is what the operating system may answer:
    opening can fail, a write can stop after any number of bytes, removing can
    fail, a file can be unreadable, a read can stop early, which [SaveImpl] does not
    notice; [fs_eval] is the outcome without failures. *)

From S2P Require Import Prelude Effects Bytes Enums Ids Double Model Codec Wire Planner Engine Persistence.

Abbreviation Fs := (gmap string (list byte)).

(** ** Stream operations *)

(** [std::vector<char> b(sz); ifs.read(b.data(), sz);]: the vector is zero-filled, and a
    read that stops after [n] bytes leaves the rest of it so. *)
Definition read_into (n : nat) (d : list byte) : list byte := take n d ++ replicate (length d - n) x00.
Inductive fsE : Type -> Type :=
  (** [std::ofstream f(path, std::ios::binary | std::ios::trunc);], then [!f]. *)
  | OpenTrunc (path : string) : fsE bool
  (** [f.write(data); f.close();], then [f.good()]. *)
  | WriteClose (path : string) (data : list byte) : fsE bool
  (** [std::remove(path)], its result ignored. *)
  | Remove (path : string) : fsE unit
  (** [seekg] to the end, [tellg], [read] into a vector of that size, its state not
      tested; [None] when the stream is not open or [tellg] fails. *)
  | ReadFile (path : string) : fsE (option (list byte)).

Definition fs_step (X : Type) (e : fsE X) : Fs -> X -> Fs -> Prop :=
  match e in fsE X return Fs -> X -> Fs -> Prop with
  | OpenTrunc p => fun fs ok fs' => if ok then fs' = <[p := []]> fs else fs' = fs
  | WriteClose p d => fun fs good fs' => if good then fs' = <[p := d]> fs else exists n, fs' = <[p := take n d]> fs
  | Remove p => fun fs _ fs' => fs' = delete p fs \/ fs' = fs
  | ReadFile p => fun fs b fs' => fs' = fs /\ (b = None \/ exists n, b = read_into n <$> fs !! p)
  end.

Definition fs_eval (X : Type) (e : fsE X) : Fs -> X * Fs :=
  match e in fsE X return Fs -> X * Fs with
  | OpenTrunc p => fun fs => (true, <[p := []]> fs)
  | WriteClose p d => fun fs => (true, <[p := d]> fs)
  | Remove p => fun fs => (tt, delete p fs)
  | ReadFile p => fun fs => (fs !! p, fs)
  end.
Lemma read_into_all d : read_into (length d) d = d.
Proof. unfold read_into. by rewrite Nat.sub_diag, app_nil_r, firstn_all. Qed.
Lemma fs_eval_step X (e : fsE X) fs : fs_step X e fs (fs_eval X e fs).1 (fs_eval X e fs).2.
Proof.
  destruct e as [| | |p]; cbn; auto. split; [done|]. destruct (fs !! p) as [d|]; [right|by left].
  exists (length d). cbn. by rewrite read_into_all.
Qed.

(** ** [SaveImpl]

    [win32] is the preprocessor symbol; [what] is the text of the exception that
    a vector of size [(size_t)-1] throws when the temporary file cannot be read
    back.  The result is [None] for [true] and the error for [false]. *)
Definition tmp_of (path : string) : string := path +:+ ".tmp".

Section save.
Context (win32 : bool) (what : string).

Definition win_remove (path : string) : prog fsE unit := if win32 then call (Remove path) else mret tt.

Definition SaveImpl (s : DurableState.t) (path : string) : prog fsE (option string) :=
  match SaveBytes s with
  | inl e => mret (Some e)
  | inr buf =>
      let tmp := tmp_of path in
      opened ← call (OpenTrunc tmp);
      if negb opened then mret (Some "cannot open temp path for write")
      else
        good ← call (WriteClose tmp buf);
        if negb good then mret (Some "write failed")
        else
          win_remove path;;
          opened ← call (OpenTrunc path);
          if negb opened then mret (Some "cannot open final path")
          else
            b ← call (ReadFile tmp);
            match b with
            | None => mret (Some what)
            | Some b => call (WriteClose path b);; win_remove tmp;; mret None
            end
  end.
End save.

(** [persist::Load] on a path, when the file can be read. *)
Definition LoadFile (path : string) (fs : Fs) : LoadResult := LoadImpl ReadWhole (fs !! path).

(** ** What a save can leave behind *)
Lemma tmp_of_ne path : tmp_of path <> path.
Proof. unfold tmp_of. induction path as [|c path IH]; [done|]. cbn. by intros [= ?]. Qed.

Section outcomes.
Context (win32 : bool) (what path : string) (bytes : list byte) (fs0 : Fs).

(** The state file is the old one, missing, or a prefix of what was read back of the
    new one, and no other file but the temporary one has changed. *)
Definition file_outcome (fs : Fs) : Prop :=
  (fs !! path = fs0 !! path \/ fs !! path = None \/ exists n k, fs !! path = Some (take k (read_into n bytes))) /\
  forall p, p <> path -> p <> tmp_of path -> fs !! p = fs0 !! p.
(** As above, and the temporary file holds the new contents. *)
Definition tmp_written (fs : Fs) : Prop := file_outcome fs /\ fs !! tmp_of path = Some bytes.

Lemma outcome_tmp fs v : file_outcome fs -> file_outcome (<[tmp_of path := v]> fs).
Proof.
  intros [Hp Hr]. pose proof (tmp_of_ne path). split; [by rewrite lookup_insert_ne|].
  intros p Hne Hnt. rewrite lookup_insert_ne by done. auto.
Qed.
Lemma outcome_tmp_delete fs : file_outcome fs -> file_outcome (delete (tmp_of path) fs).
Proof.
  intros [Hp Hr]. pose proof (tmp_of_ne path). split; [by rewrite lookup_delete_ne|].
  intros p Hne Hnt. rewrite lookup_delete_ne by done. auto.
Qed.
Lemma written_prefix fs n k : tmp_written fs -> tmp_written (<[path := take k (read_into n bytes)]> fs).
Proof.
  intros [[_ Hr] Ht]. pose proof (tmp_of_ne path). split; [split|].
  - rewrite lookup_insert_eq. eauto.
  - intros p Hne Hnt. rewrite lookup_insert_ne by done. auto.
  - by rewrite lookup_insert_ne.
Qed.
Lemma written_removed fs : tmp_written fs -> tmp_written (delete path fs).
Proof.
  intros [[_ Hr] Ht]. pose proof (tmp_of_ne path). split; [split|].
  - rewrite lookup_delete_eq. eauto.
  - intros p Hne Hnt. rewrite lookup_delete_ne by done. auto.
  - by rewrite lookup_delete_ne.
Qed.
End outcomes.
