(* ===== verification/Synthetic.v ===== *)
(** * The synthetic multi-node backend

    [backends/synthetic/synthetic_backend.{hpp,cpp}]: a four-node topology with
    seven resources and symmetric paths, its three backend operations, the
    simulation controls that mutate it, and its descriptions.  [as_backend] is its
    [Backend] view at a given state; that it implements what the engine relies on
    is proved in [Contract]. *)

From S2P Require Import Prelude Enums Ids Double Model Planner Engine.

Record PathState := mkPathState { ps_available : bool; ps_bw : double; ps_lat : double; ps_gen : PathGeneration }.
#[export] Instance eta_PathState : Eta PathState := fun p =>
  mkPathState (ps_available p) (ps_bw p) (ps_lat p) (ps_gen p).

Module Synthetic.
Record t := mk {
  nodes_ : list Node.t;
  resources_ : list Resource.t;
  paths_ : gmap string PathState;
  node_gen_ : NodeGeneration;
}.
#[global] Instance eta_t : Eta t := fun b => mk (nodes_ b) (resources_ b) (paths_ b) (node_gen_ b).

Definition MakeBase (id : ResourceId) (gen : ResourceGeneration) (cls : ResourceClass.t) (node : NodeId)
    (provider : string) : Resource.t :=
  Resource.dflt
    <| Resource.id := id |> <| Resource.generation := gen |> <| Resource.resource_class := cls |>
    <| Resource.node_id := node |> <| Resource.provider := provider |>
    <| Resource.health := ResourceHealth.HEALTHY |> <| Resource.readiness := Readiness.READY |>
    <| Resource.reachability := Reachability.REACHABLE |>
    <| Resource.evidence := Evidence.mk (Id (wrap64 (Value id * 1000 + 1))) (Id 1) EvidenceSource.BACKEND
         EvidenceState.FRESH 1000 3600000 d1 (provider +:+ "/synthetic") "" true |>
    <| Resource.synthetic := true |>
    <| Resource.failure_domain := FailureDomain.mk (Id (wrap64 (Value node * 10 + 1))) FailureDomainType.HOST
         ("host-" +:+ ToString node) true ∅ |>.

Definition AddCap (kind : CapabilityKind.t) (state : CapabilityState.t) (detail : string) (r : Resource.t) : Resource.t :=
  r <| Resource.capabilities ::= fun cs =>
    cs ++ [Capability.mk kind state (Id 1) (Evidence.id (Resource.evidence r)) detail] |>.

Definition gib (n : Z) : double := double_of_Z (n * 2 ^ 30).
Definition supported (kind : CapabilityKind.t) (detail : string) : Resource.t -> Resource.t :=
  AddCap kind CapabilityState.SUPPORTED detail.

Definition cpu : Resource.t :=
  let r := MakeBase (Id 101) (Id 1) ResourceClass.COMPUTE (Id 1) "synthetic" in
  let r := r <| Resource.capacity ::= fun c => c <| Capacity.compute_units := double_of_Z 32 |>
               <| Capacity.host_memory_bytes := gib 64 |> <| Capacity.network_latency_us := d1 |> |> in
  supported CapabilityKind.PERSISTENT_STORAGE "" (supported CapabilityKind.COHERENT_MEMORY_ACCESS ""
    (supported CapabilityKind.HOST_MEMORY_ACCESS "" (supported CapabilityKind.CPU_EXECUTION "" r))).
Definition accelerator (id : ResourceId) (node : NodeId) : Resource.t :=
  let r := MakeBase id (Id 1) ResourceClass.ACCELERATOR node "synthetic" in
  let r := r <| Resource.capacity ::= fun c => c <| Capacity.compute_units := double_of_Z 40 |>
               <| Capacity.accelerator_memory_bytes := gib 24 |> |> in
  supported CapabilityKind.COMPUTE_PRECISION "fp64" (supported CapabilityKind.ARCH_GENERATION "12.0"
    (supported CapabilityKind.CUDA_EXECUTION "12.0" r)).
Definition gpu : Resource.t := accelerator (Id 102) (Id 1).
Definition gpu2 : Resource.t := accelerator (Id 106) (Id 4).
Definition hm : Resource.t :=
  let r := MakeBase (Id 107) (Id 1) ResourceClass.HOST_MEMORY (Id 1) "synthetic" in
  supported CapabilityKind.HOST_MEMORY_ACCESS ""
    (r <| Resource.capacity ::= fun c => c <| Capacity.host_memory_bytes := gib 64 |> |>).
Definition mem : Resource.t :=
  let r := MakeBase (Id 103) (Id 1) ResourceClass.EXPANDED_MEMORY (Id 2) "synthetic" in
  supported CapabilityKind.HOST_MEMORY_ACCESS "" (supported CapabilityKind.EXPANDED_MEMORY_ACCESS ""
    (r <| Resource.capacity ::= fun c => c <| Capacity.expanded_memory_bytes := gib 256 |> |>)).
Definition stor : Resource.t :=
  let r := MakeBase (Id 104) (Id 1) ResourceClass.STORAGE (Id 3) "synthetic" in
  supported CapabilityKind.PERSISTENT_STORAGE ""
    (r <| Resource.capacity ::= fun c => c <| Capacity.storage_bytes := gib 2048 |>
         <| Capacity.network_bandwidth_mbps := double_of_Z 50000 |> |>).
Definition nic : Resource.t :=
  let r := MakeBase (Id 105) (Id 1) ResourceClass.NETWORK_ENDPOINT (Id 3) "synthetic" in
  supported CapabilityKind.NETWORK_PROTOCOL "tcp" (supported CapabilityKind.DIRECT_NETWORK_ACCESS ""
    (r <| Resource.capacity ::= fun c => c <| Capacity.network_bandwidth_mbps := double_of_Z 100000 |> |>)).

Definition mk_node (ng : NodeGeneration) (id : NodeId) (fd : FailureDomainId) (host rack : string) : Node.t :=
  Node.dflt
    <| Node.id := id |> <| Node.generation := ng |> <| Node.hostname := host |> <| Node.provider := "synthetic" |>
    <| Node.backend := BackendKind.SYNTHETIC |> <| Node.health := ResourceHealth.HEALTHY |>
    <| Node.reachability := Reachability.REACHABLE |>
    <| Node.failure_domain := FailureDomain.mk fd FailureDomainType.HOST rack true ∅ |>
    <| Node.lifecycle := NodeLifecycle.VALIDATED |> <| Node.synthetic := true |>.

Definition addPath (f t : NodeId) (bw lat : Z) (m : gmap string PathState) : gmap string PathState :=
  let p := mkPathState true (double_of_Z bw) (double_of_Z lat) (Id 1) in
  <[PathKey t f := p]> (<[PathKey f t := p]> m).

Definition SyntheticBackend (ng : NodeGeneration) : t :=
  mk [mk_node ng (Id 1) (Id 1) "node-a" "rack-1"; mk_node ng (Id 2) (Id 2) "node-b" "rack-2";
      mk_node ng (Id 3) (Id 3) "node-c" "rack-3"; mk_node ng (Id 4) (Id 4) "node-d" "rack-4"]
     [cpu; gpu; hm; mem; stor; nic; gpu2]
     (addPath (Id 4) (Id 3) 50000 6 (addPath (Id 4) (Id 2) 100000 4 (addPath (Id 1) (Id 4) 100000 2
       (addPath (Id 2) (Id 3) 50000 8 (addPath (Id 1) (Id 3) 50000 5 (addPath (Id 1) (Id 2) 100000 3 ∅))))))
     ng.

Definition ResolvePath (b : t) (q : PathRequirement.t) : option PathEvidence.t :=
  match paths_ b !! PathKey (PathRequirement.from q) (PathRequirement.to q) with
  | None => None
  | Some p =>
      if negb (ps_available p) then None
      else
        let id := wrap64 (Value (PathRequirement.from q) * 100 + Value (PathRequirement.to q)) in
        Some (PathEvidence.mk (Id id) (ps_gen p) q true (ps_bw p) (ps_lat p) true "synthetic" "synthetic"
          (Evidence.mk (Id id) (Id 1) EvidenceSource.BACKEND EvidenceState.FRESH 1000 3600000 d1 "" "" true))
  end.

Definition as_backend (b : t) : Backend := mkBackend (nodes_ b) (resources_ b) (ResolvePath b).

(** ** Simulation controls *)
Definition on_resource (id : ResourceId) (f : Resource.t -> Resource.t) (b : t) : t :=
  b <| resources_ ::= fmap (fun r => if id_eqb (Resource.id r) id then f r else r) |>.
Definition set_state (st : EvidenceState.t) (r : Resource.t) : Resource.t :=
  r <| Resource.evidence ::= fun e => e <| Evidence.state := st |> |>.

Definition SetResourceHealth (id : ResourceId) (h : ResourceHealth.t) : t -> t :=
  on_resource id (fun r => set_state
    (if bool_decide (h = ResourceHealth.HEALTHY) then EvidenceState.FRESH else EvidenceState.REVALIDATION_REQUIRED)
    (r <| Resource.health := h |>)).
Definition SetResourceReachability (id : ResourceId) (rc : Reachability.t) : t -> t :=
  on_resource id (fun r => set_state
    (if bool_decide (rc = Reachability.REACHABLE) then EvidenceState.FRESH else EvidenceState.REVALIDATION_REQUIRED)
    (r <| Resource.reachability := rc |>)).
Definition SetResourceGeneration (id : ResourceId) (g : ResourceGeneration) : t -> t :=
  on_resource id (fun r =>
    r <| Resource.generation := g |>
      <| Resource.evidence ::= fun e => e <| Evidence.generation := Id (Value g) |>
           <| Evidence.state := EvidenceState.FRESH |> <| Evidence.timestamp_ms ::= fun n => wrap64 (n + 1) |> |>).
Definition SetResourceUnavailable (id : ResourceId) : t -> t :=
  on_resource id (fun r =>
    r <| Resource.health := ResourceHealth.OFFLINE |> <| Resource.reachability := Reachability.UNREACHABLE |>
      <| Resource.readiness := Readiness.NOT_READY |>
      <| Resource.evidence ::= fun e => e <| Evidence.state := EvidenceState.REVALIDATION_REQUIRED |>
           <| Evidence.durable := false |> |>).
Definition SetResourceBack (id : ResourceId) : t -> t :=
  on_resource id (fun r =>
    r <| Resource.health := ResourceHealth.HEALTHY |> <| Resource.reachability := Reachability.REACHABLE |>
      <| Resource.readiness := Readiness.READY |>
      <| Resource.evidence ::= fun e => e <| Evidence.state := EvidenceState.FRESH |>
           <| Evidence.max_age_ms := 3600000 |> <| Evidence.durable := true |> |>).
Definition SetNodeHealth (id : NodeId) (h : ResourceHealth.t) (b : t) : t :=
  b <| nodes_ ::= fmap (fun n => if id_eqb (Node.id n) id then n <| Node.health := h |> else n) |>.
Definition on_path (f t : NodeId) (g : PathState -> PathState) (b : Synthetic.t) : Synthetic.t :=
  b <| paths_ ::= alter (fun p => (g p) <| ps_gen := Next (ps_gen p) |>) (PathKey f t) |>.
Definition SetPathAvailable (f t : NodeId) (available : bool) : Synthetic.t -> Synthetic.t :=
  on_path f t (fun p => p <| ps_available := available |>).
Definition SetPathBandwidth (f t : NodeId) (mbps : double) : Synthetic.t -> Synthetic.t :=
  on_path f t (fun p => p <| ps_bw := mbps |>).
Definition SetPathLatency (f t : NodeId) (us : double) : Synthetic.t -> Synthetic.t :=
  on_path f t (fun p => p <| ps_lat := us |>).
Definition RemoveNode (id : NodeId) (b : t) : t :=
  b <| nodes_ ::= filter (fun n => Node.id n <> id) |>
    <| resources_ ::= fmap (fun r => if id_eqb (Resource.node_id r) id then
         r <| Resource.health := ResourceHealth.OFFLINE |> <| Resource.reachability := Reachability.UNREACHABLE |>
           <| Resource.evidence ::= fun e => e <| Evidence.state := EvidenceState.REVALIDATION_REQUIRED |> |>
         else r) |>.
Definition ReincarnateNode (id : NodeId) (gen : NodeGeneration) (boot : WorkerBootId) (b : t) : t :=
  b <| nodes_ ::= fmap (fun n => if id_eqb (Node.id n) id then
         n <| Node.generation := gen |> <| Node.worker_boot := boot |> <| Node.health := ResourceHealth.HEALTHY |> else n) |>
    <| resources_ ::= fmap (fun r => if id_eqb (Resource.node_id r) id then
         r <| Resource.generation := Id (Value gen) |> <| Resource.health := ResourceHealth.HEALTHY |>
           <| Resource.reachability := Reachability.REACHABLE |> <| Resource.readiness := Readiness.READY |>
           <| Resource.evidence ::= fun e => e <| Evidence.owner := ToString boot |>
                <| Evidence.state := EvidenceState.FRESH |> <| Evidence.durable := false |>
                <| Evidence.max_age_ms := 3600000 |> |>
         else r) |>.
Definition Describe (b : t) : string :=
  "synthetic nodes=" +:+ pretty (length (nodes_ b)) +:+ " resources=" +:+ pretty (length (resources_ b)).
Definition dump_node (n : Node.t) : string :=
  "node " +:+ ToString (Node.id n) +:+ " " +:+ Node.hostname n +:+ " gen=" +:+ ToString (Node.generation n) +:+ endl.
Definition dump_resource (r : Resource.t) : string :=
  "res " +:+ ToString (Resource.id r) +:+ " cls=" +:+ ResourceClass.ToString (Resource.resource_class r) +:+
  " gen=" +:+ ToString (Resource.generation r) +:+ " health=" +:+ ResourceHealth.ToString (Resource.health r) +:+ endl.
Definition Dump (b : t) : string :=
  fold_left (fun os r => os +:+ dump_resource r) (resources_ b)
    (fold_left (fun os n => os +:+ dump_node n) (nodes_ b) "").
End Synthetic.
