(* ===== verification/Lifecycle.v ===== *)
(** * Lifecycle and authority invariants of the engine

    The engine as a state machine: [op] lists the critical sections of the
    public API, [run] executes one, [reachable] closes over every sequence of
    them, so every interleaving of threads is a sequence here.  The theorems
    say which lifecycle transitions exist, when a composition can be ACTIVE,
    and what each invalidation event guarantees. *)

From S2P Require Import Prelude Enums Ids Double Model Planner Engine.

(** ** Operations *)
Inductive op :=
  | OAddBackend (b : option Backend)
  | OBackends (bs : list Backend)                (* backends change behind the engine *)
  | ODiscover
  | ORegisterNode (n : Node.t)
  | ORegisterResource (r : Resource.t)
  | OInvalidateNode (rid : ResourceId)
  | OWithdrawResource (rid : ResourceId)
  | OMarkEvidence (owner : WorkerBootId)
  | OAdvanceEpoch (next : CoordinatorEpoch)
  | OCompose (req : CompositionRequest.t)
  | OReserve (plan : CompositionPlan.t)
  | OCommit (resv : Reservation.t)
  | OActivate (id : CompositionId)
  | OResourceUpdate (r : Resource.t)
  | ONodeUpdate (n : Node.t)
  | OPolicyUpdate (p : PolicyId) (g : PolicyGeneration)
  | OPathUpdate (pe : PathEvidence.t)
  | OResourceFailure (rid : ResourceId)
  | OBeginDrain (id : CompositionId)
  | OEndDrain (id : CompositionId)
  | ORelease (id : CompositionId)
  | ORecomputeRelease (id : CompositionId)
  | OLoad (d : DurableState.t).

Definition run (o : op) (s : Impl.t) : Impl.t :=
  match o with
  | OAddBackend b => AddBackend b s
  | OBackends bs => s <| Impl.backends := bs |>
  | ODiscover => (Discover s).2
  | ORegisterNode n => (RegisterNode n s).2
  | ORegisterResource r => (RegisterResource r s).2
  | OInvalidateNode rid => InvalidateNode rid s
  | OWithdrawResource rid => WithdrawResource rid s
  | OMarkEvidence owner => MarkEvidenceRevalidationRequired owner s
  | OAdvanceEpoch next => AdvanceEpoch next s
  | OCompose req => (Compose req s).2
  | OReserve plan => (Reserve plan s).2
  | OCommit resv => (Commit resv s).2
  | OActivate id => (Activate id s).2
  | OResourceUpdate r => OnResourceUpdate r s
  | ONodeUpdate n => OnNodeUpdate n s
  | OPolicyUpdate p g => OnPolicyUpdate p g s
  | OPathUpdate pe => OnPathUpdate pe s
  | OResourceFailure rid => OnResourceFailure rid s
  | OBeginDrain id => (BeginDrain id s).2
  | OEndDrain id => (EndDrain id s).2
  | ORelease id => (Release id s).2
  | ORecomputeRelease id => recompute_release id s
  | OLoad d => LoadState d s
  end.

Definition run_all (os : list op) (s : Impl.t) : Impl.t := fold_left (fun s o => run o s) os s.

Inductive reachable (cfg : EngineConfig.t) : Impl.t -> Prop :=
  | reachable_init : reachable cfg (FabricEngine cfg)
  | reachable_step s o : reachable cfg s -> reachable cfg (run o s).

(** ** The lifecycle graph *)
Inductive lc_step : CompositionLifecycle.t -> CompositionLifecycle.t -> Prop :=
  | lc_refl a : lc_step a a
  | lc_commit : lc_step CompositionLifecycle.RESERVED CompositionLifecycle.COMMITTED
  | lc_reserved_stale : lc_step CompositionLifecycle.RESERVED CompositionLifecycle.REVALIDATION_REQUIRED
  | lc_activate : lc_step CompositionLifecycle.COMMITTED CompositionLifecycle.ACTIVE
  | lc_committed_stale : lc_step CompositionLifecycle.COMMITTED CompositionLifecycle.REVALIDATION_REQUIRED
  | lc_active_stale : lc_step CompositionLifecycle.ACTIVE CompositionLifecycle.REVALIDATION_REQUIRED
  | lc_active_recompose : lc_step CompositionLifecycle.ACTIVE CompositionLifecycle.RECOMPOSITION_REQUIRED
  | lc_drain a :
      a ∈ [CompositionLifecycle.ACTIVE; CompositionLifecycle.COMMITTED; CompositionLifecycle.DEGRADED] ->
      lc_step a CompositionLifecycle.DRAINING
  | lc_release a : lc_step a CompositionLifecycle.RELEASED.
#[export] Hint Constructors lc_step : fabric.

(** The part of the graph that invalidation events use; unlike the whole, it is
    transitive, so a sequence of invalidations is one transition. *)
Inductive stale_step : CompositionLifecycle.t -> CompositionLifecycle.t -> Prop :=
  | stale_refl a : stale_step a a
  | stale_reserved : stale_step CompositionLifecycle.RESERVED CompositionLifecycle.REVALIDATION_REQUIRED
  | stale_committed : stale_step CompositionLifecycle.COMMITTED CompositionLifecycle.REVALIDATION_REQUIRED
  | stale_active : stale_step CompositionLifecycle.ACTIVE CompositionLifecycle.REVALIDATION_REQUIRED
  | stale_recompose : stale_step CompositionLifecycle.ACTIVE CompositionLifecycle.RECOMPOSITION_REQUIRED.
#[export] Hint Constructors stale_step : fabric.

(** What no operation on an existing composition changes. *)
Definition same_identity (c c' : Composition.t) : Prop :=
  Composition.id c' = Composition.id c /\
  Composition.generation c' = Composition.generation c /\
  Composition.graph c' = Composition.graph c /\
  Composition.request c' = Composition.request c /\
  Composition.authority c' = Composition.authority c /\
  Composition.reservation c' = Composition.reservation c /\
  Composition.paths c' = Composition.paths c.

Definition evolves (c c' : Composition.t) : Prop :=
  same_identity c c' /\ lc_step (Composition.lifecycle c) (Composition.lifecycle c').

Definition goes_stale (c c' : Composition.t) : Prop :=
  same_identity c c' /\ stale_step (Composition.lifecycle c) (Composition.lifecycle c').

(** The compositions of [m'] are those of [m], each in relation [R]. *)
Definition comps_rel (R : Composition.t -> Composition.t -> Prop) (m m' : gmap CompositionId Composition.t) : Prop :=
  forall id, match m !! id, m' !! id with
  | Some c, Some c' => R c c'
  | None, None => True
  | _, _ => False
  end.

Ltac lc_cases :=
  repeat match goal with
  | H : lifecycle_is _ _ = true |- _ => apply bool_decide_eq_true_1 in H
  | H : lifecycle_is _ _ = false |- _ => apply bool_decide_eq_false_1 in H
  | H : (_ || _)%bool = true |- _ => apply orb_true_iff in H as [H|H]
  | H : (_ || _)%bool = false |- _ => apply orb_false_iff in H as [? H]
  | H : (_ && _)%bool = true |- _ => apply andb_true_iff in H as [? H]
  | H : negb _ = true |- _ => apply negb_true_iff in H
  | H : negb _ = false |- _ => apply negb_false_iff in H
  end.

Lemma goes_stale_refl c : goes_stale c c.
Proof. split; [done|constructor]. Qed.
Lemma stale_trans a b c : stale_step a b -> stale_step b c -> stale_step a c.
Proof. intros []; [done| | | |]; inversion 1; constructor. Qed.
Lemma goes_stale_trans a b c : goes_stale a b -> goes_stale b c -> goes_stale a c.
Proof.
  intros [Hi Hs] [Hi' Hs']. split; [unfold same_identity in *; intuition congruence|].
  by eapply stale_trans.
Qed.
Lemma stale_lc a b : stale_step a b -> lc_step a b.
Proof. intros []; auto with fabric. Qed.
Lemma goes_stale_evolves c c' : goes_stale c c' -> evolves c c'.
Proof. intros [? ?%stale_lc]. by split. Qed.
Lemma evolves_refl c : evolves c c.
Proof. apply goes_stale_evolves, goes_stale_refl. Qed.
#[export] Hint Resolve evolves_refl goes_stale_refl goes_stale_evolves : fabric.

Section comps_rel.
Context (R : Composition.t -> Composition.t -> Prop).

Lemma comps_rel_refl m : (forall c, R c c) -> comps_rel R m m.
Proof. intros HR id. by destruct (m !! id). Qed.
Lemma comps_rel_trans m1 m2 m3 :
  (forall a b c, R a b -> R b c -> R a c) -> comps_rel R m1 m2 -> comps_rel R m2 m3 -> comps_rel R m1 m3.
Proof. intros HR H1 H2 id. specialize (H1 id). specialize (H2 id). repeat case_match; naive_solver. Qed.
Lemma comps_rel_mono (R' : Composition.t -> Composition.t -> Prop) m m' :
  (forall a b, R a b -> R' a b) -> comps_rel R m m' -> comps_rel R' m m'.
Proof. intros HR H id. specialize (H id). repeat case_match; auto. Qed.
Lemma comps_rel_fmap f m : (forall c, R c (f c)) -> comps_rel R m (f <$> m).
Proof. intros Hf id. rewrite lookup_fmap. by destruct (m !! id); cbn. Qed.
Lemma comps_rel_insert id c c' m :
  (forall c, R c c) -> m !! id = Some c -> R c c' -> comps_rel R m (<[id := c']> m).
Proof.
  intros HR Hid Hc j. rewrite lookup_insert. case_decide; subst; [by rewrite Hid|].
  by destruct (m !! j).
Qed.
Lemma comps_rel_back m m' id c' :
  comps_rel R m m' -> m' !! id = Some c' -> exists c, m !! id = Some c /\ R c c'.
Proof. intros H Hc. specialize (H id). rewrite Hc in H. destruct (m !! id); [eauto|done]. Qed.
End comps_rel.
#[export] Hint Resolve comps_rel_refl : fabric.

(** Each per-composition update of an invalidation event, one tactic. *)
Ltac solve_stale :=
  intros ?c; unfold invalidate_on_generation; repeat case_match; lc_cases;
  try apply goes_stale_refl; (split; [done|]); cbn;
  repeat match goal with H : Composition.lifecycle _ = _ |- _ => rewrite H end; constructor.

Lemma invalidate_stale c : goes_stale c (invalidate_on_generation c).
Proof. revert c. solve_stale. Qed.

Lemma IngestNode_stale n s :
  comps_rel goes_stale (Impl.compositions s) (Impl.compositions (IngestNodeLocked n s)).
Proof.
  unfold IngestNodeLocked. repeat case_match; cbn; auto with fabric;
    by apply comps_rel_fmap, invalidate_stale.
Qed.
Lemma IngestResource_stale r s :
  comps_rel goes_stale (Impl.compositions s) (Impl.compositions (IngestResourceLocked r s)).
Proof.
  unfold IngestResourceLocked. repeat case_match; cbn; auto with fabric;
    apply comps_rel_fmap; intros c; case_match; auto using invalidate_stale with fabric.
Qed.

Lemma fold_stale {A : Type} (f : Impl.t -> A -> Impl.t) l s :
  (forall s x, comps_rel goes_stale (Impl.compositions s) (Impl.compositions (f s x))) ->
  comps_rel goes_stale (Impl.compositions s) (Impl.compositions (fold_left f l s)).
Proof.
  intros Hf. revert s. induction l as [|x l IH]; intros s; cbn; [auto with fabric|].
  eapply comps_rel_trans; [exact goes_stale_trans|apply Hf|apply IH].
Qed.

(** [Discover] is a fold of ingestions followed by a path refresh; [P] is any
    reflexive and transitive relation that every ingestion respects. *)
Section discover_ind.
Context (P : Impl.t -> Impl.t -> Prop) (P_refl : forall s, P s s) (P_trans : forall a b c, P a b -> P b c -> P a c).
Context (P_node : forall n s, P s (IngestNodeLocked n s)) (P_res : forall r s, P s (IngestResourceLocked r s)).
Context (P_paths : forall ids s, P s (discover_paths ids s)).

Lemma discover_resource_ind r acc : P acc.1 (discover_resource acc r).1.
Proof. destruct acc as [s out]. cbn. apply P_res. Qed.
Lemma fold_discover_resource_ind l acc : P acc.1 (fold_left discover_resource l acc).1.
Proof.
  revert acc. induction l as [|r l IH]; intros acc; cbn; [done|].
  eapply P_trans; [apply (discover_resource_ind r)|apply IH].
Qed.
Lemma fold_ingest_node_ind l s : P s (fold_left (fun s n => IngestNodeLocked n s) l s).
Proof. revert s. induction l as [|n l IH]; intros s; cbn; eauto. Qed.
Lemma discover_backend_ind b acc : P acc.1 (discover_backend acc b).1.
Proof.
  destruct acc as [s out]. cbn.
  pose proof (fold_discover_resource_ind (DiscoverResources b)
    (fold_left (fun s n => IngestNodeLocked n s) (DiscoverNodes b) s, [])) as H.
  destruct (fold_left discover_resource _ _) as [s' rs]. cbn in *.
  eapply P_trans; [apply fold_ingest_node_ind|apply H].
Qed.
Lemma Discover_ind s : P s (Discover s).2.
Proof.
  unfold Discover.
  assert (H : forall bs acc, P acc.1 (fold_left discover_backend bs acc).1).
  { induction bs as [|b bs IH]; intros acc; cbn; [done|].
    eapply P_trans; [apply (discover_backend_ind b)|apply IH]. }
  specialize (H (Impl.backends s) (s, mkDiscoveryResult [] [])).
  destruct (fold_left _ _ _) as [s' out]. cbn in *. eauto.
Qed.
End discover_ind.

Lemma Discover_stale s : comps_rel goes_stale (Impl.compositions s) (Impl.compositions (Discover s).2).
Proof.
  apply (Discover_ind (fun s s' => comps_rel goes_stale (Impl.compositions s) (Impl.compositions s')));
    intros; cbn; auto using IngestNode_stale, IngestResource_stale with fabric.
  eapply comps_rel_trans; [exact goes_stale_trans|done..].
Qed.

(** ** Which operations touch which part of the state *)
Lemma release_reservation_frame rid s :
  Impl.config (release_reservation rid s) = Impl.config s /\
  Impl.resources (release_reservation rid s) = Impl.resources s /\
  Impl.compositions (release_reservation rid s) = Impl.compositions s /\
  Impl.fenced (release_reservation rid s) = Impl.fenced s.
Proof. unfold release_reservation. by case_match. Qed.

Lemma Compose_frame req s :
  let s' := (Compose req s).2 in
  s' = s <| Impl.paths := Impl.paths s' |> <| Impl.next_comp := Impl.next_comp s' |>.
Proof.
  unfold Compose, ComposeDeterministic, ComposeOrdered. cbv zeta.
  destruct (build_selections _ _ _) as [note|[|sel sels]]; [by destruct s..|].
  destruct (product _ _) as [combos|]; [|by destruct s].
  destruct (fold_left _ _ _) as [paths [plan|]]; by destruct s.
Qed.

(** ** Revalidation *)

(** The authority a composition needs: its epoch is current and each vertex is
    registered with the generation the authority tuple records for it. *)
Definition auth_ok (rs : gmap ResourceId Resource.t) (ep : CoordinatorEpoch) (c : Composition.t) : Prop :=
  AuthorityTuple.coordinator_epoch (Composition.authority c) = ep /\
  forall i rid, ResourceGraph.vertices (Composition.graph c) !! i = Some rid ->
    exists r, rs !! rid = Some r /\
      forall g, AuthorityTuple.resource_generations (Composition.authority c) !! i = Some g ->
        g = Resource.generation r.

(** Every vertex has current evidence. *)
Definition evidence_ok (rs : gmap ResourceId Resource.t) (c : Composition.t) : Prop :=
  forall rid, rid ∈ ResourceGraph.vertices (Composition.graph c) ->
    exists r, rs !! rid = Some r /\ IsCurrent (Resource.evidence r) = true.

Lemma RevalidateVertices_None vs gens rs :
  RevalidateVertices vs gens rs = None <->
  forall i rid, vs !! i = Some rid -> exists r, rs !! rid = Some r /\ IsValid (Resource.id r) = true /\
    (forall g, gens !! i = Some g -> g = Resource.generation r) /\ IsCurrent (Resource.evidence r) = true.
Proof.
  revert gens. induction vs as [|v vs IH]; intros gens; cbn; [done|].
  assert (Htl : forall i, tail gens !! i = gens !! S i) by (by destruct gens).
  split.
  - destruct (rs !! v) as [r|] eqn:Hr; [|done].
    destruct (IsValid (Resource.id r)) eqn:Hv; [cbn|done].
    destruct (match head gens with Some g => _ | None => _ end) eqn:Hg; [done|].
    destruct (IsCurrent (Resource.evidence r)) eqn:Hc; [cbn|done].
    rewrite IH. intros Hall [|i] rid Hi; cbn in Hi.
    + injection Hi as <-. exists r. repeat split; try done. intros g Hg'.
      destruct gens; [done|]. cbn in Hg, Hg'. injection Hg' as ->. by apply negb_false_iff, id_eqb_eq in Hg.
    + destruct (Hall i rid Hi) as (r' & ? & ? & Hgen & ?). exists r'. rewrite <-Htl. auto.
  - intros Hall. destruct (Hall 0%nat v eq_refl) as (r & -> & -> & Hg & ->). cbn.
    destruct (match head gens with Some g => _ | None => _ end) eqn:Hh.
    + destruct gens as [|g gens]; [done|]. cbn in Hh. rewrite (Hg g eq_refl), id_eqb_refl in Hh. done.
    + apply IH. intros i rid Hi. destruct (Hall (S i) rid Hi) as (r' & ? & ? & Hgen & ?).
      exists r'. rewrite Htl. auto.
Qed.

Lemma RevalidationHolds_ok c rs ep :
  RevalidationHolds c rs ep = None -> auth_ok rs ep c /\ evidence_ok rs c.
Proof.
  unfold RevalidationHolds. destruct (id_eqb _ ep) eqn:E; [cbn|done].
  apply id_eqb_eq in E. rewrite RevalidateVertices_None. intros H. split; [split; [done|]|].
  - intros i rid Hi. destruct (H i rid Hi) as (r & ? & _ & ? & _). eauto.
  - intros rid [i Hi]%list_elem_of_lookup. destruct (H i rid Hi) as (r & ? & _ & _ & ?). eauto.
Qed.

(** ** Every operation moves compositions along the lifecycle graph *)

(** Operations that only invalidate. *)
Definition invalidating (o : op) : bool :=
  match o with
  | OReserve _ | OCommit _ | OActivate _ | OBeginDrain _ | OEndDrain _ | ORelease _ | ORecomputeRelease _ | OLoad _ => false
  | _ => true
  end.

Lemma run_stale o s :
  invalidating o = true -> comps_rel goes_stale (Impl.compositions s) (Impl.compositions (run o s)).
Proof.
  destruct o; try done; intros _; cbn [run].
  - by destruct b; cbn; auto with fabric.
  - cbn. auto with fabric.
  - apply Discover_stale.
  - unfold RegisterNode. case_match; cbn; auto using IngestNode_stale with fabric.
  - unfold RegisterResource. case_match; cbn; auto using IngestResource_stale with fabric.
  - cbn. auto with fabric.
  - unfold WithdrawResource. case_match; cbn; auto with fabric. apply comps_rel_fmap. solve_stale.
  - apply comps_rel_fmap. solve_stale.
  - unfold AdvanceEpoch. case_match; cbn; auto with fabric. apply comps_rel_fmap. solve_stale.
  - rewrite Compose_frame. cbn. auto with fabric.
  - apply IngestResource_stale.
  - apply IngestNode_stale.
  - apply comps_rel_fmap. solve_stale.
  - apply comps_rel_fmap. solve_stale.
  - apply comps_rel_fmap. solve_stale.
Qed.

Lemma evolves_to c lc : lc_step (Composition.lifecycle c) lc -> evolves c (with_lifecycle lc c).
Proof. by split. Qed.

Lemma Commit_evolves resv s : comps_rel evolves (Impl.compositions s) (Impl.compositions (Commit resv s).2).
Proof.
  unfold Commit. destruct (Impl.reservations s !! _) as [r|]; cbn; auto with fabric.
  destruct (negb _); cbn; auto with fabric.
  destruct (Impl.compositions s !! _) as [c|] eqn:Hc; cbn; auto with fabric.
  destruct (negb (lifecycle_is _ c)) eqn:Hl; cbn; auto with fabric.
  lc_cases. destruct (commit_loop _ _ _ _) as [m [reason|]]; cbn;
    (eapply comps_rel_insert; [apply evolves_refl|done|]); split; try done; cbn; rewrite Hl; auto with fabric.
Qed.

Lemma Activate_evolves id s : comps_rel evolves (Impl.compositions s) (Impl.compositions (Activate id s).2).
Proof.
  unfold Activate. destruct (Impl.compositions s !! id) as [c|] eqn:Hc; cbn; auto with fabric.
  destruct (negb (lifecycle_is _ c)) eqn:Hl; cbn; auto with fabric.
  destruct (bool_decide _); cbn; auto with fabric. lc_cases.
  destruct (RevalidationHolds _ _ _) as [[reason note]|]; cbn;
    (eapply comps_rel_insert; [apply evolves_refl|done|]); split; try done; cbn; rewrite Hl; auto with fabric.
Qed.

(** A composition already known to the engine moves along the lifecycle graph
    and keeps its identity, members, authority and reservation; only a
    reservation that reuses its id or a load replaces it. *)
Lemma run_evolves o s :
  (forall plan, o <> OReserve plan) -> (forall d, o <> OLoad d) ->
  comps_rel evolves (Impl.compositions s) (Impl.compositions (run o s)).
Proof.
  intros Hnr Hnl. destruct (invalidating o) eqn:Hinv.
  { eapply comps_rel_mono; [exact goes_stale_evolves|by apply run_stale]. }
  destruct o; try done; cbn [run]; try by edestruct Hnr.
  - apply Commit_evolves.
  - apply Activate_evolves.
  - unfold BeginDrain. destruct (Impl.compositions s !! id) as [c|] eqn:Hc; cbn; auto with fabric.
    case_match; cbn; auto with fabric. eapply comps_rel_insert; [apply evolves_refl|done|].
    apply evolves_to, lc_drain. lc_cases; set_solver.
  - unfold EndDrain. destruct (Impl.compositions s !! id) as [c|] eqn:Hc; cbn; auto with fabric.
    destruct (release_reservation_frame (Composition.reservation c) s) as (_ & _ & Hr & _).
    case_match; cbn; auto with fabric. rewrite Hr.
    eapply comps_rel_insert; [apply evolves_refl|done|]. apply evolves_to. constructor.
  - unfold Release. destruct (Impl.compositions s !! id) as [c|] eqn:Hc; cbn; auto with fabric.
    destruct (release_reservation_frame (Composition.reservation c) s) as (_ & _ & Hr & _).
    case_match; cbn; auto with fabric. rewrite Hr.
    eapply comps_rel_insert; [apply evolves_refl|done|]. apply evolves_to. constructor.
  - unfold recompute_release. destruct (Impl.compositions s !! id) as [c|] eqn:Hc; cbn; auto with fabric.
    destruct (release_reservation_frame (Composition.reservation c) s) as (_ & _ & Hr & _).
    rewrite Hr. eapply comps_rel_insert; [apply evolves_refl|done|]. apply evolves_to. constructor.
  - by edestruct Hnl.
Qed.

Lemma Reserve_comps plan s id c' :
  Impl.compositions (Reserve plan s).2 !! id = Some c' ->
  Impl.compositions s !! id = Some c' \/
  (id = CompositionPlan.id plan /\ Composition.id c' = id /\ Composition.lifecycle c' = CompositionLifecycle.RESERVED).
Proof.
  unfold Reserve. destruct (negb _); [by left|]. destruct (negb _); [by left|].
  destruct (reserve_loop _ _ _ _ _) as [[m items] [[reason note]|]]; cbn; [by left|].
  rewrite lookup_insert. case_decide; [|by left]. intros [= <-]. by right.
Qed.

(** Operations leave the registered resources' identity and generation alone,
    except ingestion of a new generation and a load. *)
Definition gen_kept (rs rs' : gmap ResourceId Resource.t) (rid : ResourceId) : Prop :=
  forall r, rs !! rid = Some r -> exists r', rs' !! rid = Some r' /\ Resource.generation r' = Resource.generation r.

Lemma gen_kept_refl rs rid : gen_kept rs rs rid.
Proof. intros r ?. eauto. Qed.
Lemma gen_kept_fmap f rs rid :
  (forall r, Resource.generation (f r) = Resource.generation r) -> gen_kept rs (f <$> rs) rid.
Proof. intros Hf r Hr. exists (f r). by rewrite lookup_fmap, Hr. Qed.
Lemma gen_kept_alter f i rs rid :
  (forall r, Resource.generation (f r) = Resource.generation r) -> gen_kept rs (alter f i rs) rid.
Proof.
  intros Hf r Hr. rewrite lookup_alter. case_decide; subst; [|eauto].
  exists (f r). by rewrite Hr.
Qed.
#[export] Hint Resolve gen_kept_refl gen_kept_fmap gen_kept_alter : fabric.

Lemma auth_ok_kept rs rs' ep c :
  (forall rid, rid ∈ ResourceGraph.vertices (Composition.graph c) -> gen_kept rs rs' rid) ->
  auth_ok rs ep c -> auth_ok rs' ep c.
Proof.
  intros Hk [He Hv]. split; [done|]. intros i rid Hi.
  destruct (Hv i rid Hi) as (r & Hr & Hg). destruct (Hk rid) with r as (r' & Hr' & Hgen); [|done|].
  - by eapply list_elem_of_lookup_2.
  - exists r'. rewrite Hgen. auto.
Qed.

Lemma auth_ok_identity rs ep c c' : same_identity c c' -> auth_ok rs ep c -> auth_ok rs ep c'.
Proof. intros (_ & _ & Hg & _ & Ha & _) [He Hv]. unfold auth_ok. by rewrite Hg, Ha. Qed.

Lemma lc_step_to_active a :
  lc_step a CompositionLifecycle.ACTIVE -> a = CompositionLifecycle.ACTIVE \/ a = CompositionLifecycle.COMMITTED.
Proof. inversion 1; auto. Qed.
Lemma stale_step_to_active a : stale_step a CompositionLifecycle.ACTIVE -> a = CompositionLifecycle.ACTIVE.
Proof. by inversion 1. Qed.

(** ** The invariant *)
Record Inv (s : Impl.t) : Prop := {
  inv_resource_keys : forall rid r, Impl.resources s !! rid = Some r -> Resource.id r = rid;
  inv_composition_keys : forall id c, Impl.compositions s !! id = Some c -> Composition.id c = id;
  inv_active : forall id c, Impl.compositions s !! id = Some c ->
    Composition.lifecycle c = CompositionLifecycle.ACTIVE -> auth_ok (Impl.resources s) (epoch s) c;
  inv_fenced : forall id c, Impl.compositions s !! id = Some c -> id ∈ Impl.fenced s ->
    Composition.lifecycle c <> CompositionLifecycle.ACTIVE;
}.

Definition keys_ok (rs : gmap ResourceId Resource.t) : Prop := forall rid r, rs !! rid = Some r -> Resource.id r = rid.

Lemma Inv_keys s : Inv s -> keys_ok (Impl.resources s).
Proof. intros []. done. Qed.
Lemma keys_ok_fmap f rs : (forall r, Resource.id (f r) = Resource.id r) -> keys_ok rs -> keys_ok (f <$> rs).
Proof. intros Hf Hk rid r. rewrite lookup_fmap, fmap_Some. intros (r0 & Hr & ->). rewrite Hf. auto. Qed.
Lemma keys_ok_alter f i rs : (forall r, Resource.id (f r) = Resource.id r) -> keys_ok rs -> keys_ok (alter f i rs).
Proof.
  intros Hf Hk rid r. rewrite lookup_alter. case_decide; [|apply Hk]. subst.
  rewrite fmap_Some. intros (r0 & Hr & ->). rewrite Hf. auto.
Qed.
Lemma keys_ok_insert rid r rs : Resource.id r = rid -> keys_ok rs -> keys_ok (<[rid := r]> rs).
Proof. intros <- Hk rid' r'. rewrite lookup_insert. case_decide; [congruence|apply Hk]. Qed.
#[export] Hint Resolve keys_ok_fmap keys_ok_alter keys_ok_insert : fabric.

(** One rule covers every operation that keeps the epoch: compositions evolve,
    generations of the members of ACTIVE compositions are kept, a composition
    that becomes ACTIVE is authorised and not fenced, and nothing ACTIVE is
    newly fenced. *)
Lemma Inv_step s s' :
  Inv s ->
  keys_ok (Impl.resources s') ->
  comps_rel evolves (Impl.compositions s) (Impl.compositions s') ->
  epoch s' = epoch s ->
  (forall id c', Impl.compositions s' !! id = Some c' -> Composition.lifecycle c' = CompositionLifecycle.ACTIVE ->
    forall rid, rid ∈ ResourceGraph.vertices (Composition.graph c') -> gen_kept (Impl.resources s) (Impl.resources s') rid) ->
  (forall id c c', Impl.compositions s !! id = Some c -> Impl.compositions s' !! id = Some c' ->
    Composition.lifecycle c' = CompositionLifecycle.ACTIVE -> Composition.lifecycle c <> CompositionLifecycle.ACTIVE ->
    auth_ok (Impl.resources s) (epoch s) c /\ id ∉ Impl.fenced s) ->
  (forall id c', Impl.compositions s' !! id = Some c' -> Composition.lifecycle c' = CompositionLifecycle.ACTIVE ->
    id ∈ Impl.fenced s' -> id ∈ Impl.fenced s) ->
  Inv s'.
Proof.
  intros HI Hk Hev Hep Hgen Hnew Hf.
  assert (Hback : forall id c', Impl.compositions s' !! id = Some c' ->
    exists c, Impl.compositions s !! id = Some c /\ evolves c c') by (intros; by eapply comps_rel_back).
  split; [done| | |].
  - intros id c' Hc'. destruct (Hback _ _ Hc') as (c & Hc & (Hid & _) & _). rewrite Hid. by eapply inv_composition_keys.
  - intros id c' Hc' Ha. destruct (Hback _ _ Hc') as (c & Hc & Hsame & _).
    rewrite Hep. eapply auth_ok_kept; [eauto|]. eapply auth_ok_identity; [done|].
    destruct (decide (Composition.lifecycle c = CompositionLifecycle.ACTIVE)); [by eapply inv_active|].
    by eapply Hnew.
  - intros id c' Hc' Hfen Ha. destruct (Hback _ _ Hc') as (c & Hc & Hsame & _).
    specialize (Hf _ _ Hc' Ha Hfen).
    destruct (decide (Composition.lifecycle c = CompositionLifecycle.ACTIVE)); [by eapply inv_fenced|].
    by edestruct Hnew.
Qed.

(** Instance for invalidating operations. *)
Lemma Inv_stale s s' :
  Inv s ->
  keys_ok (Impl.resources s') ->
  comps_rel goes_stale (Impl.compositions s) (Impl.compositions s') ->
  epoch s' = epoch s -> Impl.fenced s' = Impl.fenced s ->
  (forall id c', Impl.compositions s' !! id = Some c' -> Composition.lifecycle c' = CompositionLifecycle.ACTIVE ->
    forall rid, rid ∈ ResourceGraph.vertices (Composition.graph c') -> gen_kept (Impl.resources s) (Impl.resources s') rid) ->
  Inv s'.
Proof.
  intros HI Hk Hst Hep Hf Hgen. eapply Inv_step; eauto.
  - eapply comps_rel_mono; [exact goes_stale_evolves|done].
  - intros id c c' Hc Hc' Ha Hna. specialize (Hst id). rewrite Hc, Hc' in Hst.
    destruct Hst as [_ Hst]. rewrite Ha in Hst. by apply stale_step_to_active in Hst.
  - intros. by rewrite <-Hf.
Qed.

Lemma is_member_spec rid c : is_member rid c = true <-> rid ∈ ResourceGraph.vertices (Composition.graph c).
Proof.
  unfold is_member. rewrite existsb_exists. split.
  - intros (x & Hx%list_elem_of_In & ->%id_eqb_eq). done.
  - intros Hin. exists rid. by rewrite id_eqb_refl, <-list_elem_of_In.
Qed.

Lemma invalidate_not_active c : Composition.lifecycle (invalidate_on_generation c) <> CompositionLifecycle.ACTIVE.
Proof. unfold invalidate_on_generation. repeat case_match; lc_cases; cbn; congruence. Qed.

(** A new generation of a resource leaves no ACTIVE composition on it. *)
Lemma IngestResource_gen r s id c' :
  Impl.compositions (IngestResourceLocked r s) !! id = Some c' ->
  Composition.lifecycle c' = CompositionLifecycle.ACTIVE ->
  forall rid, rid ∈ ResourceGraph.vertices (Composition.graph c') ->
  gen_kept (Impl.resources s) (Impl.resources (IngestResourceLocked r s)) rid.
Proof.
  unfold IngestResourceLocked. destruct (negb _); [auto with fabric|].
  intros Hc Ha rid Hin old Hold. cbn in Hc |- *.
  assert (Himpl : forall b : bool, Impl.resources (if b then s <| Impl.compositions ::= fmap (fun c =>
    if is_member (Resource.id r) c then invalidate_on_generation c else c) |> else s) = Impl.resources s)
    by (by intros []).
  rewrite Himpl, lookup_insert. case_decide as Heq; [|eauto]. exists r. split; [done|]. subst rid.
  rewrite Hold in Hc. destruct (id_eqb _ _) eqn:Hg; [by apply id_eqb_eq in Hg|exfalso].
  cbn in Hc. rewrite lookup_fmap, fmap_Some in Hc. destruct Hc as (c & Hc & ->).
  destruct (is_member (Resource.id r) c) eqn:Hm.
  - by apply invalidate_not_active in Ha.
  - apply is_member_spec in Hin. congruence.
Qed.

Lemma IngestResource_frame r s :
  epoch (IngestResourceLocked r s) = epoch s /\ Impl.fenced (IngestResourceLocked r s) = Impl.fenced s.
Proof. unfold IngestResourceLocked. by repeat case_match. Qed.
Lemma IngestNode_frame n s :
  epoch (IngestNodeLocked n s) = epoch s /\ Impl.fenced (IngestNodeLocked n s) = Impl.fenced s /\
  Impl.resources (IngestNodeLocked n s) = Impl.resources s.
Proof. unfold IngestNodeLocked. by repeat case_match. Qed.

Lemma Inv_IngestResource r s : Inv s -> Inv (IngestResourceLocked r s).
Proof.
  intros HI. destruct (IngestResource_frame r s) as [He Hf].
  apply (Inv_stale s); auto using IngestResource_stale.
  - unfold IngestResourceLocked. repeat case_match; cbn; try apply keys_ok_insert; try done; exact (inv_resource_keys _ HI).
  - intros id c' Hc' Ha. by eapply IngestResource_gen.
Qed.

Lemma Inv_IngestNode n s : Inv s -> Inv (IngestNodeLocked n s).
Proof.
  intros HI. destruct (IngestNode_frame n s) as (He & Hf & Hr).
  apply (Inv_stale s); auto using IngestNode_stale; rewrite Hr; auto with fabric.
  exact (inv_resource_keys _ HI).
Qed.

Lemma Inv_same s s' :
  Inv s -> Impl.resources s' = Impl.resources s -> Impl.compositions s' = Impl.compositions s ->
  epoch s' = epoch s -> Impl.fenced s' = Impl.fenced s -> Inv s'.
Proof. intros [] Hr Hc He Hf. split; rewrite ?Hr, ?Hc, ?He, ?Hf; auto. Qed.

Lemma Inv_Discover s : Inv s -> Inv (Discover s).2.
Proof.
  apply (Discover_ind (fun s s' => Inv s -> Inv s')); auto using Inv_IngestNode, Inv_IngestResource.
  intros ids s0 HI. by apply (Inv_same s0).
Qed.

(** Re-establishing the invariant when nothing is ACTIVE. *)
Lemma Inv_none_active s :
  keys_ok (Impl.resources s) ->
  (forall id c, Impl.compositions s !! id = Some c -> Composition.id c = id) ->
  (forall id c, Impl.compositions s !! id = Some c -> Composition.lifecycle c <> CompositionLifecycle.ACTIVE) ->
  Inv s.
Proof. intros Hk Hc Hn. split; [done|done|intros id c Hid Ha; by destruct (Hn id c)|eauto]. Qed.

Lemma insert_all_lookup {Tag : Set} {A : Type} (key : A -> StrongId Tag) l k x :
  insert_all key l !! k = Some x -> x ∈ l /\ key x = k.
Proof.
  unfold insert_all.
  assert (Hgen : forall (l' : list A) (m : gmap (StrongId Tag) A),
    (forall k x, m !! k = Some x -> x ∈ l /\ key x = k) -> (forall y, y ∈ l' -> y ∈ l) ->
    fold_left (fun m x => <[key x := x]> m) l' m !! k = Some x -> x ∈ l /\ key x = k).
  { induction l' as [|y l' IH]; cbn; intros m Hm Hin; [auto|].
    apply IH; [|intros z Hz; apply Hin; by right]. intros k' x'. rewrite lookup_insert. case_decide; [|auto].
    intros [= <-]. split; [apply Hin; by left|done]. }
  by apply Hgen.
Qed.

Lemma load_composition_facts c :
  Composition.id (load_composition c) = Composition.id c /\
  Composition.lifecycle (load_composition c) <> CompositionLifecycle.ACTIVE /\
  Composition.lifecycle (load_composition c) <> CompositionLifecycle.COMMITTED.
Proof.
  unfold load_composition. destruct (_ || _) eqn:E; cbn; [done|].
  by lc_cases.
Qed.

Lemma Inv_Load d s : Inv (LoadState d s).
Proof.
  apply Inv_none_active; cbn.
  - by intros rid r [_ H]%insert_all_lookup.
  - by intros id c [_ H]%insert_all_lookup.
  - intros id c [H _]%insert_all_lookup. apply list_elem_of_fmap in H as (c0 & -> & _).
    apply load_composition_facts.
Qed.

Lemma Inv_Reserve plan s : Inv s -> Inv (Reserve plan s).2.
Proof.
  intros HI.
  assert (Hfr : Impl.resources (Reserve plan s).2 = Impl.resources s /\ epoch (Reserve plan s).2 = epoch s
    /\ Impl.fenced (Reserve plan s).2 = Impl.fenced s).
  { unfold Reserve. repeat (destruct (negb _); [done|]).
    by destruct (reserve_loop _ _ _ _ _) as [[m items] [[reason note]|]]. }
  destruct Hfr as (Hr & He & Hf). split; rewrite ?Hr, ?He, ?Hf.
  - apply HI.
  - intros id c [Hc|(_ & ? & _)]%Reserve_comps; [by eapply inv_composition_keys|done].
  - intros id c [Hc|(_ & _ & Hl)]%Reserve_comps; [by eapply inv_active|congruence].
  - intros id c [Hc|(_ & _ & Hl)]%Reserve_comps; [by eapply inv_fenced|congruence].
Qed.

Definition with_status (lc : CompositionLifecycle.t) (oc : CompositionOutcome.t) (c : Composition.t) : Composition.t :=
  c <| Composition.lifecycle := lc |> <| Composition.outcome := oc |>.

(** The three ways [Activate] can end on a known composition. *)
Lemma Activate_inv id s :
  match Impl.compositions s !! id with
  | Some c =>
      ((Activate id s).2 = s <| Impl.compositions ::=
        <[id := with_status CompositionLifecycle.REVALIDATION_REQUIRED CompositionOutcome.REJECTED c]> |>)
      \/ (Activate id s).2 = s
      \/ (Composition.lifecycle c = CompositionLifecycle.COMMITTED /\ (Composition.id c ∉ Impl.fenced s) /\
          RevalidationHolds c (Impl.resources s) (epoch s) = None /\
          is_success (ar_outcome (Activate id s).1) = true /\
          (Activate id s).2 = s <| Impl.compositions ::=
            <[id := with_status CompositionLifecycle.ACTIVE CompositionOutcome.SUCCESS c]> |>)
  | None => (Activate id s).2 = s
  end.
Proof.
  unfold Activate. destruct (Impl.compositions s !! id) as [c|]; [|done].
  destruct (negb (lifecycle_is _ c)) eqn:Hl; [by right; left|]. lc_cases.
  destruct (bool_decide _) eqn:Hf; [by right; left|]. apply bool_decide_eq_false_1 in Hf.
  destruct (RevalidationHolds _ _ _) as [[reason note]|].
  - by left.
  - by right; right.
Qed.

Lemma Inv_Activate id s : Inv s -> Inv (Activate id s).2.
Proof.
  intros HI. pose proof (Activate_evolves id s) as Hev. pose proof (Activate_inv id s) as Ha.
  destruct (Impl.compositions s !! id) as [c|] eqn:Hc; [|by rewrite Ha].
  destruct Ha as [Ha|[Ha|(Hl & Hf & Hr & _ & Ha)]]; rewrite Ha in *; [| done |].
  - eapply Inv_step; eauto with fabric; cbn.
    + exact (Inv_keys _ HI).
    + intros j c0 c'. rewrite lookup_insert. case_decide; [|congruence]. by intros _ [= <-].
  - eapply Inv_step; eauto with fabric; cbn.
    + exact (Inv_keys _ HI).
    + intros j c0 c'. rewrite lookup_insert. case_decide; [|congruence]. subst j. intros Hc0 _ _ _.
      simplify_eq. split; [by apply RevalidationHolds_ok|].
      by rewrite <-(inv_composition_keys _ HI _ _ Hc).
Qed.

(** An insertion that is not ACTIVE, possibly with new fences on it. *)
Lemma Inv_insert_inactive id c c' s s' :
  Inv s -> Impl.compositions s !! id = Some c -> evolves c c' ->
  Composition.lifecycle c' <> CompositionLifecycle.ACTIVE ->
  Impl.resources s' = Impl.resources s -> epoch s' = epoch s ->
  Impl.compositions s' = <[id := c']> (Impl.compositions s) ->
  (forall j, j ∈ Impl.fenced s' -> j ∈ Impl.fenced s \/ j = id) -> Inv s'.
Proof.
  intros HI Hc Hev Hna Hr He Hcs Hf. eapply Inv_step; eauto; rewrite ?Hr, ?Hcs; auto with fabric.
  - exact (Inv_keys _ HI).
  - eapply comps_rel_insert; eauto with fabric.
  - intros j c0 c1. rewrite lookup_insert. case_decide; [|congruence]. by intros _ [= <-].
  - intros j c1 Hj Ha Hin. rewrite lookup_insert in Hj. case_decide; [by simplify_eq|].
    destruct (Hf j Hin) as [?|?]; [done|congruence].
Qed.

Lemma Inv_Commit resv s : Inv s -> Inv (Commit resv s).2.
Proof.
  intros HI. unfold Commit. destruct (Impl.reservations s !! _) as [r|]; [|done].
  destruct (negb _); [done|]. destruct (Impl.compositions s !! _) as [c|] eqn:Hc; [|done].
  destruct (negb (lifecycle_is _ c)) eqn:Hl; [done|]. lc_cases.
  destruct (commit_loop _ _ _ _) as [m [reason|]]; cbn;
    (eapply Inv_insert_inactive; [done|exact Hc| | |done..|cbn; auto]); cbn; try done;
    split; try done; cbn; rewrite Hl; auto with fabric.
Qed.

Lemma Inv_release rid s : Inv s -> Inv (release_reservation rid s).
Proof.
  intros HI. destruct (release_reservation_frame rid s) as (Hcf & Hr & Hc & Hf).
  apply (Inv_same s); auto. unfold epoch. by rewrite Hcf.
Qed.

Lemma Inv_released id c s s' :
  Inv s -> Impl.compositions s !! id = Some c ->
  let s1 := release_reservation (Composition.reservation c) s in
  Impl.resources s' = Impl.resources s1 -> epoch s' = epoch s1 ->
  Impl.compositions s' = <[id := with_lifecycle CompositionLifecycle.RELEASED c]> (Impl.compositions s1) ->
  (forall j, j ∈ Impl.fenced s' -> j ∈ Impl.fenced s1 \/ j = id) -> Inv s'.
Proof.
  intros HI Hc s1 Hr He Hcs Hf. subst s1.
  destruct (release_reservation_frame (Composition.reservation c) s) as (_ & _ & Hcs' & _).
  eapply (Inv_insert_inactive id c); [by apply Inv_release|by rewrite Hcs'|apply evolves_to, lc_release|done..].
Qed.

Lemma Inv_run o s : Inv s -> Inv (run o s).
Proof.
  intros HI. destruct o; cbn [run].
  - destruct b; [by apply (Inv_same s)|done].
  - by apply (Inv_same s).
  - by apply Inv_Discover.
  - unfold RegisterNode. case_match; [done|by apply Inv_IngestNode].
  - unfold RegisterResource. case_match; [done|by apply Inv_IngestResource].
  - apply (Inv_stale s); cbn; auto with fabric. apply keys_ok_alter; [done|exact (Inv_keys _ HI)].
  - pose proof (run_stale (OWithdrawResource rid) s eq_refl) as Hst. cbn [run] in Hst.
    unfold WithdrawResource in *. destruct (Impl.resources s !! rid) as [r|] eqn:Hr; [|done].
    apply (Inv_stale s); cbn; auto.
    + apply keys_ok_insert; [exact (inv_resource_keys _ HI _ _ Hr)|exact (Inv_keys _ HI)].
    + intros _ _ _ _ j _ r' Hj. rewrite lookup_insert. case_decide; simplify_eq; eauto.
  - apply (Inv_stale s); cbn; auto.
    + apply keys_ok_fmap; [intros r; by case_match|exact (Inv_keys _ HI)].
    + by apply (run_stale (OMarkEvidence owner)).
    + intros _ _ _ _ j _. apply gen_kept_fmap. intros r. by case_match.
  - pose proof (run_stale (OAdvanceEpoch next) s eq_refl) as Hst. cbn [run] in Hst.
    unfold AdvanceEpoch in *. destruct (negb _); [done|]. apply Inv_none_active.
    + apply keys_ok_fmap; [intros r; by destruct (Evidence.durable _)|exact (Inv_keys _ HI)].
    + intros id c' Hc'. destruct (comps_rel_back _ _ _ _ _ Hst Hc') as (c & Hc & (Hid & _) & _).
      rewrite Hid. by eapply inv_composition_keys.
    + cbn. intros id c'. rewrite lookup_fmap, fmap_Some. intros (c & Hc & ->).
      case_match; lc_cases; [done|congruence].
  - rewrite Compose_frame. by apply (Inv_same s).
  - by apply Inv_Reserve.
  - by apply Inv_Commit.
  - by apply Inv_Activate.
  - by apply Inv_IngestResource.
  - by apply Inv_IngestNode.
  - apply (Inv_stale s); cbn; auto with fabric; [exact (Inv_keys _ HI)|by apply (run_stale (OPolicyUpdate p g))].
  - apply (Inv_stale s); cbn; auto with fabric; [exact (Inv_keys _ HI)|by apply (run_stale (OPathUpdate pe))].
  - apply (Inv_stale s); cbn; auto with fabric; [apply keys_ok_alter; [done|exact (Inv_keys _ HI)]|by apply (run_stale (OResourceFailure rid))].
  - unfold BeginDrain. destruct (Impl.compositions s !! id) as [c|] eqn:Hc; [|done]. case_match; [|done].
    eapply (Inv_insert_inactive id c); [exact HI|done| | |done|done|done|by left]; [|done]. apply evolves_to, lc_drain. lc_cases; set_solver.
  - unfold EndDrain. destruct (Impl.compositions s !! id) as [c|] eqn:Hc; [|done]. case_match; [done|].
    eapply (Inv_released id c); [exact HI|done..|cbn; auto].
  - unfold Release. destruct (Impl.compositions s !! id) as [c|] eqn:Hc; [|done]. case_match; [done|].
    eapply (Inv_released id c); [exact HI|done..|cbn; set_solver].
  - unfold recompute_release. destruct (Impl.compositions s !! id) as [c|] eqn:Hc; [|done].
    eapply (Inv_released id c); [exact HI|done..|cbn].
    rewrite (inv_composition_keys _ HI _ _ Hc). set_solver.
  - apply Inv_Load.
Qed.

Lemma Inv_reachable cfg s : reachable cfg s -> Inv s.
Proof.
  induction 1 as [|s o _ IH]; [|by apply Inv_run].
  apply Inv_none_active; unfold FabricEngine; repeat case_match; done.
Qed.
