(* ===== verification/Compose.v ===== *)
(** * Planning: what [Compose] returns

    Lemmas on the planning pipeline of [FabricEngine::ComposeDeterministic]: the
    candidate sort is a function of the set of resources, selections and
    combinations are bounded and built from eligible candidates without
    repetition, and the evaluation loop keeps the best-ranked feasible
    combination. *)

From S2P Require Import Prelude Enums Ids Double Model Planner Engine Lifecycle.

(** ** The candidate order *)
Lemma ClassScore_not_nan r d : is_nan (ClassScore r d) = false.
Proof.
  unfold ClassScore.
  assert (H : forall (b : bool) s k, is_nan s = false -> is_finite k = true -> is_nan (if b then (s + k)%D else s) = false).
  { intros [] s k Hs Hk; [by apply dadd_finite_not_nan|done]. }
  repeat (apply H; [|done]). repeat case_match; try done; apply std_max_0_not_nan.
Qed.

Lemma candidate_lt_spec d a b :
  candidate_lt d a b = true <->
  key_lt (dkey (ClassScore b d)) (dkey (ClassScore a d)) \/
  (dkey (ClassScore a d) = dkey (ClassScore b d) /\ Value (Resource.id a) < Value (Resource.id b)).
Proof.
  unfold candidate_lt, id_ltb. pose proof (ClassScore_not_nan a d) as Ha. pose proof (ClassScore_not_nan b d) as Hb.
  rewrite <-(deq_key (ClassScore a d) (ClassScore b d)), <-dlt_key, <-N.ltb_lt by done.
  destruct (deq _ _) eqn:E; cbn [negb].
  - split; [by right|]. intros [H|[_ H]]; [|done]. apply deq_key in E; [|done..]. apply dlt_key in H; [|done..].
    rewrite E in H. by apply key_lt_irrefl in H.
  - split; [by left|]. by intros [H|[H _]].
Qed.

Lemma candidate_lt_irrefl d a : candidate_lt d a a = false.
Proof. apply not_true_iff_false. rewrite candidate_lt_spec. intros [H%key_lt_irrefl|[_ H]]; [done|lia]. Qed.

Lemma candidate_lt_trans d a b c : candidate_lt d a b = true -> candidate_lt d b c = true -> candidate_lt d a c = true.
Proof.
  rewrite !candidate_lt_spec. intros [H1|[E1 L1]] [H2|[E2 L2]].
  - left. by eapply key_lt_trans.
  - left. by rewrite <-E2.
  - left. by rewrite E1.
  - right. rewrite E1, E2. split; [done|lia].
Qed.

Lemma candidate_lt_total d a b :
  candidate_lt d a b = false -> candidate_lt d b a = false -> Resource.id a = Resource.id b.
Proof.
  rewrite <-!not_true_iff_false, !candidate_lt_spec. intros H1 H2.
  destruct (key_trichotomy (dkey (ClassScore a d)) (dkey (ClassScore b d))) as [H|[H|H]]; [tauto| |tauto].
  destruct (Resource.id a) as [x], (Resource.id b) as [y]. cbn in *. f_equal.
  destruct (N.lt_trichotomy x y) as [?|[?|?]]; [tauto|done|]. destruct H2. right. by rewrite H.
Qed.

(** The sorted candidates depend on the resources, not on the order in which the
    hash map yields them. *)
Lemma candidates_perm rs rs' req d :
  NoDup (Resource.id <$> rs) -> rs ≡ₚ rs' -> candidates rs req d = candidates rs' req d.
Proof.
  intros Hnd Hp. unfold candidates. apply (isort_perm _ (fun r => r ∈ rs)).
  - intros x y z _ _ _. apply candidate_lt_trans.
  - intros x _. apply candidate_lt_irrefl.
  - intros x y Hx Hy H1 H2. pose proof (candidate_lt_total d x y H1 H2) as Hid.
    apply list_elem_of_lookup in Hx as [i Hi], Hy as [j Hj].
    assert (i = j); [|congruence]. eapply NoDup_lookup; [exact Hnd|rewrite list_lookup_fmap, Hi; done|].
    by rewrite list_lookup_fmap, Hj, Hid.
  - apply Forall_forall. intros x [_ Hx]%list_elem_of_filter. done.
  - by rewrite Hp.
Qed.

Lemma build_selections_perm rs rs' req ds :
  NoDup (Resource.id <$> rs) -> rs ≡ₚ rs' -> build_selections rs req ds = build_selections rs' req ds.
Proof.
  intros Hnd Hp. induction ds as [|d ds IH]; cbn; [done|]. by rewrite IH, (candidates_perm rs rs') by done.
Qed.

(** ** Bounded enumeration of selections *)
Implicit Types (out picks combos : list (list ResourceId)) (suffix cur combo : list ResourceId).

Lemma combine_sel_unfold cap need suffix cur out :
  combine_sel cap (S need) suffix cur out =
  if (cap <=? length out)%nat then out
  else match suffix with
  | [] => out
  | x :: rest =>
      if (length suffix <? S need)%nat then out
      else
        let out' := combine_sel cap need rest (cur ++ [x]) out in
        if (cap <=? length out')%nat then out' else combine_sel cap (S need) rest cur out'
  end.
Proof.
  cbn [combine_sel]. destruct (cap <=? length out)%nat eqn:E; [done|]. destruct suffix as [|x rest]; [done|].
  destruct (_ <? _)%nat; [done|]. cbv zeta. by destruct (cap <=? length (combine_sel _ _ _ _ _))%nat.
Qed.

Lemma combine_sel_spec cap need suffix cur out p :
  p ∈ combine_sel cap need suffix cur out ->
  p ∈ out \/ exists k, p = cur ++ k /\ sublist k suffix /\ length k = need.
Proof.
  revert suffix cur out. induction need as [|need IHn]; intros suffix cur out.
  { cbn. destruct (cap <=? length out)%nat; [by left|]. intros [?|Hp%list_elem_of_singleton]%elem_of_app; [by left|].
    right. exists []. rewrite app_nil_r. split_and!; [done|apply sublist_nil_l|done]. }
  revert cur out. induction suffix as [|x rest IH]; intros cur out; rewrite combine_sel_unfold.
  { case_match; by left. }
  destruct (cap <=? length out)%nat; [by left|]. destruct (_ <? _)%nat; [by left|]. cbv zeta.
  assert (Hone : p ∈ combine_sel cap need rest (cur ++ [x]) out ->
    p ∈ out \/ exists k, p = cur ++ k /\ sublist k (x :: rest) /\ length k = S need).
  { intros [?|(k & -> & Hk & Hlen)]%IHn; [by left|right]. exists (x :: k). rewrite <-app_assoc. cbn.
    split_and!; [done|by apply sublist_skip|by rewrite Hlen]. }
  destruct (cap <=? length _)%nat; [exact Hone|]. intros [Hp|(k & -> & Hk & Hlen)]%IH; [auto|].
  right. exists k. split_and!; [done|by apply sublist_cons|done].
Qed.

Lemma combine_sel_bound cap need suffix cur out :
  (length (combine_sel cap need suffix cur out) <= Nat.max cap (length out))%nat.
Proof.
  revert suffix cur out. induction need as [|need IHn]; intros suffix cur out.
  { cbn. destruct (Nat.leb_spec cap (length out)); [lia|]. rewrite length_app. cbn. lia. }
  revert cur out. induction suffix as [|x rest IH]; intros cur out; rewrite combine_sel_unfold.
  { case_match; lia. }
  destruct (cap <=? length out)%nat; [lia|]. destruct (_ <? _)%nat; [lia|]. cbv zeta.
  specialize (IHn rest (cur ++ [x]) out). destruct (Nat.leb_spec cap (length (combine_sel cap need rest (cur ++ [x]) out))); [done|].
  specialize (IH cur (combine_sel cap need rest (cur ++ [x]) out)). lia.
Qed.

Section amount_sels.
Context (cap : nat) (d : ClassDemand).

Lemma single_sels_spec items out p :
  p ∈ single_sels cap items out -> p ∈ out \/ sublist p (Resource.id <$> items).
Proof.
  revert out. induction items as [|x items IH]; intros out; cbn [single_sels pair_sels pair_sels_with fmap list_fmap]; [by left|].
  destruct (_ <? _)%nat; [|by left]. intros [[?|Hp%list_elem_of_singleton]%elem_of_app|Hs]%IH; [by left|right|right].
  - subst. apply sublist_skip, sublist_nil_l.
  - by apply sublist_cons.
Qed.
Lemma single_sels_bound items out : (length (single_sels cap items out) <= Nat.max cap (length out))%nat.
Proof.
  revert out. induction items as [|x items IH]; intros out; cbn [single_sels pair_sels pair_sels_with length]; [lia|].
  destruct (Nat.ltb_spec (length out) cap); [|lia]. specialize (IH (out ++ [[Resource.id x]])). rewrite length_app in IH. cbn in IH. lia.
Qed.

Lemma pair_sels_with_spec x items out p :
  p ∈ pair_sels_with cap d x items out -> p ∈ out \/ sublist p (Resource.id <$> x :: items).
Proof.
  revert out. induction items as [|y items IH]; intros out; cbn [single_sels pair_sels pair_sels_with fmap list_fmap]; [by left|].
  destruct (_ <? _)%nat; [|by left]. intros [Hp|Hs]%IH.
  - destruct (dle _ _); [|by left]. apply elem_of_app in Hp as [?|Hp%list_elem_of_singleton]; [by left|right].
    subst. apply sublist_skip, sublist_skip, sublist_nil_l.
  - right. cbn in Hs. inversion Hs; subst; [by apply sublist_skip, sublist_cons|by apply sublist_cons, sublist_cons].
Qed.
Lemma pair_sels_with_bound x items out : (length (pair_sels_with cap d x items out) <= Nat.max cap (length out))%nat.
Proof.
  revert out. induction items as [|y items IH]; intros out; cbn [single_sels pair_sels pair_sels_with length]; [lia|].
  destruct (Nat.ltb_spec (length out) cap); [|lia]. rewrite IH. destruct (dle _ _); [rewrite length_app; cbn|]; lia.
Qed.

Lemma pair_sels_spec items out p :
  p ∈ pair_sels cap d items out -> p ∈ out \/ sublist p (Resource.id <$> items).
Proof.
  revert out. induction items as [|x items IH]; intros out; cbn [single_sels pair_sels pair_sels_with fmap list_fmap]; [by left|].
  destruct (_ <? _)%nat; [|by left]. intros [[?|?]%pair_sels_with_spec|Hs]%IH; [by left|by right|right]. by apply sublist_cons.
Qed.
Lemma pair_sels_bound items out : (length (pair_sels cap d items out) <= Nat.max cap (length out))%nat.
Proof.
  revert out. induction items as [|x items IH]; intros out; cbn [single_sels pair_sels pair_sels_with length]; [lia|].
  destruct (Nat.ltb_spec (length out) cap); [|lia]. rewrite IH. pose proof (pair_sels_with_bound x items out). lia.
Qed.
End amount_sels.

(** A selection lists members of the candidates, in their order and without
    repetition; there are at most [cap] of them. *)
Lemma EnumerateSelections_spec items d cap p :
  p ∈ EnumerateSelections items d cap -> sublist p (Resource.id <$> items).
Proof.
  unfold EnumerateSelections. destruct items as [|x items]; [by intros ?%elem_of_nil|]. set (l := x :: items). clearbody l.
  assert (Ht : sublist (Resource.id <$> take 8 l) (Resource.id <$> l)).
  { rewrite <-(take_drop 8 l) at 2. rewrite fmap_app. apply sublist_inserts_r. done. }
  destruct (_ <? _); [by intros ?%elem_of_nil|]. destruct (negb _).
  - intros [?%elem_of_nil|(k & -> & Hk & _)]%combine_sel_spec; [done|]. cbn. by etrans.
  - assert (Hs : p ∈ single_sels cap (take 8 l) [] -> sublist p (Resource.id <$> l)).
    { intros [?%elem_of_nil|?]%single_sels_spec; [done|by etrans]. }
    destruct (_ && _); [|exact Hs]. intros [?|?]%pair_sels_spec; [auto|by etrans].
Qed.

Lemma EnumerateSelections_bound items d cap : (length (EnumerateSelections items d cap) <= cap)%nat.
Proof.
  unfold EnumerateSelections. destruct items as [|x items]; cbn [length]; [lia|]. destruct (_ <? _); cbn [length]; [lia|].
  destruct (negb _).
  - rewrite combine_sel_bound. cbn. lia.
  - pose proof (single_sels_bound cap (take 8 (x :: items)) []) as H. cbn [length] in H.
    destruct (_ && _); [rewrite pair_sels_bound|]; lia.
Qed.

(** ** The bounded product *)
Lemma build_selections_spec rs req ds sels :
  build_selections rs req ds = inr sels ->
  sels.*1 = filter (fun d => mandatory d = true) ds /\
  forall d picks, (d, picks) ∈ sels -> picks = EnumerateSelections (candidates rs req d) d selection_cap.
Proof.
  revert sels. induction ds as [|d ds IH]; intros sels; cbn [build_selections].
  { intros [= <-]. split; [done|]. by intros ?? ?%elem_of_nil. }
  rewrite filter_cons. destruct (mandatory d) eqn:Hm; cbn [negb].
  - rewrite decide_True by done. set (picks := EnumerateSelections _ _ _). destruct picks as [|p ps] eqn:Ep; [done|].
    destruct (build_selections rs req ds) as [|sels'] eqn:E; [done|]. intros [= <-]. destruct (IH _ eq_refl) as [Hfst Hall].
    split; [cbn; by rewrite Hfst|]. intros d' picks' [[= -> ->]|Hin]%elem_of_cons; [done|by apply Hall].
  - rewrite decide_False by done. apply IH.
Qed.

Lemma existsb_id_eqb (rid : ResourceId) l : existsb (id_eqb rid) l = true <-> rid ∈ l.
Proof.
  rewrite existsb_exists. split.
  - intros (x & Hx%list_elem_of_In & ->%id_eqb_eq). done.
  - intros H%list_elem_of_In. exists rid. by rewrite id_eqb_refl.
Qed.

Lemma extend_combo_spec combo picks next p :
  p ∈ extend_combo combo picks next ->
  p ∈ next \/ exists pick, pick ∈ picks /\ p = combo ++ pick /\ forall rid, rid ∈ pick -> rid ∉ combo.
Proof.
  revert next. induction picks as [|pick picks IH]; intros next; cbn [extend_combo]; [by left|].
  assert (Hlift : p ∈ next \/ (exists k, k ∈ picks /\ p = combo ++ k /\ forall rid, rid ∈ k -> rid ∉ combo) ->
    p ∈ next \/ exists k, k ∈ pick :: picks /\ p = combo ++ k /\ forall rid, rid ∈ k -> rid ∉ combo).
  { intros [?|(k & ? & ?)]; [by left|]. right. exists k. split; [by right|done]. }
  destruct (existsb _ pick) eqn:Hdup; [intros Hp; apply Hlift; auto|]. cbv zeta.
  assert (Hnew : p ∈ next ++ [combo ++ pick] ->
    p ∈ next \/ exists k, k ∈ pick :: picks /\ p = combo ++ k /\ forall rid, rid ∈ k -> rid ∉ combo).
  { intros [?|Hp%list_elem_of_singleton]%elem_of_app; [by left|]. right. exists pick. split; [by left|]. split; [done|].
    intros rid Hin Hc. apply not_true_iff_false in Hdup. destruct Hdup. apply existsb_exists. exists rid.
    split; [by apply list_elem_of_In|by apply existsb_id_eqb]. }
  destruct (kComboCap <=? _)%nat; [exact Hnew|]. intros [Hp|Hp]%IH; [auto|apply Hlift; by right].
Qed.

Lemma extend_combo_bound combo picks next :
  (length next < kComboCap -> length (extend_combo combo picks next) <= kComboCap)%nat.
Proof.
  revert next. induction picks as [|pick picks IH]; intros next Hn; cbn [extend_combo]; [lia|].
  destruct (existsb _ pick); [auto|]. cbv zeta.
  destruct (Nat.leb_spec kComboCap (length (next ++ [combo ++ pick]))) as [|Hlt]; [rewrite length_app; cbn [length]; lia|auto].
Qed.

Lemma extend_combos_spec combos picks next p :
  p ∈ extend_combos combos picks next ->
  p ∈ next \/ exists combo pick, combo ∈ combos /\ pick ∈ picks /\ p = combo ++ pick /\ forall rid, rid ∈ pick -> rid ∉ combo.
Proof.
  revert next. induction combos as [|combo combos IH]; intros next; cbn [extend_combos]; [by left|]. cbv zeta.
  assert (H1 : p ∈ extend_combo combo picks next -> p ∈ next \/ exists c pick, c ∈ combo :: combos /\ pick ∈ picks /\
    p = c ++ pick /\ forall rid, rid ∈ pick -> rid ∉ c).
  { intros [?|(pick & ? & ? & ?)]%extend_combo_spec; [by left|right]. exists combo, pick. split; [by left|done]. }
  destruct (kComboCap <=? _)%nat; [exact H1|]. intros [Hp|(c & pick & Hc & H)]%IH; [auto|].
  right. exists c, pick. split; [by right|done].
Qed.

Lemma extend_combos_bound combos picks next :
  (length next < kComboCap -> length (extend_combos combos picks next) <= kComboCap)%nat.
Proof.
  revert next. induction combos as [|combo combos IH]; intros next Hn; cbn [extend_combos]; [lia|]. cbv zeta.
  pose proof (extend_combo_bound combo picks next Hn).
  destruct (Nat.leb_spec kComboCap (length (extend_combo combo picks next))); auto.
Qed.

(** A combination repeats no resource and draws each from the picks. *)
Lemma product_spec sels combos combos' p :
  product sels combos = Some combos' -> p ∈ combos' ->
  exists combo ps, combo ∈ combos /\ p = combo ++ concat ps /\ Forall2 (fun sel pick => pick ∈ sel.2) sels ps /\
    (NoDup combo -> (forall pick sel, sel ∈ sels -> pick ∈ sel.2 -> NoDup pick) -> NoDup p).
Proof.
  revert combos. induction sels as [|[d picks] sels IH]; intros combos; cbn [product].
  { intros [= <-] Hp. exists p, []. rewrite app_nil_r. split_and!; [done..|constructor|done]. }
  destruct (extend_combos combos picks []) as [|c0 cs] eqn:E; [done|]. rewrite <-E. clear E c0 cs. intros Hp Hin.
  destruct (IH _ Hp Hin) as (combo & ps & Hc & -> & Hf & Hnd).
  destruct (extend_combos_spec _ _ _ _ Hc) as [?%elem_of_nil|(c & pick & Hc' & Hpick & -> & Hdis)]; [done|].
  exists c, (pick :: ps). cbn [concat]. rewrite app_assoc. split_and!; [done|done|by constructor|].
  intros Hcn Hall. apply Hnd; [|intros pk sel Hs; apply Hall; by right].
  apply NoDup_app. split_and!; [done| |].
  - intros rid H1 H2. by destruct (Hdis rid).
  - apply (Hall pick (d, picks)); [by left|done].
Qed.

Lemma product_bound sels combos combos' :
  (length combos <= kComboCap)%nat -> product sels combos = Some combos' -> (length combos' <= kComboCap)%nat.
Proof.
  revert combos. induction sels as [|[d picks] sels IH]; intros combos Hl; cbn [product]; [by intros [= <-]|].
  destruct (extend_combos combos picks []) as [|c0 cs] eqn:E; [done|]. rewrite <-E. apply IH, extend_combos_bound.
  unfold kComboCap. cbn [length]. lia.
Qed.

(** ** Graphs *)
Lemma fold_AddVertex set g :
  NoDup (ResourceGraph.vertices g ++ (Resource.id <$> set)) ->
  ResourceGraph.vertices (fold_left (fun g r => AddVertex g (Resource.id r)) set g) =
    ResourceGraph.vertices g ++ (Resource.id <$> set).
Proof.
  revert g. induction set as [|r set IH]; intros g Hnd; [by rewrite app_nil_r|]. cbn [fold_left].
  assert (Hv : ResourceGraph.vertices (AddVertex g (Resource.id r)) = ResourceGraph.vertices g ++ [Resource.id r]).
  { unfold AddVertex, HasVertex. destruct (existsb _ _) eqn:E; [|done]. apply existsb_id_eqb in E.
    rewrite fmap_cons in Hnd. apply NoDup_app in Hnd as (_ & Hd & _). destruct (Hd _ E). by left. }
  rewrite IH, Hv, fmap_cons, <-app_assoc; [done|]. by rewrite Hv, <-app_assoc.
Qed.

Lemma fold_AddEdge es g :
  ResourceGraph.vertices (fold_left AddEdge es g) = ResourceGraph.vertices g /\
  ResourceGraph.edges (fold_left AddEdge es g) = ResourceGraph.edges g ++ es.
Proof.
  revert g. induction es as [|e es IH]; intros g; cbn [fold_left]; [by rewrite app_nil_r|].
  destruct (IH (AddEdge g e)) as [-> ->]. cbn. by rewrite <-app_assoc.
Qed.

Lemma BuildGraph_vertices req set :
  NoDup (Resource.id <$> set) -> ResourceGraph.vertices (BuildGraph req set) = Resource.id <$> set.
Proof. intros Hnd. unfold BuildGraph. rewrite (proj1 (fold_AddEdge _ _)). by rewrite fold_AddVertex. Qed.

Lemma edges_between_elem req set p q kinds a b k :
  a ∈ set -> b ∈ set -> p a = true -> q b = true -> Resource.id a <> Resource.id b -> k ∈ kinds ->
  GraphEdge.mk (Resource.id a) (Resource.id b) k true (CompositionRequest.min_bandwidth_mbps req)
    (CompositionRequest.max_latency_us req) "" "" ∈ edges_between req set p q kinds.
Proof.
  intros Ha Hb Hp Hq Hne Hk. unfold edges_between. apply list_elem_of_In, in_flat_map. exists a.
  split; [by apply list_elem_of_In|]. rewrite Hp. apply in_flat_map. exists b. split; [by apply list_elem_of_In|].
  rewrite Hq, (proj2 (id_eqb_neq _ _)) by congruence. cbn [andb negb]. apply in_flat_map. exists k.
  split; [by apply list_elem_of_In|]. unfold mk_edge. rewrite (proj2 (id_eqb_neq _ _)) by done. by left.
Qed.

(** The links that a composition needs between two of its members: compute to
    accelerator, accelerator to memory and to network, compute to storage, each
    with the bounds it is subject to. *)
Definition required_links (a b : Resource.t) : list GraphEdgeKind.t :=
  match Resource.resource_class a, Resource.resource_class b with
  | ResourceClass.COMPUTE, ResourceClass.ACCELERATOR => [GraphEdgeKind.REACHABILITY; GraphEdgeKind.COMPATIBILITY]
  | ResourceClass.ACCELERATOR, (ResourceClass.HOST_MEMORY | ResourceClass.EXPANDED_MEMORY) =>
      [GraphEdgeKind.REACHABILITY; GraphEdgeKind.BANDWIDTH_BOUND; GraphEdgeKind.LATENCY_BOUND]
  | ResourceClass.ACCELERATOR, (ResourceClass.NIC | ResourceClass.NETWORK_ENDPOINT)
  | ResourceClass.COMPUTE, ResourceClass.STORAGE => [GraphEdgeKind.REACHABILITY; GraphEdgeKind.BANDWIDTH_BOUND]
  | _, _ => []
  end.
Definition link_edge (req : CompositionRequest.t) (a b : Resource.t) (k : GraphEdgeKind.t) : GraphEdge.t :=
  GraphEdge.mk (Resource.id a) (Resource.id b) k true (CompositionRequest.min_bandwidth_mbps req)
    (CompositionRequest.max_latency_us req) "" "".

Lemma edges_between_inv req set p q kinds e :
  e ∈ edges_between req set p q kinds ->
  exists a b k, a ∈ set /\ b ∈ set /\ p a = true /\ q b = true /\ Resource.id a <> Resource.id b /\ k ∈ kinds /\ e = link_edge req a b k.
Proof.
  unfold edges_between. rewrite list_elem_of_In, in_flat_map. intros (a & Ha & H). destruct (p a) eqn:Hp; [|done].
  apply in_flat_map in H as (b & Hb & H). destruct (q b) eqn:Hq; [|done].
  destruct (id_eqb (Resource.id b) (Resource.id a)) eqn:E; [done|]. apply id_eqb_neq in E.
  cbn [andb negb] in H. apply in_flat_map in H as (k & Hk & H). unfold mk_edge in H.
  rewrite (proj2 (id_eqb_neq _ _)) in H by congruence. apply list_elem_of_In in Ha, Hb, Hk. destruct H as [<-|[]]. eauto 12.
Qed.
Lemma BuildGraph_links req set e :
  e ∈ ResourceGraph.edges (BuildGraph req set) <->
  exists a b k, a ∈ set /\ b ∈ set /\ Resource.id a <> Resource.id b /\ k ∈ required_links a b /\ e = link_edge req a b k.
Proof.
  unfold BuildGraph. rewrite (proj2 (fold_AddEdge _ _)).
  assert (He : forall g, ResourceGraph.edges (fold_left (fun g r => AddVertex g (Resource.id r)) set g) = ResourceGraph.edges g).
  { induction set as [|r set IH]; intros g; cbn [fold_left]; [done|]. rewrite IH. unfold AddVertex. by destruct (HasVertex _ _). }
  rewrite He, !elem_of_app. split.
  - intros [?%elem_of_nil|[H|[H|[H|H]]]]; [done|..]; apply edges_between_inv in H as (a & b & k & Ha & Hb & Hp & Hq & Hne & Hk & ->);
      exists a, b, k; split_and!; try done; unfold has_class in *; apply bool_decide_eq_true_1 in Hp;
      try (apply orb_prop in Hq as [Hq|Hq]); apply bool_decide_eq_true_1 in Hq; unfold required_links; by rewrite Hp, Hq.
  - intros (a & b & k & Ha & Hb & Hne & Hk & ->). right. unfold required_links in Hk. unfold link_edge.
    destruct (Resource.resource_class a) eqn:Ca, (Resource.resource_class b) eqn:Cb; try (by apply elem_of_nil in Hk);
      first [left; apply edges_between_elem; try done; unfold has_class; rewrite ?Ca, ?Cb; reflexivity
            |right; left; apply edges_between_elem; try done; unfold has_class; rewrite ?Ca, ?Cb; reflexivity
            |right; right; left; apply edges_between_elem; try done; unfold has_class; rewrite ?Ca, ?Cb; reflexivity
            |right; right; right; apply edges_between_elem; try done; unfold has_class; rewrite ?Ca, ?Cb; reflexivity].
Qed.

Lemma ValidateEdges_None es rs paths :
  ValidateEdges es rs paths = None -> forall e, e ∈ es -> ValidateEdge e rs paths = None.
Proof.
  induction es as [|e es IH]; cbn; [by intros _ ? ?%elem_of_nil|].
  destruct (ValidateEdge e rs paths) eqn:E; [done|]. intros H e' [->|?]%elem_of_cons; auto.
Qed.

(** Path evidence that links with the bounds [kinds] can rely on. *)
Definition usable (kinds : list GraphEdgeKind.t) (req : CompositionRequest.t) (pe : PathEvidence.t) : Prop :=
  PathEvidence.verified pe = true /\ PathEvidence.available pe = true /\ IsCurrent (PathEvidence.evidence pe) = true /\
  (GraphEdgeKind.BANDWIDTH_BOUND ∈ kinds -> dlt d0 (CompositionRequest.min_bandwidth_mbps req) = true ->
    dlt (PathEvidence.bandwidth_mbps pe) (CompositionRequest.min_bandwidth_mbps req) = false) /\
  (GraphEdgeKind.LATENCY_BOUND ∈ kinds -> dlt d0 (CompositionRequest.max_latency_us req) = true ->
    dlt (CompositionRequest.max_latency_us req) (PathEvidence.latency_us pe) = false).

Lemma ValidateEdge_remote req a b k rs paths :
  rs !! Resource.id a = Some a -> rs !! Resource.id b = Some b -> Resource.node_id a <> Resource.node_id b ->
  ValidateEdge (GraphEdge.mk (Resource.id a) (Resource.id b) k true (CompositionRequest.min_bandwidth_mbps req)
    (CompositionRequest.max_latency_us req) "" "") rs paths = None ->
  exists pe, paths !! PathKey (Resource.node_id a) (Resource.node_id b) = Some pe /\
    PathEvidence.verified pe = true /\ PathEvidence.available pe = true /\ IsCurrent (PathEvidence.evidence pe) = true /\
    (k = GraphEdgeKind.BANDWIDTH_BOUND -> dlt d0 (CompositionRequest.min_bandwidth_mbps req) = true ->
      dlt (PathEvidence.bandwidth_mbps pe) (CompositionRequest.min_bandwidth_mbps req) = false) /\
    (k = GraphEdgeKind.LATENCY_BOUND -> dlt d0 (CompositionRequest.max_latency_us req) = true ->
      dlt (CompositionRequest.max_latency_us req) (PathEvidence.latency_us pe) = false).
Proof.
  intros Ha Hb Hn. unfold ValidateEdge. cbn [GraphEdge.from GraphEdge.to]. rewrite Ha, Hb, (proj2 (id_eqb_neq _ _) Hn).
  destruct (paths !! _) as [pe|]; [|done]. destruct (negb _ || negb _) eqn:Hva; [done|].
  destruct (bool_decide _ || negb _) eqn:Hcur; [done|].
  apply orb_false_iff in Hva as [Hv%negb_false_iff Hav%negb_false_iff].
  apply orb_false_iff in Hcur as [_ Hc%negb_false_iff].
  cbn [GraphEdge.kind GraphEdge.min_bandwidth_mbps GraphEdge.max_latency_us]. intros H. exists pe. split_and!; try done.
  - intros -> Hpos. rewrite bool_decide_true, Hpos in H by done. cbn [andb] in H. by destruct (dlt _ _).
  - intros -> Hpos. rewrite bool_decide_false in H by done. rewrite bool_decide_true, Hpos in H by done. cbn [andb] in H.
    by destruct (dlt (CompositionRequest.max_latency_us req) _).
Qed.

Lemma link_paths req set rs paths a b :
  (forall r, r ∈ set -> rs !! Resource.id r = Some r) ->
  ValidateGraph (BuildGraph req set) rs paths = None -> a ∈ set -> b ∈ set ->
  required_links a b <> [] -> Resource.node_id a <> Resource.node_id b ->
  exists pe, paths !! PathKey (Resource.node_id a) (Resource.node_id b) = Some pe /\ usable (required_links a b) req pe.
Proof.
  intros Hset Hval Ha Hb Hl Hn.
  assert (Hne : Resource.id a <> Resource.id b).
  { intros Heq. pose proof (Hset a Ha) as H1. rewrite Heq, (Hset b Hb) in H1. congruence. }
  assert (Hedge : forall k, k ∈ required_links a b -> exists pe,
    paths !! PathKey (Resource.node_id a) (Resource.node_id b) = Some pe /\
    PathEvidence.verified pe = true /\ PathEvidence.available pe = true /\ IsCurrent (PathEvidence.evidence pe) = true /\
    (k = GraphEdgeKind.BANDWIDTH_BOUND -> dlt d0 (CompositionRequest.min_bandwidth_mbps req) = true ->
      dlt (PathEvidence.bandwidth_mbps pe) (CompositionRequest.min_bandwidth_mbps req) = false) /\
    (k = GraphEdgeKind.LATENCY_BOUND -> dlt d0 (CompositionRequest.max_latency_us req) = true ->
      dlt (CompositionRequest.max_latency_us req) (PathEvidence.latency_us pe) = false)).
  { intros k Hk. apply (ValidateEdge_remote req a b k rs paths); [by apply Hset..|done|].
    eapply ValidateEdges_None; [exact Hval|]. apply BuildGraph_links. exists a, b, k. done. }
  destruct (required_links a b) as [|k0 ks] eqn:El; [done|].
  destruct (Hedge k0 ltac:(by left)) as (pe & Hpe & H1 & H2 & H3 & _). exists pe. split; [done|]. split_and!; try done;
    intros Hk; destruct (Hedge _ Hk) as (pe' & Hpe' & _ & _ & _ & Hbw & Hlat); simplify_eq; auto.
Qed.

(** ** The evaluation loop *)

(** Path evidence the engine had, or that a backend resolves now. *)
Definition path_known (bs : list Backend) (p0 : gmap string PathEvidence.t) (key : string) (pe : PathEvidence.t) : Prop :=
  p0 !! key = Some pe \/
  exists pr, PathKey (PathRequirement.from pr) (PathRequirement.to pr) = key /\ resolve_first bs pr = Some pe.
Definition known_paths (bs : list Backend) (p0 paths : gmap string PathEvidence.t) : Prop :=
  forall key pe, paths !! key = Some pe -> path_known bs p0 key pe.

Section evaluate.
Context (bs : list Backend) (rs : gmap ResourceId Resource.t) (req : CompositionRequest.t) (ds : list ClassDemand)
  (p0 : gmap string PathEvidence.t).

Lemma plan_path_known acc e :
  known_paths bs p0 acc.1 -> known_paths bs p0 (plan_path bs rs req acc e).1.
Proof.
  destruct acc as [paths out]. unfold plan_path. cbn. intros Hk.
  destruct (rs !! _) as [f|]; [|done]. destruct (rs !! _) as [t|]; [|done]. destruct (id_eqb _ _); [done|].
  destruct (resolve_first bs _) as [pe|] eqn:E; [|by destruct (paths !! _)]. cbn. intros key pe'. rewrite lookup_insert.
  case_decide; [intros [= <-]|apply Hk]. right. eexists. split; [|exact E]. done.
Qed.
Lemma fold_plan_path_known es acc :
  known_paths bs p0 acc.1 -> known_paths bs p0 (fold_left (plan_path bs rs req) es acc).1.
Proof. revert acc. induction es as [|e es IH]; intros acc Hk; cbn; [done|]. by apply IH, plan_path_known. Qed.

(** The evidence collected for the plan: known evidence of its cross-node edges,
    and some for each of them that has a path. *)
Definition crosses (e : GraphEdge.t) (key : string) : Prop :=
  exists f t, rs !! GraphEdge.from e = Some f /\ rs !! GraphEdge.to e = Some t /\
    Resource.node_id f <> Resource.node_id t /\ key = PathKey (Resource.node_id f) (Resource.node_id t).
Lemma plan_path_cases acc e :
  known_paths bs p0 acc.1 ->
  (forall key, is_Some (acc.1 !! key) -> is_Some ((plan_path bs rs req acc e).1 !! key)) /\
  ((plan_path bs rs req acc e).2 = acc.2 /\ (forall key, crosses e key -> acc.1 !! key = None) \/
   exists key pe, crosses e key /\ path_known bs p0 key pe /\ (plan_path bs rs req acc e).2 = acc.2 ++ [pe]).
Proof.
  destruct acc as [paths out]. unfold plan_path, crosses. cbn [fst snd]. intros Hk.
  destruct (rs !! GraphEdge.from e) as [f|]; [|split; [done|left; split; [done|by intros key (? & ? & [=] & _)]]].
  destruct (rs !! GraphEdge.to e) as [t|]; [|split; [done|left; split; [done|by intros key (? & ? & _ & [=] & _)]]].
  destruct (id_eqb _ _) eqn:En.
  { split; [done|left; split; [done|]]. apply id_eqb_eq in En. intros key (f' & t' & [= <-] & [= <-] & Hn & _). done. }
  apply id_eqb_neq in En. destruct (resolve_first bs _) as [pe|] eqn:E.
  - cbn. split; [intros key Hkey; rewrite lookup_insert; by case_decide|]. right. exists (PathKey (Resource.node_id f) (Resource.node_id t)), pe.
    split; [by exists f, t|]. split; [right; eexists; split; [|exact E]; done|done].
  - destruct (paths !! PathKey (Resource.node_id f) (Resource.node_id t)) as [pe|] eqn:Ep; cbn; (split; [done|]).
    + right. exists (PathKey (Resource.node_id f) (Resource.node_id t)), pe. split; [by exists f, t|]. split; [by apply Hk|done].
    + left. split; [done|]. by intros key (f' & t' & [= <-] & [= <-] & _ & ->).
Qed.
Lemma plan_paths_evidence es acc :
  known_paths bs p0 acc.1 ->
  let out := (fold_left (plan_path bs rs req) es acc).2 in
  (forall pe, pe ∈ out -> pe ∈ acc.2 \/ exists e key, e ∈ es /\ crosses e key /\ path_known bs p0 key pe) /\
  (forall pe, pe ∈ acc.2 -> pe ∈ out) /\
  (forall e key, e ∈ es -> crosses e key -> is_Some (acc.1 !! key) -> exists pe, pe ∈ out /\ path_known bs p0 key pe).
Proof.
  revert acc. induction es as [|e es IH]; intros acc Hk; cbn [fold_left]; [split_and!; [auto|auto|by intros e key ?%elem_of_nil]|].
  pose proof (plan_path_known acc e Hk) as Hk'. destruct (IH _ Hk') as (H1 & H2 & H3).
  destruct (plan_path_cases acc e Hk) as [Hm Hc]. split_and!.
  - intros pe Hpe. destruct (H1 pe Hpe) as [Hin|(e' & key & He' & Hcr & Hkn)]; [|right; exists e', key; split; [by right|done]].
    destruct Hc as [[Ho _]|(key & pe0 & Hcr & Hkn & Ho)]; rewrite Ho in Hin; [by left|].
    apply elem_of_app in Hin as [?| ->%list_elem_of_singleton]; [by left|]. right. exists e, key. split; [by left|done].
  - intros pe Hpe. apply H2. destruct Hc as [[-> _]|(key & pe0 & _ & _ & ->)]; [done|]. apply elem_of_app. by left.
  - intros e' key [->|He']%elem_of_cons Hcr Hkey; [|by apply (H3 e' key); auto].
    destruct Hc as [[_ Hno]|(key' & pe0 & Hcr' & Hkn & Ho)]; [rewrite (Hno key Hcr) in Hkey; by destruct Hkey|].
    assert (key' = key) as -> by (destruct Hcr as (f & t & Hf & Ht & _ & ->), Hcr' as (f' & t' & Hf' & Ht' & _ & ->); by simplify_eq).
    exists pe0. split; [|done]. apply H2. rewrite Ho. apply elem_of_app. right. by left.
Qed.

(** The candidate that the current best plan stands for. *)
Definition plan_for (combos : list (list ResourceId)) (plan : CompositionPlan.t) : Prop :=
  exists combo set paths, combo ∈ combos /\ known_paths bs p0 paths /\
    feasible_set rs paths req ds combo = Some set /\
    CompositionPlan.graph plan = BuildGraph req set /\ CompositionPlan.request plan = req /\
    CompositionPlan.rank plan = Rank set /\
    CompositionPlan.paths plan = (fold_left (plan_path bs rs req) (ResourceGraph.edges (BuildGraph req set)) (paths, [])).2.

Lemma evaluate_inv combos all acc :
  (forall c, c ∈ combos -> c ∈ all) -> known_paths bs p0 acc.1 -> (forall plan, acc.2 = Some plan -> plan_for all plan) ->
  let acc' := fold_left (evaluate bs rs req ds) combos acc in
  known_paths bs p0 acc'.1 /\ forall plan, acc'.2 = Some plan -> plan_for all plan.
Proof.
  revert acc. induction combos as [|combo combos IH]; intros [paths best] Hin Hk Hbest; [done|]. cbn [fold_left].
  apply IH; [intros; apply Hin; by right| |]; unfold evaluate; cbn in Hk, Hbest;
    (destruct (feasible_set rs paths req ds combo) as [set|] eqn:Hf; [|done]); destruct (dlt _ _); try done;
    pose proof (fold_plan_path_known (ResourceGraph.edges (BuildGraph req set)) (paths, []) Hk) as Hk';
    destruct (fold_left (plan_path bs rs req) _ _) as [paths' pes] eqn:Hfold; [done|].
  intros plan [= <-]. exists combo, set, paths. rewrite Hfold. split; [apply Hin; by left|done].
Qed.

Lemma feasible_set_spec paths combo set :
  feasible_set rs paths req ds combo = Some set ->
  mapM (fun rid => rs !! rid) combo = Some set /\
  (forall d, d ∈ ds -> MeetsDemand (filter (fun r => Resource.resource_class r = cls d) set) d = true) /\
  ValidateGraph (BuildGraph req set) rs paths = None /\ ValidateFailureDomains set req = None /\
  (CompositionRequest.require_coherence req = true ->
    forall r, r ∈ set -> CapabilitySupported r CapabilityKind.COHERENT_MEMORY_ACCESS = true).
Proof.
  unfold feasible_set. destruct (mapM _ combo) as [set'|]; [|done].
  destruct (_ && _ && _ && _) eqn:E; [|done]. intros [= <-].
  apply andb_true_iff in E as [[[Hd Hg]%andb_true_iff Hf]%andb_true_iff Hc].
  apply bool_decide_eq_true_1 in Hg, Hf. split_and!; try done.
  - intros d Hin. rewrite forallb_forall in Hd. by apply Hd, list_elem_of_In.
  - intros Hco r Hr. rewrite Hco in Hc. cbn in Hc. rewrite forallb_forall in Hc. by apply Hc, list_elem_of_In.
Qed.
End evaluate.

(** ** What a plan promises *)
Record sound_plan (s : Impl.t) (req : CompositionRequest.t) (plan : CompositionPlan.t) (set : list Resource.t) : Prop := {
  sp_members : mapM (fun rid => Impl.resources s !! rid) (ResourceGraph.vertices (CompositionPlan.graph plan)) = Some set;
  sp_nodup : NoDup (ResourceGraph.vertices (CompositionPlan.graph plan));
  sp_eligible : forall r, r ∈ set -> ResourceEligible r req = None;
  sp_demands : forall d, d ∈ ComputeDemands req -> mandatory d = true ->
    MeetsDemand (filter (fun r => Resource.resource_class r = cls d) set) d = true;
  sp_links : forall e, e ∈ ResourceGraph.edges (CompositionPlan.graph plan) <->
    exists a b k, a ∈ set /\ b ∈ set /\ Resource.id a <> Resource.id b /\ k ∈ required_links a b /\ e = link_edge req a b k;
  sp_paths : forall a b, a ∈ set -> b ∈ set -> required_links a b <> [] ->
    Resource.node_id a <> Resource.node_id b -> exists pe,
      path_known (Impl.backends s) (Impl.paths s) (PathKey (Resource.node_id a) (Resource.node_id b)) pe /\
      usable (required_links a b) req pe;
  sp_recorded : forall a b, a ∈ set -> b ∈ set -> required_links a b <> [] ->
    Resource.node_id a <> Resource.node_id b -> exists pe, pe ∈ CompositionPlan.paths plan /\
      path_known (Impl.backends s) (Impl.paths s) (PathKey (Resource.node_id a) (Resource.node_id b)) pe;
  sp_recorded_only : forall pe, pe ∈ CompositionPlan.paths plan -> exists a b, a ∈ set /\ b ∈ set /\ required_links a b <> [] /\
    Resource.node_id a <> Resource.node_id b /\
    path_known (Impl.backends s) (Impl.paths s) (PathKey (Resource.node_id a) (Resource.node_id b)) pe;
  sp_domains : ValidateFailureDomains set req = None;
  sp_coherent : CompositionRequest.require_coherence req = true ->
    forall r, r ∈ set -> CapabilitySupported r CapabilityKind.COHERENT_MEMORY_ACCESS = true;
  sp_rank : CompositionPlan.rank plan = Rank set;
  sp_id : CompositionPlan.id plan = Id (Impl.next_comp s);
  sp_lifecycle : CompositionPlan.lifecycle plan = CompositionLifecycle.PLANNED;
  sp_request : CompositionPlan.request plan = req;
  sp_epoch : AuthorityTuple.coordinator_epoch (CompositionPlan.authority plan) = epoch s;
  sp_generations : AuthorityTuple.resource_generations (CompositionPlan.authority plan) = Resource.generation <$> set;
}.

Lemma registered_nodup rs : keys_ok rs -> NoDup (Resource.id <$> (map_to_list rs).*2).
Proof.
  intros Hk. assert (Heq : Resource.id <$> (map_to_list rs).*2 = (map_to_list rs).*1); [|rewrite Heq; apply NoDup_fst_map_to_list].
  rewrite <-list_fmap_compose. apply list_fmap_ext. intros i [k r] Hi%list_elem_of_lookup_2%elem_of_map_to_list. by apply Hk.
Qed.

Lemma candidates_elem rs req d r : r ∈ candidates rs req d -> r ∈ rs /\ ResourceEligible r req = None.
Proof.
  unfold candidates. rewrite elem_of_isort, list_elem_of_filter. intros [[He _] Hin]. split; [done|].
  unfold eligible in He. by destruct (ResourceEligible r req).
Qed.
Lemma candidates_nodup rs req d : NoDup (Resource.id <$> rs) -> NoDup (Resource.id <$> candidates rs req d).
Proof.
  intros Hnd. unfold candidates. rewrite isort_permutation. eapply sublist_NoDup; [exact Hnd|].
  by apply fmap_sublist, sublist_filter.
Qed.

(** The members of a combination are registered, eligible and distinct. *)
Lemma combo_members rs0 req ds sels combos combo :
  keys_ok rs0 -> build_selections (map_to_list rs0).*2 req ds = inr sels -> product sels [[]] = Some combos ->
  combo ∈ combos ->
  NoDup combo /\ forall rid, rid ∈ combo -> exists r, rs0 !! rid = Some r /\ Resource.id r = rid /\ ResourceEligible r req = None.
Proof.
  intros Hk Hsel Hprod Hin. pose proof (registered_nodup _ Hk) as Hnd.
  destruct (build_selections_spec _ _ _ _ Hsel) as [_ Hpicks].
  destruct (product_spec _ _ _ _ Hprod Hin) as (c & ps & Hc%list_elem_of_singleton & -> & Hf & Hn). subst c. cbn [app] in *.
  assert (Hsub : forall pick sel, sel ∈ sels -> pick ∈ sel.2 ->
    sublist pick (Resource.id <$> candidates (map_to_list rs0).*2 req sel.1)).
  { intros pick [d picks] Hs Hp. rewrite (Hpicks d picks Hs) in Hp. by eapply EnumerateSelections_spec. }
  split.
  - apply Hn; [constructor|]. intros pick sel Hs Hp. eapply sublist_NoDup; [|by eapply Hsub]. by apply candidates_nodup.
  - intros rid (pick & Hp & Hrid)%list_elem_of_In%in_concat.
    apply list_elem_of_In, list_elem_of_lookup in Hp as [i Hi]. destruct (Forall2_lookup_r _ _ _ _ _ Hf Hi) as (sel & Hs & Hpk).
    apply list_elem_of_In in Hrid. eapply elem_of_sublist in Hrid; [|eapply Hsub; [by eapply list_elem_of_lookup_2|done]].
    apply list_elem_of_fmap in Hrid as (r & -> & Hr). apply candidates_elem in Hr as [Hr He]. exists r.
    apply list_elem_of_fmap in Hr as ([k r'] & -> & Hkr%elem_of_map_to_list). cbn in *. by rewrite (Hk _ _ Hkr).
Qed.

Lemma mapM_ids rs combo set :
  keys_ok rs -> mapM (fun rid => rs !! rid) combo = Some set ->
  Resource.id <$> set = combo /\ (forall r, r ∈ set -> rs !! Resource.id r = Some r) /\
  omap (fun rid => rs !! rid) combo = set.
Proof.
  intros Hk Hm. apply mapM_Some in Hm. induction Hm as [|rid r combo set Hr Hm (IH1 & IH2 & IH3)]; [split_and!; try done|].
  { intros r Hr. by apply elem_of_nil in Hr. }
  split_and!.
  - rewrite fmap_cons, IH1. by rewrite (Hk _ _ Hr).
  - intros r' [->|Hin]%elem_of_cons; [|auto]. by rewrite (Hk _ _ Hr).
  - cbn. by rewrite Hr, IH3.
Qed.

(** The success branch of [ComposeOrdered]. *)
Lemma ComposeOrdered_success rs req s :
  is_success (cr_outcome (ComposeOrdered rs req s).1) = true ->
  exists sels combos paths plan0,
    build_selections rs req (ComputeDemands req) = inr sels /\ product sels [[]] = Some combos /\
    fold_left (evaluate (Impl.backends s) (Impl.resources s) req sels.*1) combos (Impl.paths s, None) = (paths, Some plan0) /\
    let gen := Id (Impl.next_comp s) in
    let set2 := omap (fun rid => Impl.resources s !! rid) (ResourceGraph.vertices (CompositionPlan.graph plan0)) in
    cr_plan (ComposeOrdered rs req s).1 = plan0
      <| CompositionPlan.generation := gen |> <| CompositionPlan.id := Id (Impl.next_comp s) |>
      <| CompositionPlan.authority := MakeAuthority gen req set2 (Impl.nodes s) paths (epoch s) |>
      <| CompositionPlan.lifecycle := CompositionLifecycle.PLANNED |>.
Proof.
  unfold ComposeOrdered. destruct (build_selections _ _ _) as [note|[|sel sels]]; [done..|].
  destruct (product _ _) as [combos|] eqn:Hp; [|done].
  destruct (fold_left _ _ _) as [paths [plan|]] eqn:Hf; [|done]. intros _. by exists (sel :: sels), combos, paths, plan.
Qed.

(** The cross-node edges of the graph are the links between members on different
    nodes. *)
Lemma link_crosses req set rs a b :
  (forall r, r ∈ set -> rs !! Resource.id r = Some r) -> a ∈ set -> b ∈ set -> required_links a b <> [] ->
  Resource.node_id a <> Resource.node_id b ->
  exists e, e ∈ ResourceGraph.edges (BuildGraph req set) /\ crosses rs e (PathKey (Resource.node_id a) (Resource.node_id b)).
Proof.
  intros Hset Ha Hb Hl Hn. destruct (required_links a b) as [|k ks] eqn:El; [done|]. exists (link_edge req a b k). split.
  - apply BuildGraph_links. exists a, b, k. rewrite El. split_and!; try done; [|by left].
    intros Heq. pose proof (Hset a Ha) as H1. rewrite Heq, (Hset b Hb) in H1. congruence.
  - exists a, b. cbn. split_and!; try done; by apply Hset.
Qed.
Lemma crosses_link req set rs e key :
  (forall r, r ∈ set -> rs !! Resource.id r = Some r) -> e ∈ ResourceGraph.edges (BuildGraph req set) -> crosses rs e key ->
  exists a b, a ∈ set /\ b ∈ set /\ required_links a b <> [] /\ Resource.node_id a <> Resource.node_id b /\
    key = PathKey (Resource.node_id a) (Resource.node_id b).
Proof.
  intros Hset He (f & t & Hf & Ht & Hn & ->). apply BuildGraph_links in He as (a & b & k & Ha & Hb & _ & Hk & ->). cbn in Hf, Ht.
  rewrite (Hset a Ha) in Hf. rewrite (Hset b Hb) in Ht. simplify_eq. exists f, t. split_and!; try done.
  intros El. rewrite El in Hk. by apply elem_of_nil in Hk.
Qed.

Lemma Compose_sound req s :
  keys_ok (Impl.resources s) -> is_success (cr_outcome (Compose req s).1) = true ->
  exists set, sound_plan s req (cr_plan (Compose req s).1) set.
Proof.
  intros Hk Hok. destruct (ComposeOrdered_success _ _ _ Hok) as (sels & combos & paths & plan & Hsel & Hprod & Hfold & Heq).
  unfold Compose, ComposeDeterministic. rewrite Heq. clear Heq Hok.
  destruct (evaluate_inv (Impl.backends s) (Impl.resources s) req sels.*1 (Impl.paths s) combos combos (Impl.paths s, None))
    as [_ Hplan]; [done|intros key pe; by left|done|]. rewrite Hfold in Hplan.
  destruct (Hplan plan eq_refl) as (combo & set & paths1 & Hin & Hkn & Hfeas & Hg & Hreq & Hrank & Hpaths). clear Hplan.
  destruct (feasible_set_spec _ _ _ _ _ _ Hfeas) as (Hm & Hd & Hval & Hfd & Hco).
  destruct (combo_members _ _ _ _ _ _ Hk Hsel Hprod Hin) as [Hnd Hmem].
  destruct (mapM_ids _ _ _ Hk Hm) as (Hids & Hset & Hom).
  assert (Hv : ResourceGraph.vertices (CompositionPlan.graph plan) = combo)
    by (rewrite Hg, BuildGraph_vertices, Hids; [done|by rewrite Hids]).
  destruct (build_selections_spec _ _ _ _ Hsel) as [Hfst _].
  destruct (plan_paths_evidence (Impl.backends s) (Impl.resources s) req (Impl.paths s) (ResourceGraph.edges (BuildGraph req set)) (paths1, []) Hkn)
    as (Hev1 & _ & Hev3).
  exists set. split; try done; cbn [CompositionPlan.graph CompositionPlan.rank CompositionPlan.authority CompositionPlan.request
    AuthorityTuple.resource_generations set_field]; rewrite ?Hv, ?Hom; try done.
  - intros r Hr. destruct (Hmem (Resource.id r)) as (r' & Hr' & _ & He).
    { rewrite <-Hids. apply list_elem_of_fmap. by exists r. } rewrite (Hset r Hr) in Hr'. by simplify_eq.
  - intros d Hdin Hmand. apply Hd. rewrite Hfst. by apply list_elem_of_filter.
  - intros e. rewrite Hg. apply BuildGraph_links.
  - intros a b Ha Hb Hl Hn. destruct (link_paths req set (Impl.resources s) paths1 a b) as (pe & Hpe & Hu); try done.
    exists pe. split; [by apply Hkn|done].
  - intros a b Ha Hb Hl Hn. destruct (link_paths req set (Impl.resources s) paths1 a b) as (pe & Hpe & Hu); try done.
    destruct (link_crosses req set (Impl.resources s) a b Hset Ha Hb Hl Hn) as (e & He & Hcr). cbn. rewrite Hpaths.
    by apply (Hev3 e); [| |eexists].
  - intros pe Hpe. cbn in Hpe. rewrite Hpaths in Hpe. destruct (Hev1 pe Hpe) as [?%elem_of_nil|(e & key & He & Hcr & Hk')]; [done|].
    destruct (crosses_link req set (Impl.resources s) e key Hset He Hcr) as (a & b & Ha & Hb & Hl & Hn & ->). by exists a, b.
Qed.

(** The number of combinations that [Compose] evaluates. *)
Lemma Compose_combos_bound rs req sels combos :
  build_selections rs req (ComputeDemands req) = inr sels -> product sels [[]] = Some combos ->
  (length combos <= 400)%nat /\ forall d picks, (d, picks) ∈ sels -> (length picks <= 24)%nat.
Proof.
  intros Hsel Hprod. split; [eapply (product_bound sels [[]]); [|done]; cbn; unfold kComboCap; lia|].
  intros d picks Hin. destruct (build_selections_spec _ _ _ _ Hsel) as [_ Hp]. rewrite (Hp d picks Hin).
  apply EnumerateSelections_bound.
Qed.

(** ** The best-ranked feasible combination *)

(** Two pieces of path evidence that validation cannot tell apart. *)
Definition pe_equiv (p q : PathEvidence.t) : Prop :=
  PathEvidence.verified p = PathEvidence.verified q /\ PathEvidence.available p = PathEvidence.available q /\
  PathEvidence.evidence p = PathEvidence.evidence q /\ PathEvidence.bandwidth_mbps p = PathEvidence.bandwidth_mbps q /\
  PathEvidence.latency_us p = PathEvidence.latency_us q.
Definition paths_equiv (m m' : gmap string PathEvidence.t) : Prop := forall key, option_Forall2 pe_equiv (m !! key) (m' !! key).

#[export] Instance pe_equiv_equivalence : Equivalence pe_equiv.
Proof. unfold pe_equiv. split; red; intuition congruence. Qed.
#[export] Instance paths_equiv_equivalence : Equivalence paths_equiv.
Proof.
  split.
  - intros m key. by destruct (m !! key); constructor.
  - intros m m' H key. specialize (H key). destruct H; constructor. by symmetry.
  - intros a b c H1 H2 key. specialize (H1 key). specialize (H2 key). destruct H1; inversion H2; subst; constructor. by etrans.
Qed.

#[export] Instance ValidateEdge_proper e rs : Proper (paths_equiv ==> eq) (ValidateEdge e rs).
Proof.
  intros m m' H. unfold ValidateEdge. destruct (rs !! _) as [f|]; [|done]. destruct (rs !! _) as [t|]; [|done].
  destruct (id_eqb _ _); [done|]. specialize (H (PathKey (Resource.node_id f) (Resource.node_id t))).
  destruct H as [p q (-> & -> & -> & -> & ->)|]; done.
Qed.
#[export] Instance ValidateGraph_proper g rs : Proper (paths_equiv ==> eq) (ValidateGraph g rs).
Proof.
  intros m m' H. unfold ValidateGraph. induction (ResourceGraph.edges g) as [|e es IH]; cbn; [done|].
  by rewrite H, IH.
Qed.
#[export] Instance feasible_set_proper rs : Proper (paths_equiv ==> eq ==> eq ==> eq ==> eq) (feasible_set rs).
Proof.
  intros m m' H req ? <- ds ? <- combo ? <-. unfold feasible_set. destruct (mapM _ combo) as [set|]; [|done].
  by rewrite (ValidateGraph_proper (BuildGraph req set) rs m m' H).
Qed.

(** What a backend promises the planner: resolving a path again gives evidence
    equivalent to what discovery stored. *)
Class StablePaths (bs : list Backend) (paths : gmap string PathEvidence.t) : Prop := stable_paths :
  forall pr pe, resolve_first bs pr = Some pe ->
    exists pe0, paths !! PathKey (PathRequirement.from pr) (PathRequirement.to pr) = Some pe0 /\ pe_equiv pe0 pe.

Section best.
Context (bs : list Backend) (rs : gmap ResourceId Resource.t) (req : CompositionRequest.t) (ds : list ClassDemand)
  (p0 : gmap string PathEvidence.t) `{Hstable : !StablePaths bs p0}.

Lemma plan_path_equiv acc e : paths_equiv p0 acc.1 -> paths_equiv p0 (plan_path bs rs req acc e).1.
Proof.
  destruct acc as [paths out]. unfold plan_path. cbn. intros Hk.
  destruct (rs !! _) as [f|]; [|done]. destruct (rs !! _) as [t|]; [|done]. destruct (id_eqb _ _); [done|].
  destruct (resolve_first bs _) as [pe|] eqn:E; [|by destruct (paths !! _)]. cbn. intros key. rewrite lookup_insert.
  case_decide; [|apply Hk]. subst. destruct (Hstable _ _ E) as (pe0 & Hpe0 & He). cbn in Hpe0. rewrite Hpe0. by constructor.
Qed.
Lemma fold_plan_path_equiv es acc :
  paths_equiv p0 acc.1 -> paths_equiv p0 (fold_left (plan_path bs rs req) es acc).1.
Proof. revert acc. induction es as [|e es IH]; intros acc Hk; cbn; [done|]. by apply IH, plan_path_equiv. Qed.

Lemma dlt_max best final total :
  is_nan best = false -> dlt final best = false -> dlt best total = false -> dlt final total = false.
Proof.
  intros Hb H1 H2. destruct (dlt final total) eqn:E; [|done]. destruct (dlt_not_nan _ _ E) as [Hf Ht].
  apply not_true_iff_false in H1, H2. rewrite dlt_key in * by done.
  destruct (key_trichotomy (dkey best) (dkey total)) as [?|[Heq|Hlt]]; [done| |].
  - by rewrite Heq in H1.
  - destruct H1. by eapply key_lt_trans.
Qed.

(** The best total never decreases, and no feasible combination beats it. *)
Lemma evaluate_best combos acc :
  paths_equiv p0 acc.1 -> is_nan (best_total acc.2) = false ->
  let final := best_total (fold_left (evaluate bs rs req ds) combos acc).2 in
  is_nan final = false /\ dlt final (best_total acc.2) = false /\
  forall combo set, combo ∈ combos -> feasible_set rs p0 req ds combo = Some set ->
    dlt final (RankScore.total (Rank set)) = false.
Proof.
  revert acc. induction combos as [|combo combos IH]; intros [paths best] Hk Hn; cbv zeta; cbn [fold_left fst snd] in *.
  { split_and!; [done|apply dlt_irrefl|by intros ?? ?%elem_of_nil]. }
  assert (Hstep : exists acc', evaluate bs rs req ds (paths, best) combo = acc' /\ paths_equiv p0 acc'.1 /\
    is_nan (best_total acc'.2) = false /\ dlt (best_total acc'.2) (best_total best) = false /\
    forall set, feasible_set rs p0 req ds combo = Some set -> dlt (best_total acc'.2) (RankScore.total (Rank set)) = false).
  { eexists. split; [done|]. unfold evaluate. rewrite (feasible_set_proper rs _ _ Hk req req eq_refl ds ds eq_refl combo combo eq_refl).
    destruct (feasible_set rs paths req ds combo) as [set|] eqn:Hf;
      [|split_and!; try done; apply dlt_irrefl].
    destruct (dlt (best_total best) _) eqn:Hgt; [|split_and!; try done; [apply dlt_irrefl|by intros ? [= <-]]].
    pose proof (fold_plan_path_equiv (ResourceGraph.edges (BuildGraph req set)) (paths, []) Hk) as Hk'.
    destruct (fold_left (plan_path bs rs req) _ _) as [paths' pes]. cbn [fst snd best_total CompositionPlan.rank set_field].
    split_and!; [done|by apply dlt_not_nan in Hgt as [_ ?]| |intros ? [= <-]; apply dlt_irrefl].
    destruct (dlt (RankScore.total (Rank set)) (best_total best)) eqn:E; [|done].
    pose proof (dlt_trans _ _ _ Hgt E) as H. by rewrite dlt_irrefl in H. }
  destruct Hstep as (acc' & -> & Hk' & Hn' & Hge & Hcombo). destruct (IH acc' Hk' Hn') as (Hnf & Hmono & Hall).
  split_and!; [done|by apply (dlt_max (best_total acc'.2))|]. intros combo' set [->|Hin]%elem_of_cons Hf; [|by eapply Hall].
  apply (dlt_max (best_total acc'.2)); auto.
Qed.
End best.
