(* ===== verification/Contract.v ===== *)
(** * The contract between backends and the engine

    [backend.hpp] gives the engine three calls.  [BackendContract] states what
    planning relies on: a path depends on its end points only, and paths join
    distinct nodes that the backend discovers.  Under the contract [Discover]
    stores, for every path a backend can resolve, evidence equivalent to what it
    resolves later ([Discover_stable]), which is the [StablePaths] interface that
    the planner's optimality is proved against.  The synthetic backend
    implements the contract, whatever its simulation controls did to it, as long
    as no node was removed. *)

From S2P Require Import Prelude Enums Ids Double Model Planner Engine Synthetic Lifecycle Compose.

Class BackendContract (b : Backend) : Prop := {
  bc_endpoints : forall q q', PathRequirement.from q = PathRequirement.from q' ->
    PathRequirement.to q = PathRequirement.to q' -> option_Forall2 pe_equiv (ResolvePath b q) (ResolvePath b q');
  bc_nodes : forall q pe, ResolvePath b q = Some pe -> PathRequirement.from q <> PathRequirement.to q /\
    forall x, x = PathRequirement.from q \/ x = PathRequirement.to q ->
      IsValid x = true /\ exists n, n ∈ DiscoverNodes b /\ Node.id n = x;
}.

(** ** The engine's side *)
Lemma resolve_first_None bs q pe :
  fold_left (fun acc b => match acc with Some pe => Some pe | None => ResolvePath b q end) bs (Some pe) = Some pe.
Proof. induction bs as [|b bs IH]; cbn; [done|exact IH]. Qed.

Lemma resolve_first_cons b bs q :
  resolve_first (b :: bs) q = match ResolvePath b q with Some pe => Some pe | None => resolve_first bs q end.
Proof. unfold resolve_first. cbn. destruct (ResolvePath b q); [apply resolve_first_None|done]. Qed.

Lemma resolve_first_endpoints bs q q' :
  Forall BackendContract bs -> PathRequirement.from q = PathRequirement.from q' ->
  PathRequirement.to q = PathRequirement.to q' -> option_Forall2 pe_equiv (resolve_first bs q) (resolve_first bs q').
Proof.
  intros Hbs Hf Ht. induction Hbs as [|b bs Hb Hbs IH]; [constructor|]. rewrite !resolve_first_cons.
  by destruct (bc_endpoints q q' Hf Ht); [constructor|].
Qed.

Lemma resolve_first_backend bs q pe : resolve_first bs q = Some pe -> exists b, b ∈ bs /\ ResolvePath b q = Some pe.
Proof.
  induction bs as [|b bs IH]; [done|]. rewrite resolve_first_cons. destruct (ResolvePath b q) eqn:E.
  - intros [= <-]. exists b. split; [by left|done].
  - intros (b' & ? & ?)%IH. exists b'. split; [by right|done].
Qed.

(** Discovery registers every node of every backend. *)
Definition nodes_kept (s s' : Impl.t) : Prop := forall x, is_Some (Impl.nodes s !! x) -> is_Some (Impl.nodes s' !! x).

Lemma nodes_kept_trans a b c : nodes_kept a b -> nodes_kept b c -> nodes_kept a c.
Proof. unfold nodes_kept. auto. Qed.
Lemma IngestNode_nodes n s :
  nodes_kept s (IngestNodeLocked n s) /\ (IsValid (Node.id n) = true -> is_Some (Impl.nodes (IngestNodeLocked n s) !! Node.id n)).
Proof.
  unfold IngestNodeLocked. destruct (IsValid (Node.id n)); cbn [negb]; [|by split; [intros ?|]].
  assert (Hn : forall b : bool, Impl.nodes (if b then s <| Impl.compositions ::= fmap invalidate_on_generation |> else s) = Impl.nodes s)
    by (by intros []).
  split; [intros x Hx|intros _]; cbn; rewrite Hn, lookup_insert; [case_decide; eauto|]. rewrite decide_True by done. eauto.
Qed.
Lemma IngestResource_nodes r s : Impl.nodes (IngestResourceLocked r s) = Impl.nodes s.
Proof. unfold IngestResourceLocked. by repeat case_match. Qed.
Lemma nodes_kept_resource r s : nodes_kept s (IngestResourceLocked r s).
Proof. intros x. by rewrite IngestResource_nodes. Qed.

Lemma fold_ingest_nodes ns n s :
  n ∈ ns -> IsValid (Node.id n) = true ->
  is_Some (Impl.nodes (fold_left (fun s n => IngestNodeLocked n s) ns s) !! Node.id n).
Proof.
  intros Hin Hv. revert s. induction ns as [|n' ns IH]; intros s; [by apply elem_of_nil in Hin|]. cbn [fold_left].
  apply elem_of_cons in Hin as [<-|Hin]; [|auto].
  apply (fold_ingest_node_ind nodes_kept); [by intros ? ?|exact nodes_kept_trans|intros; apply IngestNode_nodes|].
  by apply IngestNode_nodes.
Qed.

Lemma discover_backend_nodes acc b n :
  n ∈ DiscoverNodes b -> IsValid (Node.id n) = true -> is_Some (Impl.nodes (discover_backend acc b).1 !! Node.id n).
Proof.
  intros Hin Hv. destruct acc as [s out]. unfold discover_backend.
  set (s1 := fold_left _ (DiscoverNodes b) s).
  pose proof (fold_discover_resource_ind nodes_kept (fun s x H => H) nodes_kept_trans nodes_kept_resource
    (DiscoverResources b) (s1, [])) as H.
  destruct (fold_left discover_resource _ _) as [s2 rs]. apply H. by apply fold_ingest_nodes.
Qed.

Lemma fold_discover_nodes bs acc b n :
  b ∈ bs -> n ∈ DiscoverNodes b -> IsValid (Node.id n) = true ->
  is_Some (Impl.nodes (fold_left discover_backend bs acc).1 !! Node.id n).
Proof.
  intros Hb Hn Hv. revert acc. induction bs as [|b' bs IH]; intros acc; [by apply elem_of_nil in Hb|]. cbn [fold_left].
  apply elem_of_cons in Hb as [<-|Hb]; [|auto]. clear IH.
  assert (Hkept : forall bs acc, nodes_kept acc.1 (fold_left discover_backend bs acc).1).
  { clear. induction bs as [|b bs IH]; intros acc; [by intros ?|]. cbn. eapply nodes_kept_trans; [|apply IH].
    apply discover_backend_ind; [by intros ??|exact nodes_kept_trans|intros; apply IngestNode_nodes|apply nodes_kept_resource]. }
  apply Hkept. by apply discover_backend_nodes.
Qed.

(** The path loop stores what the backends resolve. *)
Definition path_query (a b : NodeId) : PathRequirement.t :=
  PathRequirement.dflt <| PathRequirement.from := a |> <| PathRequirement.to := b |> <| PathRequirement.required := true |>.

Lemma discover_path_lookup bs l paths a b pe :
  a <> b -> resolve_first bs (path_query a b) = Some pe ->
  (a, b) ∈ l \/ paths !! PathKey a b = Some pe ->
  fold_left (discover_path bs) l paths !! PathKey a b = Some pe.
Proof.
  intros Hne Hpe. revert paths. induction l as [|[a' b'] l IH]; intros paths; cbn [fold_left].
  { by intros [?%elem_of_nil|]. }
  intros Hin. apply IH. destruct (decide ((a, b) ∈ l)) as [|Hnl]; [by left|]. right. unfold discover_path. cbv zeta.
  change (PathRequirement.dflt <| PathRequirement.from := a' |> <| PathRequirement.to := b' |>
    <| PathRequirement.required := true |>) with (path_query a' b').
  destruct (decide ((a', b') = (a, b))) as [[= -> ->]|Hneq].
  - rewrite (proj2 (id_eqb_neq _ _)) by done. rewrite Hpe. by rewrite lookup_insert_eq.
  - assert (Hold : paths !! PathKey a b = Some pe).
    { destruct Hin as [[Heq|?]%elem_of_cons|]; [congruence|done|done]. }
    destruct (id_eqb a' b'); [done|]. destruct (resolve_first bs (path_query a' b')); [|done].
    rewrite lookup_insert_ne; [done|]. intros [-> ->]%PathKey_inj. done.
Qed.

Lemma Discover_backends s : Impl.backends (Discover s).2 = Impl.backends s.
Proof.
  apply (Discover_ind (fun s s' => Impl.backends s' = Impl.backends s)); try done.
  - intros a b c H1 H2. by rewrite H2, H1.
  - intros n s0. unfold IngestNodeLocked. by repeat case_match.
  - intros r s0. unfold IngestResourceLocked. by repeat case_match.
Qed.

Lemma Discover_stable s :
  Forall BackendContract (Impl.backends s) -> StablePaths (Impl.backends (Discover s).2) (Impl.paths (Discover s).2).
Proof.
  intros Hbs pr pe Hpe. rewrite Discover_backends in Hpe. unfold Discover.
  assert (Hback : forall acc, Impl.backends acc.1 = Impl.backends s ->
    Impl.backends (fold_left discover_backend (Impl.backends s) acc).1 = Impl.backends s).
  { intros acc H0. rewrite <-H0 at 2. generalize (Impl.backends s). clear. intros bs. revert acc.
    induction bs as [|b bs IH]; intros acc; [done|]. cbn. rewrite IH.
    apply (discover_backend_ind (fun s s' => Impl.backends s' = Impl.backends s)); try done;
      [intros a b' c H1 H2; by rewrite H2, H1| |]; intros x s0;
      [unfold IngestNodeLocked|unfold IngestResourceLocked]; by repeat case_match. }
  destruct (resolve_first_backend _ _ _ Hpe) as (b & Hb & Hres). rewrite Forall_forall in Hbs.
  destruct (Hbs b Hb) as [_ Hnodes]. destruct (Hnodes pr pe Hres) as [Hne Hreg].
  assert (Hin : forall x, x = PathRequirement.from pr \/ x = PathRequirement.to pr ->
    x ∈ (map_to_list (Impl.nodes (fold_left discover_backend (Impl.backends s) (s, mkDiscoveryResult [] [])).1)).*1).
  { intros x Hx. destruct (Hreg x Hx) as (Hv & n & Hn & <-).
    destruct (fold_discover_nodes _ (s, mkDiscoveryResult [] []) _ _ Hb Hn Hv) as [n' Hn'].
    apply list_elem_of_fmap. exists (Node.id n, n'). split; [done|by apply elem_of_map_to_list]. }
  specialize (Hback (s, mkDiscoveryResult [] []) eq_refl).
  destruct (fold_left discover_backend _ _) as [s1 out]. cbn [fst snd] in *. unfold discover_paths. cbn [Impl.paths set_field].
  rewrite Hback.
  pose proof (resolve_first_endpoints (Impl.backends s) (path_query (PathRequirement.from pr) (PathRequirement.to pr)) pr) as Heq.
  rewrite Hpe in Heq. specialize (Heq (proj2 (Forall_forall _ _) Hbs) eq_refl eq_refl). inversion Heq as [pe0 ? Hequiv Hq|]; subst.
  exists pe0. split; [|done]. apply discover_path_lookup; [done|done|]. left.
  apply list_elem_of_bind. exists (PathRequirement.from pr). split; [|by apply Hin; left].
  apply list_elem_of_bind. exists (PathRequirement.to pr). split; [|by apply Hin; right]. by left.
Qed.

(** ** The synthetic backend's side *)
Definition synthetic_wf (b : Synthetic.t) : Prop :=
  forall key p, Synthetic.paths_ b !! key = Some p -> exists n n', n ∈ Synthetic.nodes_ b /\ n' ∈ Synthetic.nodes_ b /\
    key = PathKey (Node.id n) (Node.id n') /\ Node.id n <> Node.id n' /\
    IsValid (Node.id n) = true /\ IsValid (Node.id n') = true.

#[export] Instance SyntheticBackend_contract b : synthetic_wf b -> BackendContract (Synthetic.as_backend b).
Proof.
  intros Hwf. split; cbn [ResolvePath DiscoverNodes Synthetic.as_backend]; unfold Synthetic.ResolvePath.
  - intros q q' -> ->. destruct (Synthetic.paths_ b !! _) as [p|]; [|constructor].
    destruct (ps_available p); [|constructor]. by constructor.
  - intros q pe. destruct (Synthetic.paths_ b !! _) as [p|] eqn:Hp; [|done]. intros _.
    destruct (Hwf _ _ Hp) as (n & n' & Hn & Hn' & Hkey & Hne & Hv & Hv'). apply PathKey_inj in Hkey as [-> ->].
    split; [done|]. intros x [->| ->]; eauto.
Qed.

Lemma synthetic_wf_nodes b b' :
  Node.id <$> Synthetic.nodes_ b' = Node.id <$> Synthetic.nodes_ b ->
  (forall key, is_Some (Synthetic.paths_ b' !! key) -> is_Some (Synthetic.paths_ b !! key)) ->
  synthetic_wf b -> synthetic_wf b'.
Proof.
  intros Hn Hp Hwf key p' Hp'. destruct (Hp key) as [p Hpk]; [eauto|].
  destruct (Hwf _ _ Hpk) as (n & n' & Hin & Hin' & -> & Hrest).
  assert (Hmem : forall m, m ∈ Synthetic.nodes_ b -> exists m', m' ∈ Synthetic.nodes_ b' /\ Node.id m' = Node.id m).
  { intros m Hm. assert (Hm' : Node.id m ∈ Node.id <$> Synthetic.nodes_ b') by (rewrite Hn; apply list_elem_of_fmap; by exists m).
    apply list_elem_of_fmap in Hm' as (m' & ? & ?). by exists m'. }
  destruct (Hmem _ Hin) as (m & Hm & Em), (Hmem _ Hin') as (m' & Hm' & Em').
  exists m, m'. rewrite Em, Em'. done.
Qed.

(** Every control but [RemoveNode] keeps the contract. *)
Lemma synthetic_controls b :
  synthetic_wf b ->
  (forall id h, synthetic_wf (Synthetic.SetResourceHealth id h b)) /\
  (forall id g, synthetic_wf (Synthetic.SetResourceGeneration id g b)) /\
  (forall id, synthetic_wf (Synthetic.SetResourceUnavailable id b)) /\
  (forall id h, synthetic_wf (Synthetic.SetNodeHealth id h b)) /\
  (forall f t a, synthetic_wf (Synthetic.SetPathAvailable f t a b)) /\
  (forall f t bw, synthetic_wf (Synthetic.SetPathBandwidth f t bw b)) /\
  (forall id g w, synthetic_wf (Synthetic.ReincarnateNode id g w b)).
Proof.
  intros Hwf.
  assert (Hfmap : forall (f : Node.t -> Node.t) (l : list Node.t), (forall n, Node.id (f n) = Node.id n) -> Node.id <$> (f <$> l) = Node.id <$> l).
  { intros f l Hf. rewrite <-list_fmap_compose. apply list_fmap_ext. intros i n _. apply Hf. }
  assert (Halter : forall f key (m : gmap string PathState) key', is_Some (alter f key m !! key') -> is_Some (m !! key')).
  { intros f key m key'. by rewrite lookup_alter_is_Some. }
  split_and!; intros; (eapply synthetic_wf_nodes; [| |exact Hwf]); cbn; try done; eauto;
    apply Hfmap; intros n; by case_match.
Qed.

Lemma SyntheticBackend_wf ng : synthetic_wf (Synthetic.SyntheticBackend ng).
Proof.
  intros key p Hp.
  assert (Hkeys : key ∈ (fun ab : N * N => PathKey (Id ab.1) (Id ab.2)) <$>
    [(3, 4); (4, 3); (2, 4); (4, 2); (4, 1); (1, 4); (3, 2); (2, 3); (3, 1); (1, 3); (2, 1); (1, 2)]).
  { cbn [Synthetic.SyntheticBackend Synthetic.paths_] in Hp. unfold Synthetic.addPath in Hp.
    rewrite !lookup_insert in Hp. cbn [fmap list_fmap fst snd].
    repeat (case_decide; [subst; repeat first [by left|right]|]). by rewrite lookup_empty in Hp. }
  apply list_elem_of_fmap in Hkeys as ([x y] & -> & Hxy). cbn [fst snd].
  assert (Hnode : forall i, i ∈ [1; 2; 3; 4] -> exists n, n ∈ Synthetic.nodes_ (Synthetic.SyntheticBackend ng) /\ Node.id n = Id i).
  { intros i Hi. cbn. rewrite !elem_of_cons in Hi. destruct Hi as [->|[->|[->|[->|Hi%elem_of_nil]]]]; [..|done]; eexists;
      (split; [rewrite !elem_of_cons|]).
    1: by left. 2: by right; left. 3: by right; right; left. 4: by right; right; right; left. all: done. }
  assert (Hx : x ∈ [1; 2; 3; 4] /\ y ∈ [1; 2; 3; 4] /\ x <> y /\ x <> 0 /\ y <> 0).
  { repeat (apply elem_of_cons in Hxy as [[= -> ->]|Hxy];
      [split_and!; try done; apply (bool_decide_eq_true_1 _); reflexivity|]). by apply elem_of_nil in Hxy. }
  destruct Hx as (Hx & Hy & Hne & Hx0 & Hy0). destruct (Hnode x Hx) as (n & Hn & En), (Hnode y Hy) as (n' & Hn' & En').
  exists n, n'. rewrite En, En'. split_and!; try done; [congruence|..]; unfold IsValid; cbn; by apply negb_true_iff, N.eqb_neq.
Qed.
