(* ===== verification/Ledger.v ===== *)
(** * The reservation ledger

    [reserved_amount] and the reservations, as an exclusive lock table.  The
    invariant [LedgerInv] ties the ledger to the live (PROVISIONAL or
    COMMITTED) reservations and the reservations to the compositions; every
    operation preserves it when holds are positive finite amounts, rolled-back
    reservations are not released again and state is only loaded into an engine
    whose ledger is empty ([disciplined]).  [lock_step] is the abstract lock
    table that the ledger refines. *)

From S2P Require Import Prelude Enums Ids Double Model Planner Engine Lifecycle.

Definition live (v : Reservation.t) : bool :=
  bool_decide (Reservation.state v = ReservationState.PROVISIONAL)
  || bool_decide (Reservation.state v = ReservationState.COMMITTED).

(** What the ledger holds for a resource, as the code reads it. *)
Definition held (m : gmap ResourceId double) (rid : ResourceId) : double := default d0 (m !! rid).

(** The code cannot distinguish a missing entry from an entry 0.0, so ledgers
    are compared by what they hold. *)
Definition ledger_eq (m m' : gmap ResourceId double) : Prop := forall rid, held m rid = held m' rid.
#[export] Instance ledger_eq_equivalence : Equivalence ledger_eq.
Proof. split; [by intros ??|by intros ????|]. intros x y z H1 H2 rid. by rewrite H1, H2. Qed.
#[export] Instance held_proper : Proper (ledger_eq ==> eq ==> eq) held.
Proof. by intros m m' Hm rid ? <-. Qed.

(** [v] holds [amt] of [rid]. *)
Definition holds (v : Reservation.t) (rid : ResourceId) (amt : double) : Prop :=
  (rid, amt) ∈ item_holds (Reservation.items v).

(** ** The ledger alone *)
Section release.
Implicit Types m : gmap ResourceId double.

Lemma held_pos m rid amt : dpos amt = true -> held m rid = amt -> m !! rid = Some amt.
Proof. unfold held. destruct (m !! rid); cbn; [by intros _ ->|]. by intros Hp <-. Qed.

Lemma release_hold_exact m rid amt j :
  dpos amt = true -> held m rid = amt -> held (release_hold m (rid, amt)) j = if decide (j = rid) then d0 else held m j.
Proof.
  intros Hp Hm. unfold release_hold. cbn. rewrite (held_pos m rid amt) by done.
  rewrite dsub_diag by (by apply dpos_finite). unfold held. cbn. rewrite lookup_delete.
  case_decide; case_decide; by subst.
Qed.

(** Holds that the ledger records exactly disappear from it. *)
Lemma release_holds_exact hs m :
  NoDup hs.*1 -> (forall rid amt, (rid, amt) ∈ hs -> dpos amt = true /\ held m rid = amt) ->
  forall j, held (release_holds hs m) j = if decide (j ∈ hs.*1) then d0 else held m j.
Proof.
  unfold release_holds. revert m. induction hs as [|[rid amt] hs IH]; intros m Hnd Hm j; [done|].
  rewrite fmap_cons in *. apply NoDup_cons in Hnd as [Hni Hnd]. cbn [fold_left fst] in *.
  destruct (Hm rid amt) as [Hf Hl]; [by left|].
  assert (Hj := release_hold_exact m rid amt). specialize (IH (release_hold m (rid, amt)) Hnd).
  rewrite IH.
  - rewrite Hj by done. destruct (decide (j = rid)) as [->|Hne].
    + rewrite decide_False by done. by rewrite decide_True by (by left).
    + destruct (decide (j ∈ hs.*1)); [rewrite decide_True by (by right)|rewrite decide_False by (by apply not_elem_of_cons)]; done.
  - intros rid' amt' Hin. destruct (Hm rid' amt') as [Hf' Hl']; [by right|]. split; [done|].
    rewrite Hj by done. rewrite decide_False; [done|]. intros ->.
    apply Hni, list_elem_of_fmap. by exists (rid, amt').
Qed.

Lemma touch_held rid m j : held (touch rid m) j = held m j.
Proof.
  unfold touch, held. destruct (m !! rid) eqn:E; [done|]. rewrite lookup_insert. case_decide; subst; [|done].
  by rewrite E.
Qed.

(** The hold loop of [Reserve] over [vs]: [new] are the items it adds, each an
    unheld resource with a positive amount; the ledger changes at these
    resources only, and without a failure every vertex is among them. *)
Record reserve_post (vs : list ResourceId) m (new : list ReservationItem.t) m' {B : Type} (f : option B) : Prop := {
  rp_nodup : NoDup (item_holds new).*1;
  rp_prefix : exists k, vs = (item_holds new).*1 ++ k;
  rp_all : f = None -> (item_holds new).*1 = vs;
  rp_new : forall rid amt, (rid, amt) ∈ item_holds new ->
    dpos amt = true /\ held m rid = d0 /\ held m' rid = amt;
  rp_old : forall j, j ∉ (item_holds new).*1 -> held m' j = held m j;
}.

Lemma reserve_post_stop {B : Type} vs m m' (f : option B) :
  ledger_eq m' m -> (f = None -> vs = []) -> reserve_post vs m [] m' f.
Proof.
  intros Heq Hf. split; cbn; [constructor|by exists vs|intros; symmetry; auto| |auto].
  intros ?? Hin. by apply elem_of_nil in Hin.
Qed.

Lemma item_holds_fst rid amt items : (rid, amt) ∈ item_holds items -> rid ∈ (item_holds items).*1.
Proof. intros Hin. apply list_elem_of_fmap. by exists (rid, amt). Qed.

Lemma reserve_post_cons {B : Type} v amt vs m m1 new m' (f : option B) :
  dpos amt = true -> held m v = d0 ->
  (forall j, held m1 j = if decide (j = v) then amt else held m j) ->
  reserve_post vs m1 new m' f ->
  reserve_post (v :: vs) m (ReservationItem.mk v ReservationState.PROVISIONAL amt :: new) m' f.
Proof.
  intros Hamt Hz Hins [Hnd [k Hk] Hall Hnew Hold].
  assert (Hv : v ∉ (item_holds new).*1).
  { intros ([? a] & Heq & Hin)%list_elem_of_fmap. cbn in Heq. subst. destruct (Hnew _ _ Hin) as (_ & H0 & _).
    rewrite Hins, decide_True in H0 by done. by rewrite H0 in Hamt. }
  split; cbn.
  - by constructor.
  - exists k. cbn. f_equal. done.
  - intros Hf. f_equal. by apply Hall.
  - intros rid a [[= -> ->]|Hin]%elem_of_cons; [split_and!; [done..|]; by rewrite Hold, Hins, decide_True|].
    destruct (Hnew _ _ Hin) as (? & H0 & ?). split_and!; [done| |done].
    rewrite Hins, decide_False in H0; [done|]. intros ->. by apply Hv, (item_holds_fst _ a).
  - intros j [Hne Hj]%not_elem_of_cons. by rewrite Hold, Hins, decide_False.
Qed.

Lemma reserve_loop_spec rs req vs m items m' items' f :
  (forall rid, held m rid = d0 \/ dpos (held m rid) = true) ->
  (forall rid r, rid ∈ vs -> rs !! rid = Some r -> dpos (HoldAmountForResource r req) = true) ->
  reserve_loop rs req vs m items = (m', items', f) ->
  exists new, items' = items ++ new /\ reserve_post vs m new m' f.
Proof.
  revert m items. induction vs as [|v vs IH]; intros m items Hm Hpos; cbn.
  { intros [= <- <- <-]. exists []. rewrite app_nil_r. split; [done|]. by apply reserve_post_stop. }
  assert (Hstop : forall m1 reason note, ledger_eq m1 m ->
    (m1, items, Some (reason, note)) = (m', items', f) ->
    exists new, items' = items ++ new /\ reserve_post (v :: vs) m new m' f).
  { intros m1 reason note Heq [= <- <- <-]. exists []. rewrite app_nil_r. split; [done|]. by apply reserve_post_stop. }
  destruct (rs !! v) as [r|] eqn:Hr; [|by apply Hstop].
  destruct (ResourceEligible r req) as [[reason note]|]; [by apply Hstop|].
  change (default d0 (touch v m !! v)) with (held (touch v m) v). rewrite touch_held.
  destruct (dlt d0 (held m v)) eqn:Hheld; [apply Hstop; intros j; apply touch_held|].
  destruct (_ || _); [apply Hstop; intros j; apply touch_held|].
  assert (Hz : held m v = d0).
  { destruct (Hm v) as [|Hp]; [done|]. apply dpos_gt0 in Hp. congruence. }
  assert (Hamt : dpos (HoldAmountForResource r req) = true) by (eapply Hpos; [by left|done]).
  rewrite Hz, dadd_0_l by done. set (amt := HoldAmountForResource r req) in *. intros Hloop.
  assert (Hins : forall j, held (<[v := amt]> (touch v m)) j = if decide (j = v) then amt else held m j).
  { intros j. rewrite <-(touch_held v m j). unfold held. rewrite lookup_insert. repeat case_decide; by subst. }
  apply IH in Hloop as (new & -> & Hpost); clear IH.
  - exists (ReservationItem.mk v ReservationState.PROVISIONAL amt :: new). rewrite <-app_assoc.
    split; [done|]. by eapply reserve_post_cons.
  - intros j. rewrite Hins. case_decide; auto.
  - intros. eapply Hpos; [by right|done].
Qed.

Lemma commit_loop_held rs req items m : ledger_eq (commit_loop rs req items m).1 m.
Proof.
  revert m. induction items as [|i items IH]; intros m; cbn; [done|].
  destruct (rs !! _) as [r|]; [|done]. destruct (ResourceEligible r req) as [[??]|]; [done|].
  assert (Ht : ledger_eq (touch (ReservationItem.resource i) m) m) by (intros j; apply touch_held).
  destruct (dlt _ _); [done|]. by rewrite IH.
Qed.
End release.

(** ** Reservations and the ledger *)
Implicit Types (rvs : gmap ReservationId Reservation.t) (m : gmap ResourceId double)
  (cs : gmap CompositionId Composition.t).

(** [v] is a live reservation of [rvs] and holds [rid]. *)
Definition owner rvs (rid : ResourceId) (vid : ReservationId) : Prop :=
  exists v amt, rvs !! vid = Some v /\ live v = true /\ holds v rid amt.

Record holdings_ok rvs m : Prop := {
  ho_nodup : forall vid v, rvs !! vid = Some v -> live v = true -> NoDup (item_holds (Reservation.items v)).*1;
  ho_held : forall vid v rid amt, rvs !! vid = Some v -> live v = true -> holds v rid amt ->
    dpos amt = true /\ held m rid = amt;
  ho_owned : forall rid, held m rid = d0 \/ exists vid, owner rvs rid vid;
  ho_excl : forall rid vid1 vid2, owner rvs rid vid1 -> owner rvs rid vid2 -> vid1 = vid2;
}.

Lemma holdings_pos rvs m rid : holdings_ok rvs m -> held m rid = d0 \/ dpos (held m rid) = true.
Proof.
  intros Hh. destruct (ho_owned _ _ Hh rid) as [|(vid & v & amt & Hv & Hl & Hr)]; [by left|right].
  by destruct (ho_held _ _ Hh _ _ _ _ Hv Hl Hr) as [Hp ->].
Qed.

Lemma holdings_held rvs m rid : holdings_ok rvs m -> held m rid = d0 <-> forall vid, ~ owner rvs rid vid.
Proof.
  intros Hh. split.
  - intros Hz vid (v & amt & Hv & Hl & Hr). destruct (ho_held _ _ Hh _ _ _ _ Hv Hl Hr) as [Hp He].
    rewrite Hz in He. by rewrite <-He in Hp.
  - intros Hn. destruct (ho_owned _ _ Hh rid) as [|[vid Ho]]; [done|]. by destruct (Hn vid).
Qed.

Lemma holds_fst v rid : (exists amt, holds v rid amt) <-> rid ∈ (item_holds (Reservation.items v)).*1.
Proof.
  split.
  - intros [amt H]. by apply (item_holds_fst _ amt).
  - intros ([? amt] & -> & H)%list_elem_of_fmap. by exists amt.
Qed.

Lemma owner_insert rvs vid v' rid j :
  owner (<[vid := v']> rvs) rid j <->
  (j = vid /\ live v' = true /\ rid ∈ (item_holds (Reservation.items v')).*1) \/ (j <> vid /\ owner rvs rid j).
Proof.
  unfold owner. setoid_rewrite lookup_insert. destruct (decide (vid = j)) as [->|Hne].
  - rewrite <-holds_fst. split.
    + intros (v & amt & [= <-] & ? & ?). left. eauto.
    + intros [(_ & ? & amt & ?)|[? _]]; [by exists v', amt|done].
  - split; [intros H; right; by split|]. intros [[-> _]|[_ H]]; done.
Qed.

Lemma owner_of rvs vid v rid :
  rvs !! vid = Some v -> live v = true -> rid ∈ (item_holds (Reservation.items v)).*1 -> owner rvs rid vid.
Proof. intros Hv Hl (amt & Hr)%holds_fst. by exists v, amt. Qed.

Lemma holdings_eq rvs m m' : ledger_eq m' m -> holdings_ok rvs m -> holdings_ok rvs m'.
Proof.
  intros He Hh. split; [apply Hh| |intros rid; rewrite (He rid); apply Hh|apply Hh].
  intros vid v rid amt. rewrite (He rid). apply Hh.
Qed.

(** A successful hold loop adds one owner. *)
Lemma holdings_acquire {B : Type} rvs m m' vid v vs :
  holdings_ok rvs m -> rvs !! vid = None -> live v = true ->
  reserve_post vs m (Reservation.items v) m' (None : option B) ->
  holdings_ok (<[vid := v]> rvs) m'.
Proof.
  intros Hh Hvid Hl Hp. pose proof (rp_all _ _ _ _ _ Hp eq_refl) as Hall.
  assert (Hun : forall rid j, rid ∈ (item_holds (Reservation.items v)).*1 -> ~ owner rvs rid j).
  { intros rid j (amt & Hr)%holds_fst. destruct (rp_new _ _ _ _ _ Hp _ _ Hr) as (_ & Hz & _).
    by apply (holdings_held _ _ _ Hh). }
  split.
  - intros j w. rewrite lookup_insert. case_decide; [intros [= <-] _; apply Hp|apply Hh].
  - intros j w rid amt Hj Hw Hr. rewrite lookup_insert in Hj. case_decide.
    + simplify_eq. by destruct (rp_new _ _ _ _ _ Hp _ _ Hr) as (? & _ & ?).
    + destruct (ho_held _ _ Hh _ _ _ _ Hj Hw Hr) as [Hpos Hm]. split; [done|].
      rewrite (rp_old _ _ _ _ _ Hp); [done|]. intros Hin. apply (Hun rid j Hin). by exists w, amt.
  - intros rid. destruct (decide (rid ∈ (item_holds (Reservation.items v)).*1)) as [Hin|Hni].
    + right. exists vid. apply owner_insert. by left.
    + rewrite (rp_old _ _ _ _ _ Hp) by done. destruct (ho_owned _ _ Hh rid) as [|[j Ho]]; [by left|right].
      exists j. apply owner_insert. right. split; [|done]. intros ->. destruct Ho as (? & ? & ? & _). congruence.
  - intros rid j1 j2. rewrite !owner_insert. intros [(-> & _ & H1)|[? H1]] [(-> & _ & H2)|[? H2]]; try done.
    + by destruct (Hun rid j2).
    + by destruct (Hun rid j1).
    + by eapply ho_excl.
Qed.

(** Releasing a live reservation removes its owner, and nothing else. *)
Lemma holdings_release rvs m vid v v' :
  holdings_ok rvs m -> rvs !! vid = Some v -> live v = true -> live v' = false ->
  holdings_ok (<[vid := v']> rvs) (release_holds (item_holds (Reservation.items v)) m).
Proof.
  intros Hh Hv Hl Hl'.
  pose proof (release_holds_exact (item_holds (Reservation.items v)) m (ho_nodup _ _ Hh _ _ Hv Hl)
    (fun rid amt => ho_held _ _ Hh vid v rid amt Hv Hl)) as Hrel.
  assert (Hother : forall rid j, owner rvs rid j -> j <> vid -> rid ∉ (item_holds (Reservation.items v)).*1).
  { intros rid j Ho Hne Hin. apply Hne. eapply ho_excl; [done..|]. by eapply owner_of. }
  split.
  - intros j w. rewrite lookup_insert. case_decide; [intros [= <-]; congruence|apply Hh].
  - intros j w rid amt Hj Hw Hr. rewrite lookup_insert in Hj. case_decide; [congruence|].
    rewrite Hrel, decide_False; [by eapply ho_held|]. apply (Hother rid j); [by exists w, amt|done].
  - intros rid. rewrite Hrel. case_decide as Hd; [by left|].
    destruct (ho_owned _ _ Hh rid) as [|[j Ho]]; [by left|right]. exists j. apply owner_insert. right.
    split; [|done]. intros ->. apply Hd. destruct Ho as (w & amt & Hw & _ & Hr). simplify_eq. by apply (item_holds_fst _ amt).
  - intros rid j1 j2. rewrite !owner_insert. intros [(_ & ? & _)|[_ H1]] [(_ & ? & _)|[_ H2]]; try congruence.
    by eapply ho_excl.
Qed.

(** Changing a live reservation without changing what it holds. *)
Lemma holdings_relabel rvs m vid v v' :
  holdings_ok rvs m -> rvs !! vid = Some v -> live v = true -> live v' = true ->
  item_holds (Reservation.items v') = item_holds (Reservation.items v) ->
  holdings_ok (<[vid := v']> rvs) m.
Proof.
  intros Hh Hv Hl Hl' Hi.
  assert (Ho : forall rid j, owner (<[vid := v']> rvs) rid j <-> owner rvs rid j).
  { intros rid j. rewrite owner_insert, Hi. split; [intros [(-> & _ & ?)|[_ ?]]; [by eapply owner_of|done]|].
    destruct (decide (j = vid)) as [->|]; [|by right]. intros (w & amt & Hw & _ & Hr). simplify_eq.
    left. split_and!; [done..|by apply (item_holds_fst _ amt)]. }
  split.
  - intros j w. rewrite lookup_insert. case_decide; [intros [= <-] _; rewrite Hi; by eapply ho_nodup|apply Hh].
  - intros j w rid amt Hj Hw Hr. rewrite lookup_insert in Hj. case_decide; [|by eapply ho_held].
    simplify_eq. eapply (ho_held _ _ Hh); [done..|]. unfold holds. by rewrite <-Hi.
  - intros rid. setoid_rewrite Ho. apply Hh.
  - intros rid j1 j2. rewrite !Ho. apply Hh.
Qed.

(** ** Compositions and their reservations *)
Abbreviation in_use c := (Composition.lifecycle c = CompositionLifecycle.COMMITTED \/
  Composition.lifecycle c = CompositionLifecycle.ACTIVE) (only parsing).

(** The state of the reservation [v] of a composition [c] that was not released. *)
Definition backed (c : Composition.t) (v : Reservation.t) : Prop :=
  live v = true \/
  (Reservation.state v = ReservationState.ROLLED_BACK /\
   Composition.lifecycle c = CompositionLifecycle.REVALIDATION_REQUIRED).

Record links_ok rvs cs (next : N) : Prop := {
  lk_resv_fresh : forall vid v, rvs !! vid = Some v -> Value vid < next;
  lk_comp_fresh : forall id c, cs !! id = Some c -> Value (Composition.reservation c) < next;
  lk_link : forall id c v, cs !! id = Some c -> rvs !! Composition.reservation c = Some v ->
    Reservation.composition v = id /\
    (item_holds (Reservation.items v)).*1 = ResourceGraph.vertices (Composition.graph c);
  lk_backed : forall id c v, cs !! id = Some c -> rvs !! Composition.reservation c = Some v ->
    Composition.lifecycle c <> CompositionLifecycle.RELEASED -> backed c v;
  lk_present : forall vid v c, rvs !! vid = Some v -> cs !! Reservation.composition v = Some c ->
    is_Some (rvs !! Composition.reservation c);
  lk_in_use : forall id c, cs !! id = Some c -> in_use c -> is_Some (rvs !! Composition.reservation c);
}.

(** Reservations keep their composition and members. *)
Definition resvs_rel rvs rvs' : Prop :=
  forall vid, match rvs !! vid, rvs' !! vid with
  | Some v, Some v' => Reservation.composition v' = Reservation.composition v /\
      (item_holds (Reservation.items v')).*1 = (item_holds (Reservation.items v)).*1
  | None, None => True
  | _, _ => False
  end.

Lemma resvs_rel_refl rvs : resvs_rel rvs rvs.
Proof. intros vid. by destruct (rvs !! vid). Qed.
Lemma resvs_rel_insert rvs vid v v' :
  rvs !! vid = Some v -> Reservation.composition v' = Reservation.composition v ->
  (item_holds (Reservation.items v')).*1 = (item_holds (Reservation.items v)).*1 ->
  resvs_rel rvs (<[vid := v']> rvs).
Proof.
  intros Hv Hc Hi j. rewrite lookup_insert. case_decide; [subst; by rewrite Hv|by destruct (rvs !! j)].
Qed.
Lemma resvs_rel_back rvs rvs' vid v' :
  resvs_rel rvs rvs' -> rvs' !! vid = Some v' -> exists v, rvs !! vid = Some v /\
    Reservation.composition v' = Reservation.composition v /\
    (item_holds (Reservation.items v')).*1 = (item_holds (Reservation.items v)).*1.
Proof. intros H Hv. specialize (H vid). rewrite Hv in H. destruct (rvs !! vid); [eauto|done]. Qed.
Lemma resvs_rel_fwd rvs rvs' vid : resvs_rel rvs rvs' -> is_Some (rvs !! vid) -> is_Some (rvs' !! vid).
Proof. intros H [v Hv]. specialize (H vid). rewrite Hv in H. by destruct (rvs' !! vid). Qed.
#[export] Hint Resolve resvs_rel_refl : fabric.

(** One rule for the operations that create no composition. *)
Lemma links_step rvs rvs' cs cs' next :
  links_ok rvs cs next -> comps_rel evolves cs cs' -> resvs_rel rvs rvs' ->
  (forall id c' v', cs' !! id = Some c' -> rvs' !! Composition.reservation c' = Some v' ->
    Composition.lifecycle c' <> CompositionLifecycle.RELEASED -> backed c' v') ->
  (forall id c c', cs !! id = Some c -> cs' !! id = Some c' -> in_use c' -> ~ in_use c ->
    is_Some (rvs !! Composition.reservation c)) ->
  links_ok rvs' cs' next.
Proof.
  intros Hl Hev Hrel Hb Hu.
  assert (Hback : forall id c', cs' !! id = Some c' -> exists c, cs !! id = Some c /\ evolves c c')
    by (intros; by eapply comps_rel_back).
  split; [| | |exact Hb| |].
  - intros vid v' Hv'. destruct (resvs_rel_back _ _ _ _ Hrel Hv') as (v & Hv & _). by eapply lk_resv_fresh.
  - intros id c' Hc'. destruct (Hback _ _ Hc') as (c & Hc & (_ & _ & _ & _ & _ & -> & _) & _). by eapply lk_comp_fresh.
  - intros id c' v' Hc' Hv'. destruct (Hback _ _ Hc') as (c & Hc & (_ & _ & Hg & _ & _ & Hr & _) & _).
    rewrite Hr in Hv'. destruct (resvs_rel_back _ _ _ _ Hrel Hv') as (v & Hv & -> & ->). rewrite Hg. by eapply lk_link.
  - intros vid v' c' Hv' Hc'. destruct (resvs_rel_back _ _ _ _ Hrel Hv') as (v & Hv & Hcomp & _).
    rewrite Hcomp in Hc'. destruct (Hback _ _ Hc') as (c & Hc & (_ & _ & _ & _ & _ & -> & _) & _).
    eapply resvs_rel_fwd; [done|]. by eapply lk_present.
  - intros id c' Hc' Hin. destruct (Hback _ _ Hc') as (c & Hc & (_ & _ & _ & _ & _ & -> & _) & _).
    eapply resvs_rel_fwd; [done|].
    destruct (decide (Composition.lifecycle c = CompositionLifecycle.COMMITTED)); [by eapply lk_in_use; [..|left]|].
    destruct (decide (Composition.lifecycle c = CompositionLifecycle.ACTIVE)); [by eapply lk_in_use; [..|right]|].
    eapply Hu; [done..|]. by intros [].
Qed.

Lemma lc_step_from_stale a b :
  lc_step a b -> a = CompositionLifecycle.RELEASED \/ a = CompositionLifecycle.REVALIDATION_REQUIRED ->
  b = a \/ b = CompositionLifecycle.RELEASED.
Proof.
  intros [ | | | | | | |x He|] Ha; auto; try (destruct Ha; congruence). exfalso. revert He.
  destruct Ha as [->| ->]; by apply (bool_decide_eq_false_1 _).
Qed.

Lemma backed_evolves c c' v :
  evolves c c' -> Composition.lifecycle c' <> CompositionLifecycle.RELEASED ->
  (Composition.lifecycle c <> CompositionLifecycle.RELEASED -> backed c v) -> backed c' v.
Proof.
  intros [_ Hs] Hn Hb. pose proof (lc_step_from_stale _ _ Hs) as Hst.
  destruct (decide (Composition.lifecycle c = CompositionLifecycle.RELEASED)) as [Hr|Hr]; [destruct Hst; [by left|congruence..]|].
  destruct (Hb Hr) as [|[Hv Hl]]; [by left|]. right. split; [done|]. destruct Hst; [by right|congruence|done].
Qed.

(** Invalidations. *)
Lemma links_stale rvs cs cs' next : links_ok rvs cs next -> comps_rel goes_stale cs cs' -> links_ok rvs cs' next.
Proof.
  intros Hl Hst. assert (Hev : comps_rel evolves cs cs') by (eapply comps_rel_mono; [exact goes_stale_evolves|done]).
  eapply links_step; [done..|apply resvs_rel_refl| |].
  - intros id c' v Hc' Hv Hn. destruct (comps_rel_back _ _ _ _ _ Hev Hc') as (c & Hc & He).
    eapply backed_evolves; [done..|]. intros Hr. eapply lk_backed; [done..| |done].
    destruct He as [(_ & _ & _ & _ & _ & Heq & _) _]. by rewrite <-Heq.
  - intros id c c' Hc Hc' Hin Hno. specialize (Hst id). rewrite Hc, Hc' in Hst. destruct Hst as [_ Hst].
    destruct Hin as [Hin|Hin]; rewrite Hin in Hst; inversion Hst; subst; tauto.
Qed.

(** One composition and its reservation change together. *)
Lemma links_update rvs cs next id c c' vid v v' :
  links_ok rvs cs next -> cs !! id = Some c -> evolves c c' -> rvs !! vid = Some v ->
  Reservation.composition v' = Reservation.composition v ->
  (item_holds (Reservation.items v')).*1 = (item_holds (Reservation.items v)).*1 ->
  Reservation.composition v = id ->
  (Composition.lifecycle c' <> CompositionLifecycle.RELEASED -> Composition.reservation c = vid -> backed c' v') ->
  (in_use c' -> is_Some (rvs !! Composition.reservation c)) ->
  links_ok (<[vid := v']> rvs) (<[id := c']> cs) next.
Proof.
  intros Hl Hc He Hv Hcomp Hi Hid Hb Hu.
  assert (Heq : Composition.reservation c' = Composition.reservation c) by (by destruct He as [(_ & _ & _ & _ & _ & ? & _) _]).
  eapply links_step; [done|eapply comps_rel_insert; [apply evolves_refl|done..]|by eapply resvs_rel_insert| |].
  - intros j cj w. rewrite !lookup_insert. destruct (decide (id = j)) as [->|Hne].
    + intros [= <-]. rewrite Heq. case_decide; [intros [= <-] Hn; by apply Hb|].
      intros Hw Hn. eapply backed_evolves; [done..|]. intros. by eapply lk_backed.
    + intros Hcj. case_decide as Hd; [|intros; by eapply lk_backed]. intros [= <-] Hn. destruct Hne.
      rewrite Hd in Hv. destruct (lk_link _ _ _ Hl _ _ _ Hcj Hv). congruence.
  - intros j cj cj' Hcj. rewrite lookup_insert. case_decide; [intros [= <-] Hin _; simplify_eq; auto|].
    intros ? ? Hno. congruence.
Qed.

(** A new composition with a new reservation. *)
Lemma links_new rvs cs next id c v :
  links_ok rvs cs next -> Composition.reservation c = Id next ->
  Composition.lifecycle c = CompositionLifecycle.RESERVED -> Reservation.composition v = id ->
  (item_holds (Reservation.items v)).*1 = ResourceGraph.vertices (Composition.graph c) -> live v = true ->
  links_ok (<[Id next := v]> rvs) (<[id := c]> cs) (next + 1).
Proof.
  intros Hl Hr Hlc Hcomp Hi Hlive.
  assert (Hold : forall vid w, <[Id next := v]> rvs !! vid = Some w -> Value vid < next -> rvs !! vid = Some w).
  { intros vid w. rewrite lookup_insert. case_decide; [subst; cbn; lia|done]. }
  assert (Hsome : forall vid, is_Some (rvs !! vid) -> is_Some (<[Id next := v]> rvs !! vid)).
  { intros vid [w Hw]. rewrite lookup_insert. case_decide; eauto. }
  assert (Hself : is_Some (<[Id next := v]> rvs !! Composition.reservation c)).
  { rewrite Hr, lookup_insert_eq. eauto. }
  split.
  - intros vid w. rewrite lookup_insert. case_decide; [subst; cbn; lia|]. intros Hw%(lk_resv_fresh _ _ _ Hl). lia.
  - intros j cj. rewrite lookup_insert. case_decide; [intros [= <-]; rewrite Hr; cbn; lia|].
    intros Hj%(lk_comp_fresh _ _ _ Hl). lia.
  - intros j cj w. rewrite (lookup_insert cs). case_decide; [subst; intros [= <-]; rewrite Hr, lookup_insert_eq; by intros [= <-]|].
    intros Hj Hw. eapply lk_link; [done..|]. eapply Hold; [done|]. by eapply lk_comp_fresh.
  - intros j cj w. rewrite (lookup_insert cs). case_decide; [intros [= <-]; rewrite Hr, lookup_insert_eq; intros [= <-]; by left|].
    intros Hj Hw. eapply lk_backed; [done..|]. eapply Hold; [done|]. by eapply lk_comp_fresh.
  - intros vid w cj Hw. rewrite lookup_insert. case_decide as Hd; [by intros [= <-]|]. intros Hcj.
    apply Hsome. eapply lk_present; [done| |done]. rewrite lookup_insert in Hw. case_decide; [congruence|done].
  - intros j cj. rewrite lookup_insert. case_decide; [by intros [= <-]|]. intros Hj Hin. apply Hsome. by eapply lk_in_use.
Qed.

Lemma links_mono rvs cs n n' : n <= n' -> links_ok rvs cs n -> links_ok rvs cs n'.
Proof.
  intros Hn Hl. split; try apply Hl.
  - intros vid v H%(lk_resv_fresh _ _ _ Hl). lia.
  - intros vid v H%(lk_comp_fresh _ _ _ Hl). lia.
Qed.

(** ** The invariant *)
Definition LedgerInv (s : Impl.t) : Prop :=
  holdings_ok (Impl.reservations s) (Impl.reserved_amount s) /\
  links_ok (Impl.reservations s) (Impl.compositions s) (Impl.next_resv s).

(** What a caller must respect for the ledger to be an exclusive lock table. *)
Definition disciplined (o : op) (s : Impl.t) : Prop :=
  match o with
  | OReserve plan =>
      u64_ok (Impl.next_resv s + 1) /\
      forall rid r, rid ∈ ResourceGraph.vertices (CompositionPlan.graph plan) -> Impl.resources s !! rid = Some r ->
        dpos (HoldAmountForResource r (CompositionPlan.request plan)) = true
  | ORelease id | ORecomputeRelease id =>
      forall c v, Impl.compositions s !! id = Some c -> Impl.reservations s !! Composition.reservation c = Some v ->
        live v = true
  | OLoad d =>
      (forall rid, held (Impl.reserved_amount s) rid = d0) /\
      forall c, c ∈ DurableState.compositions d -> Value (Composition.reservation c) < Impl.next_resv s
  | _ => True
  end.

Inductive disciplined_reachable (cfg : EngineConfig.t) : Impl.t -> Prop :=
  | dr_init : disciplined_reachable cfg (FabricEngine cfg)
  | dr_step s o : disciplined_reachable cfg s -> disciplined o s -> disciplined_reachable cfg (run o s).

(** The two ends of [Reserve]. *)
Record reserve_rejects (plan : CompositionPlan.t) (s s' : Impl.t) : Prop := {
  rj_ledger : ledger_eq (Impl.reserved_amount s') (Impl.reserved_amount s);
  rj_resvs : Impl.reservations s' = Impl.reservations s;
  rj_comps : Impl.compositions s' = Impl.compositions s;
  rj_next : Impl.next_resv s <= Impl.next_resv s';
}.
Record reserve_accepts (plan : CompositionPlan.t) (v : Reservation.t) (s s' : Impl.t) : Prop := {
  ra_planned : CompositionPlan.lifecycle plan = CompositionLifecycle.PLANNED;
  ra_valid : IsValid (CompositionPlan.id plan) = true;
  ra_post : reserve_post (ResourceGraph.vertices (CompositionPlan.graph plan)) (Impl.reserved_amount s)
    (Reservation.items v) (Impl.reserved_amount s') (None : verdict);
  ra_id : Reservation.id v = Id (Impl.next_resv s);
  ra_state : Reservation.state v = ReservationState.PROVISIONAL;
  ra_composition : Reservation.composition v = CompositionPlan.id plan;
  ra_resvs : Impl.reservations s' = <[Id (Impl.next_resv s) := v]> (Impl.reservations s);
  ra_comps : Impl.compositions s' = <[CompositionPlan.id plan :=
    reserved_composition plan (Impl.next_rs s) (Id (Impl.next_resv s))]> (Impl.compositions s);
  ra_next : Impl.next_resv s' = Impl.next_resv s + 1;
}.

Lemma reserve_undo {B : Type} vs m new m' (f : option B) :
  reserve_post vs m new m' f -> ledger_eq (release_holds (item_holds new) m') m.
Proof.
  intros Hp j. rewrite release_holds_exact; [|apply Hp|];
    [|intros rid amt Hin; by destruct (rp_new _ _ _ _ _ Hp _ _ Hin) as (? & _ & ?)].
  case_decide as Hd; [|by apply (rp_old _ _ _ _ _ Hp)]. apply list_elem_of_fmap in Hd as ([rid amt] & -> & Hin).
  cbn. by destruct (rp_new _ _ _ _ _ Hp _ _ Hin) as (_ & -> & _).
Qed.

Lemma Reserve_cases plan s :
  LedgerInv s -> disciplined (OReserve plan) s ->
  (is_success (rr_outcome (Reserve plan s).1) = false /\ reserve_rejects plan s (Reserve plan s).2) \/
  (is_success (rr_outcome (Reserve plan s).1) = true /\
   reserve_accepts plan (rr_reservation (Reserve plan s).1) s (Reserve plan s).2).
Proof.
  intros [Hh Hl] [Hn Hpos]. unfold Reserve.
  destruct (bool_decide _) eqn:Hplanned; [cbn [negb]|by left]. apply bool_decide_eq_true_1 in Hplanned.
  destruct (IsValid _) eqn:Hvalid; [cbn [negb]|by left].
  destruct (reserve_loop _ _ _ _ _) as [[m' items] f] eqn:Hloop.
  change (reserve_loop (Impl.resources s) (CompositionPlan.request plan)
    (ResourceGraph.vertices (CompositionPlan.graph plan)) (Impl.reserved_amount s) [] = (m', items, f)) in Hloop.
  eapply reserve_loop_spec in Hloop as (new & -> & Hp); [|intros; by eapply holdings_pos|done].
  rewrite app_nil_l in *. destruct f as [[reason note]|]; [left|right]; (split; [done|]).
  - split; try done; cbn [snd Impl.next_resv Impl.reserved_amount set_field].
    + by eapply reserve_undo.
    + rewrite wrap64_small by done. lia.
  - split; try done. cbn [snd Impl.next_resv set_field]. by rewrite wrap64_small.
Qed.

Lemma holdings_fresh rvs cs next : links_ok rvs cs next -> rvs !! Id next = None.
Proof.
  intros Hl. destruct (rvs !! Id next) eqn:E; [|done]. apply (lk_resv_fresh _ _ _ Hl) in E. cbn in E. lia.
Qed.

Lemma accepts_live plan v s s' : reserve_accepts plan v s s' -> live v = true.
Proof. intros Ha. unfold live. by rewrite (ra_state _ _ _ _ Ha). Qed.
Lemma accepts_members plan v s s' :
  reserve_accepts plan v s s' -> (item_holds (Reservation.items v)).*1 = ResourceGraph.vertices (CompositionPlan.graph plan).
Proof. intros Ha. by apply Ha. Qed.

Lemma accepts_ledger plan v s s' : LedgerInv s -> reserve_accepts plan v s s' -> LedgerInv s'.
Proof.
  intros [Hh Hl] Ha. unfold LedgerInv. rewrite (ra_resvs _ _ _ _ Ha), (ra_comps _ _ _ _ Ha), (ra_next _ _ _ _ Ha).
  split.
  - eapply holdings_acquire; [done|by eapply holdings_fresh|by eapply accepts_live|apply Ha].
  - apply links_new; try done; [apply Ha|by eapply accepts_members|by eapply accepts_live].
Qed.

Lemma Reserve_ledger plan s :
  LedgerInv s -> disciplined (OReserve plan) s -> LedgerInv (Reserve plan s).2.
Proof.
  intros HI Hd. destruct (Reserve_cases plan s HI Hd) as [[_ [Hm Hr Hc Hn]]|[_ Ha]]; [|by eapply accepts_ledger].
  destruct HI as [Hh Hl]. unfold LedgerInv. rewrite Hr, Hc. split; [by eapply holdings_eq|by eapply links_mono].
Qed.

(** The three ends of [Commit]: nothing changes, the reservation is rolled
    back and its holds returned, or it is committed and keeps its holds. *)
Definition rolled_back (v : Reservation.t) : Reservation.t := v <| Reservation.state := ReservationState.ROLLED_BACK |>.
Definition committed (v : Reservation.t) : Reservation.t :=
  v <| Reservation.items ::= fmap (fun i => i <| ReservationItem.state := ReservationState.COMMITTED |>) |>
    <| Reservation.state := ReservationState.COMMITTED |>.

Record commit_step (vid : ReservationId) (v : Reservation.t) (c : Composition.t) (ok : bool) (s s' : Impl.t) : Prop := {
  ct_resv : Impl.reservations s !! vid = Some v;
  ct_provisional : Reservation.state v = ReservationState.PROVISIONAL;
  ct_comp : Impl.compositions s !! Reservation.composition v = Some c;
  ct_reserved : Composition.lifecycle c = CompositionLifecycle.RESERVED;
  ct_next : Impl.next_resv s' = Impl.next_resv s;
  ct_resvs : Impl.reservations s' = <[vid := if ok then committed v else rolled_back v]> (Impl.reservations s);
  ct_comps : Impl.compositions s' = <[Reservation.composition v :=
    if ok then with_lifecycle CompositionLifecycle.COMMITTED c
    else c <| Composition.lifecycle := CompositionLifecycle.REVALIDATION_REQUIRED |>
           <| Composition.outcome := CompositionOutcome.FAILED |>]> (Impl.compositions s);
  ct_ledger : exists m, ledger_eq m (Impl.reserved_amount s) /\
    Impl.reserved_amount s' = if ok then m else release_holds (item_holds (Reservation.items v)) m;
}.

Lemma Commit_cases resv s :
  (is_success (cc_outcome (Commit resv s).1) = false /\ (Commit resv s).2 = s) \/
  exists v c, commit_step (Reservation.id resv) v c (is_success (cc_outcome (Commit resv s).1)) s (Commit resv s).2.
Proof.
  unfold Commit. destruct (Impl.reservations s !! _) as [v|] eqn:Hv; [|by left].
  destruct (negb (bool_decide _)) eqn:Hst; [by left|]. apply negb_false_iff, bool_decide_eq_true_1 in Hst.
  destruct (Impl.compositions s !! _) as [c|] eqn:Hc; [|by left].
  destruct (negb (lifecycle_is _ c)) eqn:Hlc; [by left|]. lc_cases. right. exists v, c.
  pose proof (commit_loop_held (Impl.resources s) (Composition.request c) (Reservation.items v) (Impl.reserved_amount s)) as Hm.
  destruct (commit_loop _ _ _ _) as [m' [reason|]]; split; try done; by exists m'.
Qed.

Lemma item_holds_committed v : item_holds (Reservation.items (committed v)) = item_holds (Reservation.items v).
Proof. cbn. unfold item_holds. by rewrite <-list_fmap_compose. Qed.

Lemma step_live vid v c ok s s' : commit_step vid v c ok s s' -> live v = true.
Proof. intros Hs. unfold live. by rewrite (ct_provisional _ _ _ _ _ _ Hs). Qed.

Lemma step_ledger vid v c ok s s' : commit_step vid v c ok s s' -> LedgerInv s -> LedgerInv s'.
Proof.
  intros Hs [Hh Hl]. pose proof (step_live _ _ _ _ _ _ Hs) as Hlive.
  destruct Hs as [Hv Hst Hc Hlc Hn Hr Hcs [m [Hm Hra]]]. unfold LedgerInv. rewrite Hr, Hcs, Hn, Hra.
  assert (Hpres : is_Some (Impl.reservations s !! Composition.reservation c)) by (by eapply lk_present).
  destruct ok; split.
  - eapply holdings_relabel; [by eapply holdings_eq|done..|apply item_holds_committed].
  - eapply links_update; try done; [apply evolves_to; rewrite Hlc; auto with fabric| |by left].
    by rewrite item_holds_committed.
  - apply holdings_release; [by eapply holdings_eq|done..].
  - eapply links_update; try done; [|by right]. split; [done|]. cbn. rewrite Hlc. auto with fabric.
Qed.

Lemma Commit_ledger resv s : LedgerInv s -> LedgerInv (Commit resv s).2.
Proof.
  intros HI. destruct (Commit_cases resv s) as [[_ ->]|(v & c & Hs)]; [done|by eapply step_ledger].
Qed.

(** Releasing the reservation of a composition that still backs it. *)
Lemma release_ledger id c s s' :
  LedgerInv s -> Impl.compositions s !! id = Some c ->
  (forall v, Impl.reservations s !! Composition.reservation c = Some v -> live v = true) ->
  let s1 := release_reservation (Composition.reservation c) s in
  Impl.reservations s' = Impl.reservations s1 -> Impl.reserved_amount s' = Impl.reserved_amount s1 ->
  Impl.next_resv s' = Impl.next_resv s1 ->
  Impl.compositions s' = <[id := with_lifecycle CompositionLifecycle.RELEASED c]> (Impl.compositions s1) ->
  LedgerInv s'.
Proof.
  intros [Hh Hl] Hc Hlive s1 Hr Hm Hn Hcs. unfold LedgerInv. rewrite Hr, Hm, Hn, Hcs. subst s1.
  assert (Hev : evolves c (with_lifecycle CompositionLifecycle.RELEASED c)) by (apply evolves_to, lc_release).
  unfold release_reservation. destruct (Impl.reservations s !! _) as [v|] eqn:Hv; cbn.
  - split; [apply holdings_release; auto|]. destruct (lk_link _ _ _ Hl _ _ _ Hc Hv) as [Hid _].
    eapply links_update; [done..| |]; [by intros []|by intros []].
  - split; [done|]. eapply links_step; [done|by eapply comps_rel_insert; [apply evolves_refl|..]|apply resvs_rel_refl| |].
    + intros j cj w. rewrite lookup_insert. case_decide; [by intros [= <-] ? []|]. intros. by eapply lk_backed.
    + intros j cj cj' Hcj. rewrite lookup_insert. case_decide; [by intros [= <-] []|congruence].
Qed.

Lemma links_draining rvs cs next id c v :
  links_ok rvs cs next -> cs !! id = Some c -> rvs !! Composition.reservation c = Some v ->
  Composition.lifecycle c = CompositionLifecycle.DRAINING -> live v = true.
Proof. intros Hl Hc Hv Hd. destruct (lk_backed _ _ _ Hl _ _ _ Hc Hv) as [|[_ ?]]; congruence. Qed.

(** A composition that moves along the lifecycle graph without release. *)
Lemma links_move rvs cs next id c c' :
  links_ok rvs cs next -> cs !! id = Some c -> evolves c c' -> (in_use c' -> in_use c) ->
  links_ok rvs (<[id := c']> cs) next.
Proof.
  intros Hl Hc He Hu. eapply links_step; [done|by eapply comps_rel_insert; [apply evolves_refl|..]|apply resvs_rel_refl| |].
  - intros j cj w. rewrite lookup_insert. case_decide; [|intros; by eapply lk_backed]. intros [= <-] Hw Hn.
    eapply backed_evolves; [done..|]. intros Hr. eapply lk_backed; [done..| |done].
    destruct He as [(_ & _ & _ & _ & _ & Heq & _) _]. by rewrite <-Heq.
  - intros j cj cj' Hcj. rewrite lookup_insert. case_decide; [|congruence]. intros [= <-] Hin Hno. simplify_eq. tauto.
Qed.

Lemma Activate_ledger id s : LedgerInv s -> LedgerInv (Activate id s).2.
Proof.
  intros [Hh Hl]. pose proof (Activate_evolves id s) as Hev. pose proof (Activate_inv id s) as Ha.
  destruct (Impl.compositions s !! id) as [c|] eqn:Hc; [|by rewrite Ha].
  specialize (Hev id). rewrite Hc in Hev.
  destruct Ha as [Ha|[Ha|(Hcm & _ & _ & _ & Ha)]]; rewrite Ha in *; [|done|];
    (split; [done|]); cbn in *; rewrite lookup_insert_eq in Hev; (eapply links_move; [done..|]).
  - by intros [Hin|Hin].
  - by left.
Qed.

(** Invalidating operations leave the ledger alone. *)
Definition same_ledger (s s' : Impl.t) : Prop :=
  Impl.reservations s' = Impl.reservations s /\ Impl.reserved_amount s' = Impl.reserved_amount s /\
  Impl.next_resv s' = Impl.next_resv s.

Lemma same_ledger_trans a b c : same_ledger a b -> same_ledger b c -> same_ledger a c.
Proof. unfold same_ledger. intuition congruence. Qed.
Lemma IngestNode_ledger n s : same_ledger s (IngestNodeLocked n s).
Proof. unfold IngestNodeLocked. by repeat case_match. Qed.
Lemma IngestResource_ledger r s : same_ledger s (IngestResourceLocked r s).
Proof. unfold IngestResourceLocked. by repeat case_match. Qed.

Lemma invalidating_ledger o s : invalidating o = true -> same_ledger s (run o s).
Proof.
  destruct o; try done; intros _; cbn [run]; try done; auto using IngestNode_ledger, IngestResource_ledger.
  - by destruct b.
  - apply (Discover_ind same_ledger); auto using IngestNode_ledger, IngestResource_ledger; [done|exact same_ledger_trans|done].
  - unfold RegisterNode. case_match; [done|apply IngestNode_ledger].
  - unfold RegisterResource. case_match; [done|apply IngestResource_ledger].
  - unfold WithdrawResource. by case_match.
  - unfold AdvanceEpoch. by case_match.
  - rewrite Compose_frame. done.
Qed.

Lemma LedgerInv_load d s : disciplined (OLoad d) s -> LedgerInv (LoadState d s).
Proof.
  intros [Hz Hf]. split; cbn.
  - split; try (intros *; by rewrite ?lookup_empty).
    + intros rid. left. apply Hz.
    + by intros rid v1 v2 (v & amt & Hv & _).
  - split; try (intros *; by rewrite ?lookup_empty).
    + intros id c [Hin _]%insert_all_lookup. apply list_elem_of_fmap in Hin as (c0 & -> & Hin).
      unfold load_composition. case_match; cbn; by apply Hf.
    + intros id c [Hin _]%insert_all_lookup. apply list_elem_of_fmap in Hin as (c0 & -> & Hin).
      destruct (load_composition_facts c0) as (_ & ? & ?). by intros [].
Qed.

Lemma LedgerInv_run o s : LedgerInv s -> disciplined o s -> LedgerInv (run o s).
Proof.
  intros HI Hd. destruct (invalidating o) eqn:Hinv.
  { destruct HI as [Hh Hl]. destruct (invalidating_ledger o s Hinv) as (H1 & H2 & H3). unfold LedgerInv.
    rewrite H1, H2, H3. split; [done|]. eapply links_stale; [done|]. by apply run_stale. }
  destruct o; try done; cbn [run].
  - by apply Reserve_ledger.
  - by apply Commit_ledger.
  - by apply Activate_ledger.
  - unfold BeginDrain. destruct (Impl.compositions s !! id) as [c|] eqn:Hc; [|done]. case_match; [|done].
    destruct HI as [Hh Hl]. split; [done|]. cbn. eapply links_move; [done..| |by intros []].
    apply evolves_to, lc_drain. lc_cases; match goal with H : Composition.lifecycle c = _ |- _ => rewrite H end; repeat constructor.
  - unfold EndDrain. destruct (Impl.compositions s !! id) as [c|] eqn:Hc; [|done]. case_match; [done|]. lc_cases.
    eapply (release_ledger id c); [exact HI|done| |done..]. intros v Hv. destruct HI. by eapply links_draining.
  - unfold Release. destruct (Impl.compositions s !! id) as [c|] eqn:Hc; [|done]. case_match; [done|].
    eapply (release_ledger id c); [exact HI|done|eauto|done..].
  - unfold recompute_release. destruct (Impl.compositions s !! id) as [c|] eqn:Hc; [|done].
    eapply (release_ledger id c); [exact HI|done|eauto|done..].
  - by apply LedgerInv_load.
Qed.

Lemma LedgerInv_init cfg : LedgerInv (FabricEngine cfg).
Proof.
  unfold FabricEngine. repeat case_match; (split; (split; cbn; try (intros *; by rewrite ?lookup_empty)));
    try (by left); by intros rid v1 v2 (v & amt & Hv & _).
Qed.

Lemma LedgerInv_reachable cfg s : disciplined_reachable cfg s -> LedgerInv s.
Proof. induction 1; [apply LedgerInv_init|by apply LedgerInv_run]. Qed.
Lemma disciplined_is_reachable cfg s : disciplined_reachable cfg s -> reachable cfg s.
Proof. induction 1; by constructor. Qed.

(** ** The abstract lock table *)

(** Which reservation owns which resource. *)
Definition owners rvs : gmap ResourceId ReservationId :=
  list_to_map ('(vid, v) ← map_to_list rvs;
    if live v then (fun h => (h.1, vid)) <$> item_holds (Reservation.items v) else []).

Inductive lock_step (o : gmap ResourceId ReservationId) : gmap ResourceId ReservationId -> Prop :=
  | lock_stutter : lock_step o o
  | lock_acquire vid rids :
      NoDup rids -> (forall rid, rid ∈ rids -> o !! rid = None) -> (forall rid, o !! rid <> Some vid) ->
      lock_step o (foldr (fun rid => <[rid := vid]>) o rids)
  | lock_release vid : lock_step o (filter (fun kv => kv.2 <> vid) o).

Lemma owners_spec rvs m rid vid : holdings_ok rvs m -> owners rvs !! rid = Some vid <-> owner rvs rid vid.
Proof.
  intros Hh.
  assert (Hin : forall j, (rid, j) ∈ ('(vid, v) ← map_to_list rvs;
    if live v then (fun h => (h.1, vid)) <$> item_holds (Reservation.items v) else []) <-> owner rvs rid j).
  { intros j. rewrite list_elem_of_bind. unfold owner, holds. split.
    - intros ([j' v] & Hel & Hv%elem_of_map_to_list). destruct (live v) eqn:Hl; [|by apply elem_of_nil in Hel].
      apply list_elem_of_fmap in Hel as ([rid' amt] & [= -> ->] & Hh'). by exists v, amt.
    - intros (v & amt & Hv & Hl & Hr). exists (j, v). rewrite Hl. split; [|by apply elem_of_map_to_list].
      apply list_elem_of_fmap. by exists (rid, amt). }
  rewrite <-Hin. unfold owners. split; [apply elem_of_list_to_map_2|]. intros Hel.
  apply elem_of_list_to_map_1'; [|done]. intros y Hy. apply Hin in Hel, Hy. by eapply ho_excl.
Qed.

Lemma owners_eq rvs rvs' m m' :
  holdings_ok rvs m -> holdings_ok rvs' m' -> (forall rid vid, owner rvs' rid vid <-> owner rvs rid vid) ->
  owners rvs' = owners rvs.
Proof.
  intros Hh Hh' Ho. apply map_eq. intros rid. apply option_eq. intros vid.
  by rewrite (owners_spec _ _ _ _ Hh), (owners_spec _ _ _ _ Hh').
Qed.

Lemma lookup_foldr_insert {A : Type} rids (x : A) (o : gmap ResourceId A) rid :
  foldr (fun rid => <[rid := x]>) o rids !! rid = if decide (rid ∈ rids) then Some x else o !! rid.
Proof.
  induction rids as [|r rids IH]; cbn; [done|]. rewrite lookup_insert, IH.
  destruct (decide (r = rid)) as [->|Hne]; [by rewrite decide_True by (by left)|].
  destruct (decide (rid ∈ rids)); [by rewrite decide_True by (by right)|].
  by rewrite decide_False by (apply not_elem_of_cons; split; congruence).
Qed.

Lemma owners_acquire rvs m m' vid v :
  holdings_ok rvs m -> holdings_ok (<[vid := v]> rvs) m' -> rvs !! vid = None -> live v = true ->
  owners (<[vid := v]> rvs) = foldr (fun rid => <[rid := vid]>) (owners rvs) (item_holds (Reservation.items v)).*1
  /\ (forall rid, rid ∈ (item_holds (Reservation.items v)).*1 -> owners rvs !! rid = None)
  /\ forall rid, owners rvs !! rid <> Some vid.
Proof.
  intros Hh Hh' Hvid Hl.
  assert (Hno : forall rid, ~ owner rvs rid vid) by (intros rid (w & amt & Hw & _); congruence).
  split_and!.
  - apply map_eq. intros rid. apply option_eq. intros j. rewrite (owners_spec _ _ _ _ Hh'), owner_insert, lookup_foldr_insert.
    case_decide as Hd.
    + split; [|intros [= <-]; by left]. intros [(-> & _)|[Hne Ho]]; [done|]. f_equal. symmetry.
      eapply (ho_excl _ _ Hh'); apply owner_insert; [by right|by left].
    + rewrite (owners_spec _ _ _ _ Hh). split; [by intros [(_ & _ & ?)|[_ ?]]|]. intros Ho. right. split; [|done].
      intros ->. by destruct (Hno rid).
  - intros rid Hin. destruct (owners rvs !! rid) as [j|] eqn:E; [|done]. apply (owners_spec _ _ _ _ Hh) in E.
    destruct (decide (j = vid)) as [->|Hne]; [by destruct (Hno rid)|]. exfalso. apply Hne.
    eapply (ho_excl _ _ Hh'); apply owner_insert; [by right|by left].
  - intros rid. rewrite (owners_spec _ _ _ _ Hh). apply Hno.
Qed.

Lemma owners_release rvs m m' vid v' :
  holdings_ok rvs m -> holdings_ok (<[vid := v']> rvs) m' -> live v' = false ->
  owners (<[vid := v']> rvs) = filter (fun kv => kv.2 <> vid) (owners rvs).
Proof.
  intros Hh Hh' Hl. apply map_eq. intros rid. apply option_eq. intros j.
  rewrite (owners_spec _ _ _ _ Hh'), owner_insert, map_lookup_filter_Some, (owners_spec _ _ _ _ Hh). cbn.
  split; [intros [(_ & ? & _)|[? ?]]; [congruence|done]|]. intros [? ?]. by right.
Qed.

Lemma owners_relabel rvs m m' vid v v' :
  holdings_ok rvs m -> holdings_ok (<[vid := v']> rvs) m' -> rvs !! vid = Some v -> live v = true -> live v' = true ->
  (item_holds (Reservation.items v')).*1 = (item_holds (Reservation.items v)).*1 ->
  owners (<[vid := v']> rvs) = owners rvs.
Proof.
  intros Hh Hh' Hv Hl Hl' Hi. eapply owners_eq; [done..|]. intros rid j. rewrite owner_insert, Hi. split.
  - intros [(-> & _ & ?)|[_ ?]]; [by eapply owner_of|done].
  - destruct (decide (j = vid)) as [->|]; [|by right]. intros (w & amt & Hw & _ & Hr). simplify_eq.
    left. split_and!; [done..|by apply (item_holds_fst _ amt)].
Qed.

(** ** The ledger refines the lock table *)
Lemma release_lock id c s :
  LedgerInv s -> Impl.compositions s !! id = Some c ->
  (forall v, Impl.reservations s !! Composition.reservation c = Some v -> live v = true) ->
  lock_step (owners (Impl.reservations s))
    (owners (Impl.reservations (release_reservation (Composition.reservation c) s))).
Proof.
  intros [Hh Hl] Hc Hlive. unfold release_reservation.
  destruct (Impl.reservations s !! _) as [v|] eqn:Hv; cbn; [|constructor].
  erewrite owners_release; [apply lock_release|done|by apply holdings_release; auto|done].
Qed.

Lemma Reserve_lock plan s :
  LedgerInv s -> disciplined (OReserve plan) s ->
  if is_success (rr_outcome (Reserve plan s).1) then
    let vs := ResourceGraph.vertices (CompositionPlan.graph plan) in
    NoDup vs /\ (forall rid, rid ∈ vs -> owners (Impl.reservations s) !! rid = None) /\
    (forall rid, owners (Impl.reservations s) !! rid <> Some (Id (Impl.next_resv s))) /\
    owners (Impl.reservations (Reserve plan s).2) =
      foldr (fun rid => <[rid := Id (Impl.next_resv s)]>) (owners (Impl.reservations s)) vs
  else owners (Impl.reservations (Reserve plan s).2) = owners (Impl.reservations s).
Proof.
  intros HI Hd. pose proof (Reserve_ledger plan s HI Hd) as [Hh' _].
  destruct (Reserve_cases plan s HI Hd) as [[-> Hr]|[-> Ha]]; [by rewrite (rj_resvs _ _ _ Hr)|].
  destruct HI as [Hh Hl]. rewrite (ra_resvs _ _ _ _ Ha) in *. pose proof (accepts_members _ _ _ _ Ha) as Hm.
  destruct (owners_acquire _ _ _ _ _ Hh Hh') as (He & Hfree & Hnew);
    [by eapply holdings_fresh|by eapply accepts_live|]. rewrite Hm in *. split_and!; [|done..].
  rewrite <-Hm. apply Ha.
Qed.

Lemma Commit_lock resv s :
  LedgerInv s -> let o := owners (Impl.reservations s) in let o' := owners (Impl.reservations (Commit resv s).2) in
  o' = o \/ (is_success (cc_outcome (Commit resv s).1) = false /\ o' = filter (fun kv => kv.2 <> Reservation.id resv) o).
Proof.
  intros HI. pose proof (Commit_ledger resv s HI) as [Hh' _].
  destruct (Commit_cases resv s) as [[_ ->]|(v & c & Hs)]; [by left|]. pose proof (step_live _ _ _ _ _ _ Hs) as Hlive.
  destruct HI as [Hh Hl]. destruct Hs as [Hv Hst Hc Hlc Hn Hr Hcs Hm]. cbv zeta. rewrite Hr in *.
  destruct (is_success _); [left|right; split; [done|by eapply owners_release]].
  eapply owners_relabel; [done..|]. by rewrite item_holds_committed.
Qed.

Lemma run_lock o s :
  LedgerInv s -> disciplined o s ->
  lock_step (owners (Impl.reservations s)) (owners (Impl.reservations (run o s))).
Proof.
  intros HI Hd. destruct (invalidating o) eqn:Hinv.
  { destruct (invalidating_ledger o s Hinv) as (-> & _). constructor. }
  destruct o; try done; cbn [run].
  - pose proof (Reserve_lock plan s HI Hd) as Hr. destruct (is_success _); [|rewrite Hr; constructor].
    destruct Hr as (? & ? & ? & ->). by apply lock_acquire.
  - destruct (Commit_lock resv s HI) as [->|[_ ->]]; [apply lock_stutter|apply lock_release].
  - unfold Activate. repeat case_match; constructor.
  - unfold BeginDrain. repeat case_match; constructor.
  - unfold EndDrain. destruct (Impl.compositions s !! id) as [c|] eqn:Hc; [|constructor]. case_match; [constructor|].
    lc_cases. eapply release_lock; [done..|]. intros v Hv. destruct HI. by eapply links_draining.
  - unfold Release. destruct (Impl.compositions s !! id) as [c|] eqn:Hc; [|constructor]. case_match; [constructor|].
    eapply release_lock; [done..|eauto].
  - unfold recompute_release. destruct (Impl.compositions s !! id) as [c|] eqn:Hc; [|constructor].
    eapply release_lock; [done..|eauto].
  - destruct (LedgerInv_load d s Hd) as [Hh' _]. destruct Hd as [Hz _]. destruct HI as [Hh _].
    cbn [LoadState] in *. erewrite <-(owners_eq _ _ _ _ Hh Hh'); [constructor|]. intros rid vid. split.
    + by intros (v & ? & Hv & _).
    + intros Ho. by apply (proj1 (holdings_held _ _ _ Hh) (Hz rid)) in Ho.
Qed.
