(* ===== verification/Scenario.v ===== *)
(** * Concrete engine states

    The configuration and the request of [tests/t_composition.cpp] on the
    synthetic topology, run through discovery, composition, reservation, commit
    and activation.  The states are closed terms; the witnesses of the theorems
    evaluate them. *)

From S2P Require Import Prelude Enums Ids Double Model Planner Engine Synthetic Lifecycle Ledger.

Definition cfg : EngineConfig.t := EngineConfig.mk (Id 7) (Id 1) "" true.

Definition MakeReq : CompositionRequest.t :=
  CompositionRequest.dflt
    <| CompositionRequest.compute_units := 1 |> <| CompositionRequest.accelerator_count := 1 |>
    <| CompositionRequest.accelerator_memory_bytes := d1 |>
    <| CompositionRequest.host_memory_bytes := double_of_Z 1024 |>
    <| CompositionRequest.expanded_memory_bytes := double_of_Z 1024 |>
    <| CompositionRequest.storage_bytes := double_of_Z 1024 |>
    <| CompositionRequest.network_endpoint_count := 1 |>
    <| CompositionRequest.min_bandwidth_mbps := d1000 |> <| CompositionRequest.max_latency_us := d100 |>
    <| CompositionRequest.mandatory_classes := {[ResourceClass.COMPUTE; ResourceClass.ACCELERATOR;
       ResourceClass.HOST_MEMORY; ResourceClass.EXPANDED_MEMORY; ResourceClass.STORAGE; ResourceClass.NETWORK_ENDPOINT]} |>.

(** A request for one accelerator only, and one for storage only: they can be
    composed side by side. *)
Definition AccReq : CompositionRequest.t :=
  CompositionRequest.dflt <| CompositionRequest.accelerator_count := 1 |>.
Definition StorReq : CompositionRequest.t :=
  CompositionRequest.dflt <| CompositionRequest.storage_bytes := double_of_Z 1024 |>.

(** The state as a list of operations: [plan_of] and [resv_of] are what a client
    carries from one call to the next. *)
Definition plan_of (req : CompositionRequest.t) (s : Impl.t) : CompositionPlan.t := cr_plan (Compose req s).1.
Definition resv_of (plan : CompositionPlan.t) (s : Impl.t) : Reservation.t := rr_reservation (Reserve plan s).1.

Definition s_new : Impl.t :=
  run (OAddBackend (Some (Synthetic.as_backend (Synthetic.SyntheticBackend (Id 1))))) (FabricEngine cfg).
Definition s_disc : Impl.t := run ODiscover s_new.

Section pipeline.
Context (req : CompositionRequest.t) (s : Impl.t).
Definition p_composed : Impl.t := run (OCompose req) s.
Definition p_plan : CompositionPlan.t := plan_of req s.
Definition p_reserved : Impl.t := run (OReserve p_plan) p_composed.
Definition p_resv : Reservation.t := resv_of p_plan p_composed.
Definition p_committed : Impl.t := run (OCommit p_resv) p_reserved.
Definition p_active : Impl.t := run (OActivate (CompositionPlan.id p_plan)) p_committed.

Lemma p_active_reachable c : reachable c s -> reachable c p_active.
Proof. intros H. by repeat apply reachable_step. Qed.
End pipeline.

Definition s_reserved : Impl.t := p_reserved MakeReq s_disc.
Definition s_committed : Impl.t := p_committed MakeReq s_disc.
Definition s_active : Impl.t := p_active MakeReq s_disc.
(** Two compositions side by side. *)
Definition s_two : Impl.t := p_active StorReq (p_active AccReq s_disc).

Lemma s_disc_reachable : reachable cfg s_disc.
Proof. repeat apply reachable_step. constructor. Qed.
Lemma s_committed_reachable : reachable cfg s_committed.
Proof. do 3 apply reachable_step. apply s_disc_reachable. Qed.
Lemma s_active_reachable : reachable cfg s_active.
Proof. apply p_active_reachable, s_disc_reachable. Qed.

(** [disciplined] is decidable where the pipeline needs it. *)
Definition reserve_disciplined (plan : CompositionPlan.t) (s : Impl.t) : bool :=
  (Impl.next_resv s + 1 <? 2 ^ 64) &&
  forallb (fun rid => match Impl.resources s !! rid with
    | Some r => dpos (HoldAmountForResource r (CompositionPlan.request plan)) | None => true end)
    (ResourceGraph.vertices (CompositionPlan.graph plan)).

Lemma reserve_disciplined_ok plan s : reserve_disciplined plan s = true -> disciplined (OReserve plan) s.
Proof.
  intros [Hn Hf]%andb_true_iff. apply N.ltb_lt in Hn. split; [done|]. intros rid r Hin Hr.
  rewrite forallb_forall in Hf. specialize (Hf rid). rewrite <-list_elem_of_In in Hf. specialize (Hf Hin). by rewrite Hr in Hf.
Qed.

Lemma p_reserved_disciplined req c s :
  disciplined_reachable c s -> reserve_disciplined (p_plan req s) (p_composed req s) = true ->
  disciplined_reachable c (p_reserved req s).
Proof. intros Hs Hd. repeat apply dr_step; try done. by apply reserve_disciplined_ok. Qed.
Lemma p_active_disciplined req c s :
  disciplined_reachable c s -> reserve_disciplined (p_plan req s) (p_composed req s) = true ->
  disciplined_reachable c (p_active req s).
Proof. intros Hs Hd. do 2 (apply dr_step; [|exact I]). by apply p_reserved_disciplined. Qed.

Lemma s_disc_disciplined : disciplined_reachable cfg s_disc.
Proof. repeat apply dr_step; try done. constructor. Qed.
Lemma s_active_disciplined : disciplined_reachable cfg s_active.
Proof. apply p_active_disciplined; [apply s_disc_disciplined|vm_compute; reflexivity]. Qed.
Lemma s_two_disciplined : disciplined_reachable cfg s_two.
Proof.
  apply p_active_disciplined; [apply p_active_disciplined; [apply s_disc_disciplined|]|]; vm_compute; reflexivity.
Qed.

(** The lifecycle of a composition in a state. *)
Definition lifecycle_at (id : CompositionId) (s : Impl.t) : option CompositionLifecycle.t :=
  Composition.lifecycle <$> Impl.compositions s !! id.

Lemma lifecycle_at_Some id s lc :
  lifecycle_at id s = Some lc -> exists c, Impl.compositions s !! id = Some c /\ Composition.lifecycle c = lc.
Proof. unfold lifecycle_at. rewrite fmap_Some. intros (c & ? & ->). eauto. Qed.

Example s_active_is_active : lifecycle_at (Id 1) s_active = Some CompositionLifecycle.ACTIVE.
Proof. vm_compute. reflexivity. Qed.
Example s_two_are_active :
  lifecycle_at (Id 1) s_two = Some CompositionLifecycle.ACTIVE /\ lifecycle_at (Id 2) s_two = Some CompositionLifecycle.ACTIVE.
Proof. vm_compute. done. Qed.
