(* ===== verification/System.v ===== *)
(** * The system backend

    [backends/system/system_backend.{hpp,cpp}]: the backend for the machine the
    process runs on.  What the operating system answers is the argument [OsInfo];
    the constructor turns it into one node with four resources. *)

From S2P Require Import Prelude Enums Ids Double Model Planner Engine Lifecycle Compose Contract Ledger Scenario Synthetic.

(** The answers of [GetComputerNameA] ([None]: it failed), [GetSystemInfo],
    [GlobalMemoryStatusEx] and [GetDiskFreeSpaceExA]; an answer that the call does
    not fill in is 0, as the variables are initialised. *)
Record OsInfo := mkOsInfo {
  computer_name : option string; dwNumberOfProcessors : N; ullTotalPhys : N; freeBytes : N }.

(** The literal [0.9]. *)
Definition d_0_9 : double := S754_finite false 8106479329266893 (-53).

Module System.
Record t := mk { node_ : Node.t; res_ : list Resource.t }.

Section constructor.
Context (os : OsInfo).
Definition GetHostName : string := default "localhost" (computer_name os).

Definition node : Node.t :=
  Node.dflt
    <| Node.id := Id 9000 |> <| Node.generation := Id 1 |> <| Node.hostname := GetHostName |>
    <| Node.provider := "windows/host" |> <| Node.backend := BackendKind.REAL |>
    <| Node.health := ResourceHealth.HEALTHY |> <| Node.reachability := Reachability.REACHABLE |>
    <| Node.lifecycle := NodeLifecycle.VALIDATED |>
    <| Node.failure_domain ::= fun f => f <| FailureDomain.id := Id 9001 |> <| FailureDomain.type := FailureDomainType.HOST |>
         <| FailureDomain.name := "single-host" |> <| FailureDomain.synthetic := false |> |>
    <| Node.synthetic := false |>.

(** The lambda [mk]. *)
Definition mk_resource (id : ResourceId) (cls : ResourceClass.t) (prov : string) : Resource.t :=
  Resource.dflt
    <| Resource.id := id |> <| Resource.generation := Id 1 |> <| Resource.resource_class := cls |>
    <| Resource.node_id := Node.id node |> <| Resource.provider := prov |>
    <| Resource.health := ResourceHealth.HEALTHY |> <| Resource.readiness := Readiness.READY |>
    <| Resource.reachability := Reachability.REACHABLE |>
    <| Resource.evidence ::= fun e =>
         e <| Evidence.id := Id (wrap64 (Value id * 7 + 1)) |> <| Evidence.generation := Id 1 |>
           <| Evidence.source := EvidenceSource.BACKEND |> <| Evidence.state := EvidenceState.FRESH |>
           <| Evidence.timestamp_ms := 1000 |> <| Evidence.max_age_ms := 3600000 |> <| Evidence.confidence := d_0_9 |>
           <| Evidence.provenance := "system/" +:+ prov |> <| Evidence.durable := true |> |>
    <| Resource.synthetic := false |> <| Resource.failure_domain := Node.failure_domain node |>.
Definition add_capability (kind : CapabilityKind.t) (r : Resource.t) : Resource.t :=
  r <| Resource.capabilities ::= fun cs =>
    cs ++ [Capability.mk kind CapabilityState.SUPPORTED (Id 1) (Evidence.id (Resource.evidence r)) ""] |>.

Definition cpu : Resource.t :=
  let r := mk_resource (Id 9101) ResourceClass.COMPUTE "host/cpu" in
  let r := r <| Resource.capacity ::= fun c => c <| Capacity.compute_units := double_of_N (dwNumberOfProcessors os) |> |> in
  add_capability CapabilityKind.HOST_MEMORY_ACCESS (add_capability CapabilityKind.CPU_EXECUTION r).
Definition mem : Resource.t :=
  let r := mk_resource (Id 9102) ResourceClass.HOST_MEMORY "host/memory" in
  add_capability CapabilityKind.HOST_MEMORY_ACCESS
    (r <| Resource.capacity ::= fun c => c <| Capacity.host_memory_bytes := double_of_N (ullTotalPhys os) |> |>).
Definition stor : Resource.t :=
  let r := mk_resource (Id 9103) ResourceClass.STORAGE "host/storage" in
  add_capability CapabilityKind.PERSISTENT_STORAGE
    (r <| Resource.capacity ::= fun c => c <| Capacity.storage_bytes := double_of_N (freeBytes os) |> |>).
Definition nic : Resource.t :=
  let r := mk_resource (Id 9104) ResourceClass.NETWORK_ENDPOINT "host/network" in
  add_capability CapabilityKind.DIRECT_NETWORK_ACCESS
    (r <| Resource.capacity ::= fun c => c <| Capacity.network_bandwidth_mbps := d1000 |> |>).

Definition SystemBackend : t := mk node [cpu; mem; stor; nic].
End constructor.

Definition DiscoverNodes (b : t) : list Node.t := [node_ b].
Definition DiscoverResources (b : t) : list Resource.t := res_ b.
Definition ResolvePath (b : t) (q : PathRequirement.t) : option PathEvidence.t := None.
(** [snprintf] into a buffer of 256 bytes. *)
Definition Describe (b : t) : string :=
  String.substring 0 255 ("system host=" +:+ Node.hostname (node_ b) +:+ " resources=" +:+ pretty (N.of_nat (length (res_ b)))).
Definition as_backend (b : t) : Backend := mkBackend (DiscoverNodes b) (DiscoverResources b) (ResolvePath b).
End System.

(** ** The contract *)
#[export] Instance SystemBackend_contract b : BackendContract (System.as_backend b).
Proof. split; [constructor|done]. Qed.

(** An engine on the machine alone, after discovery. *)
Definition host_engine (c : EngineConfig.t) (os : OsInfo) : Impl.t :=
  (Discover (AddBackend (Some (System.as_backend (System.SystemBackend os))) (FabricEngine c))).2.

Lemma host_resources c os :
  Impl.resources (host_engine c os) =
    <[Id 9104 := System.nic os]> (<[Id 9103 := System.stor os]> (<[Id 9102 := System.mem os]> (<[Id 9101 := System.cpu os]> ∅))).
Proof. unfold host_engine, FabricEngine. repeat case_match; reflexivity. Qed.
Definition host_classes : list ResourceClass.t :=
  [ResourceClass.COMPUTE; ResourceClass.HOST_MEMORY; ResourceClass.STORAGE; ResourceClass.NETWORK_ENDPOINT].
Lemma host_resource c os rid r :
  Impl.resources (host_engine c os) !! rid = Some r ->
  Resource.id r = rid /\ Resource.synthetic r = false /\ Resource.node_id r = Id 9000 /\ Resource.resource_class r ∈ host_classes.
Proof.
  assert (Hc : forall k, k ∈ host_classes <-> bool_decide (k ∈ host_classes) = true) by (intros; by rewrite bool_decide_eq_true).
  rewrite host_resources, !lookup_insert. repeat case_decide; intros; simplify_eq; try done;
    split_and!; try done; apply Hc; reflexivity.
Qed.

(** C35: The system backend fabricates no hardware: whatever the operating system reports,
    every resource that discovery registers is a real one of the single host node
    and of one of the four classes the backend knows, and a request with a mandatory
    demand of any other class, an accelerator for example, is rejected. *)
Theorem host_fabricates_nothing c os req :
  (forall rid r, Impl.resources (host_engine c os) !! rid = Some r ->
     Resource.synthetic r = false /\ Resource.node_id r = Id 9000 /\ Resource.resource_class r ∈ host_classes) /\
  ((exists d, d ∈ ComputeDemands req /\ mandatory d = true /\ cls d ∉ host_classes) ->
   is_success (cr_outcome (Compose req (host_engine c os)).1) = false).
Proof.
  split; [intros rid r H; by apply host_resource in H as (_ & H)|]. intros (d & Hd & Hm & Hcls).
  destruct (is_success _) eqn:Hok; [|done]. exfalso.
  assert (Hk : keys_ok (Impl.resources (host_engine c os))) by (intros rid r H; by apply host_resource in H as (? & _)).
  destruct (Compose_sound req (host_engine c os) Hk Hok) as [set Hsp]. pose proof (sp_demands _ _ _ _ Hsp d Hd Hm) as Hmeet.
  destruct (filter (fun r => Resource.resource_class r = cls d) set) as [|r l] eqn:Hf; [done|].
  assert (Hr : r ∈ filter (fun r => Resource.resource_class r = cls d) set) by (rewrite Hf; by left).
  apply list_elem_of_filter in Hr as [Hrc Hr]. apply Hcls. rewrite <-Hrc.
  pose proof (sp_members _ _ _ _ Hsp) as Hmem. apply mapM_Some in Hmem. apply list_elem_of_lookup in Hr as [i Hi].
  destruct (Forall2_lookup_r _ _ _ _ _ Hmem Hi) as (rid & _ & Hrid). by apply host_resource in Hrid as (_ & _ & _ & ?).
Qed.

(** A machine with eight processors, and the request for one accelerator. *)
Lemma host_fabricates_nothing_witness :
  is_success (cr_outcome (Compose AccReq (host_engine cfg (mkOsInfo (Some "host") 8 17179869184 1099511627776))).1) = false.
Proof.
  apply (host_fabricates_nothing cfg (mkOsInfo (Some "host") 8 17179869184 1099511627776) AccReq).
  exists (mkDemand ResourceClass.ACCELERATOR true false d0 1 "accelerator_memory_bytes"). split; [|split].
  - apply list_elem_of_In. right. left. vm_compute. reflexivity.
  - reflexivity.
  - apply (bool_decide_unpack _). vm_compute. exact I.
Defined.
(** What the machine can do: a request for compute and memory is composed on it. *)
Example host_composes :
  is_success (cr_outcome (Compose (CompositionRequest.dflt <| CompositionRequest.compute_units := 4 |>
    <| CompositionRequest.host_memory_bytes := double_of_Z 1024 |>)
    (host_engine cfg (mkOsInfo (Some "host") 8 17179869184 1099511627776))).1) = true.
Proof. vm_compute. reflexivity. Qed.
