(* ===== verification/LifecycleProps.v ===== *)
(** * What the lifecycle guarantees

    The claims about authority: when a composition can be ACTIVE, that fences,
    epochs, worker deaths, withdrawals and restarts take authority away, and
    that only [Activate] gives it. *)

From S2P Require Import Prelude Enums Ids Double Model Planner Engine Synthetic Lifecycle Compose Ledger Scenario.

(** ** Helper lemmas *)

(** Fences are never lifted. *)
Lemma release_reservation_fenced rid s : Impl.fenced (release_reservation rid s) = Impl.fenced s.
Proof. apply release_reservation_frame. Qed.

Definition same_fences (s s' : Impl.t) : Prop := Impl.fenced s' = Impl.fenced s.

Lemma Discover_fences s : same_fences s (Discover s).2.
Proof.
  apply (Discover_ind same_fences); unfold same_fences; try done.
  - intros a b c H1 H2. by rewrite H2, H1.
  - intros n s0. apply IngestNode_frame.
  - intros r s0. apply IngestResource_frame.
Qed.

Lemma fenced_mono o s id : id ∈ Impl.fenced s -> id ∈ Impl.fenced (run o s).
Proof.
  intros Hid. destruct o; cbn [run]; try done.
  - by destruct b.
  - by rewrite Discover_fences.
  - unfold RegisterNode. case_match; [done|]. cbn. by destruct (IngestNode_frame n s) as (_ & -> & _).
  - unfold RegisterResource. case_match; [done|]. cbn. by destruct (IngestResource_frame r s) as (_ & ->).
  - unfold WithdrawResource. by case_match.
  - unfold AdvanceEpoch. by case_match.
  - by rewrite Compose_frame.
  - unfold Reserve. repeat (destruct (negb _); [done|]). by destruct (reserve_loop _ _ _ _ _) as [[m items] [[reason note]|]].
  - unfold Commit. repeat case_match; done.
  - unfold Activate. repeat case_match; done.
  - unfold OnResourceUpdate. by destruct (IngestResource_frame r s) as (_ & ->).
  - unfold OnNodeUpdate. by destruct (IngestNode_frame n s) as (_ & -> & _).
  - unfold BeginDrain. by repeat case_match.
  - unfold EndDrain. repeat case_match; cbn; by rewrite ?release_reservation_fenced.
  - unfold Release. repeat case_match; cbn; rewrite ?release_reservation_fenced; [done| |done]. by apply elem_of_union_r.
  - unfold recompute_release. case_match; cbn; [|done]. rewrite release_reservation_fenced. by apply elem_of_union_r.
Qed.

Lemma run_all_ind (P : Impl.t -> Prop) os s :
  P s -> (forall o s, o ∈ os -> P s -> P (run o s)) -> P (run_all os s).
Proof.
  unfold run_all. revert s. induction os as [|o os IH]; intros s Hs Hstep; cbn; [done|].
  apply IH; [apply Hstep; [by left|done]|]. intros o' s' Hin. apply Hstep. by right.
Qed.

Lemma reachable_run_all cfg os s : reachable cfg s -> reachable cfg (run_all os s).
Proof. intros Hs. apply run_all_ind; [done|]. intros. by constructor. Qed.

Lemma Release_fences id s : (Release id s).1 = true -> id ∈ Impl.fenced (Release id s).2.
Proof. unfold Release. repeat case_match; try done. intros _. cbn. set_solver. Qed.

(** Drains and releases store one composition, which is not in use. *)
Definition retiring (o : op) : bool :=
  match o with OBeginDrain _ | OEndDrain _ | ORelease _ | ORecomputeRelease _ => true | _ => false end.

Lemma release_reservation_comps rid s : Impl.compositions (release_reservation rid s) = Impl.compositions s.
Proof. apply release_reservation_frame. Qed.

Lemma retiring_comps o s :
  retiring o = true -> Impl.compositions (run o s) = Impl.compositions s \/
  exists i c, Impl.compositions (run o s) = <[i := c]> (Impl.compositions s) /\ ~ in_use c.
Proof.
  assert (Hn : forall lc c, lc = CompositionLifecycle.DRAINING \/ lc = CompositionLifecycle.RELEASED ->
    ~ in_use (with_lifecycle lc c)) by (intros lc c Hlc [H|H]; cbn in H; subst; by destruct Hlc).
  destruct o; try done; intros _; cbn [run].
  - unfold BeginDrain. repeat case_match; [|by left..]. right. do 2 eexists. split; [done|]. apply Hn. by left.
  - unfold EndDrain. repeat case_match; [by left| |by left]. cbn. rewrite release_reservation_comps. right.
    do 2 eexists. split; [done|]. apply Hn. by right.
  - unfold Release. repeat case_match; [by left| |by left]. cbn. rewrite release_reservation_comps. right.
    do 2 eexists. split; [done|]. apply Hn. by right.
  - unfold recompute_release. case_match; [|by left]. cbn. rewrite release_reservation_comps. right.
    do 2 eexists. split; [done|]. apply Hn. by right.
Qed.

Lemma retiring_in_use o s id c' :
  retiring o = true -> Impl.compositions (run o s) !! id = Some c' -> in_use c' -> Impl.compositions s !! id = Some c'.
Proof.
  intros Hr Hc' Hin. destruct (retiring_comps o s Hr) as [Heq|(i & c & Heq & Hn)]; rewrite Heq in Hc'; [done|].
  rewrite lookup_insert in Hc'. case_decide; [|done]. by simplify_eq.
Qed.

Lemma Load_comps d s id c :
  Impl.compositions (LoadState d s) !! id = Some c -> ~ in_use c.
Proof.
  cbn. intros [Hin _]%insert_all_lookup. apply list_elem_of_fmap in Hin as (c0 & -> & _).
  destruct (load_composition_facts c0) as (_ & ? & ?). by intros [].
Qed.

(** Where an ACTIVE composition comes from. *)
Lemma to_active o s id c' :
  Inv s -> Impl.compositions (run o s) !! id = Some c' -> Composition.lifecycle c' = CompositionLifecycle.ACTIVE ->
  (exists c, Impl.compositions s !! id = Some c /\ Composition.lifecycle c = CompositionLifecycle.ACTIVE) \/
  (o = OActivate id /\ exists c, Impl.compositions s !! id = Some c /\
    Composition.lifecycle c = CompositionLifecycle.COMMITTED /\ (id ∉ Impl.fenced s) /\
    RevalidationHolds c (Impl.resources s) (epoch s) = None).
Proof.
  intros HI Hc' Ha. destruct (invalidating o) eqn:Hinv.
  { left. destruct (comps_rel_back _ _ _ _ _ (run_stale o s Hinv) Hc') as (c & Hc & _ & Hs).
    exists c. split; [done|]. rewrite Ha in Hs. by apply stale_step_to_active. }
  destruct (retiring o) eqn:Hret.
  { left. exists c'. split; [|done]. eapply retiring_in_use; [done..|by right]. }
  destruct o; try done; cbn [run] in Hc'.
  - apply Reserve_comps in Hc' as [?|(_ & _ & ?)]; [left; eauto|congruence].
  - left. destruct (Commit_cases resv s) as [[_ Heq]|(v & c & Hs)]; [rewrite Heq in Hc'; eauto|].
    rewrite (ct_comps _ _ _ _ _ _ Hs), lookup_insert in Hc'. case_decide; [|eauto].
    destruct (is_success _); simplify_eq; by cbn in Ha.
  - pose proof (Activate_inv id0 s) as Hact. destruct (Impl.compositions s !! id0) as [c|] eqn:Hc; [|rewrite Hact in Hc'; left; eauto].
    destruct Hact as [Hact|[Hact|(Hcm & Hf & Hr & _ & Hact)]]; rewrite Hact in Hc'; cbn in Hc'; [|left; by eauto|];
      rewrite lookup_insert in Hc'; (case_decide; [subst|left; by eauto]); [by simplify_eq|].
    right. rewrite (inv_composition_keys _ HI _ _ Hc) in Hf. eauto 8.
  - exfalso. eapply Load_comps; [done|by right].
Qed.

(** [evidence_ok] fails as soon as one member's evidence is not current. *)
Lemma stale_member_rejected c rs ep rid r :
  rid ∈ ResourceGraph.vertices (Composition.graph c) -> rs !! rid = Some r -> IsCurrent (Resource.evidence r) = false ->
  RevalidationHolds c rs ep <> None.
Proof.
  intros Hin Hr Hcur H. destruct (RevalidationHolds_ok _ _ _ H) as [_ Hev].
  destruct (Hev rid Hin) as (r' & ? & ?). congruence.
Qed.

(** [Activate] succeeds only through its three guards. *)
Lemma Activate_success id s :
  is_success (ar_outcome (Activate id s).1) = true ->
  exists c, Impl.compositions s !! id = Some c /\ Composition.lifecycle c = CompositionLifecycle.COMMITTED /\
    (Composition.id c ∉ Impl.fenced s) /\ RevalidationHolds c (Impl.resources s) (epoch s) = None.
Proof.
  unfold Activate. destruct (Impl.compositions s !! id) as [c|]; [|done].
  destruct (negb (lifecycle_is _ c)) eqn:Hl; [done|]. destruct (bool_decide _) eqn:Hf; [done|]. lc_cases.
  apply bool_decide_eq_false_1 in Hf. destruct (RevalidationHolds _ _ _) as [[reason note]|] eqn:Hr; [done|]. eauto.
Qed.

Lemma require_revalidation_stale e : IsCurrent (require_revalidation e) = false.
Proof. done. Qed.

(** The events after which a member's evidence is not current. *)
Inductive fault (s : Impl.t) (rid : ResourceId) : op -> Prop :=
  | fault_withdraw : fault s rid (OWithdrawResource rid)
  | fault_failure : fault s rid (OResourceFailure rid)
  | fault_worker owner r :
      Impl.resources s !! rid = Some r -> owned_by (ToString owner) r = true -> fault s rid (OMarkEvidence owner).

Lemma fault_evidence s rid r o :
  Impl.resources s !! rid = Some r -> fault s rid o ->
  exists r', Impl.resources (run o s) !! rid = Some r' /\ IsCurrent (Resource.evidence r') = false.
Proof.
  intros Hr Hf. destruct Hf as [| |owner r0 Hr0 Ho]; cbn [run].
  - unfold WithdrawResource. rewrite Hr. cbn. rewrite lookup_insert_eq. eauto.
  - cbn. rewrite lookup_alter_eq, Hr. cbn. eauto.
  - simplify_eq. cbn. rewrite lookup_fmap, Hr. cbn. rewrite Ho. eauto.
Qed.

(** Closes a goal about the lifecycle that an update leaves. *)
Ltac inactive := cbn; repeat case_match; lc_cases; first [done | congruence].

Lemma fault_inactive s rid r o id c' :
  Impl.resources s !! rid = Some r -> fault s rid o -> Impl.compositions (run o s) !! id = Some c' ->
  rid ∈ ResourceGraph.vertices (Composition.graph c') -> Composition.lifecycle c' <> CompositionLifecycle.ACTIVE.
Proof.
  intros Hr Hf Hc' Hin.
  assert (Hmem : forall c, Composition.graph c = Composition.graph c' -> is_member rid c = true)
    by (intros c Hg; apply is_member_spec; by rewrite Hg).
  destruct Hf as [| |owner r0 Hr0 Ho]; cbn [run] in Hc'.
  - unfold WithdrawResource in Hc'. rewrite Hr in Hc'. cbn in Hc'. rewrite lookup_fmap, fmap_Some in Hc'.
    destruct Hc' as (c & Hc & ->). rewrite Hmem by (by case_match). clear. inactive.
  - cbn in Hc'. rewrite lookup_fmap, fmap_Some in Hc'. destruct Hc' as (c & Hc & ->).
    rewrite Hmem by (by repeat case_match). clear. inactive.
  - simplify_eq. cbn in Hc'. rewrite lookup_fmap, fmap_Some in Hc'. destruct Hc' as (c & Hc & ->).
    assert (Hin' : rid ∈ ResourceGraph.vertices (Composition.graph c)) by (by case_match). clear Hin Hmem.
    rewrite (proj2 (existsb_exists _ _)).
    + rewrite andb_true_r. clear. inactive.
    + exists rid. split; [by apply list_elem_of_In|]. rewrite lookup_fmap, Hr. cbn. by rewrite Ho.
Qed.

Lemma fault_rejects_activation s rid r o id c' :
  Impl.resources s !! rid = Some r -> fault s rid o -> Impl.compositions (run o s) !! id = Some c' ->
  rid ∈ ResourceGraph.vertices (Composition.graph c') -> is_success (ar_outcome (Activate id (run o s)).1) = false.
Proof.
  intros Hr Hf Hc' Hin. destruct (is_success _) eqn:Hs; [|done].
  apply Activate_success in Hs as (c & Hc & _ & _ & Hrv). simplify_eq.
  destruct (fault_evidence s rid r o Hr Hf) as (r' & Hr' & Hcur). by eapply stale_member_rejected in Hrv.
Qed.

(** Operations that neither create compositions nor restore state or epochs. *)
Definition plain (o : op) : bool :=
  match o with OReserve _ | OLoad _ | OAdvanceEpoch _ => false | _ => true end.

Lemma plain_evolves o s : plain o = true -> comps_rel evolves (Impl.compositions s) (Impl.compositions (run o s)).
Proof. intros Hp. apply run_evolves; intros ? ->; done. Qed.

Lemma Discover_epoch s : epoch (Discover s).2 = epoch s.
Proof.
  apply (Discover_ind (fun s s' => epoch s' = epoch s)); try done.
  - intros a b c H1 H2. by rewrite H2, H1.
  - intros n s0. apply IngestNode_frame.
  - intros r s0. apply IngestResource_frame.
Qed.

Lemma release_reservation_epoch rid s : epoch (release_reservation rid s) = epoch s.
Proof. unfold epoch. by destruct (release_reservation_frame rid s) as (-> & _). Qed.

Lemma plain_epoch o s : plain o = true -> epoch (run o s) = epoch s.
Proof.
  destruct o; try done; intros _; cbn [run].
  - by destruct b.
  - apply Discover_epoch.
  - unfold RegisterNode. case_match; [done|]. apply IngestNode_frame.
  - unfold RegisterResource. case_match; [done|]. apply IngestResource_frame.
  - unfold WithdrawResource. by case_match.
  - by rewrite Compose_frame.
  - unfold Commit. repeat case_match; done.
  - unfold Activate. repeat case_match; done.
  - apply IngestResource_frame.
  - apply IngestNode_frame.
  - unfold BeginDrain. by repeat case_match.
  - unfold EndDrain. repeat case_match; try done. cbn. apply release_reservation_epoch.
  - unfold Release. repeat case_match; try done. apply release_reservation_epoch.
  - unfold recompute_release. case_match; [|done]. apply release_reservation_epoch.
Qed.

(** Compositions bound to an old epoch. *)
Lemma old_epoch_step o s ep :
  plain o = true -> Inv s -> epoch s = ep ->
  (forall id c, Impl.compositions s !! id = Some c -> AuthorityTuple.coordinator_epoch (Composition.authority c) <> ep ->
    Composition.lifecycle c <> CompositionLifecycle.ACTIVE) ->
  forall id c, Impl.compositions (run o s) !! id = Some c ->
    AuthorityTuple.coordinator_epoch (Composition.authority c) <> ep -> Composition.lifecycle c <> CompositionLifecycle.ACTIVE.
Proof.
  intros Hp HI He Hall id c' Hc' Hep Ha.
  destruct (comps_rel_back _ _ _ _ _ (plain_evolves o s Hp) Hc') as (c & Hc & (_ & _ & _ & _ & Hauth & _) & _).
  destruct (to_active o s id c' HI Hc' Ha) as [(c0 & Hc0 & Hact)|(_ & c0 & Hc0 & _ & _ & Hr)]; simplify_eq.
  - eapply Hall; [done| |done]. by rewrite <-Hauth.
  - destruct (RevalidationHolds_ok _ _ _ Hr) as [[Heq _] _]. congruence.
Qed.

(** Without reservations nothing can be committed. *)
Lemma no_reservations_step o s :
  (forall plan, o <> OReserve plan) -> Impl.reservations s = ∅ ->
  (forall id c, Impl.compositions s !! id = Some c -> ~ in_use c) ->
  Impl.reservations (run o s) = ∅ /\ (forall id c, Impl.compositions (run o s) !! id = Some c -> ~ in_use c).
Proof.
  intros Hnr Hr Hall. destruct (invalidating o) eqn:Hinv.
  { destruct (invalidating_ledger o s Hinv) as (-> & _). split; [done|]. intros id c' Hc' Hin.
    destruct (comps_rel_back _ _ _ _ _ (run_stale o s Hinv) Hc') as (c & Hc & _ & Hs).
    apply (Hall id c Hc). destruct Hin as [Hin|Hin]; rewrite Hin in Hs; inversion Hs; auto. }
  destruct (retiring o) eqn:Hret.
  { split; [|intros id c' Hc' Hin; apply (Hall id c'); [by eapply retiring_in_use|done]].
    destruct o; try done; cbn [run]; unfold BeginDrain, EndDrain, Release, recompute_release, release_reservation;
      rewrite ?Hr; repeat case_match; cbn; done. }
  destruct o; try done; cbn [run].
  - by edestruct Hnr.
  - unfold Commit. by rewrite Hr, lookup_empty.
  - pose proof (Activate_inv id s) as Ha. destruct (Impl.compositions s !! id) as [c|] eqn:Hc; [|by rewrite Ha].
    destruct Ha as [Ha|[Ha|(Hcm & _)]]; [|by rewrite Ha|destruct (Hall id c Hc); by left]. rewrite Ha. cbn. split; [done|].
    intros j cj. rewrite lookup_insert. case_decide; [|apply Hall]. intros [= <-]. by intros [].
  - split; [done|]. intros id c. apply Load_comps.
Qed.

Lemma bump_counter_le {Tag : Set} {A : Type} (m : gmap (StrongId Tag) A) n :
  (forall k, is_Some (m !! k) -> u64_ok (Value k + 1)) ->
  n <= bump_counter m n /\ forall k, is_Some (m !! k) -> Value k < bump_counter m n.
Proof.
  intros Hm. unfold bump_counter.
  assert (Hgen : forall (l : list (StrongId Tag * A)) n, (forall kv, kv ∈ l -> u64_ok (Value kv.1 + 1)) ->
    let b := fold_left (fun n kv => if n <=? Value kv.1 then wrap64 (Value kv.1 + 1) else n) l n in
    n <= b /\ forall kv, kv ∈ l -> Value kv.1 < b).
  { induction l as [|kv l IH]; intros n0 Hl; cbn; [split; [lia|by intros ? ?%elem_of_nil]|].
    destruct (IH (if n0 <=? Value kv.1 then wrap64 (Value kv.1 + 1) else n0)) as [Hle Hlt]; [intros; apply Hl; by right|].
    assert (Hkv : n0 <= (if n0 <=? Value kv.1 then wrap64 (Value kv.1 + 1) else n0) /\
      Value kv.1 < (if n0 <=? Value kv.1 then wrap64 (Value kv.1 + 1) else n0)).
    { rewrite wrap64_small by (apply Hl; by left). destruct (N.leb_spec n0 (Value kv.1)); lia. }
    split; [lia|]. intros kv' [->|Hin]%elem_of_cons; [lia|auto]. }
  destruct (Hgen (map_to_list m) n) as [Hle Hlt].
  - intros [k x] Hin%elem_of_map_to_list. apply Hm. eauto.
  - split; [done|]. intros k [x Hx]. apply (Hlt (k, x)). by apply elem_of_map_to_list.
Qed.

Lemma Compose_success_id req s :
  is_success (cr_outcome (Compose req s).1) = true ->
  CompositionPlan.id (cr_plan (Compose req s).1) = Id (Impl.next_comp s) /\
  CompositionPlan.lifecycle (cr_plan (Compose req s).1) = CompositionLifecycle.PLANNED.
Proof.
  unfold Compose, ComposeDeterministic, ComposeOrdered.
  destruct (build_selections _ _ _) as [note|[|sel sels]]; [done..|].
  destruct (product _ _) as [combos|]; [|done]. by destruct (fold_left _ _ _) as [paths [plan|]].
Qed.

(** ** Plans that record a generation per member *)
Definition full_plan (plan : CompositionPlan.t) : Prop :=
  length (AuthorityTuple.resource_generations (CompositionPlan.authority plan)) = length (ResourceGraph.vertices (CompositionPlan.graph plan)).
Definition full_composition (c : Composition.t) : Prop :=
  length (AuthorityTuple.resource_generations (Composition.authority c)) = length (ResourceGraph.vertices (Composition.graph c)).
Definition full_op (o : op) : Prop :=
  match o with
  | OReserve plan => full_plan plan
  | OLoad d => Forall full_composition (DurableState.compositions d)
  | _ => True
  end.
Inductive full_reachable (cfg : EngineConfig.t) : Impl.t -> Prop :=
  | full_init : full_reachable cfg (FabricEngine cfg)
  | full_step s o : full_reachable cfg s -> full_op o -> full_reachable cfg (run o s).

(** What [Compose] returns is such a plan. *)
Lemma Compose_full req s :
  keys_ok (Impl.resources s) -> is_success (cr_outcome (Compose req s).1) = true -> full_plan (cr_plan (Compose req s).1).
Proof.
  intros Hk Hok. destruct (Compose_sound req s Hk Hok) as [set Hsp]. unfold full_plan.
  rewrite (sp_generations _ _ _ _ Hsp), length_fmap. symmetry. eapply Forall2_length, mapM_Some, (sp_members _ _ _ _ Hsp).
Qed.

Lemma Reserve_compositions plan s id c :
  Impl.compositions (Reserve plan s).2 !! id = Some c ->
  Impl.compositions s !! id = Some c \/ exists n r, c = reserved_composition plan n r.
Proof.
  unfold Reserve. destruct (negb _); [by left|]. destruct (negb _); [by left|].
  destruct (reserve_loop _ _ _ _ _) as [[m items] [[reason note]|]]; cbn; [by left|].
  rewrite lookup_insert. case_decide; [|by left]. intros [= <-]. right. eauto.
Qed.
Lemma full_reachable_comps cfg s id c :
  full_reachable cfg s -> Impl.compositions s !! id = Some c -> full_composition c.
Proof.
  intros Hs. revert id c. induction Hs as [|s o _ IH Ho]; intros id c.
  { unfold FabricEngine. by repeat case_match. }
  assert (Hev : (forall plan, o <> OReserve plan) -> (forall d, o <> OLoad d) ->
    Impl.compositions (run o s) !! id = Some c -> full_composition c).
  { intros H1 H2 Hc. destruct (comps_rel_back _ _ _ _ _ (run_evolves o s H1 H2) Hc) as (c0 & Hc0 & (_ & _ & Hg & _ & Ha & _) & _).
    unfold full_composition. rewrite Ha, Hg. by eapply IH. }
  destruct o; try (by apply Hev); cbn [run]; intros Hc.
  - apply Reserve_compositions in Hc as [Hc|(n & r & ->)]; [by eapply IH|exact Ho].
  - cbn in Hc. apply insert_all_lookup in Hc as [Hin _]. apply list_elem_of_fmap in Hin as (c0 & -> & Hin).
    cbn in Ho. rewrite Forall_forall in Ho. specialize (Ho c0 Hin). unfold load_composition. by destruct (_ || _).
Qed.
Lemma auth_ok_full rs ep c :
  auth_ok rs ep c -> full_composition c ->
  Forall2 (fun rid g => exists r, rs !! rid = Some r /\ Resource.generation r = g)
    (ResourceGraph.vertices (Composition.graph c)) (AuthorityTuple.resource_generations (Composition.authority c)).
Proof.
  intros [_ Hv] Hl. apply Forall2_same_length_lookup. split; [done|]. intros i rid g Hi Hg.
  destruct (Hv i rid Hi) as (r & Hr & Hgen). exists r. split; [done|]. symmetry. by apply Hgen.
Qed.
Lemma s_active_full : full_reachable cfg s_active.
Proof.
  unfold s_active, p_active, p_committed, p_reserved, p_composed, s_disc, s_new.
  repeat (apply full_step; [|try exact I]); [constructor|]. vm_compute. reflexivity.
Qed.

(** ** Claims *)

(** C1: In every reachable state of the engine an ACTIVE composition holds current
    authority: its authority tuple names the current coordinator epoch, each vertex
    of its graph is a registered resource, and every generation that the tuple
    records for a vertex is the current one.  When in addition every plan that was
    reserved and every composition that was loaded records one generation per
    vertex, as each plan returned by [Compose] does ([Compose_full]), the tuple
    records exactly the current generations of all its members, in order. *)
Theorem active_authoritative cfg s id c :
  reachable cfg s -> Impl.compositions s !! id = Some c ->
  Composition.lifecycle c = CompositionLifecycle.ACTIVE ->
  auth_ok (Impl.resources s) (epoch s) c /\
  (full_reachable cfg s ->
   Forall2 (fun rid g => exists r, Impl.resources s !! rid = Some r /\ Resource.generation r = g)
     (ResourceGraph.vertices (Composition.graph c)) (AuthorityTuple.resource_generations (Composition.authority c))).
Proof.
  intros Hs Hc Ha. assert (Hok : auth_ok (Impl.resources s) (epoch s) c) by (apply Inv_reachable in Hs as [_ _ Hi _]; eauto).
  split; [exact Hok|]. intros Hf. apply (auth_ok_full _ (epoch s)); [exact Hok|]. by eapply full_reachable_comps.
Qed.

Lemma active_authoritative_witness :
  exists c, Impl.compositions s_active !! Id 1 = Some c /\ auth_ok (Impl.resources s_active) (epoch s_active) c /\
    Forall2 (fun rid g => exists r, Impl.resources s_active !! rid = Some r /\ Resource.generation r = g)
      (ResourceGraph.vertices (Composition.graph c)) (AuthorityTuple.resource_generations (Composition.authority c)).
Proof.
  destruct (lifecycle_at_Some _ _ _ s_active_is_active) as (c & Hc & Hl). exists c. split; [exact Hc|].
  destruct (active_authoritative cfg s_active (Id 1) c s_active_reachable Hc Hl) as [H1 H2].
  exact (conj H1 (H2 s_active_full)).
Defined.

(** C5: Only [Activate] makes a composition ACTIVE, and only from COMMITTED, when it is
    not fenced and [RevalidationHolds] accepts it (current epoch, current
    generations, current evidence of every member).  No other operation of the
    engine, whatever its arguments, does. *)
Theorem activation_is_guarded cfg s o id c' :
  reachable cfg s -> Impl.compositions (run o s) !! id = Some c' ->
  Composition.lifecycle c' = CompositionLifecycle.ACTIVE ->
  lifecycle_at id s <> Some CompositionLifecycle.ACTIVE ->
  o = OActivate id /\ exists c, Impl.compositions s !! id = Some c /\
    Composition.lifecycle c = CompositionLifecycle.COMMITTED /\ (id ∉ Impl.fenced s) /\
    auth_ok (Impl.resources s) (epoch s) c /\ evidence_ok (Impl.resources s) c.
Proof.
  intros Hs%Inv_reachable Hc' Ha Hno. destruct (to_active o s id c' Hs Hc' Ha) as [(c & Hc & Hl)|(Ho & c & Hc & Hcm & Hf & Hr)].
  - unfold lifecycle_at in Hno. rewrite Hc in Hno. cbn in Hno. congruence.
  - apply RevalidationHolds_ok in Hr as [? ?]. eauto 10.
Qed.

Lemma activation_is_guarded_witness :
  OActivate (Id 1) = OActivate (Id 1) /\ exists c, Impl.compositions s_committed !! Id 1 = Some c /\
    Composition.lifecycle c = CompositionLifecycle.COMMITTED /\ (Id 1 ∉ Impl.fenced s_committed) /\
    auth_ok (Impl.resources s_committed) (epoch s_committed) c /\ evidence_ok (Impl.resources s_committed) c.
Proof.
  destruct (lifecycle_at_Some (Id 1) (run (OActivate (Id 1)) s_committed) CompositionLifecycle.ACTIVE) as (c & Hc & Hl);
    [vm_compute; reflexivity|].
  apply (activation_is_guarded cfg s_committed (OActivate (Id 1)) (Id 1) c s_committed_reachable Hc Hl).
  vm_compute. discriminate.
Defined.

(** C6: A released composition is fenced for good: after a [Release] that returned true,
    no sequence of operations, not even a reservation that reuses its id or a load
    of saved state, makes a composition with that id ACTIVE again. *)
Theorem released_never_active cfg s id os c :
  reachable cfg s -> (Release id s).1 = true ->
  Impl.compositions (run_all os (Release id s).2) !! id = Some c ->
  Composition.lifecycle c <> CompositionLifecycle.ACTIVE.
Proof.
  intros Hs Hrel Hc. eapply inv_fenced; [|exact Hc|].
  - eapply Inv_reachable, (reachable_run_all cfg), (reachable_step _ _ (ORelease id)), Hs.
  - apply (run_all_ind (fun s => id ∈ Impl.fenced s)); [by apply Release_fences|]. intros. by apply fenced_mono.
Qed.

Lemma released_never_active_witness :
  exists c, Impl.compositions (run_all [OActivate (Id 1)] (Release (Id 1) s_active).2) !! Id 1 = Some c /\
    Composition.lifecycle c <> CompositionLifecycle.ACTIVE.
Proof.
  destruct (lifecycle_at_Some (Id 1) (run_all [OActivate (Id 1)] (Release (Id 1) s_active).2) CompositionLifecycle.RELEASED)
    as (c & Hc & _); [vm_compute; reflexivity|].
  exists c. split; [exact Hc|].
  refine (released_never_active cfg s_active (Id 1) [OActivate (Id 1)] c s_active_reachable _ Hc). vm_compute. reflexivity.
Defined.

(** C28: A composition the engine knows moves only along the edges of the lifecycle graph
    [lc_step] and keeps its id, generation, graph, request, authority tuple,
    reservation and paths, under every operation other than a reservation (which
    may reuse its id) and a load. *)
Theorem lifecycle_transitions o s id c :
  (forall plan, o <> OReserve plan) -> (forall d, o <> OLoad d) -> Impl.compositions s !! id = Some c ->
  exists c', Impl.compositions (run o s) !! id = Some c' /\ same_identity c c' /\
    lc_step (Composition.lifecycle c) (Composition.lifecycle c').
Proof.
  intros H1 H2 Hc. pose proof (run_evolves o s H1 H2 id) as H. rewrite Hc in H.
  destruct (Impl.compositions (run o s) !! id) as [c'|]; [|done]. destruct H. eauto.
Qed.

Lemma lifecycle_transitions_witness :
  exists c c', Impl.compositions s_active !! Id 1 = Some c /\
    Impl.compositions (run (OResourceFailure (Id 103)) s_active) !! Id 1 = Some c' /\ same_identity c c' /\
    lc_step (Composition.lifecycle c) (Composition.lifecycle c').
Proof.
  destruct (lifecycle_at_Some _ _ _ s_active_is_active) as (c & Hc & _). exists c.
  destruct (lifecycle_transitions (OResourceFailure (Id 103)) s_active (Id 1) c) as (c' & H); [discriminate|discriminate|exact Hc|].
  exists c'. split; [exact Hc|exact H].
Defined.

(** C30: A member that is withdrawn, that fails, or whose owning worker dies takes
    authority away: afterwards no composition on it is ACTIVE, and activating one
    is rejected. *)
Theorem fault_revokes s rid r o id c' :
  Impl.resources s !! rid = Some r -> fault s rid o -> Impl.compositions (run o s) !! id = Some c' ->
  rid ∈ ResourceGraph.vertices (Composition.graph c') ->
  Composition.lifecycle c' <> CompositionLifecycle.ACTIVE /\
  is_success (ar_outcome (Activate id (run o s)).1) = false.
Proof.
  intros Hr Hf Hc' Hin. split; [by eapply fault_inactive|by eapply fault_rejects_activation].
Qed.

Lemma fault_revokes_witness :
  exists c', Impl.compositions (run (OResourceFailure (Id 103)) s_committed) !! Id 1 = Some c' /\
    Composition.lifecycle c' <> CompositionLifecycle.ACTIVE /\
    is_success (ar_outcome (Activate (Id 1) (run (OResourceFailure (Id 103)) s_committed)).1) = false.
Proof.
  destruct (Impl.resources s_committed !! Id 103) as [r|] eqn:Hr; [|vm_compute in Hr; discriminate].
  destruct (Impl.compositions (run (OResourceFailure (Id 103)) s_committed) !! Id 1) as [c'|] eqn:Hc';
    [|vm_compute in Hc'; discriminate].
  exists c'. split; [reflexivity|].
  apply (fault_revokes s_committed (Id 103) r (OResourceFailure (Id 103)) (Id 1) c' Hr (fault_failure _ _) Hc').
  apply is_member_spec.
  assert (Hm : is_member (Id 103) <$> Impl.compositions (run (OResourceFailure (Id 103)) s_committed) !! Id 1 = Some true)
    by (vm_compute; reflexivity).
  rewrite Hc' in Hm. injection Hm as Hm. exact Hm.
Defined.

(** [AdvanceEpoch] with a valid epoch leaves no composition ACTIVE, and one bound to
    another epoch stays out of ACTIVE through every later sequence of operations
    that does not reserve it anew, load saved state or change the epoch again. *)
Theorem epoch_fences_old_authority cfg s next os id c :
  reachable cfg s -> IsValid next = true -> forallb plain os = true ->
  Impl.compositions (run_all os (AdvanceEpoch next s)) !! id = Some c ->
  AuthorityTuple.coordinator_epoch (Composition.authority c) <> next ->
  Composition.lifecycle c <> CompositionLifecycle.ACTIVE.
Proof.
  intros Hs Hv Hos. apply (reachable_step _ _ (OAdvanceEpoch next)) in Hs. rewrite forallb_forall in Hos. revert id c.
  apply (run_all_ind (fun s => reachable cfg s /\ epoch s = next /\ forall id c, Impl.compositions s !! id = Some c ->
    AuthorityTuple.coordinator_epoch (Composition.authority c) <> next -> Composition.lifecycle c <> CompositionLifecycle.ACTIVE)).
  - split; [done|]. cbn [run]. unfold AdvanceEpoch. rewrite Hv. split; [done|]. cbn. intros id c.
    rewrite lookup_fmap, fmap_Some. intros (c0 & _ & ->) _. clear. inactive.
  - intros o s0 Ho (Hs0 & He & Hall). assert (Hp : plain o = true) by (by apply Hos, list_elem_of_In).
    split; [by constructor|]. split; [by rewrite plain_epoch|]. eapply old_epoch_step; [done|by eapply Inv_reachable|done..].
Qed.

Lemma epoch_fences_old_authority_witness :
  exists c, Impl.compositions (run_all [OActivate (Id 1)] (AdvanceEpoch (Id 2) s_active)) !! Id 1 = Some c /\
    Composition.lifecycle c <> CompositionLifecycle.ACTIVE.
Proof.
  destruct (Impl.compositions (run_all [OActivate (Id 1)] (AdvanceEpoch (Id 2) s_active)) !! Id 1) as [c|] eqn:Hc;
    [|vm_compute in Hc; discriminate].
  exists c. split; [reflexivity|].
  apply (epoch_fences_old_authority cfg s_active (Id 2) [OActivate (Id 1)] (Id 1) c s_active_reachable eq_refl eq_refl Hc).
  assert (He : (fun c => AuthorityTuple.coordinator_epoch (Composition.authority c)) <$>
    Impl.compositions (run_all [OActivate (Id 1)] (AdvanceEpoch (Id 2) s_active)) !! Id 1 = Some (Id 1)) by (vm_compute; reflexivity).
  rewrite Hc in He. injection He as He. rewrite He. discriminate.
Defined.

(** A new generation of a registered resource invalidates every composition that
    uses it (none stays ACTIVE, COMMITTED or RESERVED) and leaves every other
    composition exactly as it was. *)
Theorem generation_change_invalidates s r old id c :
  IsValid (Resource.id r) = true -> Impl.resources s !! Resource.id r = Some old ->
  Resource.generation old <> Resource.generation r -> Impl.compositions s !! id = Some c ->
  exists c', Impl.compositions (OnResourceUpdate r s) !! id = Some c' /\
    if is_member (Resource.id r) c then
      Composition.lifecycle c' ∉ [CompositionLifecycle.ACTIVE; CompositionLifecycle.COMMITTED; CompositionLifecycle.RESERVED]
    else c' = c.
Proof.
  intros Hv Hr Hg Hc. unfold OnResourceUpdate, IngestResourceLocked. rewrite Hv, Hr, (proj2 (id_eqb_neq _ _) Hg).
  cbn. rewrite lookup_fmap, Hc. cbn. eexists. split; [done|]. destruct (is_member _ c); [|done].
  unfold invalidate_on_generation. repeat case_match; lc_cases; rewrite !not_elem_of_cons; cbn; repeat split; try congruence;
    apply not_elem_of_nil.
Qed.

Lemma generation_change_invalidates_witness :
  exists c', Impl.compositions (OnResourceUpdate (Synthetic.mem <| Resource.generation := Id 2 |>) s_active) !! Id 1 = Some c' /\
    Composition.lifecycle c' ∉ [CompositionLifecycle.ACTIVE; CompositionLifecycle.COMMITTED; CompositionLifecycle.RESERVED].
Proof.
  destruct (lifecycle_at_Some _ _ _ s_active_is_active) as (c & Hc & _).
  destruct (Impl.resources s_active !! Id 103) as [old|] eqn:Hr; [|vm_compute in Hr; discriminate].
  assert (Hg : Resource.generation <$> Impl.resources s_active !! Id 103 = Some (Id 1)) by (vm_compute; reflexivity).
  rewrite Hr in Hg. injection Hg as Hg.
  destruct (generation_change_invalidates s_active (Synthetic.mem <| Resource.generation := Id 2 |>) old (Id 1) c)
    as (c' & Hc' & Hl); [reflexivity|exact Hr|rewrite Hg; discriminate|exact Hc|].
  assert (Hm : is_member (Id 103) <$> Impl.compositions s_active !! Id 1 = Some true) by (vm_compute; reflexivity).
  rewrite Hc in Hm. injection Hm as Hm.
  exists c'. split; [exact Hc'|]. change (Resource.id (Synthetic.mem <| Resource.generation := Id 2 |>)) with (Id 103 : ResourceId) in Hl.
  rewrite Hm in Hl. exact Hl.
Defined.

(** C32: Loading saved state restores no authority: right after [Load] no composition is
    ACTIVE or COMMITTED and no non-durable evidence is current, and no sequence of
    operations without a new reservation makes any composition ACTIVE or COMMITTED. *)
Theorem load_conservative d s os :
  (forall plan, OReserve plan ∉ os) ->
  (forall id c, Impl.compositions (run_all os (LoadState d s)) !! id = Some c ->
    Composition.lifecycle c <> CompositionLifecycle.ACTIVE /\ Composition.lifecycle c <> CompositionLifecycle.COMMITTED) /\
  (forall rid r, Impl.resources (LoadState d s) !! rid = Some r -> Evidence.durable (Resource.evidence r) = false ->
    IsCurrent (Resource.evidence r) = false).
Proof.
  intros Hnr. split.
  - assert (H : Impl.reservations (run_all os (LoadState d s)) = ∅ /\
      forall id c, Impl.compositions (run_all os (LoadState d s)) !! id = Some c -> ~ in_use c).
    { apply (run_all_ind (fun s => Impl.reservations s = ∅ /\ forall id c, Impl.compositions s !! id = Some c -> ~ in_use c)).
      - split; [done|]. intros id c. apply Load_comps.
      - intros o s0 Ho [Hr Hall]. apply no_reservations_step; [|done..]. intros plan ->. by destruct (Hnr plan). }
    destruct H as [_ H]. intros id c Hc. specialize (H id c Hc). tauto.
  - cbn. intros rid r [Hin _]%insert_all_lookup Hd. apply list_elem_of_fmap in Hin as (r0 & -> & _).
    unfold load_resource in *. destruct (Evidence.durable (Resource.evidence r0)) eqn:E; [congruence|done].
Qed.

Lemma load_conservative_witness :
  lifecycle_at (Id 1) (run_all [OActivate (Id 1)] (LoadState (SaveState s_active) (FabricEngine cfg))) <> Some CompositionLifecycle.ACTIVE.
Proof.
  destruct (load_conservative (SaveState s_active) (FabricEngine cfg) [OActivate (Id 1)]) as [H _].
  - intros plan Hin. apply list_elem_of_singleton in Hin. discriminate.
  - intros Ha. apply lifecycle_at_Some in Ha as (c & Hc & Hl). destruct (H (Id 1) c Hc) as [Hn _]. exact (Hn Hl).
Defined.

(** After a load the composition counter is past every loaded id, so a plan composed
    next never reuses the id of a loaded composition (ids below 2^64 - 1, where
    the counter does not wrap). *)
Theorem load_fresh_ids d s req :
  (forall c, c ∈ DurableState.compositions d -> u64_ok (Value (Composition.id c) + 1)) ->
  is_success (cr_outcome (Compose req (LoadState d s)).1) = true ->
  Impl.compositions (LoadState d s) !! CompositionPlan.id (cr_plan (Compose req (LoadState d s)).1) = None.
Proof.
  intros Hids Hok. destruct (Compose_success_id _ _ Hok) as [-> _].
  destruct (Impl.compositions _ !! _) as [c|] eqn:Hc; [|done]. exfalso.
  assert (Hlt : Value (Id (Impl.next_comp (LoadState d s)) : CompositionId) < Impl.next_comp (LoadState d s)); [|cbn in Hlt; lia].
  cbn [Impl.next_comp LoadState set_field]. apply bump_counter_le; [|eexists; exact Hc].
  intros k [c' [Hin <-]%insert_all_lookup]. apply list_elem_of_fmap in Hin as (c0 & -> & Hin).
  destruct (load_composition_facts c0) as (-> & _). auto.
Qed.

Lemma load_fresh_ids_witness :
  Impl.compositions (run ODiscover (LoadState (SaveState s_active) s_disc)) !! Id 2 = None /\
  Impl.compositions (LoadState (SaveState s_active) s_disc)
    !! CompositionPlan.id (cr_plan (Compose AccReq (LoadState (SaveState s_active) s_disc)).1) = None.
Proof.
  split; [vm_compute; reflexivity|]. apply (load_fresh_ids (SaveState s_active) s_disc AccReq).
  - intros c Hin.
    assert (Hl : (fun c => Value (Composition.id c)) <$> DurableState.compositions (SaveState s_active) = [1]) by (vm_compute; reflexivity).
    assert (Hv : Value (Composition.id c) ∈ (fun c => Value (Composition.id c)) <$> DurableState.compositions (SaveState s_active))
      by (apply list_elem_of_fmap; exists c; split; [reflexivity|exact Hin]).
    rewrite Hl in Hv. apply list_elem_of_singleton in Hv. rewrite Hv. reflexivity.
  - vm_compute. reflexivity.
Defined.
