(* ===== verification/TypeProps.v ===== *)
(** * The registry is well typed

    The shape of the engine's state that every operation keeps: each table is
    indexed by the id of its entries, each reservation names a stored composition,
    and the counters stay within 64 bits. *)

From S2P Require Import Prelude Enums Ids Double Model Planner Engine Lifecycle LifecycleProps Scenario Synthetic Ledger.

Definition keyed {Tag : Set} {A : Type} (key : A -> StrongId Tag) (m : gmap (StrongId Tag) A) : Prop :=
  forall k x, m !! k = Some x -> key x = k.

Record well_typed (s : Impl.t) : Prop := {
  wt_nodes : keyed Node.id (Impl.nodes s);
  wt_resources : keyed Resource.id (Impl.resources s);
  wt_compositions : keyed Composition.id (Impl.compositions s);
  wt_reservations : keyed Reservation.id (Impl.reservations s);
  wt_reserved : forall rid v, Impl.reservations s !! rid = Some v -> is_Some (Impl.compositions s !! Reservation.composition v);
  wt_counters : Forall u64_ok [Impl.next_comp s; Impl.next_res s; Impl.next_rs s; Impl.next_resv s];
}.

(** ** Tables *)
Section keyed.
Context {Tag : Set} {A : Type} (key : A -> StrongId Tag).
Lemma keyed_empty : keyed key ∅.
Proof. intros k x. by rewrite lookup_empty. Qed.
Lemma keyed_insert k x m : key x = k -> keyed key m -> keyed key (<[k := x]> m).
Proof. intros Hk Hm k' x'. rewrite lookup_insert. case_decide; [congruence|apply Hm]. Qed.
Lemma keyed_insert_all l : keyed key (insert_all key l).
Proof. intros k x H. by apply insert_all_lookup in H as [_ ?]. Qed.
End keyed.
#[local] Hint Resolve keyed_empty keyed_insert keyed_insert_all : core.

Lemma bump_counter_u64 {Tag : Set} {A : Type} (m : gmap (StrongId Tag) A) n : u64_ok n -> u64_ok (bump_counter m n).
Proof.
  unfold bump_counter. generalize (map_to_list m). intros l. revert n.
  induction l as [|kv l IH]; intros n Hn; cbn [fold_left]; [done|]. apply IH. destruct (_ <=? _); [apply wrap64_ok|done].
Qed.

(** ** The part of the state that [Inv] does not describe *)
Definition counters (s : Impl.t) : list N := [Impl.next_comp s; Impl.next_res s; Impl.next_rs s; Impl.next_resv s].
Definition resv_ok (vs : gmap ReservationId Reservation.t) (cs : gmap CompositionId Composition.t) : Prop :=
  forall rid v, vs !! rid = Some v -> Reservation.id v = rid /\ is_Some (cs !! Reservation.composition v).
Record shape (s : Impl.t) : Prop := {
  sh_nodes : keyed Node.id (Impl.nodes s);
  sh_reservations : resv_ok (Impl.reservations s) (Impl.compositions s);
  sh_counters : Forall u64_ok (counters s);
}.
(** An operation that adds no node, reservation or id and forgets no composition. *)
Definition inert (s s' : Impl.t) : Prop :=
  Impl.nodes s' = Impl.nodes s /\ Impl.reservations s' = Impl.reservations s /\ counters s' = counters s.

Lemma resv_ok_mono vs cs cs' :
  (forall id, is_Some (cs !! id) -> is_Some (cs' !! id)) -> resv_ok vs cs -> resv_ok vs cs'.
Proof. intros H Hv rid v Hr. destruct (Hv rid v Hr). auto. Qed.
Lemma resv_ok_insert rid v vs cs :
  Reservation.id v = rid -> is_Some (cs !! Reservation.composition v) -> resv_ok vs cs -> resv_ok (<[rid := v]> vs) cs.
Proof. intros Hid Hc Hv rid' v'. rewrite lookup_insert. case_decide; [|apply Hv]. intros [= <-]. by subst. Qed.
Lemma comps_rel_is_Some R m m' id : comps_rel R m m' -> is_Some (m !! id) -> is_Some (m' !! id).
Proof. intros H [c Hc]. specialize (H id). rewrite Hc in H. destruct (m' !! id); [by eexists|done]. Qed.
Lemma evolves_keeps_reservations o s :
  (forall plan, o <> OReserve plan) -> (forall d, o <> OLoad d) ->
  resv_ok (Impl.reservations s) (Impl.compositions s) -> resv_ok (Impl.reservations s) (Impl.compositions (run o s)).
Proof. intros H1 H2. apply resv_ok_mono. intros id. apply comps_rel_is_Some with evolves, run_evolves; done. Qed.

Lemma inert_shape o s :
  (forall plan, o <> OReserve plan) -> (forall d, o <> OLoad d) -> inert s (run o s) -> shape s -> shape (run o s).
Proof.
  intros H1 H2 (Hn & Hr & Hc) [Sn Sr Sc]. split; [by rewrite Hn|rewrite Hr; by apply evolves_keeps_reservations|by rewrite Hc].
Qed.

(** ** Operations that are not inert *)
Lemma IngestNode_keyed n s : keyed Node.id (Impl.nodes s) -> keyed Node.id (Impl.nodes (IngestNodeLocked n s)).
Proof. intros H. unfold IngestNodeLocked. destruct (negb _); [done|]. cbv zeta. case_match; cbn; auto. Qed.
Lemma IngestNode_others n s :
  Impl.reservations (IngestNodeLocked n s) = Impl.reservations s /\ counters (IngestNodeLocked n s) = counters s.
Proof. unfold IngestNodeLocked. by repeat case_match. Qed.
Lemma IngestResource_inert r s : inert s (IngestResourceLocked r s).
Proof. unfold IngestResourceLocked, inert. by repeat case_match. Qed.
Definition adds_nodes (s s' : Impl.t) : Prop :=
  (keyed Node.id (Impl.nodes s) -> keyed Node.id (Impl.nodes s')) /\
  Impl.reservations s' = Impl.reservations s /\ counters s' = counters s.
Lemma Discover_adds_nodes s : adds_nodes s (Discover s).2.
Proof.
  apply (Discover_ind adds_nodes); try done.
  - intros a b c (H1 & H2 & H3) (K1 & K2 & K3). split; [auto|]. by rewrite K2, K3.
  - intros n s0. split; [apply IngestNode_keyed|apply IngestNode_others].
  - intros r s0. destruct (IngestResource_inert r s0) as (Hn & ? & ?). split; [by rewrite Hn|done].
Qed.
Lemma adds_nodes_shape o s :
  (forall plan, o <> OReserve plan) -> (forall d, o <> OLoad d) -> adds_nodes s (run o s) -> shape s -> shape (run o s).
Proof.
  intros H1 H2 (Hn & Hr & Hc) [Sn Sr Sc]. split; [auto|rewrite Hr; by apply evolves_keeps_reservations|by rewrite Hc].
Qed.

Lemma Compose_counter req s : u64_ok (Impl.next_comp s) -> u64_ok (Impl.next_comp (Compose req s).2).
Proof.
  intros H. unfold Compose, ComposeDeterministic, ComposeOrdered. cbv zeta.
  destruct (build_selections _ _ _) as [note|[|sel sels]]; [done..|]. destruct (product _ _) as [combos|]; [|done].
  destruct (fold_left _ _ _) as [paths [plan|]]; [apply wrap64_ok|done].
Qed.
Lemma Compose_shape req s : shape s -> shape (run (OCompose req) s).
Proof.
  intros [Sn Sr Sc]. cbn [run]. pose proof (Compose_counter req s) as Hc. pose proof (Compose_frame req s) as Hf. cbv zeta in Hf.
  destruct (Compose req s).2 as [? ? ? ? ? ? ? ? ? ? ? nc ? ? ?] eqn:E. rewrite Hf. unfold counters in *.
  inversion Sc; subst. split; [exact Sn|exact Sr|]. constructor; [by apply Hc|done].
Qed.

Lemma release_reservation_shape rid s : shape s -> shape (release_reservation rid s).
Proof.
  intros [Sn Sr Sc]. unfold release_reservation. destruct (Impl.reservations s !! rid) as [v|] eqn:E; [|done].
  destruct (Sr rid v E) as [Hid Hc]. split; [done| |done]. by apply resv_ok_insert.
Qed.
(** The lifecycle of one stored composition changes. *)
Lemma shape_insert_comp id c s : shape s -> shape (s <| Impl.compositions ::= <[id := c]> |>).
Proof.
  intros [Sn Sr Sc]. split; [done| |done]. eapply resv_ok_mono; [|exact Sr]. intros id' H. cbn.
  rewrite lookup_insert. case_decide; [by eexists|done].
Qed.

Lemma Reserve_shape plan s : shape s -> shape (run (OReserve plan) s).
Proof.
  intros [Sn Sr Sc]. cbn [run]. unfold Reserve. destruct (negb _); [done|]. destruct (negb _); [done|]. cbv zeta.
  destruct (reserve_loop _ _ _ _ _) as [[m items] [[reason note]|]]; unfold counters in Sc; inversion_clear Sc as [|? ? U1 Sc1];
    inversion_clear Sc1 as [|? ? U2 Sc2]; inversion_clear Sc2 as [|? ? U3 Sc3].
  - split; [done|done|]. repeat (constructor; [done|]). constructor; [apply wrap64_ok|constructor].
  - split; [done| |repeat (constructor; [done || apply wrap64_ok|]); constructor].
    apply resv_ok_insert; [done|cbn; rewrite lookup_insert_eq; by eexists|].
    eapply resv_ok_mono; [|exact Sr]. intros id' H. cbn. rewrite lookup_insert. case_decide; [by eexists|done].
Qed.
Lemma Commit_shape resIn s : shape s -> shape (run (OCommit resIn) s).
Proof.
  intros HS. pose proof HS as [Sn Sr Sc]. cbn [run]. unfold Commit.
  destruct (Impl.reservations s !! Reservation.id resIn) as [v|] eqn:Ev; [|done]. destruct (negb _); [done|].
  destruct (Sr _ _ Ev) as [Hid Hc0].
  destruct (Impl.compositions s !! Reservation.composition v) as [c|] eqn:Ec; [|done]. destruct (negb _); [done|].
  destruct (commit_loop _ _ _ _) as [m [reason|]]; apply shape_insert_comp; (split; [exact Sn| |exact Sc]);
    (apply resv_ok_insert; [done|cbn; by rewrite Ec|done]).
Qed.
Lemma Load_shape d s : shape s -> shape (run (OLoad d) s).
Proof.
  intros [Sn Sr Sc]. unfold counters in Sc. inversion_clear Sc as [|? ? U1 Sc1]. inversion_clear Sc1 as [|? ? U2 Sc2].
  inversion_clear Sc2 as [|? ? U3 Sc3]. split.
  - apply keyed_insert_all.
  - intros rid v. cbn. by rewrite lookup_empty.
  - repeat (constructor; [by apply bump_counter_u64|]). done.
Qed.
Lemma ending_shape id c s (f : Impl.t -> Impl.t) :
  (forall s0, shape s0 -> shape (f s0)) -> shape s ->
  shape (f ((release_reservation (Composition.reservation c) s) <| Impl.compositions ::= <[id := with_lifecycle CompositionLifecycle.RELEASED c]> |>)).
Proof. intros Hf Hs. apply Hf, shape_insert_comp, release_reservation_shape, Hs. Qed.

Lemma shape_run o s : shape s -> shape (run o s).
Proof.
  intros Hs. destruct o; auto using Compose_shape, Reserve_shape, Commit_shape, Load_shape;
    try (apply inert_shape; [done|done| |done]; unfold inert; cbn [run];
         solve [done|apply IngestResource_inert
               |unfold AddBackend, RegisterResource, WithdrawResource, AdvanceEpoch, Activate, OnResourceUpdate, OnPolicyUpdate, OnPathUpdate,
                  OnResourceFailure, BeginDrain; cbv zeta; repeat case_match; done || apply IngestResource_inert]).
  - apply adds_nodes_shape; [done|done|apply Discover_adds_nodes|done].
  - apply adds_nodes_shape; [done|done| |done]. cbn [run]. unfold RegisterNode. destruct (negb _); [done|].
    split; [apply IngestNode_keyed|apply IngestNode_others].
  - apply adds_nodes_shape; [done|done| |done]. split; [apply IngestNode_keyed|apply IngestNode_others].
  - cbn [run]. unfold EndDrain. destruct (Impl.compositions s !! id) as [c|]; [|done]. destruct (negb _); [done|].
    apply (ending_shape id c s (fun s => s <| Impl.draining ::= fun d => d ∖ {[id]} |>)); [intros s0 H; exact H || by destruct H as [? ? ?]; split|done].
  - cbn [run]. unfold Release. destruct (Impl.compositions s !! id) as [c|]; [|done]. destruct (_ || _); [done|].
    apply (ending_shape id c s (fun s => s <| Impl.draining ::= fun d => d ∖ {[id]} |> <| Impl.fenced ::= fun f => {[id]} ∪ f |>)); [intros s0 H; exact H || by destruct H as [? ? ?]; split|done].
  - cbn [run]. unfold recompute_release. destruct (Impl.compositions s !! id) as [c|]; [|done].
    apply (ending_shape id c s (fun s => s <| Impl.fenced ::= fun f => {[Composition.id c]} ∪ f |>)); [intros s0 H; exact H || by destruct H as [? ? ?]; split|done].
Qed.
Lemma shape_init c : shape (FabricEngine c).
Proof.
  assert (H : Impl.nodes (FabricEngine c) = ∅ /\ Impl.reservations (FabricEngine c) = ∅ /\ counters (FabricEngine c) = [1; 1; 1; 1])
    by (unfold FabricEngine; by repeat case_match).
  destruct H as (Hn & Hv & Hc). split; [rewrite Hn; apply keyed_empty| |rewrite Hc; by repeat apply Forall_cons_2].
  rewrite Hv. intros rid v. by rewrite lookup_empty.
Qed.

(** ** Claim *)

(** C29: The registry is well typed: in every reachable state of the engine each table is
    indexed by the ids of its entries, every reservation names a composition that
    is stored, and the four id counters are 64-bit values. *)
Theorem registry_well_typed c s : reachable c s -> well_typed s.
Proof.
  intros Hr. assert (Hs : shape s) by (clear -Hr; induction Hr as [|s o _ IH]; [apply shape_init|by apply shape_run]).
  destruct Hs as [Sn Sr Sc]. pose proof (Inv_reachable _ _ Hr) as HI.
  split; [done|exact (inv_resource_keys _ HI)|exact (inv_composition_keys _ HI)|..].
  - intros rid v H. apply (Sr rid v H).
  - intros rid v H. apply (Sr rid v H).
  - exact Sc.
Qed.

Lemma registry_well_typed_witness : well_typed s_active /\ Impl.reservations s_active !! Id 1 <> None.
Proof. split; [exact (registry_well_typed cfg s_active s_active_reachable)|vm_compute; discriminate]. Defined.
