(* ===== verification/LedgerProps.v ===== *)
(** * What the reservation ledger guarantees

    The claims about exclusivity: under [disciplined] use the ledger is a
    refinement of an exclusive lock table, reservations are all-or-nothing, and
    compositions in use never share a resource; and the executions outside that
    discipline in which the code does give one resource to two compositions. *)

From S2P Require Import Prelude Enums Ids Double Model Planner Engine Synthetic Lifecycle Ledger Scenario.

(** ** Helper lemmas *)

(** What makes the hold loop of [Reserve] succeed at a vertex. *)
Definition reservable (rs : gmap ResourceId Resource.t) (req : CompositionRequest.t) (rid : ResourceId) : Prop :=
  exists r, rs !! rid = Some r /\ ResourceEligible r req = None /\
    dlt (Capacity.compute_units (Resource.capacity r)) d0 = false /\
    dlt (Capacity.host_memory_bytes (Resource.capacity r)) d0 = false.

Lemma reserve_loop_members rs req vs m items m' items' :
  reserve_loop rs req vs m items = (m', items', None) -> forall rid, rid ∈ vs -> reservable rs req rid.
Proof.
  revert m items. induction vs as [|v vs IH]; intros m items; cbn; [by intros _ ? ?%elem_of_nil|].
  destruct (rs !! v) as [r|] eqn:Hr; [|done]. destruct (ResourceEligible r req) as [[??]|] eqn:He; [done|].
  destruct (dlt d0 _); [done|]. destruct (_ || _) eqn:Hneg; [done|]. apply orb_false_iff in Hneg as [? ?].
  intros Hl rid [->|Hin]%elem_of_cons; [by exists r|by eapply IH].
Qed.

Lemma reserve_loop_complete rs req vs m items :
  NoDup vs -> (forall rid, rid ∈ vs -> reservable rs req rid /\ held m rid = d0) ->
  (reserve_loop rs req vs m items).2 = None.
Proof.
  revert m items. induction vs as [|v vs IH]; intros m items Hnd Hall; cbn; [done|].
  apply NoDup_cons in Hnd as [Hni Hnd]. destruct (Hall v) as [(r & -> & -> & H1 & H2) Hz]; [by left|].
  change (default d0 (touch v m !! v)) with (held (touch v m) v). rewrite touch_held, Hz, H1, H2. cbn [orb dlt].
  apply IH; [done|]. intros rid Hin. destruct (Hall rid) as [Hr Hh]; [by right|]. split; [done|].
  rewrite <-Hh, <-(touch_held v m rid). unfold held. rewrite lookup_insert_ne; [done|congruence].
Qed.

Lemma owners_none rvs m rid : holdings_ok rvs m -> owners rvs !! rid = None <-> held m rid = d0.
Proof.
  intros Hh. rewrite (holdings_held _ _ _ Hh), eq_None_not_Some. split.
  - intros Hn vid Ho. apply Hn. exists vid. by apply (owners_spec _ _ _ _ Hh).
  - intros Hn [vid Ho%(owners_spec _ _ _ _ Hh)]. by destruct (Hn vid).
Qed.

Lemma Reserve_loop_outcome plan s :
  is_success (rr_outcome (Reserve plan s).1) = true <->
  CompositionPlan.lifecycle plan = CompositionLifecycle.PLANNED /\ IsValid (CompositionPlan.id plan) = true /\
  (reserve_loop (Impl.resources s) (CompositionPlan.request plan)
    (ResourceGraph.vertices (CompositionPlan.graph plan)) (Impl.reserved_amount s) []).2 = None.
Proof.
  unfold Reserve. destruct (bool_decide _) eqn:Hp; cbn [negb].
  - apply bool_decide_eq_true_1 in Hp. destruct (IsValid _); cbn [negb]; [|by split; [|intros (_ & ? & _)]].
    change (Impl.resources (s <| Impl.next_resv ::= fun n => wrap64 (n + 1) |>)) with (Impl.resources s).
    change (Impl.reserved_amount (s <| Impl.next_resv ::= fun n => wrap64 (n + 1) |>)) with (Impl.reserved_amount s).
    destruct (reserve_loop _ _ _ _ _) as [[m items] [[reason note]|]]; cbn; [|done]. by split; [|intros (_ & _ & ?)].
  - apply bool_decide_eq_false_1 in Hp. by split; [|intros [? _]].
Qed.

(** When [Reserve] succeeds. *)
Lemma Reserve_success plan s :
  LedgerInv s -> disciplined (OReserve plan) s ->
  let vs := ResourceGraph.vertices (CompositionPlan.graph plan) in
  is_success (rr_outcome (Reserve plan s).1) = true <->
    CompositionPlan.lifecycle plan = CompositionLifecycle.PLANNED /\ IsValid (CompositionPlan.id plan) = true /\
    NoDup vs /\ forall rid, rid ∈ vs ->
      owners (Impl.reservations s) !! rid = None /\ reservable (Impl.resources s) (CompositionPlan.request plan) rid.
Proof.
  intros HI Hd vs. pose proof (Reserve_lock plan s HI Hd) as Hlock.
  pose proof (proj1 HI) as Hh. split.
  - intros Hok. rewrite Hok in Hlock. destruct Hlock as (Hnd & Hfree & _).
    apply Reserve_loop_outcome in Hok as (Hp & Hv & Hloop). split_and!; [done..|]. intros rid Hin. split; [auto|].
    destruct (reserve_loop _ _ _ _ _) as [[m' items] f] eqn:E. cbn in Hloop. subst. by eapply reserve_loop_members.
  - intros (Hp & Hv & Hnd & Hall). apply Reserve_loop_outcome. split_and!; [done..|].
    apply reserve_loop_complete; [done|]. intros rid Hin. destruct (Hall rid Hin) as [Ho Hr].
    split; [done|]. by apply (owners_none _ _ _ Hh).
Qed.

(** A composition in use owns its vertices. *)
Lemma in_use_owner s id c rid :
  LedgerInv s -> Impl.compositions s !! id = Some c -> in_use c ->
  rid ∈ ResourceGraph.vertices (Composition.graph c) ->
  owner (Impl.reservations s) rid (Composition.reservation c) /\
  exists v, Impl.reservations s !! Composition.reservation c = Some v /\ Reservation.composition v = id.
Proof.
  intros [Hh Hl] Hc Hu Hin. destruct (lk_in_use _ _ _ Hl _ _ Hc Hu) as [v Hv].
  destruct (lk_link _ _ _ Hl _ _ _ Hc Hv) as [Hid Hm].
  destruct (lk_backed _ _ _ Hl _ _ _ Hc Hv) as [Hlive|[_ ?]]; [destruct Hu; congruence| |destruct Hu; congruence].
  split; [|by exists v]. eapply owner_of; [done..|]. by rewrite Hm.
Qed.

Lemma Release_effect id c v s :
  Impl.compositions s !! id = Some c ->
  lifecycle_is CompositionLifecycle.RELEASED c || lifecycle_is CompositionLifecycle.RETIRED c = false ->
  Impl.reservations s !! Composition.reservation c = Some v ->
  (Release id s).1 = true /\
  Impl.reserved_amount (Release id s).2 = release_holds (item_holds (Reservation.items v)) (Impl.reserved_amount s) /\
  Impl.reservations (Release id s).2 =
    <[Composition.reservation c := v <| Reservation.state := ReservationState.RELEASED |>]> (Impl.reservations s).
Proof. intros Hc Hl Hv. unfold Release. rewrite Hc, Hl. unfold release_reservation. by rewrite Hv. Qed.

(** ** Claims *)

(** C2: Refinement: in disciplined executions every operation of the engine acts on the
    table of owners (which live reservation holds which resource) as an exclusive
    lock table does: it leaves it alone, gives free resources to one new owner, or
    takes all resources of one owner back. *)
Theorem ledger_refines_lock_table cfg s o :
  disciplined_reachable cfg s -> disciplined o s ->
  lock_step (owners (Impl.reservations s)) (owners (Impl.reservations (run o s))).
Proof. intros Hs Hd. apply run_lock; [by eapply LedgerInv_reachable|done]. Qed.

Lemma ledger_refines_lock_table_witness :
  lock_step (owners (Impl.reservations (p_composed MakeReq s_disc)))
    (owners (Impl.reservations (run (OReserve (p_plan MakeReq s_disc)) (p_composed MakeReq s_disc)))).
Proof.
  apply (ledger_refines_lock_table cfg (p_composed MakeReq s_disc) (OReserve (p_plan MakeReq s_disc))).
  - apply dr_step; [exact s_disc_disciplined|exact I].
  - apply reserve_disciplined_ok. vm_compute. reflexivity.
Defined.

(** C3: Exclusivity: in disciplined executions two different compositions that are
    COMMITTED or ACTIVE have no resource in common. *)
Theorem in_use_exclusive cfg s id1 id2 c1 c2 rid :
  disciplined_reachable cfg s -> Impl.compositions s !! id1 = Some c1 -> Impl.compositions s !! id2 = Some c2 ->
  (Composition.lifecycle c1 = CompositionLifecycle.COMMITTED \/ Composition.lifecycle c1 = CompositionLifecycle.ACTIVE) ->
  (Composition.lifecycle c2 = CompositionLifecycle.COMMITTED \/ Composition.lifecycle c2 = CompositionLifecycle.ACTIVE) ->
  rid ∈ ResourceGraph.vertices (Composition.graph c1) -> rid ∈ ResourceGraph.vertices (Composition.graph c2) -> id1 = id2.
Proof.
  intros Hs%LedgerInv_reachable Hc1 Hc2 Hu1 Hu2 Hr1 Hr2.
  destruct (in_use_owner _ _ _ _ Hs Hc1 Hu1 Hr1) as (Ho1 & v1 & Hv1 & <-).
  destruct (in_use_owner _ _ _ _ Hs Hc2 Hu2 Hr2) as (Ho2 & v2 & Hv2 & <-).
  destruct Hs as [Hh _]. rewrite (ho_excl _ _ Hh _ _ _ Ho1 Ho2) in Hv1. congruence.
Qed.

Lemma in_use_exclusive_witness :
  exists c1 c2, Impl.compositions s_two !! Id 1 = Some c1 /\ Impl.compositions s_two !! Id 2 = Some c2 /\
    forall rid, rid ∈ ResourceGraph.vertices (Composition.graph c1) -> rid ∈ ResourceGraph.vertices (Composition.graph c2) -> False.
Proof.
  destruct (lifecycle_at_Some _ _ _ (proj1 s_two_are_active)) as (c1 & Hc1 & Hl1).
  destruct (lifecycle_at_Some _ _ _ (proj2 s_two_are_active)) as (c2 & Hc2 & Hl2).
  exists c1, c2. split; [exact Hc1|split; [exact Hc2|]]. intros rid Hr1 Hr2.
  pose proof (in_use_exclusive cfg s_two (Id 1) (Id 2) c1 c2 rid s_two_disciplined Hc1 Hc2
    (or_intror Hl1) (or_intror Hl2) Hr1 Hr2) as H. discriminate H.
Defined.



(** C18: In every state reached under the ledger discipline and for a plan whose members
    are held with a positive amount, [Reserve] succeeds exactly when the plan is
    PLANNED with a valid id, its vertices are distinct, none of them is owned by a
    live reservation, and each is a registered, eligible resource without negative
    compute or memory capacity.  In particular a plan that overlaps a live
    reservation is always rejected. *)
Theorem reserve_succeeds_iff cfg s plan :
  disciplined_reachable cfg s -> disciplined (OReserve plan) s ->
  let vs := ResourceGraph.vertices (CompositionPlan.graph plan) in
  is_success (rr_outcome (Reserve plan s).1) = true <->
    CompositionPlan.lifecycle plan = CompositionLifecycle.PLANNED /\ IsValid (CompositionPlan.id plan) = true /\
    NoDup vs /\ forall rid, rid ∈ vs ->
      owners (Impl.reservations s) !! rid = None /\ reservable (Impl.resources s) (CompositionPlan.request plan) rid.
Proof. intros HI%LedgerInv_reachable Hd. by apply Reserve_success. Qed.

Lemma reserve_succeeds_iff_witness :
  is_success (rr_outcome (Reserve (p_plan MakeReq s_disc) s_active).1) = false.
Proof.
  destruct (is_success _) eqn:Hok; [|reflexivity]. exfalso. apply (reserve_succeeds_iff cfg s_active (p_plan MakeReq s_disc)) in Hok as (_ & _ & _ & Hall).
  - destruct (Hall (Id 103)) as [Ho _]; [|vm_compute in Ho; discriminate].
    apply (bool_decide_eq_true_1 _). vm_compute. reflexivity.
  - exact s_active_disciplined.
  - apply reserve_disciplined_ok. vm_compute. reflexivity.
Defined.

(** What returning the holds of a live reservation leaves in the ledger. *)
Lemma rollback_amounts rvs m m1 vid v :
  holdings_ok rvs m -> rvs !! vid = Some v -> live v = true -> ledger_eq m1 m ->
  forall rid, held (release_holds (item_holds (Reservation.items v)) m1) rid =
    if decide (owners rvs !! rid = Some vid) then d0 else held m rid.
Proof.
  intros Hh Hv Hl Hm rid. rewrite release_holds_exact; [|by eapply ho_nodup|].
  2:{ intros rid' amt Hin. rewrite (Hm rid'). by eapply ho_held. }
  assert (Hiff : rid ∈ (item_holds (Reservation.items v)).*1 <-> owners rvs !! rid = Some vid).
  { rewrite (owners_spec _ _ _ _ Hh). split.
    - intros ([rid' amt] & -> & Hin)%list_elem_of_fmap. exists v, amt. done.
    - intros (v' & amt & Hv' & _ & Hin). simplify_eq. by eapply item_holds_fst. }
  rewrite (Hm rid). by rewrite (decide_ext _ _ _ _ Hiff).
Qed.

(** C19: [Commit] is all-or-nothing, in every state reached under the ledger discipline:
    if it succeeds the owners and the amounts held are unchanged and reservation
    and composition are COMMITTED; if the reservation was PROVISIONAL for a RESERVED
    composition and it fails, the reservation is ROLLED_BACK and owns nothing any
    more, the ledger holds nothing of what it owned and the same as before of
    everything else, and the composition is REVALIDATION_REQUIRED with outcome
    FAILED; in every other case nothing changes. *)
Theorem commit_all_or_nothing cfg s resv :
  disciplined_reachable cfg s ->
  let s' := (Commit resv s).2 in
  let o := owners (Impl.reservations s) in
  let o' := owners (Impl.reservations s') in
  if is_success (cc_outcome (Commit resv s).1) then
    o' = o /\ ledger_eq (Impl.reserved_amount s') (Impl.reserved_amount s) /\
    exists v c, Impl.reservations s' !! Reservation.id resv = Some v /\
      Reservation.state v = ReservationState.COMMITTED /\
      Impl.compositions s' !! Reservation.composition v = Some c /\
      Composition.lifecycle c = CompositionLifecycle.COMMITTED
  else s' = s \/ (o' = filter (fun kv => kv.2 <> Reservation.id resv) o /\
    (forall rid, held (Impl.reserved_amount s') rid =
       if decide (o !! rid = Some (Reservation.id resv)) then d0 else held (Impl.reserved_amount s) rid) /\
    exists v c, Impl.reservations s' !! Reservation.id resv = Some v /\
      Reservation.state v = ReservationState.ROLLED_BACK /\
      Impl.compositions s' !! Reservation.composition v = Some c /\
      Composition.lifecycle c = CompositionLifecycle.REVALIDATION_REQUIRED /\
      Composition.outcome c = CompositionOutcome.FAILED).
Proof.
  intros HI%LedgerInv_reachable. cbv zeta. pose proof (Commit_ledger resv s HI) as [Hh' _].
  destruct (Commit_cases resv s) as [[-> ->]|(v & c & Hs)]; [by left|].
  pose proof (step_live _ _ _ _ _ _ Hs) as Hlive. destruct HI as [Hh Hl].
  destruct Hs as [Hv Hst Hc Hlc Hn Hr Hcs (m & Hm & Hra)]. rewrite Hr, Hcs, Hra in *. destruct (is_success _); [|right]; (split; [|split]).
  - eapply owners_relabel; [done..|]. by rewrite item_holds_committed.
  - exact Hm.
  - eexists _, _. rewrite lookup_insert_eq. split; [done|]. split; [done|]. cbn. by rewrite lookup_insert_eq.
  - by eapply owners_release.
  - by apply rollback_amounts.
  - eexists _, _. rewrite lookup_insert_eq. split; [done|]. split; [done|]. cbn. by rewrite lookup_insert_eq.
Qed.

(** The member goes stale between reservation and commit. *)
Definition s_lost : Impl.t := run (OInvalidateNode (Id 103)) s_reserved.

Lemma s_lost_disciplined : disciplined_reachable cfg s_lost.
Proof.
  apply dr_step; [|exact I]. apply p_reserved_disciplined; [apply s_disc_disciplined|vm_compute; reflexivity].
Qed.

Lemma commit_all_or_nothing_witness :
  owners (Impl.reservations (Commit (p_resv MakeReq s_disc) s_lost).2) =
    filter (fun kv => kv.2 <> Reservation.id (p_resv MakeReq s_disc)) (owners (Impl.reservations s_lost)).
Proof.
  pose proof (commit_all_or_nothing cfg s_lost (p_resv MakeReq s_disc) s_lost_disciplined) as H. cbv zeta in H.
  assert (Hok : is_success (cc_outcome (Commit (p_resv MakeReq s_disc) s_lost).1) = false) by (vm_compute; reflexivity).
  rewrite Hok in H. destruct H as [H|[H _]]; [|exact H]. exfalso.
  assert (Ha : lifecycle_at (Id 1) (Commit (p_resv MakeReq s_disc) s_lost).2 = Some CompositionLifecycle.REVALIDATION_REQUIRED)
    by (vm_compute; reflexivity).
  assert (Hb : lifecycle_at (Id 1) s_lost = Some CompositionLifecycle.RESERVED) by (vm_compute; reflexivity).
  clear Hok. pose proof (eq_trans (eq_sym Ha) (eq_trans (f_equal (lifecycle_at (Id 1)) H) Hb)) as E. clear H Ha Hb. discriminate E.
Defined.

(** Round trip: releasing the composition right after a successful reservation returns
    true and restores the ledger and the table of owners to what they were. *)
Theorem reserve_release_roundtrip cfg s plan :
  disciplined_reachable cfg s -> disciplined (OReserve plan) s ->
  is_success (rr_outcome (Reserve plan s).1) = true ->
  let r := Release (CompositionPlan.id plan) (Reserve plan s).2 in
  r.1 = true /\ ledger_eq (Impl.reserved_amount r.2) (Impl.reserved_amount s) /\
  owners (Impl.reservations r.2) = owners (Impl.reservations s).
Proof.
  intros HI%LedgerInv_reachable Hd Hok. destruct (Reserve_cases plan s HI Hd) as [[? _]|[_ Ha]]; [congruence|].
  pose proof (accepts_ledger _ _ _ _ HI Ha) as HI'. pose proof (Reserve_lock plan s HI Hd) as Hlock. rewrite Hok in Hlock.
  destruct Hlock as (_ & Hfree & Hnew & Hown). cbv zeta. set (s' := (Reserve plan s).2) in *.
  pose proof (ra_comps _ _ _ _ Ha) as Hcs. pose proof (ra_resvs _ _ _ _ Ha) as Hrs.
  assert (Hc : Impl.compositions s' !! CompositionPlan.id plan = Some (reserved_composition plan (Impl.next_rs s) (Id (Impl.next_resv s))))
    by (by rewrite Hcs, lookup_insert_eq).
  assert (Hv : Impl.reservations s' !! Id (Impl.next_resv s) = Some (rr_reservation (Reserve plan s).1))
    by (by rewrite Hrs, lookup_insert_eq).
  destruct (Release_effect _ _ _ _ Hc eq_refl Hv) as (-> & -> & ->). clear Hc.
  split; [done|]. split; [eapply reserve_undo, Ha|].
  erewrite owners_release; [|apply HI'|apply holdings_release; [apply HI'|done|by eapply accepts_live|done]|done].
  rewrite Hown. apply map_eq. intros rid. apply option_eq. intros j.
  rewrite map_lookup_filter_Some, lookup_foldr_insert. cbn. case_decide as Hin.
  - rewrite (Hfree _ Hin). by split; [intros [[= <-] ?]|].
  - split; [by intros [? _]|]. intros Hj. split; [done|]. intros ->. by destruct (Hnew rid).
Qed.

Lemma reserve_release_roundtrip_witness :
  let r := Release (CompositionPlan.id (p_plan MakeReq s_disc)) (Reserve (p_plan MakeReq s_disc) (p_composed MakeReq s_disc)).2 in
  r.1 = true /\ ledger_eq (Impl.reserved_amount r.2) (Impl.reserved_amount (p_composed MakeReq s_disc)) /\
  owners (Impl.reservations r.2) = owners (Impl.reservations (p_composed MakeReq s_disc)).
Proof.
  apply (reserve_release_roundtrip cfg (p_composed MakeReq s_disc) (p_plan MakeReq s_disc)).
  - apply dr_step; [exact s_disc_disciplined|exact I].
  - apply reserve_disciplined_ok. vm_compute. reflexivity.
  - vm_compute. reflexivity.
Defined.

(** ** Executions outside the discipline *)

(** Two compositions with these ids are ACTIVE and share a resource. *)
Definition share_active (s : Impl.t) (id1 id2 : CompositionId) : bool :=
  match Impl.compositions s !! id1, Impl.compositions s !! id2 with
  | Some c1, Some c2 =>
      lifecycle_is CompositionLifecycle.ACTIVE c1 && lifecycle_is CompositionLifecycle.ACTIVE c2
      && existsb (fun rid => is_member rid c2) (ResourceGraph.vertices (Composition.graph c1))
  | _, _ => false
  end.

(** Commit of composition 1 is rolled back, composition 2 takes the resources,
    and releasing composition 1 then gives composition 2's holds away. *)
Definition s_rolled_back : Impl.t := run ODiscover (run (OCommit (p_resv MakeReq s_disc)) s_lost).
Definition s_double_release : Impl.t :=
  p_active MakeReq (run (ORelease (Id 1)) (p_active MakeReq s_rolled_back)).

(** C36: [Release] does not look at the state of the reservation it releases: releasing a
    composition whose commit was rolled back subtracts its holds a second time,
    and a reachable state exists in which two ACTIVE compositions share resources. *)
Theorem rolled_back_release_breaks_exclusivity :
  reachable cfg s_double_release /\ share_active s_double_release (Id 2) (Id 3) = true.
Proof.
  split; [|vm_compute; reflexivity]. apply p_active_reachable, reachable_step, p_active_reachable.
  do 2 apply reachable_step. eapply disciplined_is_reachable, s_lost_disciplined.
Qed.

(** A restarted engine: composition 1 is restored from the saved state and names
    reservation 1, which the new engine gives to composition 2. *)
Definition s_restarted : Impl.t := run ODiscover (run (OLoad (SaveState s_active)) s_new).
Definition s_reused_resv : Impl.t :=
  p_active MakeReq (run (ORelease (Id 1)) (p_active MakeReq s_restarted)).

(** [Load] restores the composition counter but not the reservation counter, so a new
    reservation can reuse the id that a restored composition still names; releasing
    the restored composition then frees the new one's resources, and a reachable
    state exists in which two ACTIVE compositions share resources. *)
Theorem load_reservation_reuse_breaks_exclusivity :
  reachable cfg s_reused_resv /\ share_active s_reused_resv (Id 2) (Id 3) = true.
Proof.
  split; [|vm_compute; reflexivity]. apply p_active_reachable, reachable_step, p_active_reachable.
  repeat apply reachable_step. constructor.
Qed.

(** A storage resource that reports no capacity, requested by class only. *)
Definition ZeroReq : CompositionRequest.t :=
  CompositionRequest.dflt <| CompositionRequest.mandatory_classes := {[ResourceClass.STORAGE]} |>.
Definition s_zero : Impl.t :=
  let s := run (ORegisterResource (Synthetic.stor <| Resource.capacity := Capacity.dflt |>)) (FabricEngine cfg) in
  p_active ZeroReq (p_active ZeroReq s).

(** The hold of an amount-based class is the capacity of the member: a member whose
    capacity in the demanded dimension is 0 is held with amount 0.0, which
    [Reserve] reads as free, so two ACTIVE compositions can share it. *)
Theorem zero_hold_breaks_exclusivity :
  reachable cfg s_zero /\ share_active s_zero (Id 1) (Id 2) = true.
Proof.
  split; [|vm_compute; reflexivity]. do 2 apply p_active_reachable. apply reachable_step. constructor.
Qed.
