(* ===== verification/ComposeProps.v ===== *)
(** * What [Compose] guarantees

    The claims about planning: a returned plan is sound, it is the best-ranked
    one of a bounded search, it does not depend on hash-map order, it can be
    carried through to activation, and recomposition replaces the old composition
    by a new one; and the requirements that planning does not enforce. *)

From S2P Require Import Prelude Enums Ids Double Model Planner Engine Synthetic.
From S2P Require Import Lifecycle Compose Contract Ledger Scenario LedgerProps.

(** ** Helper lemmas *)
Lemma eligible_current r req :
  ResourceEligible r req = None -> IsValid (Resource.id r) = true /\ IsCurrent (Resource.evidence r) = true.
Proof.
  unfold ResourceEligible. destruct (IsValid _); [|done]. destruct (Resource.health r); try done.
  destruct (_ && _); [done|]. destruct (_ || _); [done|]. by destruct (IsCurrent _).
Qed.

Lemma sound_member s req plan set rid :
  sound_plan s req plan set -> rid ∈ ResourceGraph.vertices (CompositionPlan.graph plan) ->
  exists r, Impl.resources s !! rid = Some r /\ ResourceEligible r req = None.
Proof.
  intros Hs Hin. pose proof (sp_members _ _ _ _ Hs) as Hm. apply mapM_Some in Hm.
  apply list_elem_of_lookup in Hin as [i Hi]. destruct (Forall2_lookup_l _ _ _ _ _ Hm Hi) as (r & Hr & Hl).
  exists r. split; [done|]. eapply sp_eligible; [done|]. by eapply list_elem_of_lookup_2.
Qed.

(** A composition with a sound plan's graph and authority revalidates. *)
Lemma sound_revalidates s req plan set c :
  sound_plan s req plan set -> Composition.graph c = CompositionPlan.graph plan ->
  Composition.authority c = CompositionPlan.authority plan -> RevalidationHolds c (Impl.resources s) (epoch s) = None.
Proof.
  intros Hs Hg Ha. unfold RevalidationHolds. rewrite Ha, Hg, (sp_epoch _ _ _ _ Hs), id_eqb_refl. cbn [negb].
  apply RevalidateVertices_None. rewrite (sp_generations _ _ _ _ Hs). intros i rid Hi.
  pose proof (sp_members _ _ _ _ Hs) as Hm. apply mapM_Some in Hm.
  destruct (Forall2_lookup_l _ _ _ _ _ Hm Hi) as (r & Hr & Hl). exists r.
  destruct (eligible_current r req) as [Hv Hc]; [eapply sp_eligible; [done|]; by eapply list_elem_of_lookup_2|].
  split_and!; try done. intros g. rewrite list_lookup_fmap, Hr. by intros [= <-].
Qed.

Lemma commit_loop_ok rs req items m :
  (forall rid amt, (rid, amt) ∈ item_holds items ->
    held m rid = amt /\ exists r, rs !! rid = Some r /\ ResourceEligible r req = None) ->
  (commit_loop rs req items m).2 = None.
Proof.
  revert m. induction items as [|i items IH]; intros m Hall; cbn; [done|].
  destruct (Hall (ReservationItem.resource i) (ReservationItem.reserved_amount i)) as (Hh & r & -> & ->); [by left|].
  change (default d0 (touch ?x m !! ?x)) with (held (touch x m) x). rewrite touch_held, Hh, dlt_irrefl.
  apply IH. intros rid amt Hin. rewrite touch_held. apply Hall. by right.
Qed.

Lemma Commit_success resv v c s :
  Impl.reservations s !! Reservation.id resv = Some v -> Reservation.state v = ReservationState.PROVISIONAL ->
  Impl.compositions s !! Reservation.composition v = Some c ->
  Composition.lifecycle c = CompositionLifecycle.RESERVED ->
  (commit_loop (Impl.resources s) (Composition.request c) (Reservation.items v) (Impl.reserved_amount s)).2 = None ->
  is_success (cc_outcome (Commit resv s).1) = true /\ Impl.resources (Commit resv s).2 = Impl.resources s /\
  epoch (Commit resv s).2 = epoch s /\ Impl.fenced (Commit resv s).2 = Impl.fenced s /\
  Impl.compositions (Commit resv s).2 !! Reservation.composition v = Some (with_lifecycle CompositionLifecycle.COMMITTED c).
Proof.
  intros Hv Hst Hc Hl Hloop. unfold Commit, lifecycle_is. rewrite Hv, Hst, Hc, Hl. cbn [negb bool_decide decide].
  rewrite !bool_decide_true by done. cbn [negb]. destruct (commit_loop _ _ _ _) as [m f]. cbn in Hloop. subst f.
  split_and!; try done. cbn. by rewrite lookup_insert_eq.
Qed.

Lemma Activate_ok id c s :
  Impl.compositions s !! id = Some c -> Composition.lifecycle c = CompositionLifecycle.COMMITTED ->
  (Composition.id c ∉ Impl.fenced s) -> RevalidationHolds c (Impl.resources s) (epoch s) = None ->
  is_success (ar_outcome (Activate id s).1) = true /\
  exists c', Impl.compositions (Activate id s).2 !! id = Some c' /\ Composition.lifecycle c' = CompositionLifecycle.ACTIVE /\
    Composition.graph c' = Composition.graph c.
Proof.
  intros Hc Hl Hf Hr. unfold Activate, lifecycle_is. rewrite Hc, Hl, bool_decide_true, bool_decide_false, Hr by done. cbn.
  split; [done|]. rewrite lookup_insert_eq. eauto.
Qed.

Lemma Reserve_frame plan s :
  Impl.resources (Reserve plan s).2 = Impl.resources s /\ epoch (Reserve plan s).2 = epoch s /\
  Impl.fenced (Reserve plan s).2 = Impl.fenced s.
Proof.
  unfold Reserve. repeat (destruct (negb _); [done|]). by destruct (reserve_loop _ _ _ _ _) as [[m items] [[reason note]|]].
Qed.

Lemma Compose_keeps req s :
  let s' := (Compose req s).2 in
  Impl.resources s' = Impl.resources s /\ epoch s' = epoch s /\ Impl.fenced s' = Impl.fenced s /\
  Impl.reservations s' = Impl.reservations s /\ Impl.reserved_amount s' = Impl.reserved_amount s.
Proof. cbv zeta. rewrite Compose_frame. done. Qed.

(** What a successful step stores. *)
Lemma Reserve_stores plan s :
  is_success (rr_outcome (Reserve plan s).1) = true ->
  let v := rr_reservation (Reserve plan s).1 in
  let s' := (Reserve plan s).2 in
  Reservation.composition v = CompositionPlan.id plan /\ Impl.reservations s' !! Reservation.id v = Some v /\
  Impl.fenced s' = Impl.fenced s /\
  exists n rid, Impl.compositions s' = <[CompositionPlan.id plan := reserved_composition plan n rid]> (Impl.compositions s).
Proof.
  unfold Reserve. repeat (destruct (negb _); [done|]).
  destruct (reserve_loop _ _ _ _ _) as [[m items] [[reason note]|]]; [done|]. intros _. cbn.
  split_and!; try done; [by rewrite lookup_insert_eq|by do 2 eexists].
Qed.
Lemma Commit_stores resv v s :
  Impl.reservations s !! Reservation.id resv = Some v -> is_success (cc_outcome (Commit resv s).1) = true ->
  exists c, Impl.compositions s !! Reservation.composition v = Some c /\
    cc_composition (Commit resv s).1 = with_lifecycle CompositionLifecycle.COMMITTED c /\
    Impl.fenced (Commit resv s).2 = Impl.fenced s /\
    Impl.compositions (Commit resv s).2 =
      <[Reservation.composition v := with_lifecycle CompositionLifecycle.COMMITTED c]> (Impl.compositions s).
Proof.
  unfold Commit. intros ->. destruct (negb _); [done|].
  destruct (Impl.compositions s !! Reservation.composition v) as [c|]; [|done]. destruct (negb _); [done|].
  destruct (commit_loop _ _ _ _) as [m [reason|]]; [done|]. intros _. by exists c.
Qed.
Lemma Activate_stores id s :
  is_success (ar_outcome (Activate id s).1) = true ->
  exists c, Impl.compositions s !! id = Some c /\ (Composition.id c ∉ Impl.fenced s) /\
    Impl.fenced (Activate id s).2 = Impl.fenced s /\
    Impl.compositions (Activate id s).2 =
      <[id := with_status CompositionLifecycle.ACTIVE CompositionOutcome.SUCCESS c]> (Impl.compositions s).
Proof.
  unfold Activate. destruct (Impl.compositions s !! id) as [c|]; [|done]. destruct (negb _); [done|].
  destruct (bool_decide _) eqn:Hf; [done|]. apply bool_decide_eq_false_1 in Hf.
  destruct (RevalidationHolds _ _ _) as [[reason note]|]; [done|]. intros _. by exists c.
Qed.
(** The release step of [Recompute]. *)
Lemma recompute_release_effect id c s :
  Impl.compositions s !! id = Some c ->
  Impl.compositions (recompute_release id s) = <[id := with_lifecycle CompositionLifecycle.RELEASED c]> (Impl.compositions s) /\
  Impl.fenced (recompute_release id s) = {[Composition.id c]} ∪ Impl.fenced s.
Proof.
  intros Hc. unfold recompute_release. rewrite Hc. cbn.
  by destruct (release_reservation_frame (Composition.reservation c) s) as (_ & _ & -> & ->).
Qed.

(** ** Claims *)



(** C25: Planning is deterministic: the result and the next state of [Compose] do not
    depend on the order in which the hash map of resources is iterated. *)
Theorem compose_order_independent cfg s req rs :
  reachable cfg s -> rs ≡ₚ (map_to_list (Impl.resources s)).*2 -> ComposeOrdered rs req s = Compose req s.
Proof.
  intros Hs%Inv_reachable Hp. unfold Compose, ComposeDeterministic, ComposeOrdered.
  rewrite (build_selections_perm (map_to_list (Impl.resources s)).*2 rs); [done| |done].
  by apply registered_nodup, Inv_keys.
Qed.

Lemma compose_order_independent_witness :
  ComposeOrdered (rev (map_to_list (Impl.resources s_disc)).*2) MakeReq s_disc = Compose MakeReq s_disc.
Proof. apply (compose_order_independent cfg s_disc MakeReq _ s_disc_reachable). symmetry. apply Permutation_rev. Defined.

(** C26: Right after [Discover], with backends that implement the contract, a returned
    plan has the greatest rank of the bounded search: no feasible combination of
    the enumerated selections has a greater total. *)
Theorem compose_optimal s0 req sels combos combo set :
  Forall BackendContract (Impl.backends s0) ->
  let s := (Discover s0).2 in
  build_selections (map_to_list (Impl.resources s)).*2 req (ComputeDemands req) = inr sels ->
  product sels [[]] = Some combos -> combo ∈ combos ->
  feasible_set (Impl.resources s) (Impl.paths s) req sels.*1 combo = Some set ->
  is_success (cr_outcome (Compose req s).1) = true ->
  (RankScore.total (CompositionPlan.rank (cr_plan (Compose req s).1)) <? RankScore.total (Rank set))%D = false.
Proof.
  intros Hbs s Hsel Hprod Hin Hf Hok. pose proof (Discover_stable s0 Hbs : StablePaths (Impl.backends s) (Impl.paths s)) as Hst.
  clearbody s.
  destruct (ComposeOrdered_success _ _ _ Hok) as (sels' & combos' & paths & plan & Hsel' & Hprod' & Hfold & Heq).
  unfold Compose, ComposeDeterministic. rewrite Heq. clear Heq Hok.
  rewrite Hsel in Hsel'. injection Hsel' as <-. rewrite Hprod in Hprod'. injection Hprod' as <-.
  destruct (evaluate_best (Impl.backends s) (Impl.resources s) req sels.*1 (Impl.paths s) combos (Impl.paths s, None))
    as (_ & _ & Hall); [done|done|]. specialize (Hall combo set Hin Hf). by rewrite Hfold in Hall.
Qed.

Lemma compose_optimal_witness :
  (RankScore.total (CompositionPlan.rank (cr_plan (Compose AccReq s_disc).1)) <? RankScore.total (Rank [Synthetic.gpu2]))%D = false.
Proof.
  assert (Hs : exists sels, build_selections (map_to_list (Impl.resources s_disc)).*2 AccReq (ComputeDemands AccReq) = inr sels)
    by (vm_compute; eexists; reflexivity).
  destruct Hs as [sels Hsel].
  assert (Hp : exists combos, product sels [[]] = Some combos /\ [Id 106] ∈ combos /\
    feasible_set (Impl.resources s_disc) (Impl.paths s_disc) AccReq sels.*1 [Id 106] = Some [Synthetic.gpu2]).
  { vm_compute in Hsel. injection Hsel as <-. eexists. split; [vm_compute; reflexivity|]. split.
    - right. left.
    - vm_compute. reflexivity. }
  destruct Hp as (combos & Hprod & Hin & Hf).
  refine (compose_optimal s_new AccReq sels combos [Id 106] [Synthetic.gpu2] _ Hsel Hprod Hin Hf _).
  - apply Forall_singleton. apply SyntheticBackend_contract, SyntheticBackend_wf.
  - vm_compute. reflexivity.
Defined.

(** The search is bounded whatever is registered: at most 24 selections per class and
    at most 400 combinations are built and evaluated. *)
Theorem compose_bounded rs req sels combos :
  build_selections rs req (ComputeDemands req) = inr sels -> product sels [[]] = Some combos ->
  (length combos <= 400)%nat /\ forall d picks, (d, picks) ∈ sels -> (length picks <= 24)%nat.
Proof. apply Compose_combos_bound. Qed.

Lemma compose_bounded_witness :
  exists sels combos, build_selections (map_to_list (Impl.resources s_disc)).*2 MakeReq (ComputeDemands MakeReq) = inr sels /\
    product sels [[]] = Some combos /\ (length combos <= 400)%nat.
Proof.
  assert (Hs : exists sels combos, build_selections (map_to_list (Impl.resources s_disc)).*2 MakeReq (ComputeDemands MakeReq) = inr sels
    /\ product sels [[]] = Some combos) by (vm_compute; do 2 eexists; split; reflexivity).
  destruct Hs as (sels & combos & Hsel & Hprod). exists sels, combos. split; [exact Hsel|split; [exact Hprod|]].
  exact (proj1 (compose_bounded _ _ _ _ Hsel Hprod)).
Defined.

(** C13: A composed plan can be carried to ACTIVE: if its members are free, have positive
    holds and no negative capacity, and its id is valid and not fenced, then
    [Reserve], [Commit] and [Activate] in this order all succeed and the
    composition ends ACTIVE on the planned graph. *)
Theorem compose_to_active cfg s req :
  disciplined_reachable cfg s -> is_success (cr_outcome (Compose req s).1) = true ->
  let plan := cr_plan (Compose req s).1 in
  let s1 := (Compose req s).2 in
  disciplined (OReserve plan) s1 -> IsValid (CompositionPlan.id plan) = true -> CompositionPlan.id plan ∉ Impl.fenced s ->
  (forall rid r, rid ∈ ResourceGraph.vertices (CompositionPlan.graph plan) -> Impl.resources s !! rid = Some r ->
    owners (Impl.reservations s) !! rid = None /\
    (Capacity.compute_units (Resource.capacity r) <? d0)%D = false /\
    (Capacity.host_memory_bytes (Resource.capacity r) <? d0)%D = false) ->
  let r := Reserve plan s1 in
  let c := Commit (rr_reservation r.1) r.2 in
  let a := Activate (CompositionPlan.id plan) c.2 in
  is_success (rr_outcome r.1) = true /\ is_success (cc_outcome c.1) = true /\ is_success (ar_outcome a.1) = true /\
  exists comp, Impl.compositions a.2 !! CompositionPlan.id plan = Some comp /\
    Composition.lifecycle comp = CompositionLifecycle.ACTIVE /\ Composition.graph comp = CompositionPlan.graph plan.
Proof.
  intros Hs Hok plan s1 Hd Hv Hnf Hfree r c a. pose proof (LedgerInv_reachable _ _ Hs) as HI.
  pose proof (Inv_keys _ (Inv_reachable _ _ (disciplined_is_reachable _ _ Hs))) as Hkeys.
  destruct (Compose_sound req s Hkeys Hok) as (set & Hsp). fold plan in Hsp.
  destruct (Compose_keeps req s) as (Hr1 & He1 & Hf1 & Hv1 & Ha1). fold s1 in Hr1, He1, Hf1, Hv1, Ha1.
  assert (HI1 : LedgerInv s1) by (by apply (LedgerInv_run (OCompose req) s)).
  assert (Hres : is_success (rr_outcome r.1) = true).
  { apply (Reserve_success plan s1 HI1 Hd). rewrite (sp_lifecycle _ _ _ _ Hsp), (sp_request _ _ _ _ Hsp), Hr1, Hv1.
    split_and!; [done|done|apply Hsp|]. intros rid Hin. destruct (sound_member _ _ _ _ _ Hsp Hin) as (x & Hx & Hel).
    destruct (Hfree rid x Hin Hx) as (? & ? & ?). split; [done|]. by exists x. }
  destruct (Reserve_cases plan s1 HI1 Hd) as [[Hno _]|[_ Hacc]]; [unfold r in Hres; congruence|]. fold r in Hacc.
  destruct (Reserve_frame plan s1) as (Hr2 & He2 & Hf2). fold r in Hr2, He2, Hf2.
  set (v := rr_reservation r.1) in *. set (comp := reserved_composition plan (Impl.next_rs s1) (Id (Impl.next_resv s1))).
  destruct (Commit_success v v comp r.2) as (Hcok & Hr3 & He3 & Hf3 & Hc3).
  - by rewrite (ra_resvs _ _ _ _ Hacc), (ra_id _ _ _ _ Hacc), lookup_insert_eq.
  - apply Hacc.
  - by rewrite (ra_composition _ _ _ _ Hacc), (ra_comps _ _ _ _ Hacc), lookup_insert_eq.
  - done.
  - apply commit_loop_ok. intros rid amt Hin. destruct (rp_new _ _ _ _ _ (ra_post _ _ _ _ Hacc) _ _ Hin) as (_ & _ & ->).
    split; [done|]. rewrite Hr2, Hr1. cbn [comp reserved_composition Composition.request]. rewrite (sp_request _ _ _ _ Hsp).
    eapply sound_member; [exact Hsp|]. rewrite <-(accepts_members _ _ _ _ Hacc). by apply (item_holds_fst _ amt).
  - fold c in Hcok, Hr3, He3, Hf3, Hc3. rewrite (ra_composition _ _ _ _ Hacc) in Hc3.
    destruct (Activate_ok _ _ _ Hc3) as (Haok & comp' & Hc' & Hl' & Hg').
    + done.
    + rewrite Hf3, Hf2, Hf1. exact Hnf.
    + rewrite Hr3, He3, Hr2, He2, Hr1, He1. by eapply sound_revalidates.
    + split_and!; try done. exists comp'. split_and!; try done.
Qed.

Definition members_free (plan : CompositionPlan.t) (s : Impl.t) : bool :=
  forallb (fun rid => match Impl.resources s !! rid, owners (Impl.reservations s) !! rid with
    | Some r, None => negb (dlt (Capacity.compute_units (Resource.capacity r)) d0)
                      && negb (dlt (Capacity.host_memory_bytes (Resource.capacity r)) d0)
    | Some _, Some _ => false
    | None, _ => true end) (ResourceGraph.vertices (CompositionPlan.graph plan)).

Lemma members_free_ok plan s :
  members_free plan s = true -> forall rid r, rid ∈ ResourceGraph.vertices (CompositionPlan.graph plan) ->
  Impl.resources s !! rid = Some r ->
    owners (Impl.reservations s) !! rid = None /\
    (Capacity.compute_units (Resource.capacity r) <? d0)%D = false /\
    (Capacity.host_memory_bytes (Resource.capacity r) <? d0)%D = false.
Proof.
  intros Hf rid r Hin Hr. unfold members_free in Hf. rewrite forallb_forall in Hf. specialize (Hf rid).
  rewrite <-list_elem_of_In, Hr in Hf. specialize (Hf Hin). destruct (owners _ !! rid); [done|].
  apply andb_true_iff in Hf as [?%negb_true_iff ?%negb_true_iff]. done.
Qed.

Lemma compose_to_active_witness :
  let plan := cr_plan (Compose MakeReq s_disc).1 in
  let r := Reserve plan (Compose MakeReq s_disc).2 in
  let c := Commit (rr_reservation r.1) r.2 in
  let a := Activate (CompositionPlan.id plan) c.2 in
  exists comp, Impl.compositions a.2 !! CompositionPlan.id plan = Some comp /\
    Composition.lifecycle comp = CompositionLifecycle.ACTIVE /\ Composition.graph comp = CompositionPlan.graph plan.
Proof.
  refine (proj2 (proj2 (proj2 (compose_to_active cfg s_disc MakeReq s_disc_disciplined _ _ _ _ _)))).
  - vm_compute. reflexivity.
  - apply reserve_disciplined_ok. vm_compute. reflexivity.
  - vm_compute. reflexivity.
  - apply (bool_decide_eq_false_1 _). vm_compute. reflexivity.
  - apply members_free_ok. vm_compute. reflexivity.
Defined.

(** C31: Recomposition replaces, never duplicates: when [Recompute] reports success, a new
    composition of the same request, under another id and on a plan that [Compose]
    returned, is ACTIVE, and the old composition is RELEASED and fenced. *)
Theorem recompute_replaces cfg s id s' :
  reachable cfg s -> Recompute id s = (true, s') ->
  exists c c', Impl.compositions s !! id = Some c /\
    let plan := cr_plan (Compose (Composition.request c) s).1 in
    CompositionPlan.id plan <> id /\ Impl.compositions s' !! CompositionPlan.id plan = Some c' /\
    Composition.lifecycle c' = CompositionLifecycle.ACTIVE /\ Composition.request c' = Composition.request c /\
    Composition.graph c' = CompositionPlan.graph plan /\
    Impl.compositions s' !! id = Some (with_lifecycle CompositionLifecycle.RELEASED c) /\ id ∈ Impl.fenced s'.
Proof.
  intros Hs. pose proof (Inv_reachable _ _ Hs) as HI. unfold Recompute.
  destruct (Impl.compositions s !! id) as [c|] eqn:Hc; [|done].
  change (ComposeDeterministic (Composition.request c) 0 s) with (Compose (Composition.request c) s).
  pose proof (Compose_sound (Composition.request c) s (Inv_keys _ HI)) as Hsound.
  pose proof (Compose_frame (Composition.request c) s) as Hfr. cbv zeta in Hfr.
  destruct (Compose (Composition.request c) s) as [cr s1] eqn:Ecr. cbn [fst snd] in *.
  destruct (is_success (cr_outcome cr)) eqn:Hcr; [|done]. destruct (Hsound eq_refl) as (set & Hsp). cbn [negb].
  set (plan := cr_plan cr) in *.
  assert (Hc1 : Impl.compositions s1 !! id = Some c) by (by rewrite Hfr).
  destruct (recompute_release_effect id c s1 Hc1) as [Hcs2 Hf2]. set (s2 := recompute_release id s1) in *.
  pose proof (Reserve_stores plan s2) as Hrs. destruct (Reserve plan s2) as [rr s3]. cbn [fst snd] in Hrs.
  destruct (is_success (rr_outcome rr)) eqn:Hrr; [|done]. destruct (Hrs eq_refl) as (Hv & Hresv & Hf3 & n & rid & Hcs3). cbn [negb].
  pose proof (Commit_stores (rr_reservation rr) (rr_reservation rr) s3 Hresv) as Hco.
  destruct (Commit (rr_reservation rr) s3) as [cc s4]. cbn [fst snd] in Hco.
  destruct (is_success (cc_outcome cc)) eqn:Hcc; [|done]. destruct (Hco eq_refl) as (c3 & Hc3 & Hcomp & Hf4 & Hcs4). cbn [negb].
  rewrite Hv, Hcs3, lookup_insert_eq in Hc3. injection Hc3 as <-. rewrite Hv in Hcs4.
  assert (Hid : Composition.id (cc_composition cc) = CompositionPlan.id plan) by (by rewrite Hcomp). rewrite Hid.
  pose proof (Activate_stores (CompositionPlan.id plan) s4) as Hac.
  destruct (Activate (CompositionPlan.id plan) s4) as [ar s5]. cbn [fst snd] in Hac. intros [= Har <-].
  destruct (Hac Har) as (c4 & Hc4 & Hnf & Hf5 & Hcs5). rewrite Hcs4, lookup_insert_eq in Hc4. injection Hc4 as <-.
  assert (Hne : CompositionPlan.id plan <> id).
  { intros Heq. apply Hnf. cbn. rewrite Hf4, Hf3, Hf2, Heq, <-(inv_composition_keys _ HI _ _ Hc).
    by apply elem_of_union_l, elem_of_singleton. }
  exists c. eexists. split; [done|]. cbv zeta. rewrite Ecr. cbn [fst]. fold plan.
  split; [exact Hne|]. rewrite Hcs5, lookup_insert_eq. split; [done|]. cbn.
  split; [done|]. split; [apply Hsp|]. split; [done|]. rewrite lookup_insert_ne by done.
  rewrite Hcs4, lookup_insert_ne, Hcs3, lookup_insert_ne, Hcs2, lookup_insert_eq by done. split; [done|].
  rewrite Hf5, Hf4, Hf3, Hf2, (inv_composition_keys _ HI _ _ Hc). by apply elem_of_union_l, elem_of_singleton.
Qed.

Lemma recompute_replaces_witness :
  exists c c', Impl.compositions s_active !! (Id 1 : CompositionId) = Some c /\
    let plan := cr_plan (Compose (Composition.request c) s_active).1 in
    CompositionPlan.id plan <> Id 1 /\ Impl.compositions (Recompute (Id 1) s_active).2 !! CompositionPlan.id plan = Some c' /\
    Composition.lifecycle c' = CompositionLifecycle.ACTIVE /\ Composition.request c' = Composition.request c /\
    Composition.graph c' = CompositionPlan.graph plan /\
    Impl.compositions (Recompute (Id 1) s_active).2 !! (Id 1 : CompositionId) = Some (with_lifecycle CompositionLifecycle.RELEASED c) /\
    Id 1 ∈ Impl.fenced (Recompute (Id 1) s_active).2.
Proof.
  apply (recompute_replaces cfg s_active (Id 1) (Recompute (Id 1) s_active).2 s_active_reachable).
  assert (Hok : (Recompute (Id 1) s_active).1 = true) by (vm_compute; reflexivity).
  rewrite <-Hok. apply surjective_pairing.
Defined.

(** A request for one accelerator with a pebibyte of memory, persistence,
    isolation and a compatibility set. *)
Definition HardReq : CompositionRequest.t :=
  AccReq
    <| CompositionRequest.accelerator_memory_bytes := double_of_Z (2 ^ 50) |>
    <| CompositionRequest.require_persistence := true |> <| CompositionRequest.require_isolation := true |>
    <| CompositionRequest.compatibility := Id 77 |>.

(** Some hard requirements are not enforced: on the discovered synthetic topology the
    request above is composed successfully, on the single accelerator that is also
    chosen without these requirements, which has less memory than demanded and no
    compatibility facet. *)
Theorem hard_requirements_not_enforced :
  reachable cfg s_disc /\ is_success (cr_outcome (Compose HardReq s_disc).1) = true /\
  let members req := ResourceGraph.vertices (CompositionPlan.graph (cr_plan (Compose req s_disc).1)) in
  members HardReq = members AccReq /\
  Forall (fun rid => exists r, Impl.resources s_disc !! rid = Some r /\
    (Capacity.accelerator_memory_bytes (Resource.capacity r) <? CompositionRequest.accelerator_memory_bytes HardReq)%D = true /\
    Resource.compatibility r = []) (members HardReq).
Proof.
  split; [exact s_disc_reachable|]. split; [vm_compute; reflexivity|]. cbv zeta. split; [vm_compute; reflexivity|].
  assert (Hm : ResourceGraph.vertices (CompositionPlan.graph (cr_plan (Compose HardReq s_disc).1)) = [Id 102])
    by (vm_compute; reflexivity).
  rewrite Hm. apply Forall_singleton. eexists. split; [vm_compute; reflexivity|]. split; vm_compute; reflexivity.
Qed.
