(* ===== verification/WireProps.v ===== *)
(** * What the wire codec guarantees

    The claims about [codec.hpp]: every encodable message is read back, every
    truncated message is rejected, and no decoder reads outside its buffer. *)

From S2P Require Import Prelude Bytes Enums Ids Double Model Codec Wire Planner Engine.
From S2P Require Import Synthetic Lifecycle Ledger Scenario.

(** The encoding succeeds, and decoding it into a default-constructed object
    succeeds, consumes every byte and gives [t1]. *)
Definition roundtrips {T : Type} (w : W) (m : Dec T unit) (t0 t1 : T) : Prop :=
  exists bytes, w [] = inr bytes /\
    (u64_ok (N.of_nat (length bytes)) ->
     exists r, m (MakeReader bytes, t0) = (Ret tt, (r, t1)) /\ Rd.ok r = true /\ Rd.pos r = N.of_nat (length bytes)).
(** Every strict prefix of the encoding is rejected. *)
Definition rejects_truncation {T : Type} (w : W) (m : Dec T unit) (t0 : T) : Prop :=
  forall bytes n, w [] = inr bytes -> u64_ok (N.of_nat (length bytes)) -> (n < length bytes)%nat ->
    exists st, m (MakeReader (take n bytes), t0) = (Fail, st).

Lemma reader_at_start buf : u64_ok (N.of_nat (length buf)) -> ready (MakeReader buf) buf.
Proof. intros H. split; [done|]. split; [|done]. split; [apply N.le_0_l|done]. Qed.

Lemma transfers_roundtrips {T : Type} w (m : Dec T unit) t0 t1 : transfers w m t0 tt t1 -> roundtrips w m t0 t1.
Proof.
  intros (bs & Hw & [Hs Hb _]). exists bs. split; [apply Hw|]. intros Hlen. pose proof (reader_at_start _ Hlen) as Hr0.
  destruct (Hb (MakeReader bs) []) as (r & Hm & Hr); [by rewrite app_nil_r|].
  exists r. split; [done|]. split; [apply Hr|]. apply ready_size in Hr. cbn in Hr. rewrite N.add_0_r in Hr.
  apply safe_moves in Hm as (_ & Hd & _); [|done|by eapply ready_wf]. rewrite Hr. unfold Rd.size. by rewrite Hd.
Qed.

(** A decoder that ends in [return r.ok();] accepts only with an unfailed reader. *)
Definition checked {T : Type} (m : Dec T unit) : Prop :=
  forall st r' t', m st = (Ret tt, (r', t')) -> Rd.ok r' = true.
Lemma checked_return_ok {T : Type} : checked (T := T) return_ok.
Proof. intros [r t] r' t'. unfold return_ok. destruct (Rd.ok r) eqn:E; [|done]. by intros [= <- _]. Qed.
Lemma checked_seq {T A : Type} (m : Dec T A) (m' : Dec T unit) : checked m' -> checked (m;; m').
Proof. intros H st r' t'. unfold mbind, Dec_bind. destruct (m st) as [[a| |] st1]; [apply H|done..]. Qed.
Ltac solve_checked := repeat (apply checked_seq); apply checked_return_ok.

Lemma transfers_truncation {T : Type} w (m : Dec T unit) t0 t1 :
  checked m -> transfers w m t0 tt t1 -> rejects_truncation w m t0.
Proof.
  intros Hc (bs & Hw & [Hs _ Hsh]) bytes n Heq Hlen Hn. rewrite Hw in Heq. cbn in Heq. injection Heq as <-.
  assert (Hr0 : ready (MakeReader (take n bs)) (take n bs)).
  { apply reader_at_start. rewrite length_take. unfold u64_ok in *. lia. }
  destruct (Hs (MakeReader (take n bs)) t0) as (o & r & t & Hm & Ho & _); [by eapply ready_wf|].
  destruct o as [[]| |]; [exfalso|eauto|done].
  assert (Hcut : short (take n bs) bs) by (rewrite <-(app_nil_r bs) at 1; by apply short_take).
  pose proof (Hc _ _ _ Hm) as Hok. by rewrite (Hsh _ _ _ _ _ Hr0 Hcut Hm) in Hok.
Qed.

(** ** Claims *)

(** C14: Round trips of the messages: every encodable node, resource, request, plan,
    composition and reservation is encoded, and decoding the bytes succeeds,
    consumes all of them, and gives the value back up to the members that are not
    part of the format (see [wire_node], [wire_resource], [wire_request],
    [wire_plan], [wire_composition]). *)
Theorem wire_roundtrip n r q p c v :
  (node_ok n -> roundtrips (EncodeNode wire_too_long n) DecodeNode Node.dflt (wire_node n)) /\
  (resource_ok r -> roundtrips (EncodeResource wire_too_long r) DecodeResource Resource.dflt (wire_resource r)) /\
  (request_ok q -> roundtrips (EncodeRequest wire_too_long q) DecodeRequest CompositionRequest.dflt (wire_request q)) /\
  (plan_ok p -> roundtrips (EncodePlan wire_too_long p) DecodePlan CompositionPlan.dflt (wire_plan p)) /\
  (composition_ok c -> roundtrips (EncodeComposition wire_too_long c) DecodeComposition Composition.dflt (wire_composition c)) /\
  (reservation_ok v -> roundtrips (EncodeReservation v) DecodeReservation Reservation.dflt v).
Proof.
  split_and!; intros H; apply transfers_roundtrips;
    auto using tr_node, tr_resource, tr_request, tr_plan, tr_composition, tr_reservation.
Qed.

(** The values of a running system: the plan of the test request, its
    reservation, the active composition and a member. *)
Definition w_plan : CompositionPlan.t := p_plan MakeReq s_disc.
Definition w_resv : Reservation.t := p_resv MakeReq s_disc.
Definition w_comp : Composition.t := default Composition.dflt (GetComposition (Id 1) s_active).
Definition w_node : Node.t := default Node.dflt (GetNode (Id 1) s_active).

Lemma w_values_ok :
  node_ok w_node /\ resource_ok Synthetic.gpu2 /\ request_ok MakeReq /\ plan_ok w_plan /\ composition_ok w_comp /\ reservation_ok w_resv.
Proof. decide_ok. Qed.

Lemma wire_roundtrip_witness :
  roundtrips (EncodeNode wire_too_long w_node) DecodeNode Node.dflt (wire_node w_node) /\
  roundtrips (EncodeResource wire_too_long Synthetic.gpu2) DecodeResource Resource.dflt (wire_resource Synthetic.gpu2) /\
  roundtrips (EncodeRequest wire_too_long MakeReq) DecodeRequest CompositionRequest.dflt (wire_request MakeReq) /\
  roundtrips (EncodePlan wire_too_long w_plan) DecodePlan CompositionPlan.dflt (wire_plan w_plan) /\
  roundtrips (EncodeComposition wire_too_long w_comp) DecodeComposition Composition.dflt (wire_composition w_comp) /\
  roundtrips (EncodeReservation w_resv) DecodeReservation Reservation.dflt w_resv.
Proof.
  destruct (wire_roundtrip w_node Synthetic.gpu2 MakeReq w_plan w_comp w_resv) as (H1 & H2 & H3 & H4 & H5 & H6).
  destruct w_values_ok as (K1 & K2 & K3 & K4 & K5 & K6).
  exact (conj (H1 K1) (conj (H2 K2) (conj (H3 K3) (conj (H4 K4) (conj (H5 K5) (H6 K6)))))).
Defined.

(** Truncated messages are rejected: the decoder returns false on every strict prefix
    of the encoding of an encodable node, resource, request, plan, composition or
    reservation. *)
Theorem wire_truncation_rejected n r q p c v :
  (node_ok n -> rejects_truncation (EncodeNode wire_too_long n) DecodeNode Node.dflt) /\
  (resource_ok r -> rejects_truncation (EncodeResource wire_too_long r) DecodeResource Resource.dflt) /\
  (request_ok q -> rejects_truncation (EncodeRequest wire_too_long q) DecodeRequest CompositionRequest.dflt) /\
  (plan_ok p -> rejects_truncation (EncodePlan wire_too_long p) DecodePlan CompositionPlan.dflt) /\
  (composition_ok c -> rejects_truncation (EncodeComposition wire_too_long c) DecodeComposition Composition.dflt) /\
  (reservation_ok v -> rejects_truncation (EncodeReservation v) DecodeReservation Reservation.dflt).
Proof.
  split_and!; intros H; (eapply transfers_truncation; [solve_checked|]);
    eauto using tr_node, tr_resource, tr_request, tr_plan, tr_composition, tr_reservation.
Qed.

Lemma wire_truncation_rejected_witness :
  rejects_truncation (EncodePlan wire_too_long w_plan) DecodePlan CompositionPlan.dflt /\
  rejects_truncation (EncodeReservation w_resv) DecodeReservation Reservation.dflt.
Proof.
  destruct (wire_truncation_rejected w_node Synthetic.gpu2 MakeReq w_plan w_comp w_resv) as (_ & _ & _ & H4 & _ & H6).
  destruct w_values_ok as (_ & _ & _ & K4 & _ & K6). exact (conj (H4 K4) (H6 K6)).
Defined.

(** The decoders are memory safe and total on arbitrary bytes: whatever the buffer
    holds and whatever object is filled, each decoder of the codec terminates with
    accept or reject, never reads outside the buffer, only moves its position
    forward within it, and never clears a failure. *)
Theorem wire_decoders_memory_safe :
  safe DecodeEvidence /\ safe DecodeCapability /\ safe DecodeCompatibility /\ safe DecodeResource /\ safe DecodeNode /\
  safe DecodePath /\ safe DecodeGraph /\ safe DecodeAuthority /\ safe DecodeRequest /\ safe DecodePlan /\
  safe DecodeComposition /\ safe DecodeReservation.
Proof. split_and!; auto with safe. Qed.
