(* ===== verification/PersistProps.v ===== *)
(** * What persistence guarantees

    The claims about saving and loading: a saved state is restored up to the
    members that are not written, a corrupted or truncated file is rejected, the
    loader never reads outside the file, and the registry after a restart is the
    image of the one that was saved. *)

From S2P Require Import Prelude Bytes Enums Ids Double Model Codec Wire Planner Engine Persistence.
From S2P Require Import Synthetic Lifecycle Compose Contract Ledger Scenario.

(** ** The loader as one decoder *)
Definition load_body : Dec DurableState.t unit :=
  store DurableState.epoch Rd.Id;;
  counted (push DurableState.nodes (local Node.dflt ReadNode));;
  counted (push DurableState.resources (local Resource.dflt ReadResource));;
  counted (store_entry DurableState.policies Rd.Id Rd.Id);;
  counted (push DurableState.compositions (local Composition.dflt ReadComposition)).
Definition load_decoder : Dec DurableState.t unit := rd Rd.U32;; rd Rd.U32;; load_body.

Lemma load_body_safe : safe load_body.
Proof. solve_safe. Qed.
Lemma load_decoder_safe : safe load_decoder.
Proof. apply safe_seq; [eauto with safe|]. apply safe_seq; [eauto with safe|]. apply load_body_safe. Qed.

Lemma tr_load_body s :
  state_ok s ->
  transfers (Wr.Id (DurableState.epoch s) ;>>
    Wr.counted WriteNode (DurableState.nodes s) ;>>
    Wr.counted WriteResource (DurableState.resources s) ;>>
    Wr.counted (fun kv => Wr.Id kv.1 ;>> Wr.Id kv.2) (policy_entries (DurableState.policies s)) ;>>
    Wr.counted WriteComposition (DurableState.compositions s)) load_body DurableState.dflt tt (persist_state s).
Proof.
  intros (He & [Hcn Hn] & [Hcr Hr] & [Hcp Hp] & [Hcc Hc]). eapply tr_eq.
  - eapply tr_seq; [apply tr_store; by apply Id_carries|].
    eapply tr_seq; [eapply (tr_counted_push_map DurableState.nodes wire_node); [eauto with safe|done|done|]|].
    { eapply Forall_impl; [exact Hn|]. intros n Hok t. by apply tr_local, tr_persist_node. }
    eapply tr_seq; [eapply (tr_counted_push_map DurableState.resources wire_resource); [eauto with safe|done|done|]|].
    { eapply Forall_impl; [exact Hr|]. intros r Hok t. by apply tr_local, tr_persist_resource. }
    eapply tr_seq; [eapply (tr_counted_map DurableState.policies Wr.Id Wr.Id);
      [eauto with safe..|done|apply isort_permutation|done|]|].
    { eapply Forall_impl; [exact Hp|]. intros kv [? ?]. split; by apply Id_carries. }
    eapply (tr_counted_push_map DurableState.compositions persist_composition); [eauto with safe|done|done|].
    eapply Forall_impl; [exact Hc|]. intros c Hok t. by apply tr_local, tr_persist_composition.
  - by destruct s.
Qed.

Lemma seq_Ret {T A B : Type} (m : Dec T A) (m' : Dec T B) st b st' :
  (m;; m') st = (Ret b, st') <-> exists a st1, m st = (Ret a, st1) /\ m' st1 = (Ret b, st').
Proof.
  unfold mbind, Dec_bind. destruct (m st) as [[a| |] st1]; (split; [|intros (a' & st1' & [= -> ->] & H) || intros (a' & st1' & [=] & _)]);
    try done; eauto.
Qed.
Lemma load_section_Loaded o e body k st d :
  load_section o e body k st = Loaded d <-> exists st', counted body st = (Ret tt, st') /\ k st' = Loaded d.
Proof.
  unfold load_section, counted, mbind, Dec_bind. destruct (rd Rd.U32 st) as [[n| |] st1].
  2,3: split; [done|by intros (? & ? & _)].
  destruct (kWireMaxCount <? n). { split; [done|by intros (? & ? & _)]. }
  destruct (loop (N.to_nat n) body st1) as [[[]| |] st2].
  - split; [by eauto|]. by intros (? & [= ->] & ?).
  - split; [done|by intros (? & ? & _)].
  - split; [done|by intros (? & ? & _)].
Qed.
Lemma load_payload_Loaded r out d :
  load_payload r out = Loaded d <-> exists r', load_body (r, out) = (Ret tt, (r', d)) /\ Rd.ok r' = true.
Proof.
  unfold load_payload, load_body. setoid_rewrite seq_Ret.
  destruct (store DurableState.epoch Rd.Id (r, out)) as [[a| |] st].
  2,3: split; [done|by intros (? & (? & ? & ? & _) & _)].
  rewrite load_section_Loaded. setoid_rewrite load_section_Loaded. setoid_rewrite load_section_Loaded.
  setoid_rewrite load_section_Loaded. setoid_rewrite seq_Ret. setoid_rewrite seq_Ret. setoid_rewrite seq_Ret. split.
  - intros (st1 & H1 & st2 & H2 & st3 & H3 & [r' d'] & H4 & Hd). destruct (Rd.ok r') eqn:Hok; [|done].
    injection Hd as ->. exists r'. split; [|done]. do 2 eexists. split; [done|].
    do 2 eexists. split; [exact H1|]. do 2 eexists. split; [exact H2|]. by do 2 eexists.
  - intros (r' & (a' & st' & [= <- <-] & ? & st1 & H1 & ? & st2 & H2 & ? & st3 & H3 & H4) & Hok).
    repeat match goal with u : unit |- _ => destruct u end.
    exists st1. split; [done|]. exists st2. split; [done|]. exists st3. split; [done|]. exists (r', d). by rewrite Hok.
Qed.

(** ** The file format *)
Definition file_header : list byte := le_bytes 4 kMagic ++ le_bytes 4 kFormatVersion.
Lemma saved_layout s :
  state_ok s ->
  exists pay, WriteState s [] = inr (file_header ++ pay) /\ decodes load_body DurableState.dflt pay tt (persist_state s).
Proof.
  intros (pay & Hw & Hd)%tr_load_body. exists pay. split; [|done]. unfold WriteState, Wr.seq at 1 2. cbn [Wr.U32].
  unfold Wr.U32. by rewrite !PutU32_eq, Hw.
Qed.
Lemma MakeReader_ready buf : u64_ok (N.of_nat (length buf)) -> ready (MakeReader buf) buf.
Proof. intros H. split; [done|]. split; [|done]. split; [apply N.le_0_l|done]. Qed.
Lemma MakeReader_at buf pos :
  u64_ok (N.of_nat (length buf)) -> (pos <= length buf)%nat -> ready ((MakeReader buf) <| Rd.pos := N.of_nat pos |>) (drop pos buf).
Proof.
  intros H Hp. split; [done|]. split; [split; [cbn; unfold Rd.size; cbn; lia|done]|]. cbn. by rewrite Nat2N.id.
Qed.

Definition checksum_at (buf : list byte) : option N := GetU64 buf (length buf - 8).

Lemma U64_at buf pos v r :
  u64_ok (N.of_nat (length buf)) -> (pos + 8 <= length buf)%nat ->
  Rd.U64 ((MakeReader buf) <| Rd.pos := N.of_nat pos |>) = Some (v, r) -> GetU64 buf pos = Some v.
Proof.
  intros Hb Hp. unfold Rd.U64, Rd.read. rewrite Need_spec; [|apply (MakeReader_at buf pos); [done|lia]|done].
  set (r0 := (MakeReader buf) <| Rd.pos := N.of_nat pos |>).
  change (Rd.ok r0) with true. change (Rd.pos r0) with (N.of_nat pos). change (Rd.data r0) with buf.
  change (Rd.size r0) with (N.of_nat (length buf)).
  rewrite (proj2 (N.leb_le _ _)), Nat2N.id by lia. cbn [andb negb]. destruct (GetU64 buf pos); [|done]. by intros [= -> _].
Qed.

Lemma LoadBytes_inv buf d :
  u64_ok (N.of_nat (length buf)) -> LoadBytes buf = Loaded d ->
  (8 <= length buf)%nat /\ checksum_at buf = Some (Fnv (take (length buf - 8) buf)) /\
  exists r', load_decoder (MakeReader buf, DurableState.dflt) = (Ret tt, (r', d)) /\ Rd.ok r' = true.
Proof.
  intros Hb. unfold LoadBytes. destruct (length buf =? 0)%nat; [done|].
  destruct (Rd.U32 (MakeReader buf)) as [[magic r]|] eqn:E1; [|done]. destruct (negb _); [done|].
  destruct (Rd.U32 r) as [[version r2]|] eqn:E2; [|done]. destruct (negb _); [done|].
  destruct (Nat.ltb_spec (length buf) 8); [done|].
  destruct (Rd.U64 _) as [[stored r3]|] eqn:E3; [|done]. apply U64_at in E3; [|done|lia].
  destruct (N.eqb_spec stored (Fnv (take (length buf - 8) buf))) as [->|]; [|done]. cbn [negb].
  intros (r' & Hl & Hok)%load_payload_Loaded. split_and!; [lia|done|]. exists r'. split; [|done].
  unfold load_decoder. apply seq_Ret. exists magic, (r, DurableState.dflt). split; [unfold rd; by rewrite E1|].
  apply seq_Ret. exists version, (r2, DurableState.dflt). split; [unfold rd; by rewrite E2|done].
Qed.

Lemma loop_moves {T : Type} n (body : Dec T unit) r t o r' t' :
  safe body -> reader_wf r -> loop n body (r, t) = (o, (r', t')) -> o <> Fault /\ reader_wf r'.
Proof.
  intros Hs Hr E. destruct (safe_loop n body Hs r t Hr) as (o1 & r1 & t1 & E1 & Ho & Hm & _).
  rewrite E in E1. by simplify_eq.
Qed.
Lemma load_section_safe o e body k r t :
  safe body -> reader_wf r -> (forall r' t', reader_wf r' -> k (r', t') <> LoadFault) -> load_section o e body k (r, t) <> LoadFault.
Proof.
  intros Hs Hr Hk. unfold load_section, rd. destruct (U32_safe r Hr) as (n & r1 & -> & Hr1 & _).
  destruct (_ <? n); [done|]. destruct (loop (N.to_nat n) body (r1, t)) as [o1 [r2 t2]] eqn:E.
  destruct (loop_moves _ _ _ _ _ _ _ Hs Hr1 E) as [Ho Hr2]. destruct o1; [by apply Hk|done|done].
Qed.
Lemma load_payload_safe r out : reader_wf r -> load_payload r out <> LoadFault.
Proof.
  intros Hr. unfold load_payload.
  unfold store, mbind, Dec_bind, rd at 1. destruct (Id_safe (Tag := CoordinatorEpochTag) r Hr) as (e & r1 & -> & Hr1 & _).
  cbn [assign]. repeat (apply load_section_safe; [eauto with safe|assumption|]; intros ? ? ?).
  by destruct (Rd.ok _).
Qed.

(** A file as [SaveImpl] lays it out. *)
Definition file_of (pay : list byte) : list byte :=
  (file_header ++ pay) ++ le_bytes 8 (Fnv (file_header ++ pay)).
Lemma length_file_of pay : length (file_of pay) = (length (file_header ++ pay) + 8)%nat.
Proof. unfold file_of. by rewrite (length_app (file_header ++ pay)), length_le_bytes. Qed.
Lemma file_of_body pay : take (length (file_of pay) - 8) (file_of pay) = file_header ++ pay.
Proof. rewrite length_file_of, Nat.add_sub. unfold file_of. apply take_app_length. Qed.
Lemma file_of_sum pay : drop (length (file_of pay) - 8) (file_of pay) = le_bytes 8 (Fnv (file_header ++ pay)).
Proof. rewrite length_file_of, Nat.add_sub. unfold file_of. apply drop_app_length. Qed.

(** The header and the checksum pass. *)
Lemma LoadBytes_payload pay :
  u64_ok (N.of_nat (length (file_of pay))) ->
  exists r, ready r (pay ++ le_bytes 8 (Fnv (file_header ++ pay))) /\ LoadBytes (file_of pay) = load_payload r DurableState.dflt.
Proof.
  intros Hb. unfold LoadBytes. set (sum := le_bytes 8 (Fnv (file_header ++ pay))).
  pose proof (length_file_of pay) as Hlen. destruct (Nat.eqb_spec (length (file_of pay)) 0); [lia|].
  assert (Hr0 : ready (MakeReader (file_of pay)) (le_bytes 4 kMagic ++ le_bytes 4 kFormatVersion ++ pay ++ sum)).
  { pose proof (MakeReader_ready _ Hb) as H. unfold file_of, file_header in H. by rewrite <-!app_assoc in H. }
  destruct (reads_back _ _ _ (U32_reads kMagic eq_refl) _ _ Hr0) as (r1 & -> & Hr1).
  destruct (reads_back _ _ _ (U32_reads kFormatVersion eq_refl) _ _ Hr1) as (r2 & -> & Hr2).
  rewrite !N.eqb_refl. cbn [negb]. destruct (Nat.ltb_spec (length (file_of pay)) 8); [lia|].
  pose proof (MakeReader_at (file_of pay) (length (file_of pay) - 8) Hb ltac:(lia)) as Hs.
  rewrite file_of_sum, <-(app_nil_r (le_bytes 8 _)) in Hs.
  destruct (reads_back _ _ _ (U64_reads _ (Fnv_u64 (file_header ++ pay))) _ _ Hs) as (r3 & -> & _).
  rewrite file_of_body, N.eqb_refl. cbn [negb]. by exists r2.
Qed.
Lemma LoadBytes_file pay d :
  u64_ok (N.of_nat (length (file_of pay))) -> decodes load_body DurableState.dflt pay tt d ->
  LoadBytes (file_of pay) = Loaded d.
Proof.
  intros Hb [_ Hd _]. destruct (LoadBytes_payload pay Hb) as (r2 & Hr2 & ->). apply load_payload_Loaded.
  destruct (Hd _ _ Hr2) as (r4 & Hb4 & Hok & _). eauto.
Qed.
Lemma SaveBytes_file s :
  state_ok s -> exists pay, SaveBytes s = inr (file_of pay) /\ decodes load_body DurableState.dflt pay tt (persist_state s).
Proof.
  intros (pay & Hw & Hd)%saved_layout. exists pay. split; [|done]. unfold SaveBytes. by rewrite Hw, PutU64_eq.
Qed.

Lemma load_decoder_decodes pay d :
  decodes load_body DurableState.dflt pay tt d -> decodes load_decoder DurableState.dflt (file_header ++ pay) tt d.
Proof.
  intros Hd. unfold file_header. rewrite <-app_assoc.
  eapply decodes_bind; [by apply decodes_rd, U32_reads|intros _; apply safe_seq; [eauto with safe|apply load_body_safe]|].
  eapply decodes_bind; [by apply decodes_rd, U32_reads|intros _; apply load_body_safe|done].
Qed.

(** ** Corruption *)

(** The last eight bytes are the checksum of the rest. *)
Definition sealed (buf : list byte) : Prop :=
  (8 <= length buf)%nat /\ checksum_at buf = Some (Fnv (take (length buf - 8) buf)).

Lemma sealed_eq buf : sealed buf -> drop (length buf - 8) buf = le_bytes 8 (Fnv (take (length buf - 8) buf)).
Proof.
  intros [Hl Hc]. unfold checksum_at in Hc. rewrite GetU64_spec, decide_True in Hc by lia. injection Hc as Hc.
  assert (Hd : length (drop (length buf - 8) buf) = 8%nat) by (rewrite length_drop; lia).
  rewrite (take_ge (drop _ _)) in Hc by lia. rewrite <-Hc. pose proof (le_bytes_value (drop (length buf - 8) buf)) as H.
  by rewrite Hd in H.
Qed.
Lemma sealed_file pay : sealed (file_of pay).
Proof.
  pose proof (length_file_of pay). split; [lia|]. unfold checksum_at. rewrite GetU64_spec, decide_True by lia.
  rewrite file_of_sum, file_of_body, take_ge by (rewrite length_le_bytes; lia).
  by rewrite le_value_bytes by apply Fnv_u64.
Qed.
Lemma sealed_corrupt buf i b b' : sealed buf -> buf !! i = Some b -> sealed (<[i := b']> buf) -> b' = b.
Proof.
  intros Hs Hi Hs'. pose proof (sealed_eq _ Hs) as E. pose proof (sealed_eq _ Hs') as E'. rewrite length_insert in E'.
  set (n := (length buf - 8)%nat) in *. pose proof (lookup_lt_Some _ _ _ Hi) as Hlt.
  assert (Hn : n = (length buf - 8)%nat) by done. destruct Hs as [Hl _].
  destruct (decide (i < n)%nat) as [Hin|Hin].
  - rewrite drop_insert_lt, E, take_insert_lt in E' by lia.
    apply le_bytes_inj in E'; [|apply Fnv_u64..]. eapply Fnv_insert; [|symmetry; exact E'].
    by rewrite lookup_take_lt.
  - rewrite take_insert_ge, drop_insert_ge, <-E in E' by lia.
    assert (Hj : drop n buf !! (i - n)%nat = Some b) by (rewrite lookup_drop; by replace (n + (i - n))%nat with i by lia).
    rewrite <-E', list_lookup_insert_eq in Hj by (rewrite length_drop; lia). congruence.
Qed.

Lemma LoadBytes_total buf :
  u64_ok (N.of_nat (length buf)) -> (exists d, LoadBytes buf = Loaded d) \/ exists e, LoadBytes buf = LoadError e.
Proof.
  intros Hb. cut (LoadBytes buf <> LoadFault); [destruct (LoadBytes buf); eauto; done|].
  assert (Hr0 : reader_wf (MakeReader buf)) by (by eapply ready_wf, MakeReader_ready).
  unfold LoadBytes. destruct (length buf =? 0)%nat; [done|].
  destruct (U32_safe _ Hr0) as (m & r1 & -> & Hr1 & _). destruct (negb _); [done|].
  destruct (U32_safe _ Hr1) as (v & r2 & -> & Hr2 & _). destruct (negb _); [done|].
  destruct (Nat.ltb_spec (length buf) 8); [done|].
  assert (Hrs : reader_wf ((MakeReader buf) <| Rd.pos := N.of_nat (length buf - 8) |>))
    by (eapply ready_wf, MakeReader_at; [done|lia]).
  destruct (U64_safe _ Hrs) as (c & r3 & -> & _). destruct (negb _); [done|]. by apply load_payload_safe.
Qed.

(** ** The registry across a restart *)
Definition node_keys (s : Impl.t) : Prop := forall k n, Impl.nodes s !! k = Some n -> Node.id n = k.

Lemma node_keys_ingest n s : node_keys s -> node_keys (IngestNodeLocked n s).
Proof.
  intros H. unfold IngestNodeLocked. destruct (negb _); [done|].
  intros k n'. cbn. rewrite lookup_insert. case_decide; [by intros [= <-]|].
  match goal with |- context [if ?b then _ else _] => destruct b end; apply H.
Qed.
Lemma node_keys_run o s : node_keys s -> node_keys (run o s).
Proof.
  intros H. destruct o; cbn [run].
  - by destruct b.
  - done.
  - revert H. apply (Discover_ind (fun s s' => node_keys s -> node_keys s')); auto using node_keys_ingest.
    intros r s' Hs k n. rewrite IngestResource_nodes. apply Hs.
  - unfold RegisterNode. case_match; [done|by apply node_keys_ingest].
  - unfold RegisterResource. case_match; [done|]. intros k n'. cbn. rewrite IngestResource_nodes. apply H.
  - done.
  - unfold WithdrawResource. by repeat case_match.
  - done.
  - unfold AdvanceEpoch. by repeat case_match.
  - by rewrite Compose_frame.
  - unfold Reserve. repeat (destruct (negb _); [done|]).
    by destruct (reserve_loop _ _ _ _ _) as [[m items] [[reason note]|]].
  - unfold Commit. by repeat case_match.
  - unfold Activate. by repeat case_match.
  - intros k n'. unfold OnResourceUpdate. rewrite IngestResource_nodes. apply H.
  - by apply node_keys_ingest.
  - done.
  - done.
  - done.
  - unfold BeginDrain. by repeat case_match.
  - unfold EndDrain, release_reservation. by repeat case_match.
  - unfold Release, release_reservation. by repeat case_match.
  - unfold recompute_release, release_reservation. by repeat case_match.
  - intros k n'. cbn. by intros [_ Hk]%insert_all_lookup.
Qed.
Lemma node_keys_reachable cfg s : reachable cfg s -> node_keys s.
Proof. induction 1 as [|s o _ IH]; [|by apply node_keys_run].
  unfold FabricEngine. by repeat case_match. Qed.

(** Re-importing the values of a map whose keys are the ids of its values. *)
Lemma insert_all_map {Tag : Set} {A : Type} (key : A -> StrongId Tag) (f : A -> A) (m : gmap (StrongId Tag) A) :
  (forall k x, m !! k = Some x -> key x = k) -> (forall x, key (f x) = key x) ->
  insert_all key (f <$> (map_to_list m).*2) = f <$> m.
Proof.
  intros Hk Hf. unfold insert_all.
  assert (Hl : forall l : list (StrongId Tag * A), (forall kv, kv ∈ l -> key kv.2 = kv.1) -> forall acc : gmap (StrongId Tag) A,
    fold_left (fun m x => <[key x := x]> m) (f <$> l.*2) acc =
    fold_left (fun m kv => <[kv.1 := kv.2]> m) (prod_map id f <$> l) acc).
  { induction l as [|[k x] l IH]; intros Hin acc; cbn; [done|].
    pose proof (Hin (k, x) ltac:(by left)) as Hkx. cbn in Hkx. rewrite Hf, Hkx. apply IH. intros kv Hkv. apply Hin. by right. }
  rewrite Hl by (intros [k x] Hkv; apply elem_of_map_to_list in Hkv; by apply Hk).
  apply fold_insert_map. by rewrite map_to_list_fmap.
Qed.

(** ** Claims *)

(** C11: Saving and loading restores the state: a state whose contents are encodable is
    written, and loading the bytes gives back the epoch, every node, resource and
    policy and every composition, in order, up to the members that no codec writes
    (see [persist_state]). *)
Theorem save_load_roundtrip s :
  state_ok s ->
  exists bytes, SaveBytes s = inr bytes /\
    (u64_ok (N.of_nat (length bytes)) -> LoadImpl ReadWhole (Some bytes) = Loaded (persist_state s)).
Proof.
  intros (pay & -> & Hd)%SaveBytes_file. exists (file_of pay). split; [done|]. intros Hb. by apply LoadBytes_file.
Qed.

(** C20: Corruption is detected: a saved file in which any one byte has been changed is
    rejected with an error. *)
Theorem saved_corruption_rejected s bytes i b b' :
  state_ok s -> SaveBytes s = inr bytes -> u64_ok (N.of_nat (length bytes)) ->
  bytes !! i = Some b -> b' <> b ->
  exists e, LoadImpl ReadWhole (Some (<[i := b']> bytes)) = LoadError e.
Proof.
  intros (pay & Hsave & _)%SaveBytes_file Heq Hb Hi Hne. rewrite Hsave in Heq. injection Heq as <-.
  destruct (LoadBytes_total (<[i := b']> (file_of pay))) as [[d Hd]|He]; [by rewrite length_insert| |exact He].
  exfalso. apply Hne. apply LoadBytes_inv in Hd as (H8 & Hc & _); [|by rewrite length_insert].
  by eapply sealed_corrupt; [apply (sealed_file pay)|exact Hi|split].
Qed.

(** Truncation is detected without trusting the checksum: a file that lost more than
    the eight bytes of its checksum is rejected with an error. *)
Theorem saved_truncation_rejected s bytes n :
  state_ok s -> SaveBytes s = inr bytes -> u64_ok (N.of_nat (length bytes)) -> (n + 8 < length bytes)%nat ->
  exists e, LoadImpl ReadWhole (Some (take n bytes)) = LoadError e.
Proof.
  intros (pay & Hsave & Hdec)%SaveBytes_file Heq Hb Hn. rewrite Hsave in Heq. injection Heq as <-.
  assert (Hb' : u64_ok (N.of_nat (length (take n (file_of pay))))) by (rewrite length_take; unfold u64_ok in *; lia).
  destruct (LoadBytes_total (take n (file_of pay)) Hb') as [[d Hd]|He]; [exfalso|exact He].
  apply LoadBytes_inv in Hd as (_ & _ & r' & Hr & Hok); [|done].
  pose proof (length_file_of pay) as Hl.
  destruct (load_decoder_decodes _ _ Hdec) as [_ _ Hs].
  assert (Hsh : short (take n (file_of pay)) (file_header ++ pay)) by (apply short_take; lia).
  by rewrite (Hs _ _ _ _ _ (MakeReader_ready _ Hb') Hsh Hr) in Hok.
Qed.

(** The loader is total: every file that fits in memory is either loaded or rejected
    with an error; no read leaves the buffer and every loop is bounded. *)
Theorem load_total o file :
  (forall buf, file = Some buf -> u64_ok (N.of_nat (length buf))) ->
  (exists d, LoadImpl o file = Loaded d) \/ exists e, LoadImpl o file = LoadError e.
Proof.
  intros H. destruct file as [buf|]; cbn [LoadImpl]; [|eauto]. destruct o; [eauto|eauto| |by apply LoadBytes_total, H].
  destruct (length buf =? 0)%nat; eauto.
Qed.

(** Restart: loading the file that an engine saved, into any engine, succeeds and
    makes the registry the image of the saved one: the epoch and the policies are
    equal, every node, resource and composition is back under its id (resources
    with volatile evidence and compositions with authority demoted by [Load]), and
    no reservation is. *)
Theorem restart_restores cfg s :
  reachable cfg s -> state_ok (SaveState s) ->
  exists bytes, EngineSave s = Some bytes /\
    (u64_ok (N.of_nat (length bytes)) -> forall s0, exists s', EngineLoad ReadWhole (Some bytes) s0 = (None, s') /\
      epoch s' = epoch s /\ Impl.policies s' = Impl.policies s /\
      Impl.nodes s' = wire_node <$> Impl.nodes s /\
      Impl.resources s' = (fun r => load_resource (wire_resource r)) <$> Impl.resources s /\
      Impl.compositions s' = (fun c => load_composition (persist_composition c)) <$> Impl.compositions s /\
      Impl.reservations s' = ∅).
Proof.
  intros Hs (pay & Hsave & Hdec)%SaveBytes_file. exists (file_of pay). unfold EngineSave. rewrite Hsave. split; [done|].
  intros Hb s0. unfold EngineLoad, LoadImpl. rewrite (LoadBytes_file _ _ Hb Hdec). eexists. split; [done|].
  pose proof (Inv_reachable _ _ Hs) as [Hr Hc _ _]. pose proof (node_keys_reachable _ _ Hs) as Hn.
  split_and!; [done..| | | |done]; cbn -[insert_all].
  - by apply insert_all_map.
  - rewrite <-list_fmap_compose. apply insert_all_map; [done|]. intros r.
    unfold compose, load_resource. by destruct (Evidence.durable _).
  - rewrite <-list_fmap_compose. apply insert_all_map; [done|]. intros c.
    by destruct (load_composition_facts (persist_composition c)) as (Hid & _).
Qed.

(** ** Witnesses *)
Definition active_file : list byte := default [] (EngineSave s_active).
Lemma active_state_ok : state_ok (SaveState s_active).
Proof. decide_ok. Qed.
Lemma active_file_saved : SaveBytes (SaveState s_active) = inr active_file.
Proof. vm_compute. reflexivity. Qed.
Lemma active_file_fits : u64_ok (N.of_nat (length active_file)).
Proof. vm_compute. reflexivity. Qed.

Lemma save_load_roundtrip_witness :
  exists bytes, SaveBytes (SaveState s_active) = inr bytes /\
    (u64_ok (N.of_nat (length bytes)) -> LoadImpl ReadWhole (Some bytes) = Loaded (persist_state (SaveState s_active))).
Proof. apply (save_load_roundtrip (SaveState s_active)). exact active_state_ok. Defined.

Lemma saved_corruption_rejected_witness :
  exists e, LoadImpl ReadWhole (Some (<[100%nat := x2a]> active_file)) = LoadError e.
Proof.
  apply (saved_corruption_rejected (SaveState s_active) active_file 100 x00 x2a).
  - exact active_state_ok.
  - exact active_file_saved.
  - exact active_file_fits.
  - vm_compute. reflexivity.
  - discriminate.
Defined.

Lemma saved_truncation_rejected_witness :
  exists e, LoadImpl ReadWhole (Some (take 300 active_file)) = LoadError e.
Proof.
  apply (saved_truncation_rejected (SaveState s_active) active_file 300).
  - exact active_state_ok.
  - exact active_file_saved.
  - exact active_file_fits.
  - apply Nat.ltb_lt. vm_compute. reflexivity.
Defined.

Lemma load_total_witness :
  (exists d, LoadImpl ReadWhole (Some [x44; x42]) = Loaded d) \/ exists e, LoadImpl ReadWhole (Some [x44; x42]) = LoadError e.
Proof. apply (load_total ReadWhole (Some [x44; x42])). intros buf [= <-]. vm_compute. reflexivity. Defined.

Lemma restart_restores_witness :
  exists bytes, EngineSave s_active = Some bytes /\
    (u64_ok (N.of_nat (length bytes)) -> forall s0, exists s', EngineLoad ReadWhole (Some bytes) s0 = (None, s') /\
      epoch s' = epoch s_active /\ Impl.policies s' = Impl.policies s_active /\
      Impl.nodes s' = wire_node <$> Impl.nodes s_active /\
      Impl.resources s' = (fun r => load_resource (wire_resource r)) <$> Impl.resources s_active /\
      Impl.compositions s' = (fun c => load_composition (persist_composition c)) <$> Impl.compositions s_active /\
      Impl.reservations s' = ∅).
Proof. apply (restart_restores cfg s_active s_active_reachable). exact active_state_ok. Defined.
