(* ===== verification/PersistLimits.v ===== *)
(** * States that are saved but not loaded

    The loader refuses values that the writer accepts: an enumeration constant with
    code 0, which the engine itself stores.  [refuses] is the negative counterpart of
    [transfers]: what the writer appends makes the decoder return false, whatever
    follows. *)

From S2P Require Import Prelude Bytes Enums Ids Double Model Codec Wire Planner Engine Persistence.
From S2P Require Import Synthetic Lifecycle Compose Contract Ledger Scenario PersistProps.

(** ** Decoders that return false *)
Definition refuses {T A : Type} (w : W) (m : Dec T A) (t : T) : Prop :=
  exists bs, encodes w bs /\ forall r rest, ready r (bs ++ rest) -> exists st, m (r, t) = (Fail, st).

Lemma encodes_seq w1 w2 b1 b2 : encodes w1 b1 -> encodes w2 b2 -> encodes (w1 ;>> w2) (b1 ++ b2).
Proof. intros H1 H2 buf. unfold Wr.seq. by rewrite H1, H2, app_assoc. Qed.

Section rules.
Context {T : Type}.
Implicit Types t : T.

Lemma rf_seq {A B : Type} w1 w2 (m : Dec T A) (m' : Dec T B) t a t1 :
  transfers w1 m t a t1 -> refuses w2 m' t1 -> refuses (w1 ;>> w2) (m;; m') t.
Proof.
  intros (b1 & He1 & Hd) (b2 & He2 & Hf). exists (b1 ++ b2). split; [by apply encodes_seq|].
  intros r rest Hr. rewrite <-app_assoc in Hr. destruct (decodes_back _ _ _ _ _ Hd _ _ Hr) as (r' & E & Hr').
  unfold mbind, Dec_bind. rewrite E. by apply (Hf r' rest).
Qed.
Lemma rf_stop {A B : Type} w1 w2 (m : Dec T A) (m' : Dec T B) t b2 :
  refuses w1 m t -> encodes w2 b2 -> refuses (w1 ;>> w2) (m;; m') t.
Proof.
  intros (b1 & He1 & Hf) He2. exists (b1 ++ b2). split; [by apply encodes_seq|].
  intros r rest Hr. rewrite <-app_assoc in Hr. destruct (Hf r _ Hr) as [st E]. exists st. unfold mbind, Dec_bind. by rewrite E.
Qed.
(** A code that is not valid. *)
Lemma rf_store_enum {E : Type} `{EnumLaws E} (p : T -> E) `{!Setter p} (d e : E) t :
  ValidEnum E (enum_code e) = false -> refuses (Wr.Enum e) (store_enum p d) t.
Proof.
  intros He. destruct (U32_carries (enum_code e) (enum_code_u32 e)) as (bs & Hw & Hr). exists bs. split; [exact Hw|].
  intros r rest Hready. destruct (reads_back _ _ _ Hr r rest Hready) as (r' & E1 & _). eexists.
  unfold store_enum, read_enum, mbind, Dec_bind, rd. rewrite E1, He. reflexivity.
Qed.
Lemma rf_push {A : Type} (p : T -> list A) `{!Setter p} w (m : Dec T A) t : refuses w m t -> refuses w (push p m) t.
Proof.
  intros (bs & He & Hf). exists bs. split; [done|]. intros r rest Hr. destruct (Hf r rest Hr) as [st E]. exists st.
  unfold push, mbind, Dec_bind. by rewrite E.
Qed.
Lemma rf_local {U : Type} (d : U) w (m : Dec U unit) t : refuses w m d -> refuses w (local (T := T) d m) t.
Proof.
  intros (bs & He & Hf). exists bs. split; [done|]. intros r rest Hr. destruct (Hf r rest Hr) as [[r' u] E]. exists (r', t).
  unfold local. by rewrite E.
Qed.
(** A loop over elements of which the bad ones are refused. *)
Lemma each_encodes {A : Type} (f : A -> W) l : Forall (fun x => exists bs, encodes (f x) bs) l -> exists bs, encodes (Wr.each f l) bs.
Proof.
  induction 1 as [|x l [b1 H1] _ [b2 H2]]; [exists []; intros buf; by rewrite app_nil_r|].
  exists (b1 ++ b2). by apply (encodes_seq (f x) (Wr.each f l)).
Qed.
Lemma rf_loop {A : Type} (f : A -> W) (body : Dec T unit) (upd : A -> T -> T) (bad : A -> bool) l t :
  Forall (fun x => if bad x then forall t, refuses (f x) body t else forall t, transfers (f x) body t tt (upd x t)) l ->
  existsb bad l = true -> refuses (Wr.each f l) (loop (length l) body) t.
Proof.
  intros Hl. revert t. induction Hl as [|x l Hx Hl IH]; intros t Hbad; [done|]. cbn [existsb] in Hbad. cbn [Wr.each loop length].
  destruct (bad x); [|by eapply rf_seq; [apply Hx|apply IH]].
  destruct (each_encodes f l) as [bs Hbs]; [|by eapply rf_stop; [apply Hx|exact Hbs]].
  eapply Forall_impl; [exact Hl|]. intros y. cbn. destruct (bad y); intros H; destruct (H t) as (b & Hb & _); by exists b.
Qed.
End rules.

(** ** The sections of the loader *)
Lemma load_section_passes o e body k w t t' :
  transfers w (counted body) t tt t' ->
  exists bs, encodes w bs /\ forall r rest, ready r (bs ++ rest) -> exists r', load_section o e body k (r, t) = k (r', t') /\ ready r' rest.
Proof.
  intros (bs & He & Hd). exists bs. split; [done|]. intros r rest Hr. destruct (decodes_back _ _ _ _ _ Hd r rest Hr) as (r' & E & Hr').
  exists r'. split; [|done]. revert E. unfold counted, load_section, mbind, Dec_bind. destruct (rd Rd.U32 (r, t)) as [[n| |] st]; [|done..].
  destruct (kWireMaxCount <? n); [done|]. by destruct (loop (N.to_nat n) body st) as [[[]| |] st2]; intros [= ->].
Qed.
Lemma load_section_refuses {A : Type} o e body k (f : A -> W) l t :
  count_ok l -> refuses (Wr.each f l) (loop (length l) body) t ->
  exists bs, encodes (Wr.counted f l) bs /\ forall r rest, ready r (bs ++ rest) -> load_section o e body k (r, t) = LoadError e.
Proof.
  intros Hc (bs & He & Hf). unfold count_ok, kWireMaxCount in Hc.
  assert (Hu : u32_ok (N.of_nat (length l))) by (unfold u32_ok; lia).
  destruct (U32_carries _ Hu) as (b4 & Hw & Hr4). exists (b4 ++ bs).
  split; [unfold Wr.counted; rewrite wrap32_small by done; by apply encodes_seq|].
  intros r rest Hr. rewrite <-app_assoc in Hr. destruct (reads_back _ _ _ Hr4 r _ Hr) as (r' & E & Hr').
  unfold load_section, rd. rewrite E. rewrite (proj2 (N.ltb_ge _ _)) by (unfold kWireMaxCount; lia).
  rewrite Nat2N.id. destruct (Hf r' rest Hr') as [st Est]. unfold load_section. by rewrite Est.
Qed.

(** ** A resource of a dead worker *)
Definition mark_dead (r : Resource.t) : Resource.t :=
  r <| Resource.evidence ::= require_revalidation |> <| Resource.health := ResourceHealth.UNKNOWN |>.
Lemma dead_refused r : resource_ok r -> refuses (WriteResource (mark_dead r)) ReadResource Resource.dflt.
Proof.
  intros Hok. assert (He : Wire.evidence_ok (require_revalidation (Resource.evidence r))).
  { destruct Hok as (_ & _ & _ & _ & _ & _ & _ & _ & _ & _ & _ & _ & He & _). unfold Wire.evidence_ok in *. destruct_and? He. by split_and!. }
  unfold resource_ok, all_ok in Hok. destruct_and? Hok. unfold WriteResource, ReadResource.
  do 7 (eapply rf_seq; [cbn; transfer_step|]).
  assert (Htail : exists t1 t2, transfers (Wr.Enum (Resource.readiness (mark_dead r)) ;>> Wr.Enum (Resource.reachability (mark_dead r)) ;>>
    WriteCapacity (Resource.capacity (mark_dead r)) ;>> EncodeLocality persist_too_long (Resource.locality (mark_dead r)) ;>>
    EncodeFailureDomain persist_too_long (Resource.failure_domain (mark_dead r)) ;>>
    EncodeEvidence persist_too_long (Resource.evidence (mark_dead r)) ;>>
    Wr.counted (EncodeCapability persist_too_long) (Resource.capabilities (mark_dead r)) ;>>
    Wr.counted (EncodeCompatibility persist_too_long) (Resource.compatibility (mark_dead r)))
    (store_enum Resource.readiness Readiness.UNKNOWN;; store_enum Resource.reachability Reachability.UNKNOWN;;
     zoom Resource.capacity DecodeCapacity;; zoom Resource.locality DecodeLocality;;
     zoom Resource.failure_domain DecodeFailureDomain;; zoom Resource.evidence ReadResourceEvidence;;
     counted (push Resource.capabilities (local Capability.dflt ReadCapability));;
     counted (push Resource.compatibility (local Compatibility.dflt ReadCompatibility));; return_ok) t1 tt t2).
  { exists Resource.dflt. eexists. change (Resource.evidence (mark_dead r)) with (require_revalidation (Resource.evidence r)).
    change (Resource.readiness (mark_dead r)) with (Resource.readiness r). change (Resource.reachability (mark_dead r)) with (Resource.reachability r).
    change (Resource.capacity (mark_dead r)) with (Resource.capacity r). change (Resource.locality (mark_dead r)) with (Resource.locality r).
    change (Resource.failure_domain (mark_dead r)) with (Resource.failure_domain r).
    change (Resource.capabilities (mark_dead r)) with (Resource.capabilities r). change (Resource.compatibility (mark_dead r)) with (Resource.compatibility r).
    transfer. }
  destruct Htail as (t1 & t2 & bs & Hbs & _). eapply rf_stop; [by apply rf_store_enum|exact Hbs].
Qed.

(** ** The state that is saved next *)
Definition dead_state (owner : string) (d : DurableState.t) (comps : list Composition.t) : DurableState.t :=
  d <| DurableState.resources ::= fmap (fun r => if owned_by owner r then mark_dead r else r) |>
    <| DurableState.compositions := comps |>.

Lemma each_fmap {A B : Type} (f : A -> B) (g : B -> W) l buf : Wr.each g (f <$> l) buf = Wr.each (fun x => g (f x)) l buf.
Proof. revert buf. induction l as [|x l IH]; intros buf; [done|]. cbn. unfold Wr.seq. by destruct (g (f x) buf); [|apply IH]. Qed.
Lemma counted_fmap {A B : Type} (f : A -> B) (g : B -> W) l bs :
  encodes (Wr.counted (fun x => g (f x)) l) bs -> encodes (Wr.counted g (f <$> l)) bs.
Proof.
  intros H buf. rewrite <-(H buf). unfold Wr.counted, Wr.seq. rewrite length_fmap. destruct (Wr.U32 _ buf); [done|]. apply each_fmap.
Qed.

Lemma nodes_transfer (l : list Node.t) t :
  all_ok node_ok l -> DurableState.nodes t = [] ->
  transfers (Wr.counted WriteNode l) (counted (push DurableState.nodes (local Node.dflt ReadNode))) t tt
    (set_field DurableState.nodes (fun _ => wire_node <$> l) t).
Proof.
  intros [Hc Hn] Ht. eapply (tr_counted_push_map DurableState.nodes wire_node); [eauto with safe|done|done|].
  eapply Forall_impl; [exact Hn|]. intros n Hok t'. by apply tr_local, tr_persist_node.
Qed.
Lemma dead_resources_refused owner l t :
  Forall resource_ok l -> existsb (owned_by owner) l = true ->
  refuses (Wr.each (fun r => WriteResource (if owned_by owner r then mark_dead r else r)) l)
    (loop (length l) (push DurableState.resources (local Resource.dflt ReadResource))) t.
Proof.
  intros Hr. apply (rf_loop _ _ (fun r => set_field DurableState.resources (fun l => l ++ [wire_resource r]))).
  eapply Forall_impl; [exact Hr|]. intros r Hok. destruct (owned_by owner r); intros t'.
  - by apply rf_push, rf_local, dead_refused.
  - by apply tr_push, tr_local, tr_persist_resource.
Qed.
Lemma policies_encode (m : gmap PolicyId PolicyGeneration) :
  all_ok (fun kv : PolicyId * PolicyGeneration => id_ok kv.1 /\ id_ok kv.2) (policy_entries m) ->
  exists bs, encodes (Wr.counted (fun kv => Wr.Id kv.1 ;>> Wr.Id kv.2) (policy_entries m)) bs.
Proof.
  intros [Hc Hp].
  assert (T : transfers (Wr.counted (fun kv => Wr.Id kv.1 ;>> Wr.Id kv.2) (policy_entries m))
    (counted (store_entry DurableState.policies Rd.Id Rd.Id)) DurableState.dflt tt (set_field DurableState.policies (fun _ => m) DurableState.dflt)).
  { eapply (tr_counted_map DurableState.policies Wr.Id Wr.Id); [eauto with safe..|done|apply isort_permutation|done|].
    eapply Forall_impl; [exact Hp|]. intros kv [? ?]. split; by apply Id_carries. }
  destruct T as (bs & W & _). by exists bs.
Qed.
Lemma compositions_encode l : all_ok persistable l -> exists bs, encodes (Wr.counted WriteComposition l) bs.
Proof.
  intros [_ Hc]. destruct (each_encodes WriteComposition l) as [bs Hbs].
  { eapply Forall_impl; [exact Hc|]. intros c (b & W & _)%tr_persist_composition. by exists b. }
  eexists. apply encodes_seq; [|exact Hbs]. intros buf. unfold Wr.U32. by rewrite PutU32_eq.
Qed.

(** The layout of its file, and what the loader makes of the payload. *)
Lemma dead_payload owner d comps :
  state_ok d -> all_ok persistable comps -> existsb (owned_by owner) (DurableState.resources d) = true ->
  exists pay, SaveBytes (dead_state owner d comps) = inr (file_of pay) /\
    forall r rest, ready r (pay ++ rest) -> load_payload r DurableState.dflt = LoadError "malformed resource".
Proof.
  intros (He & Hn & [Hcr Hr] & Hp & _) Hc Hbad. set (f := fun r => if owned_by owner r then mark_dead r else r).
  destruct (Id_carries _ He) as (b1 & W1 & R1). destruct (policies_encode _ Hp) as (b4 & W4). destruct (compositions_encode _ Hc) as (b5 & W5).
  set (t1 := set_field DurableState.epoch (fun _ => DurableState.epoch d) DurableState.dflt).
  pose proof (nodes_transfer _ t1 Hn eq_refl) as T2.
  set (t2 := set_field DurableState.nodes (fun _ => wire_node <$> DurableState.nodes d) t1) in T2.
  pose proof (dead_resources_refused owner _ t2 Hr Hbad) as T3.
  destruct (load_section_refuses "resource count overflow" "malformed resource" (push DurableState.resources (local Resource.dflt ReadResource))
    (load_section "policy count overflow" "" (store_entry DurableState.policies Rd.Id Rd.Id)
      (load_section "composition count overflow" "malformed composition" (push DurableState.compositions (local Composition.dflt ReadComposition))
        (fun '(r, out) => if Rd.ok r then Loaded out else LoadError "truncated payload"))) _ _ t2 Hcr T3) as (b3 & W3 & R3).
  apply counted_fmap in W3. edestruct load_section_passes as (b2 & W2 & R2); [exact T2|].
  exists (b1 ++ b2 ++ b3 ++ b4 ++ b5). split.
  - pose proof (encodes_seq _ _ _ _ W1 (encodes_seq _ _ _ _ W2 (encodes_seq _ _ _ _ W3 (encodes_seq _ _ _ _ W4 W5)))) as Hall.
    unfold SaveBytes, WriteState, Wr.seq at 1 2. unfold Wr.U32 at 1 2. rewrite !PutU32_eq.
    rewrite (Hall _). by rewrite PutU64_eq.
  - intros r rest Hrd. rewrite <-!app_assoc in Hrd. destruct (reads_back _ _ _ R1 r _ Hrd) as (r1 & E1 & Hr1).
    unfold load_payload, store, mbind, Dec_bind, rd at 1. rewrite E1. cbn [assign].
    destruct (R2 r1 _ Hr1) as (r2 & E2 & Hr2). rewrite E2. by apply (R3 r2 (b4 ++ b5 ++ rest)).
Qed.

(** What [MarkEvidenceRevalidationRequired] makes of the durable state. *)
Lemma dead_save owner s :
  exists comps, SaveState (MarkEvidenceRevalidationRequired owner s) = dead_state (ToString owner) (SaveState s) comps /\
    (all_ok persistable (DurableState.compositions (SaveState s)) -> all_ok persistable comps).
Proof.
  eexists. split.
  - unfold SaveState, MarkEvidenceRevalidationRequired. cbn. rewrite !map_to_list_fmap, <-!list_fmap_compose. cbn. unfold dead_state. cbn.
    f_equal. rewrite <-list_fmap_compose. reflexivity.
  - cbn. intros [Hc Hp]. split.
    + unfold count_ok in *. by rewrite length_fmap in *.
    + rewrite Forall_fmap in *. eapply Forall_impl; [exact Hp|]. intros [id c]. cbn. destruct (_ && _); [|done].
      unfold persistable, composition_ok. cbn. intros H. destruct_and? H. by split_and!.
Qed.

(** C37: The death of a worker makes the durable state unloadable: take any state that can
    be encoded, so that its file would be loaded, and in which the dead worker owns at
    least one registered resource (by the owner or the provenance of its evidence).
    [MarkEvidenceRevalidationRequired] sets the health of its resources to UNKNOWN; the state can still be
    saved, but UNKNOWN has code 0, which the loader rejects, so the file that a save
    writes right after it, before anything is published again, is refused as
    "malformed resource" and the engine that loads it stays as it was. *)
Theorem worker_death_makes_state_unloadable s owner rid r :
  state_ok (SaveState s) -> Impl.resources s !! rid = Some r -> owned_by (ToString owner) r = true ->
  exists bytes, EngineSave (MarkEvidenceRevalidationRequired owner s) = Some bytes /\
    (u64_ok (N.of_nat (length bytes)) -> forall s0,
      EngineLoad ReadWhole (Some bytes) s0 = (Some "malformed resource", s0)).
Proof.
  intros Hok Hr Ho. destruct (dead_save owner s) as (comps & Hs & Hc).
  assert (Hbad : existsb (owned_by (ToString owner)) (DurableState.resources (SaveState s)) = true).
  { apply existsb_exists. exists r. split; [|exact Ho]. apply list_elem_of_In, list_elem_of_fmap. exists (rid, r).
    split; [reflexivity|]. by apply elem_of_map_to_list. }
  destruct (dead_payload (ToString owner) (SaveState s) comps Hok (Hc (proj2 (proj2 (proj2 (proj2 Hok))))) Hbad) as (pay & Hsave & Hload).
  exists (file_of pay). unfold EngineSave. rewrite Hs, Hsave. split; [done|]. intros Hu s0.
  destruct (LoadBytes_payload pay Hu) as (rd0 & Hrd & Hl). unfold EngineLoad, LoadImpl. rewrite Hl. by rewrite (Hload _ _ Hrd).
Qed.

(** An engine in which the worker with boot id 9 has published an accelerator. *)
Definition worker_gpu : Resource.t :=
  Synthetic.gpu2 <| Resource.id := Id 900 |> <| Resource.evidence ::= fun e => e <| Evidence.owner := "9" |> |>.
Definition s_worker : Impl.t := run (ORegisterResource worker_gpu) (FabricEngine cfg).
Lemma worker_death_makes_state_unloadable_witness :
  state_ok (SaveState s_worker) /\
  exists bytes, EngineSave (MarkEvidenceRevalidationRequired (Id 9) s_worker) = Some bytes /\
    EngineLoad ReadWhole (Some bytes) (FabricEngine cfg) = (Some "malformed resource", FabricEngine cfg).
Proof.
  assert (Hok : state_ok (SaveState s_worker)) by decide_ok. split; [exact Hok|].
  destruct (worker_death_makes_state_unloadable s_worker (Id 9) (Id 900) worker_gpu Hok) as (bytes & Hs & Hl);
    [vm_compute; reflexivity|vm_compute; reflexivity|].
  exists bytes. split; [exact Hs|]. apply Hl.
  assert (Hb : exists b, EngineSave (MarkEvidenceRevalidationRequired (Id 9) s_worker) = Some b /\ u64_ok (N.of_nat (length b)))
    by (eexists; split; [vm_compute; reflexivity|vm_compute; reflexivity]).
  destruct Hb as (b & Hb & Hu). rewrite Hs in Hb. injection Hb as ->. exact Hu.
Defined.
