(* ===== verification/StorageProps.v ===== *)
(** * Saving to disk

    What [SaveImpl] leaves on the disk: with no failure exactly the encoded
    state, and whatever fails and wherever the process dies, a state file that
    loads as the old state, as the new state or not at all, unless zeros that an
    unchecked short read left in it happen to satisfy the checksum.  That it may not load
    at all, while the old state was loadable, is shown by two executions. *)

From S2P Require Import Prelude Effects Bytes Enums Ids Double Model Codec Wire Planner Engine Persistence Storage.
From S2P Require Import Synthetic Lifecycle Compose Contract Ledger Scenario PersistProps.

(** ** Every way a save can end *)
Section runs.
Context (win32 : bool) (what path : string).

Lemma win_remove_runs p fs r fs' :
  runs fs_step (win_remove win32 p) fs r fs' -> fs' = delete p fs \/ fs' = fs.
Proof.
  unfold win_remove. destruct win32; intros H.
  - apply runs_inv in H as [[_ ->]|(x & fs1 & Hs & H)]; [auto|]. apply runs_inv in H as [[_ ->]|[_ ->]]; exact Hs.
  - apply runs_inv in H as [[_ ->]|[_ ->]]; auto.
Qed.

Lemma copy_back_runs bytes fs0 fs r fs' :
  tmp_written path bytes fs0 fs ->
  runs fs_step (b ← call (ReadFile (tmp_of path));
    match b with
    | None => mret (Some what)
    | Some b => call (WriteClose path b);; win_remove win32 (tmp_of path);; mret None
    end) fs r fs' -> file_outcome path bytes fs0 fs'.
Proof.
  intros Hw H. apply runs_inv in H as [[_ ->]|(b & fs1 & [-> Hb] & H)]; [apply Hw|].
  rewrite (proj2 Hw) in Hb. destruct b as [b|]; [|apply runs_inv in H as [[_ ->]|[_ ->]]; apply Hw].
  destruct Hb as [[=]|[m [= ->]]].
  apply runs_inv in H as [[_ ->]|(good & fs2 & Hs & H)]; [apply Hw|].
  assert (Hw2 : tmp_written path bytes fs0 fs2).
  { destruct good; cbn in Hs; [subst fs2|destruct Hs as [n ->]; by apply written_prefix].
    rewrite <-(take_ge (read_into m bytes) (length (read_into m bytes))) by done. by apply written_prefix. }
  cbn in H. apply (runs_bind_inv fs_step (win_remove win32 (tmp_of path))) in H as [[H _]|([] & fs3 & H & H2)];
    apply win_remove_runs in H.
  - destruct H as [-> | ->]; [apply outcome_tmp_delete|]; apply Hw2.
  - apply runs_inv in H2 as [[_ ->]|[_ ->]]; destruct H as [-> | ->]; try apply outcome_tmp_delete; apply Hw2.
Qed.

Lemma SaveImpl_runs s bytes fs r fs' :
  SaveBytes s = inr bytes -> runs fs_step (SaveImpl win32 what s path) fs r fs' -> file_outcome path bytes fs fs'.
Proof.
  intros Hb H. unfold SaveImpl in H. rewrite Hb in H. cbv zeta in H.
  assert (Hid : file_outcome path bytes fs fs) by (split; [by left|done]).
  apply runs_inv in H as [[_ ->]|(ok & fs1 & Hs & H)]; [done|]. destruct ok; cbn in Hs, H; subst fs1.
  2: by apply runs_inv in H as [[_ ->]|[_ ->]].
  apply runs_inv in H as [[_ ->]|(good & fs2 & Hs & H)]; [by apply outcome_tmp|].
  destruct good; cbn in Hs, H.
  2: { destruct Hs as [n ->]. apply runs_inv in H as [[_ ->]|[_ ->]]; by repeat apply outcome_tmp. }
  subst fs2. set (fs2 := <[tmp_of path := bytes]> (<[tmp_of path := []]> fs)) in *.
  assert (Hw : tmp_written path bytes fs fs2) by (split; [by repeat apply outcome_tmp|apply lookup_insert_eq]).
  apply (runs_bind_inv fs_step (win_remove win32 path)) in H as [[H _]|([] & fs3 & H & H2)]; apply win_remove_runs in H.
  { destruct H as [-> | ->]; [apply written_removed|]; apply Hw. }
  assert (Hw3 : tmp_written path bytes fs fs3) by (destruct H as [-> | ->]; [by apply written_removed|done]).
  apply runs_inv in H2 as [[_ ->]|(ok & fs4 & Hs & H2)]; [apply Hw3|]. destruct ok; cbn in Hs, H2; subst fs4.
  2: { apply runs_inv in H2 as [[_ ->]|[_ ->]]; apply Hw3. }
  eapply copy_back_runs; [|exact H2]. by apply (written_prefix path bytes fs fs3 0 0).
Qed.
End runs.

(** A prefix of a saved file is rejected or, when it lost no more than the
    checksum, loads as the saved state. *)
Lemma prefix_loads pay d n :
  u64_ok (N.of_nat (length (file_of pay))) -> decodes load_body DurableState.dflt pay tt d ->
  (exists e, LoadBytes (take n (file_of pay)) = LoadError e) \/ LoadBytes (take n (file_of pay)) = Loaded d.
Proof.
  intros Hb Hdec. pose proof (length_file_of pay) as Hl.
  assert (Hb' : u64_ok (N.of_nat (length (take n (file_of pay))))) by (rewrite length_take; unfold u64_ok in *; lia).
  destruct (LoadBytes_total _ Hb') as [[d' Hd]|He]; [right|by left]. rewrite Hd. f_equal.
  apply LoadBytes_inv in Hd as (_ & _ & r' & Hr & Hok); [|done].
  destruct (load_decoder_decodes _ _ Hdec) as [_ Hfull Hs]. destruct (decide (n + 8 < length (file_of pay))%nat) as [Hn|Hn].
  - assert (Hsh : short (take n (file_of pay)) (file_header ++ pay)) by (apply short_take; lia).
    by rewrite (Hs _ _ _ _ _ (MakeReader_ready _ Hb') Hsh Hr) in Hok.
  - pose proof (MakeReader_ready _ Hb') as Hready.
    assert (Htake : take n (file_of pay) = (file_header ++ pay) ++ take (n - length (file_header ++ pay)) (le_bytes 8 (Fnv (file_header ++ pay)))).
    { unfold file_of. rewrite take_app. f_equal. apply take_ge. lia. }
    rewrite Htake in Hready at 2. destruct (Hfull _ _ Hready) as (r2 & Hr2 & _). rewrite Hr in Hr2. by injection Hr2.
Qed.

(** What the copy leaves is a prefix of the file, or a beginning of it and zeros. *)
Lemma read_back_cases bytes n k :
  (exists m, take k (read_into n bytes) = take m bytes) \/
  exists m j, take k (read_into n bytes) = take m bytes ++ replicate (S j) x00 /\
    (length (take m bytes ++ replicate (S j) x00) <= length bytes)%nat /\ take m bytes ++ replicate (S j) x00 <> bytes.
Proof.
  assert (Htake : take k (read_into n bytes) = take (k `min` n) bytes ++ replicate ((k - n) `min` (length bytes - n)) x00).
  { unfold read_into. rewrite take_app, take_take, length_take, take_replicate.
    destruct (decide (n <= length bytes)%nat); [do 3 f_equal; lia|]. f_equal. replace (length bytes - n)%nat with 0%nat by lia. by rewrite !Nat.min_0_r. }
  rewrite Htake. destruct ((k - n) `min` (length bytes - n))%nat as [|j] eqn:Hj.
  - left. exists (k `min` n)%nat. by rewrite app_nil_r.
  - destruct (List.list_eq_dec Byte.byte_eq_dec (take (k `min` n) bytes ++ replicate (S j) x00) bytes) as [He|Hne].
    + left. exists (length bytes). by rewrite He, firstn_all.
    + right. exists (k `min` n)%nat, j. split_and!; [done| |done]. rewrite length_app, length_take, length_replicate. lia.
Qed.
Lemma sealed_or_refused buf :
  u64_ok (N.of_nat (length buf)) -> (exists e, LoadBytes buf = LoadError e) \/ sealed buf.
Proof.
  intros Hb. destruct (LoadBytes_total buf Hb) as [[d Hd]|He]; [right|by left].
  destruct (LoadBytes_inv buf d Hb Hd) as (H1 & H2 & _). by split.
Qed.

(** A save that is not disturbed puts the state on the disk: the call returns true,
    the state file holds exactly the encoded state, the temporary file is gone, and
    no other file has changed, so that loading the path restores the state. *)
Lemma save_writes_state what s path fs :
  state_ok s ->
  exists bytes, SaveBytes s = inr bytes /\
    eval_prog fs_eval (SaveImpl true what s path) fs = (None, delete (tmp_of path) (<[path := bytes]> fs)) /\
    (u64_ok (N.of_nat (length bytes)) ->
     LoadFile path (eval_prog fs_eval (SaveImpl true what s path) fs).2 = Loaded (persist_state s)).
Proof.
  intros (pay & Hsave & Hd)%SaveBytes_file. exists (file_of pay). split; [done|].
  assert (Heq : eval_prog fs_eval (SaveImpl true what s path) fs = (None, delete (tmp_of path) (<[path := file_of pay]> fs))).
  { pose proof (tmp_of_ne path) as Hne. unfold SaveImpl. rewrite Hsave. cbn.
    rewrite lookup_insert_ne, lookup_delete_ne, lookup_insert_eq by done. cbn. f_equal.
    apply map_eq. intros p. rewrite !lookup_delete. case_decide; [done|].
    rewrite !lookup_insert, lookup_delete, !lookup_insert. by repeat case_decide. }
  split; [done|]. intros Hb. rewrite Heq. unfold LoadFile. cbn [snd].
  rewrite lookup_delete_ne, lookup_insert_eq by apply tmp_of_ne. by apply LoadBytes_file.
Qed.

(** ** Claims *)

(** C33: What a disturbed save can leave: whichever stream operations fail, however few
    bytes a write or the read-back of the temporary file transfers, and wherever the
    process dies, the state file afterwards loads exactly as before the call, or as the
    state being saved, or is refused with an error; or, because the read-back is not
    checked, it is a beginning of the new file continued with zeros, different from it,
    whose last eight bytes happen to be the checksum of the rest.  No file but it and
    the temporary file is touched. *)
Theorem save_crash_safe win32 what s bytes path fs r fs' :
  state_ok s -> SaveBytes s = inr bytes -> u64_ok (N.of_nat (length bytes)) ->
  runs fs_step (SaveImpl win32 what s path) fs r fs' ->
  (LoadFile path fs' = LoadFile path fs \/ LoadFile path fs' = Loaded (persist_state s) \/
   (exists e, LoadFile path fs' = LoadError e) \/
   exists n j, let buf := take n bytes ++ replicate (S j) x00 in
     fs' !! path = Some buf /\ (length buf <= length bytes)%nat /\ buf <> bytes /\ sealed buf) /\
  forall p, p <> path -> p <> tmp_of path -> fs' !! p = fs !! p.
Proof.
  intros Hok Hsave Hb Hr. destruct (SaveImpl_runs _ _ _ _ _ _ _ _ Hsave Hr) as [Hf Hrest]. split; [|exact Hrest].
  destruct (SaveBytes_file s Hok) as (pay & Hs & Hd). rewrite Hs in Hsave. injection Hsave as <-.
  unfold LoadFile. destruct Hf as [-> |[-> |(n & k & ->)]]; [by left|right; right; left; by eexists|].
  cbn [LoadImpl]. destruct (read_back_cases (file_of pay) n k) as [[m ->]|(m & j & -> & Hl & Hne)].
  - destruct (prefix_loads pay _ m Hb Hd) as [[e He]|He]; [right; right; left; by exists e|right; by left].
  - destruct (sealed_or_refused (take m (file_of pay) ++ replicate (S j) x00)) as [He|Hc]; [unfold u64_ok in *; lia|by right; right; left|].
    right; right; right. by exists m, j.
Qed.

(** ** The replacement is not atomic *)
Section interrupted.
Context (win32 : bool) (what : string) (s : DurableState.t) (bytes : list byte) (path : string) (fs : Fs).
Context (Hsave : SaveBytes s = inr bytes).

(** The files once the temporary file is written and the state file truncated. *)
Definition truncated : Fs :=
  let fs1 := <[tmp_of path := bytes]> (<[tmp_of path := []]> fs) in
  <[path := []]> (if win32 then delete path fs1 else fs1).

Lemma truncated_tmp : truncated !! tmp_of path = Some bytes.
Proof.
  unfold truncated. pose proof (tmp_of_ne path). rewrite lookup_insert_ne by done.
  destruct win32; [rewrite lookup_delete_ne by done|]; apply lookup_insert_eq.
Qed.
Lemma truncated_unloadable : LoadFile path truncated = LoadError "empty/truncated file".
Proof. unfold LoadFile, truncated. by rewrite lookup_insert_eq. Qed.

(** Every save passes through that moment. *)
Lemma runs_truncated r fs' :
  runs fs_step (b ← call (ReadFile (tmp_of path));
    match b with
    | None => mret (Some what)
    | Some b => call (WriteClose path b);; win_remove win32 (tmp_of path);; mret None
    end) truncated r fs' ->
  runs fs_step (SaveImpl win32 what s path) fs r fs'.
Proof.
  intros H. unfold SaveImpl. rewrite Hsave. cbv zeta.
  eapply (runs_call fs_step bool (OpenTrunc (tmp_of path)) _ _ true); [done|].
  eapply (runs_call fs_step bool (WriteClose (tmp_of path) bytes) _ _ true); [done|].
  unfold win_remove at 1. unfold truncated in H. destruct win32.
  - eapply (runs_call fs_step unit (Remove path) _ _ tt); [by left|].
    by eapply (runs_call fs_step bool (OpenTrunc path) _ _ true).
  - by eapply (runs_call fs_step bool (OpenTrunc path) _ _ true).
Qed.
End interrupted.

(** The state file is not replaced atomically: whatever state is saved over whatever
    files, the process can die in a moment in which the state file is empty and
    refused by the loader (the comment in the source says the file is moved), and
    the call can return true although the final write transferred nothing. *)
Theorem save_not_atomic win32 what s bytes path fs :
  SaveBytes s = inr bytes ->
  (exists fs', runs fs_step (SaveImpl win32 what s path) fs None fs' /\
     LoadFile path fs' = LoadError "empty/truncated file") /\
  (exists fs', runs fs_step (SaveImpl win32 what s path) fs (Some None) fs' /\
     LoadFile path fs' = LoadError "empty/truncated file").
Proof.
  intros Hsave. pose proof (truncated_tmp win32 bytes path fs) as Ht. set (fs1 := truncated win32 bytes path fs) in *. split.
  - exists fs1. split; [|apply truncated_unloadable]. by apply (runs_truncated _ _ _ bytes); [|constructor].
  - assert (Hr : forall fs2 : Fs, runs fs_step (win_remove win32 (tmp_of path);; mret (None : option string)) fs2 (Some None) fs2).
    { intros fs2. unfold win_remove. destruct win32; [|constructor].
      eapply (runs_call fs_step unit (Remove (tmp_of path)) _ _ tt); [by right|constructor]. }
    exists (<[path := take 0 bytes]> fs1). split.
    + apply (runs_truncated _ _ _ bytes); [done|].
      eapply (runs_call fs_step _ (ReadFile (tmp_of path)) _ _ (Some bytes) fs1); [split; [done|right]; exists (length bytes); transitivity (read_into (length bytes) <$> Some bytes); [cbn; by rewrite read_into_all|by f_equal]|].
      eapply (runs_call fs_step bool (WriteClose path bytes) _ _ false); [by exists 0%nat|]. apply Hr.
    + unfold LoadFile. by rewrite lookup_insert_eq.
Qed.

(** ** Witnesses *)
(** A save over a loadable file that dies right after the temporary file was opened. *)
Definition disk : Fs := {["f" := active_file]}.
Lemma save_crash_safe_witness :
  let fs' := <[("f.tmp" : string) := []]> disk in
  (LoadFile "f" fs' = LoadFile "f" disk \/ LoadFile "f" fs' = Loaded (persist_state (SaveState s_active)) \/
   (exists e, LoadFile "f" fs' = LoadError e) \/
   exists n j, let buf := take n active_file ++ replicate (S j) x00 in
     fs' !! "f" = Some buf /\ (length buf <= length active_file)%nat /\ buf <> active_file /\ sealed buf) /\
  forall p, p <> "f" -> p <> tmp_of "f" -> fs' !! p = disk !! p.
Proof.
  apply (save_crash_safe true "" (SaveState s_active) active_file "f" disk None).
  - exact active_state_ok.
  - exact active_file_saved.
  - exact active_file_fits.
  - unfold SaveImpl. rewrite active_file_saved.
    eapply (runs_call fs_step bool (OpenTrunc (tmp_of "f")) _ _ true); [done|constructor].
Defined.

Lemma save_not_atomic_witness :
  LoadFile "f" disk = Loaded (persist_state (SaveState s_active)) /\
  (exists fs', runs fs_step (SaveImpl true "" (SaveState s_active) "f") disk None fs' /\
     LoadFile "f" fs' = LoadError "empty/truncated file") /\
  (exists fs', runs fs_step (SaveImpl true "" (SaveState s_active) "f") disk (Some None) fs' /\
     LoadFile "f" fs' = LoadError "empty/truncated file").
Proof.
  split; [vm_compute; reflexivity|].
  apply (save_not_atomic true "" (SaveState s_active) active_file "f" disk). exact active_file_saved.
Defined.
