(* ===== verification/Coordinator.v ===== *)
(** * The coordinator process

    [deploy/coordinator.cpp]: a process that owns an engine over the synthetic
    topology and serves every connection with a thread of its own.

    [coordE] lists what a thread calls: the engine operations (each one critical
    section of the engine mutex), the file system, the send loop, and the two ways
    in which a thread can take the process down, an uncaught exception and
    undefined behaviour.  [on_frame] is the handler of one frame, [on_recv] one
    round of the receive loop, [finish] the code after it.  [wstep] interleaves
    the threads call by call and lets the process be killed and restarted at any
    moment; the peers are not constrained: a thread may receive any bytes. *)

From S2P Require Import Prelude Effects Net Bytes Enums Ids Args Double Model Codec Wire Protocol.
From S2P Require Import Planner Engine Persistence Storage Synthetic Lifecycle.

(** ** What a connection thread calls *)
Inductive coordE : Type -> Type :=
  | ERegisterNode (n : Node.t) : coordE bool
  | ERegisterResource (r : Resource.t) : coordE bool
  | ECompose (req : CompositionRequest.t) : coordE ComposeResult
  | EReserve (plan : CompositionPlan.t) : coordE ReserveResult
  | ECommit (res : Reservation.t) : coordE CommitResult
  | EActivate (id : CompositionId) : coordE ActivateResult
  | ERelease (id : CompositionId) : coordE bool
  | EMarkEvidence (boot : WorkerBootId) : coordE unit
  | ESnapshot : coordE RegistrySnapshot
  | ESaveState : coordE DurableState.t        (* the locked half of FabricEngine::Save *)
  | EFs {X : Type} (e : fsE X) : coordE X
  | ESend (bytes : list byte) : coordE bool   (* the send loop; false is its break *)
  | ETerminate (what : string) : coordE unit  (* an exception leaves the thread function *)
  | EUndefined : coordE unit.                 (* a read outside a buffer *)

(** The local variables of the thread function. *)
Module Conn.
Record t := mk { buffer : list byte; boot : N; isWorker : bool; done : bool }.
#[global] Instance eta_t : Eta t := fun c => mk (buffer c) (boot c) (isWorker c) (done c).
Definition init : t := mk [] 0 false false.
End Conn.

Section handlers.
(** The globals of the process: the topology, the two paths of the command line,
    and the exception text of [SaveImpl]. *)
Context (syn : Synthetic.t) (g_state_path g_markdir what : string).

(** [None]: the thread does not continue because the process is going down. *)
Abbreviation handler := (prog coordE (option Conn.t)).
Definition terminate (e : string) : handler := call (ETerminate e);; mret None.
Definition undefined : handler := call EUndefined;; mret None.

(** [engine.Save(g_state_path)]. *)
Definition engine_save : prog coordE bool :=
  state ← call ESaveState;
  err ← lift (@EFs) (SaveImpl true what state g_state_path);
  mret (match err with None => true | Some _ => false end).
Definition WriteMarker (name : string) : prog coordE unit :=
  match g_markdir with
  | EmptyString => mret tt
  | _ =>
      let p := g_markdir +:+ "/" +:+ name in
      opened ← call (EFs (OpenTrunc p));
      if opened : bool then call (EFs (WriteClose p [x31; x0a]));; mret tt else mret tt
  end.

(** [auto fr = Encode(type, corr, b.data(), b.size());] and the send loop: a break
    sets [done] but does not leave the handler. *)
Definition send_frame (type : FrameType.t) (corr : N) (payload : list byte) (c : Conn.t) : prog coordE Conn.t :=
  ok ← call (ESend (Encode type corr payload));
  mret (if ok : bool then c else c <| Conn.done := true |>).
(** [WireWriter w; ...; auto b = w.Take();], then the frame. *)
Definition send_encoded (type : FrameType.t) (corr : N) (w : W) (c : Conn.t) : handler :=
  match w [] with
  | inl e => terminate e
  | inr b => c ← send_frame type corr b c; mret (Some c)
  end.

(** The loops of the REGISTER handler over the descriptors of one node. *)
Definition serve_node (corr : N) (nid : NodeId) (nd : Node.t) (c : option Conn.t) : handler :=
  match c with
  | None => mret None
  | Some c => if id_eqb (Node.id nd) nid then send_encoded FrameType.PUBLISH_NODE corr (EncodeNode wire_too_long nd) c
              else mret (Some c)
  end.
Definition serve_resource (corr : N) (nid : NodeId) (r : Resource.t) (c : option Conn.t) : handler :=
  match c with
  | None => mret None
  | Some c => if id_eqb (Resource.node_id r) nid
              then send_encoded FrameType.PUBLISH_RESOURCE corr (EncodeResource wire_too_long r) c
              else mret (Some c)
  end.
Definition serve_id (corr : N) (nid : NodeId) (c : option Conn.t) : handler :=
  c ← for_each (serve_node corr nid) (Synthetic.nodes_ syn) c;
  for_each (serve_resource corr nid) (Synthetic.resources_ syn) c.

(** [for (std::uint32_t i = 0; i < n; ++i) ids.push_back(NodeId(rd.U64()));] *)
Fixpoint read_ids (n : nat) (r : Rd.t) : option (list NodeId) :=
  match n with
  | O => Some []
  | S n' =>
      match Rd.U64 r with
      | None => None
      | Some (v, r') => match read_ids n' r' with Some ids => Some (Id v :: ids) | None => None end
      end
  end.
Definition register_ids (payload : list byte) : option (list NodeId) :=
  match Rd.U32 (MakeReader payload) with
  | None => None
  | Some (n, r) => read_ids (N.to_nat n) r
  end.

Definition wire_reason (r : RejectionReason.t) : W := Wr.U32 (RejectionReason.code r).
Definition compose_resp (cr : ComposeResult) : W :=
  Wr.U32 (CompositionOutcome.code (cr_outcome cr)) ;>> EncodePlan wire_too_long (cr_plan cr) ;>>
  Wr.counted wire_reason (cr_reasons cr).
(** The reasons of a rejected reservation are written without their number. *)
Definition reserve_resp (rr : ReserveResult) : W :=
  Wr.U32 (CompositionOutcome.code (rr_outcome rr)) ;>> EncodeReservation (rr_reservation rr) ;>>
  Wr.each wire_reason (rr_reasons rr).
Definition commit_resp (cc : CommitResult) : W :=
  Wr.U32 (CompositionOutcome.code (cc_outcome cc)) ;>> EncodeComposition wire_too_long (cc_composition cc).
Definition activate_resp (ar : ActivateResult) : W :=
  Wr.U32 (CompositionOutcome.code (ar_outcome ar)) ;>> EncodeComposition wire_too_long (ar_composition ar).
Definition state_resp (snap : RegistrySnapshot) : W :=
  Wr.Id (sn_epoch snap) ;>>
  Wr.counted (EncodeComposition wire_too_long) (sn_compositions snap) ;>>
  Wr.counted EncodeReservation (sn_reservations snap) ;>>
  Wr.counted (EncodeResource wire_too_long) (sn_resources snap).

(** The stamps on what a worker publishes. *)
Definition own_node (boot : N) (n : Node.t) : Node.t :=
  n <| Node.worker_boot := Id boot |> <| Node.worker_owner := pretty boot |>.
Definition own_resource (boot : N) (r : Resource.t) : Resource.t :=
  r <| Resource.evidence ::= fun e => e <| Evidence.owner := pretty boot |> |>
    <| Resource.authority_owner := pretty boot |>
    <| Resource.evidence ::= fun e => e <| Evidence.durable := false |> |>.

(** [T t; WireReader rd(payload); Decode(rd, t);]: the verdict and the object, as
    far as it was filled. *)
Definition decode_into {T : Type} (m : Dec T unit) (dflt : T) (payload : list byte) : outcome unit * T :=
  let '(o, (_, t)) := m (MakeReader payload, dflt) in (o, t).

(** ** One frame *)
Definition on_hello (f : Frame.t) (c : Conn.t) : handler :=
  match Rd.U64 (MakeReader (Frame.payload f)) with
  | None => undefined
  | Some (boot, _) =>
      let c := c <| Conn.boot := boot |> <| Conn.isWorker := negb (boot =? 0) |> in
      c ← send_frame FrameType.ACK (Frame.correlation f) [] c; mret (Some c)
  end.
Definition on_register (f : Frame.t) (c : Conn.t) : handler :=
  match register_ids (Frame.payload f) with
  | None => undefined
  | Some ids =>
      c ← for_each (serve_id (Frame.correlation f)) ids (Some c);
      match c with
      | None => mret None
      | Some c => c ← send_frame FrameType.ACK (Frame.correlation f) [] c; mret (Some c)
      end
  end.
Definition on_publish_node (f : Frame.t) (c : Conn.t) : handler :=
  match decode_into DecodeNode Node.dflt (Frame.payload f) with
  | (Fault, _) => undefined
  | (Ret _, n) =>
      if Conn.isWorker c then call (ERegisterNode (own_node (Conn.boot c) n));; mret (Some c) else mret (Some c)
  | (Fail, _) => mret (Some c)
  end.
Definition on_publish_resource (f : Frame.t) (c : Conn.t) : handler :=
  match decode_into DecodeResource Resource.dflt (Frame.payload f) with
  | (Fault, _) => undefined
  | (Ret _, r) =>
      if Conn.isWorker c then call (ERegisterResource (own_resource (Conn.boot c) r));; mret (Some c) else mret (Some c)
  | (Fail, _) => mret (Some c)
  end.
(** The verdict of the decoder is ignored from here on. *)
Definition on_compose (f : Frame.t) (c : Conn.t) : handler :=
  match decode_into DecodeRequest CompositionRequest.dflt (Frame.payload f) with
  | (Fault, _) => undefined
  | (_, req) =>
      cr ← call (ECompose req);
      send_encoded FrameType.COMPOSE_RESP (Frame.correlation f) (compose_resp cr) c
  end.
(** [if (ok) { engine.Save(g_state_path); WriteMarker(name); }], after the response. *)
Definition persist_if (ok : bool) (name : string) (c : option Conn.t) : handler :=
  match c with
  | None => mret None
  | Some c => if ok then engine_save;; WriteMarker name;; mret (Some c) else mret (Some c)
  end.
Definition on_reserve (f : Frame.t) (c : Conn.t) : handler :=
  match decode_into DecodePlan CompositionPlan.dflt (Frame.payload f) with
  | (Fault, _) => undefined
  | (_, plan) =>
      rr ← call (EReserve plan);
      c ← send_encoded FrameType.RESERVE_RESP (Frame.correlation f) (reserve_resp rr) c;
      persist_if (is_success (rr_outcome rr)) "reserved" c
  end.
Definition on_commit (f : Frame.t) (c : Conn.t) : handler :=
  match decode_into DecodeReservation Reservation.dflt (Frame.payload f) with
  | (Fault, _) => undefined
  | (_, res) =>
      cc ← call (ECommit res);
      c ← send_encoded FrameType.COMMIT_RESP (Frame.correlation f) (commit_resp cc) c;
      persist_if (is_success (cc_outcome cc)) "committed" c
  end.
Definition on_activate (f : Frame.t) (c : Conn.t) : handler :=
  match Rd.U64 (MakeReader (Frame.payload f)) with
  | None => undefined
  | Some (cid, _) =>
      ar ← call (EActivate (Id cid));
      send_encoded FrameType.ACTIVATE_RESP (Frame.correlation f) (activate_resp ar) c
  end.
Definition on_query (f : Frame.t) (c : Conn.t) : handler :=
  snap ← call ESnapshot;
  send_encoded FrameType.STATE_RESP (Frame.correlation f) (state_resp snap) c.
Definition on_release (f : Frame.t) (c : Conn.t) : handler :=
  match Rd.U64 (MakeReader (Frame.payload f)) with
  | None => undefined
  | Some (cid, _) =>
      ok ← call (ERelease (Id cid));
      send_encoded FrameType.RELEASE_RESP (Frame.correlation f) (Wr.U8 (if ok : bool then 1 else 0)) c
  end.
Definition on_save (f : Frame.t) (c : Conn.t) : handler :=
  engine_save;; c ← send_frame FrameType.SAVE_RESP (Frame.correlation f) [] c; mret (Some c).
Definition on_heartbeat (f : Frame.t) (c : Conn.t) : handler :=
  c ← send_frame FrameType.HEARTBEAT (Frame.correlation f) [] c; mret (Some c).

Definition on_frame (f : Frame.t) (oc : option Conn.t) : handler :=
  match oc with
  | None => mret None
  | Some c =>
      match Frame.type f with
      | FrameType.HELLO => on_hello f c
      | FrameType.REGISTER => on_register f c
      | FrameType.PUBLISH_NODE => on_publish_node f c
      | FrameType.PUBLISH_RESOURCE => on_publish_resource f c
      | FrameType.COMPOSE_REQ => on_compose f c
      | FrameType.RESERVE_REQ => on_reserve f c
      | FrameType.COMMIT_REQ => on_commit f c
      | FrameType.ACTIVATE_REQ => on_activate f c
      | FrameType.QUERY_STATE => on_query f c
      | FrameType.RELEASE_REQ => on_release f c
      | FrameType.SAVE_REQ => on_save f c
      | FrameType.HEARTBEAT => on_heartbeat f c
      | FrameType.BYE => mret (Some (c <| Conn.done := true |>))
      | _ => mret (Some c)
      end
  end.

(** ** The receive loop *)

(** After the loop: the evidence of the worker is revoked, then the socket is
    closed and the thread ends. *)
Definition finish (c : Conn.t) : handler :=
  if Conn.isWorker c && negb (Conn.boot c =? 0) then call (EMarkEvidence (Id (Conn.boot c)));; mret None else mret None.
Definition continue_or_finish (oc : option Conn.t) : handler :=
  match oc with
  | None => mret None
  | Some c => if Conn.done c then finish c else mret (Some c)
  end.

(** One round with the result of [RecvSome] and the bytes it stored; the flag
    [running] of the process is never cleared. *)
Definition on_recv (got : Z) (data : list byte) (c : Conn.t) : handler :=
  if (got =? -2)%Z then mret (Some c)
  else if (got =? 0)%Z then finish (c <| Conn.done := true |>)
  else if (got <? 0)%Z then finish (c <| Conn.done := true |>)
  else
    match Feed (Conn.buffer c) (take (Z.to_nat got) data) with
    | None => undefined
    | Some r =>
        let c := c <| Conn.buffer := fr_buffer r |> in
        match fr_error r with
        | Some _ => finish (c <| Conn.done := true |>)
        | None => c ← for_each on_frame (fr_out r) (Some c); continue_or_finish c
        end
    end.
End handlers.

(** ** Start *)
Definition coord_cfg : EngineConfig.t := EngineConfig.dflt <| EngineConfig.coordinator := Id 1 |> <| EngineConfig.epoch := Id 1 |>.
Definition coord_syn : Synthetic.t := Synthetic.SyntheticBackend (Id 1).

Definition seed_path (syn : Synthetic.t) (s : Impl.t) (ab : Node.t * Node.t) : Impl.t :=
  let '(a, b) := ab in
  if id_eqb (Node.id a) (Node.id b) then s
  else
    let pr := PathRequirement.dflt <| PathRequirement.from := Node.id a |> <| PathRequirement.to := Node.id b |>
      <| PathRequirement.required := true |> <| PathRequirement.min_bandwidth_mbps := d1000 |>
      <| PathRequirement.max_latency_us := d100 |> in
    match Synthetic.ResolvePath syn pr with Some pe => OnPathUpdate pe s | None => s end.
Definition seed_paths (syn : Synthetic.t) (s : Impl.t) : Impl.t :=
  fold_left (seed_path syn) (a ← Synthetic.nodes_ syn; b ← Synthetic.nodes_ syn; [(a, b)]) s.

(** The engine before the state is loaded. *)
Definition seeded : Impl.t :=
  seed_paths coord_syn (AddBackend (Some (Synthetic.as_backend coord_syn)) (FabricEngine coord_cfg)).

(** The load warning, if any, and the engine that the threads share; [o] is what the
    stream reports when the state file exists. *)
Definition startup (o : ReadOutcome) (epochVal : N) (statePath : string) (fs : Fs) : option string * Impl.t :=
  match fs !! statePath with
  | Some _ =>
      let '(warning, s) := EngineLoad o (fs !! statePath) seeded in (warning, AdvanceEpoch (Id epochVal) s)
  | None => (None, AdvanceEpoch (Id epochVal) seeded)
  end.

(** ** The process *)

(** The state that the threads share, the bytes handed to each connection, and
    the reason why the process went down. *)
Module Coord.
Record t := mk { engine : Impl.t; files : Fs; sent : gmap nat (list byte); dead : option string }.
#[global] Instance eta_t : Eta t := fun w => mk (engine w) (files w) (sent w) (dead w).
End Coord.

Definition sent_to (k : nat) (w : Coord.t) : list byte := default [] (Coord.sent w !! k).
Definition deliver (k : nat) (bytes : list byte) (w : Coord.t) : Coord.t :=
  w <| Coord.sent ::= <[k := sent_to k w ++ bytes]> |>.
Definition on_engine {X : Type} (f : Impl.t -> X * Impl.t) (w : Coord.t) : X * Coord.t :=
  let '(x, s) := f (Coord.engine w) in (x, w <| Coord.engine := s |>).

(** A call of thread [k]: the engine answers deterministically; the file system
    and the network may fail.  [send_loop] is driven by arbitrary answers of the
    system. *)
Definition coord_step (k : nat) (X : Type) (e : coordE X) : Coord.t -> X -> Coord.t -> Prop :=
  match e in coordE X return Coord.t -> X -> Coord.t -> Prop with
  | ERegisterNode n => fun w x w' => (x, w') = on_engine (RegisterNode n) w
  | ERegisterResource r => fun w x w' => (x, w') = on_engine (RegisterResource r) w
  | ECompose req => fun w x w' => (x, w') = on_engine (Compose req) w
  | EReserve plan => fun w x w' => (x, w') = on_engine (Reserve plan) w
  | ECommit res => fun w x w' => (x, w') = on_engine (Commit res) w
  | EActivate id => fun w x w' => (x, w') = on_engine (Activate id) w
  | ERelease id => fun w x w' => (x, w') = on_engine (Release id) w
  | EMarkEvidence b => fun w x w' => (x, w') = on_engine (fun s => (tt, MarkEvidenceRevalidationRequired b s)) w
  | ESnapshot => fun w x w' => x = Snapshot (Coord.engine w) /\ w' = w
  | ESaveState => fun w x w' => x = SaveState (Coord.engine w) /\ w' = w
  | EFs e => fun w x w' => exists fs, fs_step _ e (Coord.files w) x fs /\ w' = w <| Coord.files := fs |>
  | ESend bytes => fun w ok w' => exists answers accepted,
      send_loop answers bytes [] = (Some ok, accepted) /\ w' = deliver k accepted w
  | ETerminate what => fun w _ w' => w' = w <| Coord.dead := Some what |>
  | EUndefined => fun w _ w' => w' = w <| Coord.dead := Some "undefined behaviour" |>
  end.

(** The same calls when nothing fails. *)
Definition coord_eval (k : nat) (X : Type) (e : coordE X) : Coord.t -> X * Coord.t :=
  match e in coordE X return Coord.t -> X * Coord.t with
  | ERegisterNode n => on_engine (RegisterNode n)
  | ERegisterResource r => on_engine (RegisterResource r)
  | ECompose req => on_engine (Compose req)
  | EReserve plan => on_engine (Reserve plan)
  | ECommit res => on_engine (Commit res)
  | EActivate id => on_engine (Activate id)
  | ERelease id => on_engine (Release id)
  | EMarkEvidence b => on_engine (fun s => (tt, MarkEvidenceRevalidationRequired b s))
  | ESnapshot => fun w => (Snapshot (Coord.engine w), w)
  | ESaveState => fun w => (SaveState (Coord.engine w), w)
  | EFs e => fun w => let '(x, fs) := fs_eval _ e (Coord.files w) in (x, w <| Coord.files := fs |>)
  | ESend bytes => fun w => (true, deliver k bytes w)
  | ETerminate what => fun w => (tt, w <| Coord.dead := Some what |>)
  | EUndefined => fun w => (tt, w <| Coord.dead := Some "undefined behaviour" |>)
  end.

(** A thread waits for bytes or is executing the program of a round. *)
Inductive thread : Type :=
  | Waiting (c : Conn.t)
  | Busy (p : prog coordE (option Conn.t)).

Module World.
Record t := mk { coord : Coord.t; threads : gmap nat thread }.
#[global] Instance eta_t : Eta t := fun w => mk (coord w) (threads w).
End World.

Section process.
(** [allowed k buffer data]: connection [k], which has [buffer] undecoded, may
    receive [data].  [anything] leaves the peers free. *)
Context (allowed : nat -> list byte -> list byte -> Prop) (statePath markdir what : string).
Abbreviation round := (on_recv coord_syn statePath markdir what).

Definition start (o : ReadOutcome) (epochVal : N) (fs : Fs) : World.t :=
  World.mk (Coord.mk (startup o epochVal statePath fs).2 fs ∅ None) ∅.

(** The steps of the process: the main loop accepts a connection; a waiting thread
    receives at most 8192 bytes; a thread makes its next call; a round ends; the
    process is killed and restarted with some epoch. *)
Inductive wstep : World.t -> World.t -> Prop :=
  | ws_accept k w :
      Coord.dead (World.coord w) = None -> World.threads w !! k = None ->
      wstep w (w <| World.threads ::= <[k := Waiting Conn.init]> |> <| World.coord ::= fun co => co <| Coord.sent ::= <[k := []]> |> |>)
  | ws_recv k c got data w :
      Coord.dead (World.coord w) = None -> World.threads w !! k = Some (Waiting c) ->
      N.of_nat (length data) <= 8192 -> (got <= Z.of_nat (length data))%Z ->
      allowed k (Conn.buffer c) (take (Z.to_nat got) data) ->
      wstep w (w <| World.threads ::= <[k := Busy (round got data c)]> |>)
  | ws_call k X (e : coordE X) kont x co w :
      Coord.dead (World.coord w) = None -> World.threads w !! k = Some (Busy (Call e kont)) ->
      coord_step k X e (World.coord w) x co ->
      wstep w (w <| World.coord := co |> <| World.threads ::= <[k := Busy (kont x)]> |>)
  | ws_wait k c w :
      Coord.dead (World.coord w) = None -> World.threads w !! k = Some (Busy (Done (Some c))) ->
      wstep w (w <| World.threads ::= <[k := Waiting c]> |>)
  | ws_end k w :
      Coord.dead (World.coord w) = None -> World.threads w !! k = Some (Busy (Done None)) ->
      wstep w (w <| World.threads ::= delete k |>)
  | ws_restart o epochVal w : wstep w (start o epochVal (Coord.files (World.coord w))).

Inductive wreachable : World.t -> Prop :=
  | wr_start o epochVal fs : wreachable (start o epochVal fs)
  | wr_step w w' : wreachable w -> wstep w w' -> wreachable w'.
End process.

Definition anything (k : nat) (buffer data : list byte) : Prop := True.
