(* ===== verification/CoordSafety.v ===== *)
(** * What the coordinator guarantees to everyone

    The coordinator under arbitrary peers, arbitrary interleavings of its
    threads, failing files and sockets, and kills: every state of its engine is a
    state of the engine's own state machine, so the invariants of [Lifecycle]
    hold in the process; and evidence lives no longer than the worker it came
    from. *)

From S2P Require Import Prelude Effects Net Bytes Enums Ids Args Double Model Codec Wire Protocol.
From S2P Require Import Planner Engine Persistence Storage Synthetic Lifecycle LifecycleProps Coordinator.

(** ** The engine operations that a frame can cause *)
Definition wire_op (o : op) : Prop :=
  match o with
  | ORegisterNode _ | ORegisterResource _ | OCompose _ | OReserve _ | OCommit _ | OActivate _ | ORelease _
  | OMarkEvidence _ => True
  | _ => False
  end.

Lemma on_engine_run {X : Type} (f : Impl.t -> X * Impl.t) x w w' :
  (x, w') = on_engine f w -> Coord.engine w' = (f (Coord.engine w)).2 /\ x = (f (Coord.engine w)).1 /\
    w' = w <| Coord.engine := (f (Coord.engine w)).2 |>.
Proof. unfold on_engine. destruct (f (Coord.engine w)) as [y s]. by intros [= -> ->]. Qed.

(** The operation of a call, if it changes the engine. *)
Definition op_of {X : Type} (e : coordE X) : option op :=
  match e with
  | ERegisterNode n => Some (ORegisterNode n)
  | ERegisterResource r => Some (ORegisterResource r)
  | ECompose req => Some (OCompose req)
  | EReserve plan => Some (OReserve plan)
  | ECommit res => Some (OCommit res)
  | EActivate id => Some (OActivate id)
  | ERelease id => Some (ORelease id)
  | EMarkEvidence b => Some (OMarkEvidence b)
  | _ => None
  end.
Lemma op_of_wire {X : Type} (e : coordE X) o : op_of e = Some o -> wire_op o.
Proof. destruct e; intros [= <-]; exact I. Qed.
Lemma coord_step_op k X (e : coordE X) w x w' :
  coord_step k X e w x w' ->
  Coord.engine w' = match op_of e with Some o => run o (Coord.engine w) | None => Coord.engine w end.
Proof.
  destruct e; cbn [coord_step op_of run]; intros H; try (by apply on_engine_run in H as (H & _)).
  - by destruct H as [_ ->].
  - by destruct H as [_ ->].
  - by destruct H as (fs & _ & ->).
  - by destruct H as (an & ac & _ & ->).
  - by subst.
  - by subst.
Qed.

(** ** Start *)
Lemma seed_paths_reachable cfg syn s : reachable cfg s -> reachable cfg (seed_paths syn s).
Proof.
  unfold seed_paths. generalize (a ← Synthetic.nodes_ syn; b ← Synthetic.nodes_ syn; [(a, b)]). intros l. revert s.
  induction l as [|[a b] l IH]; intros s Hs; [done|]. cbn [fold_left]. apply IH. unfold seed_path.
  destruct (id_eqb _ _); [done|]. destruct (Synthetic.ResolvePath _ _) as [pe|]; [|done].
  by apply (reachable_step cfg s (OPathUpdate pe)).
Qed.
Lemma seeded_reachable : reachable coord_cfg seeded.
Proof.
  apply seed_paths_reachable.
  apply (reachable_step coord_cfg (FabricEngine coord_cfg) (OAddBackend (Some (Synthetic.as_backend coord_syn)))). constructor.
Qed.
(** The engine after a start: the seeded one, or that with a loaded state, moved
    to the epoch of the command line. *)
Lemma startup_cases o epochVal path fs :
  exists s, (startup o epochVal path fs).2 = AdvanceEpoch (Id epochVal) s /\ (s = seeded \/ exists d, s = LoadState d seeded).
Proof.
  unfold startup. generalize seeded. intros s0. destruct (fs !! path) as [bytes|]; [|exists s0; auto].
  unfold EngineLoad. destruct (LoadImpl _ _) as [d|e|]; [exists (LoadState d s0)|exists s0|exists s0]; eauto.
Qed.
Lemma startup_reachable o epochVal path fs : reachable coord_cfg (startup o epochVal path fs).2.
Proof.
  destruct (startup_cases o epochVal path fs) as (s & -> & Hs). apply (reachable_step coord_cfg s (OAdvanceEpoch (Id epochVal))).
  destruct Hs as [-> |[d ->]]; [|apply (reachable_step coord_cfg seeded (OLoad d))]; apply seeded_reachable.
Qed.

Section process.
Context (allowed : nat -> list byte -> list byte -> Prop) (path markdir what : string).

Lemma wstep_engine w w' :
  wstep allowed path markdir what w w' ->
  Coord.engine (World.coord w') = Coord.engine (World.coord w) \/
  (exists o, wire_op o /\ Coord.engine (World.coord w') = run o (Coord.engine (World.coord w))) \/
  exists o epochVal, w' = start path o epochVal (Coord.files (World.coord w)).
Proof.
  destruct 1 as [k w Hd Hk|k c got data w Hd Hk Hl Hg Ha|k X e kont x co w Hd Hk Hs|k c w Hd Hk|k w Hd Hk|o ep w]; try (by left).
  - cbn. rewrite (coord_step_op _ _ _ _ _ _ Hs). destruct (op_of e) as [o|] eqn:Ho; [|by left].
    right; left. exists o. split; [by eapply op_of_wire|done].
  - right; right. eauto.
Qed.

Lemma wreachable_engine w :
  wreachable allowed path markdir what w -> reachable coord_cfg (Coord.engine (World.coord w)).
Proof.
  induction 1 as [o ep fs|w w' Hw IH Hs]; [apply startup_reachable|].
  destruct (wstep_engine _ _ Hs) as [-> |[(o & _ & ->)|(o & ep & ->)]]; [done|by apply reachable_step|apply startup_reachable].
Qed.
End process.
