(* ===== verification/CoordEvidence.v ===== *)
(** * Evidence lives no longer than its worker

    The coordinator stamps what a worker publishes with the worker's boot id and
    revokes it when the connection ends.  The invariant proved here relates the
    registry to the threads: current volatile evidence, and every volatile member
    of an ACTIVE composition, belongs to a worker whose thread will still revoke
    it.  The condition on the peers is that the HELLO frames of one connection all
    carry the same boot id ([one_boot]).

    [tracks] is the ghost part: [Some b] while the thread has bound itself to
    revoke the evidence of boot [b], [None] otherwise. *)

From S2P Require Import Prelude Effects Net Bytes Enums Ids Args Double Model Codec Wire Protocol.
From S2P Require Import Planner Engine Persistence Storage Synthetic Lifecycle LifecycleProps Coordinator CoordSafety.

(** The peer of connection [k] says HELLO with boot id [B k] only. *)
Definition hello_says (b : N) (f : Frame.t) : Prop :=
  Frame.type f = FrameType.HELLO -> exists r, Rd.U64 (MakeReader (Frame.payload f)) = Some (b, r).
Definition one_boot (B : nat -> N) (k : nat) (buffer data : list byte) : Prop :=
  forall r, Feed buffer data = Some r -> Forall (hello_says (B k)) (fr_out r).

(** ** The obligation of a thread *)
Section tracks.
Context {A : Type} (Q : option N -> A -> Prop).

Fixpoint tracks (ob : option N) (p : prog coordE A) : Prop :=
  match p with
  | Done a => Q ob a
  | @Call _ _ X e k =>
      match e in coordE X return (option N -> X -> Prop) -> Prop with
      | ERegisterResource r => fun rec =>
          (exists b, ob = Some b /\ Evidence.owner (Resource.evidence r) = pretty b /\
             Evidence.durable (Resource.evidence r) = false) /\ forall x, rec ob x
      | EMarkEvidence b => fun rec => ob = Some (Value b) /\ rec None tt
      | ETerminate _ | EUndefined => fun _ => True
      | _ => fun rec => forall x, rec ob x
      end (fun ob x => tracks ob (k x))
  end.
End tracks.

Lemma tracks_bind {A B : Type} (Q : option N -> A -> Prop) (R : option N -> B -> Prop) ob p f :
  tracks Q ob p -> (forall ob' a, Q ob' a -> tracks R ob' (f a)) -> tracks R ob (p ≫= f).
Proof.
  intros Hp Hf. revert ob Hp. induction p as [a|X e k IH]; intros ob Hp; [by apply Hf|].
  cbn in *. destruct e; naive_solver.
Qed.

Lemma tracks_mono {A : Type} (Q R : option N -> A -> Prop) ob p :
  (forall ob' a, Q ob' a -> R ob' a) -> tracks Q ob p -> tracks R ob p.
Proof.
  intros HQ. revert ob. induction p as [a|X e k IH]; intros ob Hp; [by apply HQ|]. cbn in *. destruct e; naive_solver.
Qed.

(** Calls that neither publish nor revoke evidence. *)
Definition quiet (X : Type) (e : coordE X) : Prop :=
  match e with ERegisterResource _ | EMarkEvidence _ => False | _ => True end.
Lemma quiet_tracks {A : Type} (Q : A -> Prop) ob p :
  always quiet Q p -> tracks (fun ob' a => ob' = ob /\ Q a) ob p.
Proof.
  induction p as [a|X e k IH]; cbn; [done|]. intros [He Hk]. destruct e; cbn in He; try done; intros x; auto.
Qed.

Lemma lift_fs_quiet {A : Type} (p : prog fsE A) : always quiet (fun _ => True) (lift (@EFs) p).
Proof. induction p as [a|X e k IH]; cbn; auto. Qed.

Section handlers.
Context (syn : Synthetic.t) (path markdir what : string).

(** The two variables of the thread that matter here; [None] only comes after the
    process went down, where nothing is owed. *)
Definition same_worker (c c' : Conn.t) : Prop := Conn.boot c' = Conn.boot c /\ Conn.isWorker c' = Conn.isWorker c.
Definition keeps (ob : option N) (c : Conn.t) (ob' : option N) (oc : option Conn.t) : Prop :=
  ob' = ob /\ exists c', oc = Some c' /\ same_worker c c'.

Lemma same_worker_trans a b c : same_worker a b -> same_worker b c -> same_worker a c.
Proof. unfold same_worker. intuition congruence. Qed.
Lemma keeps_refl ob c : keeps ob c ob (Some c).
Proof. split; [done|]. by exists c. Qed.
Lemma keeps_trans ob c c' oc : same_worker c c' -> keeps ob c' ob oc -> keeps ob c ob oc.
Proof. intros H [_ (c2 & -> & H2)]. split; [done|]. exists c2. split; [done|]. by eapply same_worker_trans. Qed.
(** After a program that keeps the worker, another one that does. *)
Lemma keeps_bind ob c p f :
  tracks (keeps ob c) ob p -> (forall c', same_worker c c' -> tracks (keeps ob c) ob (f (Some c'))) -> tracks (keeps ob c) ob (p ≫= f).
Proof. intros Hp Hf. eapply tracks_bind; [exact Hp|]. intros ob' oc (-> & c' & -> & Hc). by apply Hf. Qed.
Lemma keeps_from ob c c' p : same_worker c c' -> tracks (keeps ob c') ob p -> tracks (keeps ob c) ob p.
Proof.
  intros Hc. apply tracks_mono. intros ob' oc [-> H]. apply (keeps_trans ob c c'); [done|]. by split.
Qed.
Lemma keeps_for_each {X : Type} ob c (body : X -> option Conn.t -> prog coordE (option Conn.t)) l c0 :
  (forall x c', same_worker c c' -> tracks (keeps ob c) ob (body x (Some c'))) -> same_worker c c0 ->
  tracks (keeps ob c) ob (for_each body l (Some c0)).
Proof.
  intros Hb. revert c0. induction l as [|x l IH]; intros c0 H0; cbn [for_each]; [split; [done|by exists c0]|].
  apply keeps_bind; [by apply Hb|done].
Qed.

Lemma send_frame_tracks ob type corr payload c : tracks (fun ob' c' => ob' = ob /\ same_worker c c') ob (send_frame type corr payload c).
Proof. cbn. by intros [|]. Qed.
Lemma reply_tracks ob type corr payload c :
  tracks (keeps ob c) ob (c ← send_frame type corr payload c; mret (Some c)).
Proof. eapply tracks_bind; [apply send_frame_tracks|]. intros ob' c' [-> H]. split; [done|by exists c']. Qed.
Lemma send_encoded_tracks ob type corr w c : tracks (keeps ob c) ob (send_encoded type corr w c).
Proof. unfold send_encoded. destruct (w []) as [e|b]; [exact I|apply reply_tracks]. Qed.
Lemma quiet_then {A : Type} ob c (p : prog coordE A) f :
  always quiet (fun _ => True) p -> (forall a, tracks (keeps ob c) ob (f a)) -> tracks (keeps ob c) ob (p ≫= f).
Proof. intros Hp Hf. eapply tracks_bind; [by apply quiet_tracks|]. by intros ob' a [-> _]. Qed.

Lemma engine_save_quiet : always quiet (fun _ => True) (engine_save path what).
Proof. cbn. split; [done|]. intros d. eapply always_bind; [apply lift_fs_quiet|]. done. Qed.
Lemma WriteMarker_quiet name : always quiet (fun _ => True) (WriteMarker markdir name).
Proof. unfold WriteMarker. destruct markdir; cbn; [done|]. split; [done|]. by intros [|]. Qed.
Lemma persist_if_tracks ob ok name c c' :
  same_worker c c' -> tracks (keeps ob c) ob (persist_if path markdir what ok name (Some c')).
Proof.
  intros Hc. unfold persist_if. destruct ok; [|split; [done|by exists c']].
  apply quiet_then; [apply engine_save_quiet|]. intros _. apply quiet_then; [apply WriteMarker_quiet|]. intros _.
  split; [done|by exists c'].
Qed.

(** What the handler needs of the connection: a worker's boot id is the one the
    thread is bound to. *)
Definition bound (ob : option N) (c : Conn.t) : Prop := Conn.isWorker c = true -> ob = Some (Conn.boot c).

Lemma register_tracks ob f c : tracks (keeps ob c) ob (on_register syn f c).
Proof.
  unfold on_register. destruct (register_ids _) as [ids|]; [|exact I]. apply keeps_bind.
  - apply keeps_for_each; [|done]. intros nid c1 H1. unfold serve_id. apply keeps_bind.
    + apply keeps_for_each; [|done]. intros nd c2 H2. unfold serve_node. destruct (id_eqb _ _); [|split; [done|by exists c2]].
      eapply keeps_from; [exact H2|apply send_encoded_tracks].
    + intros c3 H3. apply keeps_for_each; [|done]. intros r c2 H2. unfold serve_resource.
      destruct (id_eqb _ _); [|split; [done|by exists c2]]. eapply keeps_from; [exact H2|apply send_encoded_tracks].
  - intros c1 H1. eapply keeps_from; [exact H1|apply reply_tracks].
Qed.
Lemma publish_resource_tracks ob f c : bound ob c -> tracks (keeps ob c) ob (on_publish_resource f c).
Proof.
  intros Hb. unfold on_publish_resource. destruct (decode_into _ _ _) as [[u| |] r]; [|apply keeps_refl|exact I].
  unfold bound in Hb. destruct (Conn.isWorker c); [|apply keeps_refl]. cbn. split; [|intros; apply keeps_refl].
  exists (Conn.boot c). split; [by apply Hb|done].
Qed.
Lemma publish_node_tracks ob f c : tracks (keeps ob c) ob (on_publish_node f c).
Proof.
  unfold on_publish_node. destruct (decode_into _ _ _) as [[u| |] n]; [|apply keeps_refl|exact I].
  destruct (Conn.isWorker c); [|apply keeps_refl]. cbn. intros. apply keeps_refl.
Qed.

(** Every frame but HELLO keeps the worker. *)
Lemma on_frame_keeps ob f c :
  bound ob c -> Frame.type f <> FrameType.HELLO -> tracks (keeps ob c) ob (on_frame syn path markdir what f (Some c)).
Proof.
  intros Hb Hne. unfold on_frame. destruct (Frame.type f); try apply keeps_refl; [done|..].
  - apply register_tracks.
  - apply publish_node_tracks.
  - by apply publish_resource_tracks.
  - apply reply_tracks.
  - unfold on_compose. destruct (decode_into _ _ _) as [[u| |] q]; [..|exact I]; cbn; intros x; apply send_encoded_tracks.
  - unfold on_reserve. destruct (decode_into _ _ _) as [[u| |] q]; [..|exact I]; cbn; intros x;
      (apply keeps_bind; [apply send_encoded_tracks|intros; by apply persist_if_tracks]).
  - unfold on_commit. destruct (decode_into _ _ _) as [[u| |] q]; [..|exact I]; cbn; intros x;
      (apply keeps_bind; [apply send_encoded_tracks|intros; by apply persist_if_tracks]).
  - unfold on_activate. destruct (Rd.U64 _) as [[cid r]|]; [|exact I]. cbn. intros x. apply send_encoded_tracks.
  - cbn. intros x. apply send_encoded_tracks.
  - split; [done|by eexists].
  - apply quiet_then; [apply engine_save_quiet|]. intros _. apply reply_tracks.
  - unfold on_release. destruct (Rd.U64 _) as [[cid r]|]; [|exact I]. intros x. apply (send_encoded_tracks ob _ _ (Wr.U8 _)).
Qed.

(** ** A whole round *)
Context (b : N).
Definition conn_ok (c : Conn.t) : Prop := Conn.isWorker c = true -> Conn.boot c = b /\ b <> 0.
Definition owner_of (c : Conn.t) : option N := if Conn.isWorker c then Some (Conn.boot c) else None.
(** What a round leaves: a connection bound to its owner, or nothing owed. *)
Definition settled (ob : option N) (oc : option Conn.t) : Prop :=
  match oc with Some c => conn_ok c /\ owner_of c = ob | None => ob = None end.

Definition is_hello (f : Frame.t) : bool := bool_decide (Frame.type f = FrameType.HELLO).
(** The boot that the thread is bound to once the frames [fs] are handled. *)
Definition bind_target (c : Conn.t) (fs : list Frame.t) : option N :=
  if Conn.isWorker c then Some b else if existsb is_hello fs && negb (b =? 0) then Some b else None.

Lemma target_bound c fs : conn_ok c -> bound (bind_target c fs) c.
Proof. intros H Hw. unfold bind_target. rewrite Hw. by destruct (H Hw) as [-> _]. Qed.
Lemma conn_ok_same c c' : same_worker c c' -> conn_ok c -> conn_ok c'.
Proof. intros [Hb Hw] H. unfold conn_ok. by rewrite Hb, Hw. Qed.

Definition lands (target : option N) (ob : option N) (oc : option Conn.t) : Prop :=
  ob = target /\ exists c, oc = Some c /\ conn_ok c /\ owner_of c = target.

Lemma frames_track fs c :
  conn_ok c -> Forall (hello_says b) fs ->
  tracks (lands (bind_target c fs)) (bind_target c fs) (for_each (on_frame syn path markdir what) fs (Some c)).
Proof.
  intros Hc Hfs. revert c Hc. induction Hfs as [|f fs Hf Hfs IH]; intros c Hc; cbn [for_each].
  { split; [done|]. exists c. split_and!; [done..|]. unfold owner_of, bind_target. destruct (Conn.isWorker c) eqn:E; [|done].
    by destruct (Hc E) as [-> _]. }
  destruct (decide (Frame.type f = FrameType.HELLO)) as [Ht|Ht].
  - destruct (Hf Ht) as [r Hr]. unfold on_frame. rewrite Ht. unfold on_hello. rewrite Hr.
    set (c1 := (c <| Conn.boot := b |>) <| Conn.isWorker := negb (b =? 0) |>).
    assert (Hc1 : conn_ok c1) by (intros Hw; split; [done|]; cbn in Hw; by apply negb_true_iff, N.eqb_neq in Hw).
    assert (Htarget : bind_target c (f :: fs) = if negb (b =? 0) then Some b else None).
    { unfold bind_target. cbn [existsb]. unfold is_hello at 1. rewrite bool_decide_eq_true_2 by done. cbn [orb andb].
      destruct (Conn.isWorker c) eqn:E; [|done]. destruct (Hc E) as [_ Hb]. by rewrite (proj2 (N.eqb_neq _ _)). }
    assert (H1 : forall c2, same_worker c1 c2 -> bind_target c2 fs = bind_target c (f :: fs)).
    { intros c2 [_ Hw]. rewrite Htarget. unfold bind_target. rewrite Hw. cbn. destruct (b =? 0); cbn; [|done].
      by rewrite andb_false_r. }
    eapply tracks_bind; [apply (reply_tracks _ _ _ _ c1)|]. intros ob' oc (-> & c2 & -> & H2).
    rewrite <-(H1 c2 H2). apply IH. by eapply conn_ok_same.
  - eapply tracks_bind; [apply (on_frame_keeps _ f c); [by apply target_bound|done]|]. intros ob' oc (-> & c2 & -> & H2).
    assert (Heq : bind_target c2 fs = bind_target c (f :: fs)).
    { destruct H2 as [_ Hw]. unfold bind_target. rewrite Hw. cbn [existsb]. unfold is_hello at 2.
      by rewrite bool_decide_eq_false_2 by done. }
    rewrite <-Heq. apply IH. by eapply conn_ok_same.
Qed.

Lemma finish_tracks c : conn_ok c -> tracks settled (owner_of c) (finish c).
Proof.
  intros Hc. unfold finish, owner_of. destruct (Conn.isWorker c) eqn:E; [|done]. destruct (Hc E) as [Hb Hne].
  rewrite Hb, (proj2 (N.eqb_neq _ _)) by done. done.
Qed.

Lemma owner_cases c : conn_ok c -> owner_of c = None \/ owner_of c = Some b.
Proof. intros Hc. unfold owner_of. destruct (Conn.isWorker c) eqn:E; [right|by left]. by destruct (Hc E) as [-> _]. Qed.

(** A round keeps a binding, and ends with the binding of the connection or
    after revoking. *)
Lemma round_tracks got data c :
  conn_ok c -> (forall r, Feed (Conn.buffer c) (take (Z.to_nat got) data) = Some r -> Forall (hello_says b) (fr_out r)) ->
  exists ob, tracks settled ob (on_recv syn path markdir what got data c) /\ (owner_of c = None \/ owner_of c = ob) /\
    (ob = None \/ ob = Some b).
Proof.
  intros Hc Hf. pose proof (owner_cases c Hc) as Hoc. unfold on_recv.
  destruct (got =? -2)%Z; [exists (owner_of c); split; [by split|by split; [right|]]|].
  assert (Hfin : forall buf, exists ob, tracks settled ob (finish (c <| Conn.buffer := buf |> <| Conn.done := true |>)) /\
    (owner_of c = None \/ owner_of c = ob) /\ (ob = None \/ ob = Some b)).
  { intros buf. pose proof (finish_tracks ((c <| Conn.buffer := buf |>) <| Conn.done := true |>) Hc) as H.
    exists (owner_of c). split; [exact H|by split; [right|]]. }
  specialize (Hfin (Conn.buffer c)) as Hfin0. assert (c <| Conn.buffer := Conn.buffer c |> = c) as Hid by (by destruct c).
  rewrite Hid in Hfin0. destruct (got =? 0)%Z; [done|]. destruct (got <? 0)%Z; [done|].
  destruct (Feed _ _) as [r|] eqn:E; [|exists (owner_of c); split; [exact I|by split; [right|]]].
  specialize (Hf r eq_refl). destruct (fr_error r); [apply Hfin|]. clear Hfin0 Hid.
  set (c1 := c <| Conn.buffer := fr_buffer r |>). assert (Hc1 : conn_ok c1) by done.
  exists (bind_target c1 (fr_out r)). split_and!.
  - eapply tracks_bind; [by apply frames_track|]. intros ob' oc (-> & c2 & -> & Hc2 & Ho). unfold continue_or_finish.
    rewrite <-Ho. destruct (Conn.done c2); [by apply finish_tracks|]. by split.
  - unfold owner_of, bind_target, c1. cbn. destruct (Conn.isWorker c) eqn:Ew; [|by left].
    right. by destruct (Hc Ew) as [-> _].
  - unfold bind_target. destruct (Conn.isWorker c1); [by right|]. destruct (_ && _); auto.
Qed.
End handlers.

(** ** The registry and the workers that serve it

    [S] holds of the owners that some thread is bound to revoke. *)
Record served_by (S : string -> Prop) (s : Impl.t) : Prop := {
  sb_current : forall rid r, Impl.resources s !! rid = Some r -> IsCurrent (Resource.evidence r) = true ->
    Evidence.durable (Resource.evidence r) = true \/ S (Evidence.owner (Resource.evidence r));
  sb_active : forall id c rid r, Impl.compositions s !! id = Some c ->
    Composition.lifecycle c = CompositionLifecycle.ACTIVE -> rid ∈ ResourceGraph.vertices (Composition.graph c) ->
    Impl.resources s !! rid = Some r ->
    Evidence.durable (Resource.evidence r) = true \/ S (Evidence.owner (Resource.evidence r)) }.

Lemma served_mono (S S' : string -> Prop) s : (forall o, S o -> S' o) -> served_by S s -> served_by S' s.
Proof.
  intros HS [Hc Ha]. split; [intros rid r Hr Hcur|intros id c rid r Hc' Hl Hin Hr].
  - destruct (Hc rid r Hr Hcur); auto.
  - destruct (Ha id c rid r Hc' Hl Hin Hr); auto.
Qed.

(** Where an ACTIVE composition and its members come from. *)
Lemma active_origin o s id c' :
  Inv s -> wire_op o -> Impl.compositions (run o s) !! id = Some c' ->
  Composition.lifecycle c' = CompositionLifecycle.ACTIVE ->
  exists c, Impl.compositions s !! id = Some c /\ Composition.graph c' = Composition.graph c /\
    (Composition.lifecycle c = CompositionLifecycle.ACTIVE \/ evidence_ok (Impl.resources s) c).
Proof.
  intros HI Hw Hc' Ha. destruct (to_active o s id c' HI Hc' Ha) as [(c & Hc & Hl)|(-> & c & Hc & _ & _ & Hr)].
  - destruct (match o with OReserve _ => true | _ => false end) eqn:Hres.
    + destruct o as [ | | | | | | | | | |plan| | | | | | | | | | | | ]; try done. exists c.
      apply Reserve_comps in Hc' as [Heq|(_ & _ & Hlc)]; [|congruence]. rewrite Hc in Heq. injection Heq as ->. auto.
    + pose proof (run_evolves o s ltac:(intros plan ->; done) ltac:(intros d ->; done) id) as Hev. rewrite Hc, Hc' in Hev.
      destruct Hev as [(_ & _ & Hg & _) _]. exists c. auto.
  - exists c. apply RevalidationHolds_ok in Hr as [_ He]. split; [done|]. split; [|by right].
    pose proof (Activate_evolves id s id) as Hev. rewrite Hc in Hev. cbn [run] in Hc'. rewrite Hc' in Hev. apply Hev.
Qed.

(** An operation that leaves the resources alone. *)
Lemma served_same_resources S o s :
  Inv s -> wire_op o -> Impl.resources (run o s) = Impl.resources s -> served_by S s -> served_by S (run o s).
Proof.
  intros HI Hw Hr [Hc Ha]. split; rewrite Hr; [done|]. intros id c' rid r Hc' Hl Hin Hrid.
  destruct (active_origin o s id c' HI Hw Hc' Hl) as (c & Hcid & Hg & [Hact|Hev]); rewrite Hg in Hin; [by eauto|].
  destruct (Hev rid Hin) as (r' & Hr' & Hcur). rewrite Hrid in Hr'. injection Hr' as <-. eauto.
Qed.
Lemma served_register S r s :
  Inv s -> S (Evidence.owner (Resource.evidence r)) -> served_by S s -> served_by S (run (ORegisterResource r) s).
Proof.
  intros HI HS [Hc Ha]. assert (Hl : forall rid r', Impl.resources (run (ORegisterResource r) s) !! rid = Some r' ->
    r' = r \/ Impl.resources s !! rid = Some r').
  { intros rid r'. cbn [run]. unfold RegisterResource. destruct (negb _) eqn:Ev; [by right|]. cbn [snd].
    unfold IngestResourceLocked. rewrite Ev.
    match goal with |- context [if ?b then _ else _] => destruct b end; cbn; rewrite lookup_insert; case_decide; naive_solver. }
  split.
  - intros rid r' [-> |Hr']%Hl Hcur; eauto.
  - intros id c' rid r' Hc' Hact Hin Hr'%Hl. destruct Hr' as [-> |Hr']; [by right|].
    destruct (active_origin (ORegisterResource r) s id c' HI I Hc' Hact) as (c & Hcid & Hg & [Hact'|Hev]); rewrite Hg in Hin; [by eauto|].
    destruct (Hev rid Hin) as (r2 & Hr2 & Hcur). rewrite Hr' in Hr2. injection Hr2 as <-. eauto.
Qed.
Lemma served_mark S b s :
  Inv s -> served_by S s -> served_by (fun o => S o /\ o <> pretty b) (run (OMarkEvidence (Id b)) s).
Proof.
  intros HI [Hc Ha]. set (f := fun r => if owned_by (pretty b) r then r <| Resource.evidence ::= require_revalidation |>
    <| Resource.health := ResourceHealth.UNKNOWN |> else r).
  assert (Hres : Impl.resources (run (OMarkEvidence (Id b)) s) = f <$> Impl.resources s) by done.
  assert (Hf : forall r, Evidence.durable (Resource.evidence (f r)) = Evidence.durable (Resource.evidence r) /\
    Evidence.owner (Resource.evidence (f r)) = Evidence.owner (Resource.evidence r) /\
    (owned_by (pretty b) r = false -> f r = r)).
  { intros r. unfold f. by destruct (owned_by _ r). }
  assert (Hne : forall r, owned_by (pretty b) r = false -> Evidence.owner (Resource.evidence r) <> pretty b).
  { intros r. unfold owned_by. intros [H _]%orb_false_iff. by apply String.eqb_neq. }
  split; rewrite Hres.
  - intros rid r'. rewrite lookup_fmap, fmap_Some. intros (r & Hr & ->) Hcur.
    destruct (owned_by (pretty b) r) eqn:E; [unfold f in Hcur; by rewrite E in Hcur|].
    destruct (Hf r) as (_ & _ & Heq). rewrite Heq in Hcur |- * by done. destruct (Hc rid r Hr Hcur); [by left|right]. auto.
  - intros id c' rid r' Hc' Hact Hin. rewrite lookup_fmap, fmap_Some. intros (r & Hr & ->).
    destruct (Hf r) as (Hd & Ho & Heq). rewrite Hd, Ho.
    cbn [run] in Hc'. unfold MarkEvidenceRevalidationRequired in Hc'. cbn in Hc'. rewrite lookup_fmap, fmap_Some in Hc'.
    destruct Hc' as (c & Hcid & ->).
    match type of Hact with context [if ?b then _ else _] => destruct b eqn:Eaff end; [done|].
    assert (Hown : owned_by (pretty b) r = false).
    { destruct (owned_by (pretty b) r) eqn:E; [|done]. exfalso. unfold lifecycle_is in Eaff.
      rewrite bool_decide_eq_true_2 in Eaff by done. cbn in Eaff. apply not_true_iff_false in Eaff. apply Eaff, existsb_exists.
      exists rid. split; [by apply list_elem_of_In|]. rewrite lookup_fmap, Hr. cbn. change (ToString (Id b)) with (pretty b).
      rewrite E. exact E. }
    destruct (Ha id c rid r Hcid Hact Hin Hr); [by left|right]. auto.
Qed.

(** ** After a start nothing is served by a worker *)
Definition nobody (o : string) : Prop := False.

Lemma served_load d s : served_by nobody (LoadState d s).
Proof.
  split.
  - intros rid r Hr Hcur. cbn -[insert_all] in Hr. apply insert_all_lookup in Hr as [Hin _].
    apply list_elem_of_fmap in Hin as (r0 & -> & _). unfold load_resource in *.
    destruct (Evidence.durable (Resource.evidence r0)) eqn:E; [by left|done].
  - intros id c rid r Hc Hact _ _. exfalso. eapply (Load_comps d s id c); [done|by right].
Qed.
Lemma served_advance S e s : served_by S s -> served_by S (AdvanceEpoch e s).
Proof.
  intros [Hc Ha]. unfold AdvanceEpoch. destruct (negb _); [done|]. split; cbn.
  - intros rid r'. rewrite lookup_fmap, fmap_Some. intros (r & Hr & ->) Hcur.
    destruct (Evidence.durable (Resource.evidence r)) eqn:E; [by left|done].
  - intros id c' rid r' Hc' Hact. rewrite lookup_fmap, fmap_Some in Hc'. destruct Hc' as (c & _ & ->).
    unfold lifecycle_is in Hact. case_bool_decide; done.
Qed.
Lemma seed_paths_resources syn s : Impl.resources (seed_paths syn s) = Impl.resources s.
Proof.
  unfold seed_paths. generalize (a ← Synthetic.nodes_ syn; b ← Synthetic.nodes_ syn; [(a, b)]). intros l. revert s.
  induction l as [|[a b] l IH]; intros s; [done|]. cbn [fold_left]. rewrite IH. unfold seed_path.
  destruct (id_eqb _ _); [done|]. by destruct (Synthetic.ResolvePath _ _).
Qed.
Lemma served_seeded : served_by nobody seeded.
Proof.
  assert (H : Impl.resources seeded = ∅) by (unfold seeded; by rewrite seed_paths_resources).
  split; rewrite H; [done|]. intros id c rid r _ _ _ Hr. done.
Qed.
Lemma served_startup o epochVal path fs : served_by nobody (startup o epochVal path fs).2.
Proof.
  destruct (startup_cases o epochVal path fs) as (s & -> & Hs). apply served_advance.
  destruct Hs as [-> |[d ->]]; [apply served_seeded|apply served_load].
Qed.

(** ** The invariant of the process *)
Section invariant.
Context (B : nat -> N) (path markdir what : string).

Definition thread_tracks (k : nat) (ob : option N) (th : thread) : Prop :=
  match th with
  | Waiting c => conn_ok (B k) c /\ owner_of c = ob
  | Busy p => tracks (settled (B k)) ob p
  end.
(** Some thread will revoke what belongs to [owner]. *)
Definition served (ts : gmap nat thread) (owner : string) : Prop :=
  exists k th, ts !! k = Some th /\ thread_tracks k (Some (B k)) th /\ owner = pretty (B k).

Record live_inv (w : World.t) : Prop := {
  li_threads : forall k th, World.threads w !! k = Some th ->
    exists ob, thread_tracks k ob th /\ (ob = None \/ ob = Some (B k));
  li_served : served_by (served (World.threads w)) (Coord.engine (World.coord w)) }.

(** A thread is replaced by one that is bound at least as much. *)
Lemma served_insert ts k th th' o :
  ts !! k = Some th -> (thread_tracks k (Some (B k)) th -> thread_tracks k (Some (B k)) th') ->
  served ts o -> served (<[k := th']> ts) o.
Proof.
  intros Hk Ht (j & th0 & Hj & Htr & ->). destruct (decide (j = k)) as [->|Hne].
  - rewrite Hk in Hj. injection Hj as <-. exists k, th'. rewrite lookup_insert_eq. auto.
  - exists j, th0. by rewrite lookup_insert_ne.
Qed.
(** A thread that has revoked is gone from the servers of other owners only. *)
Lemma served_replace ts k th o : served ts o /\ o <> pretty (B k) -> served (<[k := th]> ts) o.
Proof.
  intros [(j & th0 & Hj & Htr & ->) Hne]. exists j, th0. rewrite lookup_insert_ne; [auto|]. by intros ->.
Qed.
Lemma served_delete ts k th o :
  ts !! k = Some th -> ~ thread_tracks k (Some (B k)) th -> served ts o -> served (delete k ts) o.
Proof.
  intros Hk Hn (j & th0 & Hj & Htr & ->). exists j, th0. rewrite lookup_delete_ne; [auto|]. intros ->.
  rewrite Hk in Hj. injection Hj as <-. done.
Qed.

(** The operations other than publishing and revoking leave the resources alone. *)
Lemma quiet_resources o s :
  wire_op o -> match o with ORegisterResource _ | OMarkEvidence _ => False | _ => True end ->
  Impl.resources (run o s) = Impl.resources s.
Proof.
  destruct o; try done; cbn [run]; intros _ _.
  - unfold RegisterNode, IngestNodeLocked. by repeat case_match.
  - by rewrite Compose_frame.
  - unfold Reserve. repeat (destruct (negb _); [done|]).
    by destruct (reserve_loop _ _ _ _ _) as [[m items] [[reason note]|]].
  - unfold Commit. by repeat case_match.
  - unfold Activate. by repeat case_match.
  - unfold Release, release_reservation. by repeat case_match.
Qed.

Lemma live_insert w k th th' co :
  live_inv w -> World.threads w !! k = Some th ->
  (forall ob, thread_tracks k ob th -> thread_tracks k ob th') ->
  (served_by (served (World.threads w)) (Coord.engine (World.coord w)) -> served_by (served (World.threads w)) (Coord.engine co)) ->
  live_inv (w <| World.coord := co |> <| World.threads ::= <[k := th']> |>).
Proof.
  intros [Ht Hs] Hk Htr Hco. split; cbn.
  - intros j th0. rewrite lookup_insert. case_decide; [|apply Ht]. subst j. intros [= <-].
    destruct (Ht k th Hk) as (ob & Hob & Hc). eauto.
  - eapply served_mono; [|by apply Hco]. intros o. apply (served_insert _ k th); auto.
Qed.

Lemma live_call w k X (e : coordE X) kont x co :
  live_inv w -> Inv (Coord.engine (World.coord w)) -> World.threads w !! k = Some (Busy (Call e kont)) ->
  coord_step k X e (World.coord w) x co -> Coord.dead co = None ->
  live_inv (w <| World.coord := co |> <| World.threads ::= <[k := Busy (kont x)]> |>).
Proof.
  intros Hw HI Hk Hstep Hd. pose proof (coord_step_op _ _ _ _ _ _ Hstep) as He.
  pose proof (li_threads _ Hw k _ Hk) as (ob & Hob & Hcase).
  assert (Hq : forall o, op_of e = Some o -> match o with ORegisterResource _ | OMarkEvidence _ => False | _ => True end ->
    served_by (served (World.threads w)) (Coord.engine (World.coord w)) -> served_by (served (World.threads w)) (Coord.engine co)).
  { intros o Ho Hm Hs. rewrite He, Ho. pose proof (op_of_wire _ _ Ho). apply served_same_resources; [done..| |done]. by apply quiet_resources. }
  assert (Hn : op_of e = None ->
    served_by (served (World.threads w)) (Coord.engine (World.coord w)) -> served_by (served (World.threads w)) (Coord.engine co)).
  { intros Ho Hs. by rewrite He, Ho. }
  destruct e; try (eapply live_insert; [done|exact Hk|by intros ob0 H; exact (H x)|]; solve [by eapply Hq|by apply Hn]).
  - (* a resource is published *)
    cbn in Hob. destruct Hob as [(b & -> & Hown & _) _]. destruct Hcase as [|Hb]; [done|]. injection Hb as ->.
    eapply live_insert; [done|exact Hk|intros ob0 [_ H]; exact (H x)|]. intros Hs. rewrite He. apply served_register; [done| |done].
    exists k, (Busy (Call (ERegisterResource r) kont)). split_and!; [done| |done].
    destruct (li_threads _ Hw k _ Hk) as (ob & Hob & [-> |Hcase]); [|congruence].
    cbn in Hob. by destruct Hob as [(b & [=] & _) _].
  - (* the worker is gone *)
    cbn in Hob. destruct Hob as [-> Hnext]. destruct Hcase as [|Hb]; [done|]. injection Hb as Hb.
    destruct x. split; cbn.
    + intros j th0. rewrite lookup_insert. case_decide; [|apply (li_threads _ Hw)]. subst j. intros [= <-].
      exists None. by split; [|left].
    + eapply served_mono; [intros o; by apply served_replace|]. rewrite He. destruct boot as [v]. cbn in Hb. subst v.
      by apply served_mark, (li_served _ Hw).
  - cbn in Hstep. by subst co.
  - cbn in Hstep. by subst co.
Qed.

Lemma live_step w w' :
  wreachable (one_boot B) path markdir what w -> wstep (one_boot B) path markdir what w w' ->
  (Coord.dead (World.coord w) = None -> live_inv w) -> Coord.dead (World.coord w') = None -> live_inv w'.
Proof.
  intros Hr Hs. destruct Hs as [k w Hd Hk|k c got data w Hd Hk Hl Hg Ha|k X e kont x co w Hd Hk Hs|k c w Hd Hk|k w Hd Hk|o ep w];
    intros Hw Hd'; try specialize (Hw Hd).
  - split; cbn.
    + intros j th. rewrite lookup_insert. case_decide; [|apply (li_threads _ Hw)]. intros [= <-].
      exists None. by split; [|left].
    + eapply served_mono; [|apply (li_served _ Hw)]. intros o (j & th & Hj & Hth). exists j, th.
      rewrite lookup_insert_ne; [done|]. intros ->. by rewrite Hk in Hj.
  - destruct (li_threads _ Hw k _ Hk) as (ob0 & [Hc Ho] & _).
    destruct (round_tracks coord_syn path markdir what (B k) got data c Hc Ha) as (ob & Htr & Hown & Hcase).
    split; cbn.
    + intros j th. rewrite lookup_insert. case_decide; [|apply (li_threads _ Hw)]. subst j. intros [= <-]. eauto.
    + eapply served_mono; [|apply (li_served _ Hw)]. intros o. apply (served_insert _ k _ _ _ Hk).
      intros [_ Hc']. rewrite Hc' in Hown. destruct Hown as [|<-]; [done|]. exact Htr.
  - eapply live_call; [done| |exact Hk|exact Hs|exact Hd']. eapply Inv_reachable, wreachable_engine, Hr.
  - apply (live_insert w k (Busy (Done (Some c))) (Waiting c) (World.coord w)); done.
  - split; cbn.
    + intros j th. rewrite lookup_delete. case_decide; [done|apply (li_threads _ Hw)].
    + eapply served_mono; [|apply (li_served _ Hw)]. intros o. eapply served_delete; [exact Hk|]. by cbn.
  - split; cbn; [done|]. eapply served_mono; [|apply served_startup]. done.
Qed.
Lemma live_reachable w : wreachable (one_boot B) path markdir what w -> Coord.dead (World.coord w) = None -> live_inv w.
Proof.
  induction 1 as [o ep fs|w w' Hw IH Hs]; intros Hd.
  - split; cbn; [done|]. eapply served_mono; [|apply served_startup]. done.
  - by eapply live_step.
Qed.
End invariant.
