(* ===== verification/CoordRun.v ===== *)
(** * Executions of the coordinator without failures

    [feed] lets a connection receive one chunk and runs its thread to the end of
    the round, [hangup] closes the connection from the peer's side.  They are
    executions of [wstep] ([feed_reachable], [hangup_reachable]), so a concrete
    session can be computed and its states are reachable. *)

From S2P Require Import Prelude Effects Net Bytes Enums Ids Args Double Model Codec Wire Protocol.
From S2P Require Import Planner Engine Persistence Storage Synthetic Lifecycle Coordinator.

(** ** The evaluator is an execution *)
Lemma send_loop_all bytes : exists answers, send_loop answers bytes [] = (Some true, bytes).
Proof.
  destruct bytes as [|b bytes]; [by exists []|]. exists [OsCount (Z.of_nat (length (b :: bytes)))].
  cbn [send_loop]. unfold SendSome. rewrite (proj2 (Z.leb_gt _ _)) by (cbn; lia).
  rewrite (proj2 (Z.ltb_ge _ _)), (proj2 (Z.gtb_lt _ _)) by (cbn; lia). rewrite Nat2Z.id, drop_all, firstn_all. done.
Qed.
Lemma on_engine_eq {X : Type} (f : Impl.t -> X * Impl.t) w : ((on_engine f w).1, (on_engine f w).2) = on_engine f w.
Proof. by destruct (on_engine f w). Qed.
Lemma coord_eval_step k X (e : coordE X) w : coord_step k X e w (coord_eval k X e w).1 (coord_eval k X e w).2.
Proof.
  destruct e; cbn [coord_step coord_eval]; try apply on_engine_eq; try done.
  - pose proof (fs_eval_step X e (Coord.files w)) as H. destruct (fs_eval X e (Coord.files w)) as [x fs]. by exists fs.
  - destruct (send_loop_all bytes) as [answers Ha]. by exists answers, bytes.
Qed.

(** The process never comes back to life by itself. *)
Lemma coord_eval_dead k X (e : coordE X) w : Coord.dead (coord_eval k X e w).2 = None -> Coord.dead w = None.
Proof.
  destruct e; cbn [coord_eval]; unfold on_engine;
    try (match goal with |- context [let '(_, _) := ?f in _] => destruct f end); by cbn.
Qed.
Lemma eval_prog_dead {A : Type} k (p : prog coordE A) w :
  Coord.dead (eval_prog (coord_eval k) p w).2 = None -> Coord.dead w = None.
Proof.
  revert w. induction p as [a|X e kont IH]; intros w; cbn; [done|]. pose proof (coord_eval_dead k X e w) as He.
  destruct (coord_eval k X e w) as [x w1]. intros H%IH. auto.
Qed.

Section process.
Context (allowed : nat -> list byte -> list byte -> Prop) (path markdir what : string).
Abbreviation reach := (wreachable allowed path markdir what).

Definition accept (k : nat) (w : World.t) : World.t :=
  w <| World.threads ::= <[k := Waiting Conn.init]> |> <| World.coord ::= fun co => co <| Coord.sent ::= <[k := []]> |> |>.
Definition round_of (k : nat) (got : Z) (data : list byte) (w : World.t) : World.t :=
  match World.threads w !! k with
  | Some (Waiting c) =>
      let '(oc, co) := eval_prog (coord_eval k) (on_recv coord_syn path markdir what got data c) (World.coord w) in
      World.mk co (match oc with Some c' => <[k := Waiting c']> (World.threads w) | None => delete k (World.threads w) end)
  | _ => w
  end.
Definition feed (k : nat) (data : list byte) (w : World.t) : World.t := round_of k (Z.of_nat (length data)) data w.
Definition hangup (k : nat) (w : World.t) : World.t := round_of k 0 [] w.

Lemma accept_reachable k w : reach w -> Coord.dead (World.coord w) = None -> World.threads w !! k = None -> reach (accept k w).
Proof. intros Hw Hd Hk. eapply wr_step; [exact Hw|]. by apply ws_accept. Qed.

(** A busy thread run to the end of its program. *)
Lemma busy_reachable k p w :
  reach w -> World.threads w !! k = Some (Busy p) -> Coord.dead (eval_prog (coord_eval k) p (World.coord w)).2 = None ->
  reach (w <| World.coord := (eval_prog (coord_eval k) p (World.coord w)).2 |>
           <| World.threads ::= <[k := Busy (Done (eval_prog (coord_eval k) p (World.coord w)).1)]> |>).
Proof.
  revert w. induction p as [a|X e kont IH]; intros w Hw Hk Hd.
  - replace (_ <| World.threads ::= _ |>) with w; [done|]. destruct w as [co ts]. cbn in *. f_equal. by rewrite insert_id.
  - pose proof (eval_prog_dead k (Call e kont) (World.coord w) Hd) as Hd0. cbn in Hd |- *.
    pose proof (coord_eval_step k X e (World.coord w)) as Hs. destruct (coord_eval k X e (World.coord w)) as [x co]. cbn in Hs, Hd.
    assert (Hw1 : reach (w <| World.coord := co |> <| World.threads ::= <[k := Busy (kont x)]> |>)).
    { eapply wr_step; [exact Hw|]. by eapply ws_call. }
    specialize (IH x _ Hw1). cbn in IH. rewrite lookup_insert_eq in IH. specialize (IH eq_refl Hd).
    destruct (eval_prog (coord_eval k) (kont x) co) as [a co']. by rewrite insert_insert_eq in IH.
Qed.

Lemma round_reachable k got data w :
  reach w -> Coord.dead (World.coord w) = None -> N.of_nat (length data) <= 8192 -> (got <= Z.of_nat (length data))%Z ->
  (forall c, World.threads w !! k = Some (Waiting c) -> allowed k (Conn.buffer c) (take (Z.to_nat got) data)) ->
  Coord.dead (World.coord (round_of k got data w)) = None -> reach (round_of k got data w).
Proof.
  intros Hw Hd Hl Hg Ha. unfold round_of. destruct (World.threads w !! k) as [[c|p]|] eqn:Hk; [|done..].
  set (p := on_recv coord_syn path markdir what got data c). specialize (Ha c eq_refl).
  assert (Hw1 : reach (w <| World.threads ::= <[k := Busy p]> |>)) by (eapply wr_step; [exact Hw|]; by apply ws_recv).
  pose proof (busy_reachable k p _ Hw1 (lookup_insert_eq _ _ _)) as Hb. cbn in Hb.
  destruct (eval_prog (coord_eval k) p (World.coord w)) as [oc co] eqn:E. cbn in Hb. intros Hd'. cbn in Hd'.
  specialize (Hb Hd'). rewrite insert_insert_eq in Hb. destruct oc as [c'|].
  - eapply wr_step in Hb; [|eapply (ws_wait _ _ _ _ k c'); [exact Hd'|apply lookup_insert_eq]].
    cbn in Hb. by rewrite insert_insert_eq in Hb.
  - eapply wr_step in Hb; [|eapply (ws_end _ _ _ _ k); [exact Hd'|apply lookup_insert_eq]].
    cbn in Hb. by rewrite delete_insert_eq in Hb.
Qed.
Lemma feed_reachable k data w :
  reach w -> Coord.dead (World.coord w) = None -> N.of_nat (length data) <= 8192 ->
  (forall c, World.threads w !! k = Some (Waiting c) -> allowed k (Conn.buffer c) data) ->
  Coord.dead (World.coord (feed k data w)) = None -> reach (feed k data w).
Proof.
  intros Hw Hd Hl Ha. apply round_reachable; [done..|]. rewrite Nat2Z.id, firstn_all. done.
Qed.
Lemma hangup_reachable k w :
  reach w -> Coord.dead (World.coord w) = None ->
  (forall c, World.threads w !! k = Some (Waiting c) -> allowed k (Conn.buffer c) []) ->
  Coord.dead (World.coord (hangup k w)) = None -> reach (hangup k w).
Proof. intros Hw Hd Ha. by apply round_reachable. Qed.
End process.
