(* ===== verification/Worker.v ===== *)
(** * The worker process

    [deploy/worker.cpp]: it introduces itself with HELLO and REGISTER, then takes
    the descriptors that the coordinator serves, stamps them with its own boot id
    and publishes them back, and answers heartbeats.  [worker_start] is the part
    of [main] before the receive loop, [worker_recv] one round of the loop. *)

From S2P Require Import Prelude Effects Net Bytes Enums Ids Args Double Model Codec Wire Protocol.

Inductive workE : Type -> Type :=
  | WSend (bytes : list byte) : workE bool    (* the send loop; false is its break or return *)
  | WTerminate (what : string) : workE unit   (* an exception leaves main *)
  | WUndefined : workE unit.

(** The local variables of [main]. *)
Module Worker.
Record t := mk { buffer : list byte; corrNext : N; alive : bool }.
#[global] Instance eta_t : Eta t := fun w => mk (buffer w) (corrNext w) (alive w).
Definition init : t := mk [] 100 true.
End Worker.

(** [None]: the process has ended. *)
Abbreviation wprog := (prog workE (option Worker.t)).

Definition MakeCorrPayload (v : N) : list byte := match Wr.U64 v [] with inr b => b | inl _ => [] end.
(** [None] is a read outside the buffer. *)
Definition ReadCorrPayload (p : list byte) : option N := fst <$> Rd.U64 (MakeReader p).
Definition ReadBool (p : list byte) : option bool := (fun v => negb (v =? 0)) ∘ fst <$> Rd.U8 (MakeReader p).
Definition register_payload (ids : list N) : W :=
  Wr.U32 (wrap32 (N.of_nat (length ids))) ;>> Wr.each Wr.U64 ids.

Definition worker_start (boot : N) (nodesArg : string) : wprog :=
  ok ← call (WSend (Encode FrameType.HELLO 1 (MakeCorrPayload boot)));
  if negb ok then mret None
  else
    match register_payload (node_ids nodesArg) [] with
    | inl e => call (WTerminate e);; mret None
    | inr regbody =>
        ok ← call (WSend (Encode FrameType.REGISTER 2 regbody));
        if negb ok then mret None else mret (Some Worker.init)
    end.

(** [Encode(type, ++corrNext, payload)] and the send loop. *)
Definition worker_send (type : FrameType.t) (payload : list byte) (w : Worker.t) : prog workE Worker.t :=
  let w := w <| Worker.corrNext ::= fun n => wrap64 (n + 1) |> in
  ok ← call (WSend (Encode type (Worker.corrNext w) payload));
  mret (if ok : bool then w else w <| Worker.alive := false |>).
Definition worker_publish (type : FrameType.t) (enc : W) (w : Worker.t) : wprog :=
  match enc [] with
  | inl e => call (WTerminate e);; mret None
  | inr b => w ← worker_send type b w; mret (Some w)
  end.

(** The stamps of a worker. *)
Definition stamp_node (boot : N) (n : Node.t) : Node.t :=
  n <| Node.worker_owner := pretty boot |> <| Node.worker_boot := Id boot |>.
Definition stamp_evidence (boot : N) (e : Evidence.t) : Evidence.t :=
  e <| Evidence.owner := pretty boot |> <| Evidence.provenance := "worker-" +:+ pretty boot |>
    <| Evidence.durable := false |> <| Evidence.state := EvidenceState.FRESH |>
    <| Evidence.max_age_ms := 3600000 |> <| Evidence.generation := Id (wrap64 (boot + 1)) |>.
Definition stamp_resource (boot : N) (r : Resource.t) : Resource.t :=
  r <| Resource.evidence ::= stamp_evidence boot |> <| Resource.authority_owner := pretty boot |>
    <| Resource.health := ResourceHealth.HEALTHY |> <| Resource.readiness := Readiness.READY |>
    <| Resource.reachability := Reachability.REACHABLE |>.

Definition worker_frame (boot : N) (f : Frame.t) (ow : option Worker.t) : wprog :=
  match ow with
  | None => mret None
  | Some w =>
      match Frame.type f with
      | FrameType.PUBLISH_NODE =>
          match DecodeNode (MakeReader (Frame.payload f), Node.dflt) with
          | (Fault, _) => call WUndefined;; mret None
          | (Ret _, (_, n)) => worker_publish FrameType.PUBLISH_NODE (EncodeNode wire_too_long (stamp_node boot n)) w
          | (Fail, _) => mret (Some w)
          end
      | FrameType.PUBLISH_RESOURCE =>
          match DecodeResource (MakeReader (Frame.payload f), Resource.dflt) with
          | (Fault, _) => call WUndefined;; mret None
          | (Ret _, (_, r)) => worker_publish FrameType.PUBLISH_RESOURCE (EncodeResource wire_too_long (stamp_resource boot r)) w
          | (Fail, _) => mret (Some w)
          end
      | FrameType.HEARTBEAT => w ← worker_send FrameType.HEARTBEAT [] w; mret (Some w)
      | _ => mret (Some w)
      end
  end.

(** One round: the result of [RecvSome] and the bytes it stored (at most 4096). *)
Definition worker_recv (boot : N) (got : Z) (data : list byte) (w : Worker.t) : wprog :=
  if (got =? -2)%Z then mret (Some w)
  else if (got <=? 0)%Z then mret None
  else
    match Feed (Worker.buffer w) (take (Z.to_nat got) data) with
    | None => call WUndefined;; mret None
    | Some r =>
        let w := w <| Worker.buffer := fr_buffer r |> in
        match fr_error r with
        | Some _ => mret None
        | None =>
            ow ← for_each (worker_frame boot) (fr_out r) (Some w);
            match ow with
            | None => mret None
            | Some w => if Worker.alive w then mret (Some w) else mret None
            end
        end
    end.

(** The calls when nothing fails: the bytes sent, and why the process went down. *)
Record Outbox := mkOutbox { ob_sent : list byte; ob_dead : option string }.
Definition work_eval (X : Type) (e : workE X) : Outbox -> X * Outbox :=
  match e in workE X return Outbox -> X * Outbox with
  | WSend bytes => fun o => (true, mkOutbox (ob_sent o ++ bytes) (ob_dead o))
  | WTerminate what => fun o => (tt, mkOutbox (ob_sent o) (Some what))
  | WUndefined => fun o => (tt, mkOutbox (ob_sent o) (Some "undefined behaviour"))
  end.
