(* ===== verification/CoordDefined.v ===== *)
(** * No undefined behaviour in the processes

    Whatever bytes arrive, a round of the receive loop of the coordinator or of
    a worker never reads outside a buffer: the frame decoder, the readers and the
    decoders of the codec are safe on every payload that a frame can carry. *)

From S2P Require Import Prelude Effects Net Bytes Enums Ids Args Double Model Codec Wire WireProps Protocol ProtocolProps.
From S2P Require Import Planner Engine Persistence Storage Synthetic Coordinator Worker.

Definition defined (X : Type) (e : coordE X) : Prop := match e with EUndefined => False | _ => True end.
Definition wdefined (X : Type) (e : workE X) : Prop := match e with WUndefined => False | _ => True end.

(** ** Payloads *)
Lemma frame_reader f : frame_ok f -> reader_wf (MakeReader (Frame.payload f)).
Proof.
  intros [Hl _]. split; [apply N.le_0_l|]. unfold Rd.size. cbn. pose proof (MaxFrameLen_bounds (Frame.type f)).
  unfold u64_ok. lia.
Qed.
Lemma decode_into_defined {T : Type} (m : Dec T unit) t f : safe m -> frame_ok f -> (decode_into m t (Frame.payload f)).1 <> Fault.
Proof.
  intros Hm Hf. destruct (Hm _ t (frame_reader f Hf)) as (o & r' & t' & E & Ho & _). unfold decode_into. by rewrite E.
Qed.
Lemma read_ids_defined n r : reader_wf r -> is_Some (read_ids n r).
Proof.
  revert r. induction n as [|n IH]; intros r Hr; cbn; [by eexists|].
  destruct (U64_safe r Hr) as (v & r' & -> & Hm). destruct (IH r') as [ids ->]; [apply Hm|by eexists].
Qed.
Lemma register_ids_defined f : frame_ok f -> is_Some (register_ids (Frame.payload f)).
Proof.
  intros Hf. unfold register_ids. destruct (U32_safe _ (frame_reader f Hf)) as (n & r & -> & Hm). apply read_ids_defined, Hm.
Qed.
Lemma payload_u64 f : frame_ok f -> exists v r, Rd.U64 (MakeReader (Frame.payload f)) = Some (v, r).
Proof. intros Hf. destruct (U64_safe _ (frame_reader f Hf)) as (v & r & H & _). eauto. Qed.

(** ** The coordinator *)
Abbreviation all_defined := (always defined (fun _ => True)).
Lemma defined_bind {A B : Type} (p : prog coordE A) (f : A -> prog coordE B) :
  all_defined p -> (forall a, all_defined (f a)) -> all_defined (p ≫= f).
Proof. intros Hp Hf. eapply always_bind; [exact Hp|auto]. Qed.
Lemma defined_for_each {A C : Type} (body : A -> C -> prog coordE C) l c :
  (forall x c, all_defined (body x c)) -> all_defined (for_each body l c).
Proof. intros Hb. apply (always_for_each defined body _ (fun _ => True)); [auto|by apply Forall_true|done]. Qed.
Lemma defined_lift {A : Type} (p : prog fsE A) : all_defined (lift (@EFs) p).
Proof. induction p as [a|X e k IH]; cbn; auto. Qed.
Lemma defined_send type corr w c : all_defined (send_encoded type corr w c).
Proof. unfold send_encoded. destruct (w []); cbn; auto. Qed.
Lemma defined_reply type corr payload c : all_defined (c ← send_frame type corr payload c; mret (Some c)).
Proof. cbn. auto. Qed.
Lemma defined_save path what : all_defined (engine_save path what).
Proof. split; [done|]. intros d. apply defined_bind; [apply defined_lift|done]. Qed.
Lemma defined_marker markdir name : all_defined (WriteMarker markdir name).
Proof. unfold WriteMarker. destruct markdir; [done|]. split; [done|]. by intros [|]; cbn. Qed.

Section coordinator.
Context (syn : Synthetic.t) (path markdir what : string).

Lemma defined_persist ok name oc : all_defined (persist_if path markdir what ok name oc).
Proof.
  unfold persist_if. destruct oc as [c|]; [|done]. destruct ok; [|done].
  apply defined_bind; [apply defined_save|]. intros _. apply defined_bind; [apply defined_marker|done].
Qed.
Lemma defined_register f c : frame_ok f -> all_defined (on_register syn f c).
Proof.
  intros Hf. unfold on_register. destruct (register_ids_defined f Hf) as [ids ->]. apply defined_bind; [|intros [c'|]; [apply defined_reply|done]].
  apply defined_for_each. intros nid oc. unfold serve_id. apply defined_bind; [|intros oc']; apply defined_for_each;
    intros x [c'|]; unfold serve_node, serve_resource; try done; (destruct (id_eqb _ _); [apply defined_send|done]).
Qed.

Lemma on_frame_defined f oc : frame_ok f -> all_defined (on_frame syn path markdir what f oc).
Proof.
  intros Hf. destruct oc as [c|]; [|done]. unfold on_frame. destruct (payload_u64 f Hf) as (v & r & Hu).
  destruct (Frame.type f); try done.
  - unfold on_hello. rewrite Hu. apply defined_reply.
  - by apply defined_register.
  - unfold on_publish_node. pose proof (decode_into_defined DecodeNode Node.dflt f ltac:(auto with safe) Hf).
    destruct (decode_into _ _ _) as [[| |] n]; try done. destruct (Conn.isWorker c); cbn; auto.
  - unfold on_publish_resource. pose proof (decode_into_defined DecodeResource Resource.dflt f ltac:(auto with safe) Hf).
    destruct (decode_into _ _ _) as [[| |] n]; try done. destruct (Conn.isWorker c); cbn; auto.
  - unfold on_compose. pose proof (decode_into_defined DecodeRequest CompositionRequest.dflt f ltac:(auto with safe) Hf).
    destruct (decode_into _ _ _) as [[| |] q]; try done; (split; [done|]; intros cr; apply defined_send).
  - unfold on_reserve. pose proof (decode_into_defined DecodePlan CompositionPlan.dflt f ltac:(auto with safe) Hf).
    destruct (decode_into _ _ _) as [[| |] q]; try done;
      (split; [done|]; intros rr; apply defined_bind; [apply defined_send|intros oc; apply defined_persist]).
  - unfold on_commit. pose proof (decode_into_defined DecodeReservation Reservation.dflt f ltac:(auto with safe) Hf).
    destruct (decode_into _ _ _) as [[| |] q]; try done;
      (split; [done|]; intros rr; apply defined_bind; [apply defined_send|intros oc; apply defined_persist]).
  - unfold on_activate. rewrite Hu. split; [done|]. intros ar. apply defined_send.
  - split; [done|]. intros sn. apply defined_send.
  - unfold on_save. apply defined_bind; [apply defined_save|]. intros _. apply defined_reply.
  - unfold on_release. rewrite Hu. split; [done|]. intros ok. apply defined_send.
Qed.

Lemma finish_defined c : all_defined (finish c).
Proof. unfold finish. destruct (_ && _); cbn; auto. Qed.
Lemma on_recv_defined got data c : all_defined (on_recv syn path markdir what got data c).
Proof.
  unfold on_recv. destruct (got =? -2)%Z; [done|]. destruct (got =? 0)%Z; [apply finish_defined|].
  destruct (got <? 0)%Z; [apply finish_defined|].
  destruct (Feed_feeds (Conn.buffer c) (take (Z.to_nat got) data)) as (fs & e & b & -> & Hf). cbn [fr_error fr_out fr_buffer].
  destruct e as [e|]; [apply finish_defined|]. apply feeds_prefix in Hf as [Hf _]. apply defined_bind.
  - apply (always_for_each defined _ _ frame_ok); [intros; by apply on_frame_defined|done|done].
  - intros [c'|]; [|done]. unfold continue_or_finish. destruct (Conn.done c'); [apply finish_defined|done].
Qed.
End coordinator.

(** ** The worker *)
Lemma worker_frame_defined boot f ow : frame_ok f -> always wdefined (fun _ => True) (worker_frame boot f ow).
Proof.
  intros Hf. destruct ow as [w|]; [|done]. unfold worker_frame.
  assert (Hpub : forall type enc, always wdefined (fun _ => True) (worker_publish type enc w))
    by (intros type enc; unfold worker_publish; destruct (enc []); cbn; auto).
  destruct (Frame.type f); try done; [..|cbn; auto].
  - destruct (ltac:(auto with safe) : safe DecodeNode) with (t := Node.dflt) (r := MakeReader (Frame.payload f)) as (o & r & t & -> & Ho & _);
      [by apply frame_reader|]. by destruct o.
  - destruct (ltac:(auto with safe) : safe DecodeResource) with (t := Resource.dflt) (r := MakeReader (Frame.payload f)) as (o & r & t & -> & Ho & _);
      [by apply frame_reader|]. by destruct o.
Qed.
Lemma worker_recv_defined boot got data w : always wdefined (fun _ => True) (worker_recv boot got data w).
Proof.
  unfold worker_recv. destruct (got =? -2)%Z; [done|]. destruct (got <=? 0)%Z; [done|].
  destruct (Feed_feeds (Worker.buffer w) (take (Z.to_nat got) data)) as (fs & e & b & -> & Hf). cbn [fr_error fr_out fr_buffer].
  destruct e as [e|]; [done|]. apply feeds_prefix in Hf as [Hf _]. eapply always_bind.
  - apply (always_for_each wdefined _ (fun _ => True) frame_ok); [intros; by apply worker_frame_defined|done|done].
  - intros [w'|] _; [|done]. by destruct (Worker.alive w').
Qed.
