(* ===== verification/CoordTrace.v ===== *)
(** * The coordinator as a server of sessions

    An abstract specification of [deploy/coordinator.cpp] and the simulation that
    relates the process to it.  The specification knows no threads, handlers, files
    or responses.  It reads the events of an execution ([event]): starts, accepted
    connections, bytes received, connections lost, and engine operations, each with
    the connection that caused it.  For every connection it keeps the undecoded
    bytes, the boot id announced by the last HELLO and the engine operations that
    the received frames still owe ([Session]); it refuses an operation that is not
    the next one owed, bytes received before the previous ones were served, and
    the end of a connection that owes an operation ([spec_step]).  A connection
    that closes owes, after the operations of its frames, the revocation of the
    evidence of its boot id.

    [lstep] is the process with its events, [traced] its executions, and [follows]
    relates a thread in the middle of a round to its session. *)

From S2P Require Import Prelude Effects Net Bytes Enums Ids Args Double Model Codec Wire Protocol.
From S2P Require Import Planner Engine Persistence Storage Synthetic Lifecycle ProtocolProps Coordinator CoordSafety CoordDefined.

(** ** What a frame asks for *)
Definition frame_u64 (f : Frame.t) : option N := fst <$> Rd.U64 (MakeReader (Frame.payload f)).
Definition frame_boot (boot : N) (f : Frame.t) : N :=
  match Frame.type f with FrameType.HELLO => default boot (frame_u64 f) | _ => boot end.
(** Only a worker, a peer with a boot id other than 0, publishes, and only what
    decodes; the other requests are executed on the object as far as it was decoded. *)
Definition frame_ops (boot : N) (f : Frame.t) : list op :=
  match Frame.type f with
  | FrameType.PUBLISH_NODE =>
      match decode_into DecodeNode Node.dflt (Frame.payload f) with
      | (Ret _, n) => if boot =? 0 then [] else [ORegisterNode (own_node boot n)]
      | _ => []
      end
  | FrameType.PUBLISH_RESOURCE =>
      match decode_into DecodeResource Resource.dflt (Frame.payload f) with
      | (Ret _, r) => if boot =? 0 then [] else [ORegisterResource (own_resource boot r)]
      | _ => []
      end
  | FrameType.COMPOSE_REQ => [OCompose (decode_into DecodeRequest CompositionRequest.dflt (Frame.payload f)).2]
  | FrameType.RESERVE_REQ => [OReserve (decode_into DecodePlan CompositionPlan.dflt (Frame.payload f)).2]
  | FrameType.COMMIT_REQ => [OCommit (decode_into DecodeReservation Reservation.dflt (Frame.payload f)).2]
  | FrameType.ACTIVATE_REQ => (fun id => OActivate (Id id)) <$> option_list (frame_u64 f)
  | FrameType.RELEASE_REQ => (fun id => ORelease (Id id)) <$> option_list (frame_u64 f)
  | _ => []
  end.
Definition is_bye (f : Frame.t) : bool := bool_decide (Frame.type f = FrameType.BYE).

Fixpoint frames_ops (boot : N) (fs : list Frame.t) : list op :=
  match fs with [] => [] | f :: fs => frame_ops boot f ++ frames_ops (frame_boot boot f) fs end.
Definition frames_boot (boot : N) (fs : list Frame.t) : N := fold_left frame_boot fs boot.
Definition revocation (boot : N) : list op := if boot =? 0 then [] else [OMarkEvidence (Id boot)].

(** ** Sessions *)
Module Session.
Record t := mk { rest : list byte; boot : N; owed : list op; closing : bool }.
#[global] Instance eta_t : Eta t := fun s => mk (rest s) (boot s) (owed s) (closing s).
Definition init : t := mk [] 0 [] false.

Definition close (s : t) : t :=
  if closing s then s else s <| closing := true |> <| owed ::= fun l => l ++ revocation (boot s) |>.
(** A session that has served everything receives [data].  A protocol error closes
    it, and no frame of these bytes is served; BYE closes it after all frames. *)
Definition receive (data : list byte) (s : t) : option t :=
  if closing s || negb (bool_decide (length (owed s) = 0%nat)) then None
  else
    r ← Feed (rest s) data;
    let s := s <| rest := fr_buffer r |> in
    match fr_error r with
    | Some _ => Some (close s)
    | None =>
        let s := s <| boot := frames_boot (boot s) (fr_out r) |> <| owed := frames_ops (boot s) (fr_out r) |> in
        Some (if existsb is_bye (fr_out r) then close s else s)
    end.
End Session.

(** ** Events and the specification *)
Inductive event : Type :=
  | LStart (o : ReadOutcome) (epochVal : N) (fs : Fs)
  | LAccept (k : nat)
  | LRecv (k : nat) (data : list byte)
  | LLost (k : nat)              (* end of stream, an error of the socket, or a failed send *)
  | LOp (k : nat) (o : op)
  | LEnd (k : nat)
  | LCrash (k : nat).            (* an exception leaves the thread *)

Module Spec.
Record t := mk { engine : Impl.t; sessions : gmap nat Session.t; up : bool }.
#[global] Instance eta_t : Eta t := fun a => mk (engine a) (sessions a) (up a).
End Spec.

(** An event determines the next state, if it is allowed at all. *)
Inductive spec_step (path : string) : Spec.t -> event -> Spec.t -> Prop :=
  | sp_start a o epochVal fs : spec_step path a (LStart o epochVal fs) (Spec.mk (startup o epochVal path fs).2 ∅ true)
  | sp_accept a k : Spec.up a = true -> Spec.sessions a !! k = None ->
      spec_step path a (LAccept k) (a <| Spec.sessions ::= <[k := Session.init]> |>)
  | sp_recv a k s s' data : Spec.up a = true -> Spec.sessions a !! k = Some s -> Session.receive data s = Some s' ->
      spec_step path a (LRecv k data) (a <| Spec.sessions ::= <[k := s']> |>)
  | sp_lost a k s : Spec.up a = true -> Spec.sessions a !! k = Some s ->
      spec_step path a (LLost k) (a <| Spec.sessions ::= <[k := Session.close s]> |>)
  | sp_op a k s o l : Spec.up a = true -> Spec.sessions a !! k = Some s -> Session.owed s = o :: l ->
      spec_step path a (LOp k o) (a <| Spec.sessions ::= <[k := s <| Session.owed := l |>]> |> <| Spec.engine := run o (Spec.engine a) |>)
  | sp_end a k s : Spec.up a = true -> Spec.sessions a !! k = Some s -> Session.owed s = [] -> Session.closing s = true ->
      spec_step path a (LEnd k) (a <| Spec.sessions ::= delete k |>)
  | sp_crash a k s : Spec.up a = true -> Spec.sessions a !! k = Some s ->
      spec_step path a (LCrash k) (a <| Spec.up := false |>).

Inductive spec_trace (path : string) : list event -> Spec.t -> Prop :=
  | st_start o epochVal fs : spec_trace path [LStart o epochVal fs] (Spec.mk (startup o epochVal path fs).2 ∅ true)
  | st_step tr a l a' : spec_trace path tr a -> spec_step path a l a' -> spec_trace path (tr ++ [l]) a'.

(** ** The process and its events *)
Definition call_event (k : nat) {X : Type} (e : coordE X) (x : X) : option event :=
  match e in coordE X return X -> option event with
  | ESend _ => fun ok => if ok : bool then None else Some (LLost k)
  | ETerminate _ | EUndefined => fun _ => Some (LCrash k)
  | _ => fun _ => LOp k <$> op_of e
  end x.
Definition recv_event (k : nat) (got : Z) (data : list byte) : option event :=
  if (got =? -2)%Z then None
  else if (got <=? 0)%Z then Some (LLost k)
  else Some (LRecv k (take (Z.to_nat got) data)).

Section process.
Context (path markdir what : string).
Abbreviation round := (on_recv coord_syn path markdir what).

(** The steps of [wstep], with what the outside sees of them. *)
Inductive lstep : World.t -> option event -> World.t -> Prop :=
  | ls_accept k w :
      Coord.dead (World.coord w) = None -> World.threads w !! k = None ->
      lstep w (Some (LAccept k))
        (w <| World.threads ::= <[k := Waiting Conn.init]> |> <| World.coord ::= fun co => co <| Coord.sent ::= <[k := []]> |> |>)
  | ls_recv k c got data w :
      Coord.dead (World.coord w) = None -> World.threads w !! k = Some (Waiting c) ->
      N.of_nat (length data) <= 8192 -> (got <= Z.of_nat (length data))%Z ->
      lstep w (recv_event k got data) (w <| World.threads ::= <[k := Busy (round got data c)]> |>)
  | ls_call k X (e : coordE X) kont x co w :
      Coord.dead (World.coord w) = None -> World.threads w !! k = Some (Busy (Call e kont)) ->
      coord_step k X e (World.coord w) x co ->
      lstep w (call_event k e x) (w <| World.coord := co |> <| World.threads ::= <[k := Busy (kont x)]> |>)
  | ls_wait k c w :
      Coord.dead (World.coord w) = None -> World.threads w !! k = Some (Busy (Done (Some c))) ->
      lstep w None (w <| World.threads ::= <[k := Waiting c]> |>)
  | ls_end k w :
      Coord.dead (World.coord w) = None -> World.threads w !! k = Some (Busy (Done None)) ->
      lstep w (Some (LEnd k)) (w <| World.threads ::= delete k |>)
  | ls_restart o epochVal w :
      lstep w (Some (LStart o epochVal (Coord.files (World.coord w)))) (start path o epochVal (Coord.files (World.coord w))).

Inductive traced : list event -> World.t -> Prop :=
  | tr_start o epochVal fs : traced [LStart o epochVal fs] (start path o epochVal fs)
  | tr_step tr w l w' : traced tr w -> lstep w l w' -> traced (tr ++ option_list l) w'.

(** Every execution of the process has its events, and conversely. *)
Lemma lstep_iff w w' : wstep anything path markdir what w w' <-> exists l, lstep w l w'.
Proof.
  split.
  - destruct 1; eexists; by econstructor.
  - intros [l Hl]. destruct Hl; by econstructor.
Qed.
Lemma traced_iff w : wreachable anything path markdir what w <-> exists tr, traced tr w.
Proof.
  split.
  - induction 1 as [o ep fs|w w' _ [tr IH] Hs]; [eexists; constructor|].
    apply lstep_iff in Hs as [l Hl]. eexists. by eapply tr_step.
  - intros [tr H]. induction H as [o ep fs|tr w l w' _ IH Hs]; [constructor|].
    eapply wr_step; [exact IH|]. apply lstep_iff. by exists l.
Qed.
End process.

(** ** A thread follows its session

    [follows Q s p]: run from session [s], the calls of [p] are the operations that
    [s] owes, in order; a failed send closes the session; the result and the session
    left satisfy [Q].  Nothing is asked after the process went down. *)
Section follows.
Context {A : Type} (Q : Session.t -> A -> Prop).

Fixpoint follows (s : Session.t) (p : prog coordE A) : Prop :=
  match p with
  | Done a => Q s a
  | @Call _ _ X e k =>
      match e in coordE X return (Session.t -> X -> Prop) -> Prop with
      | ESend _ => fun rec => rec s true /\ rec (Session.close s) false
      | ETerminate _ | EUndefined => fun _ => True
      | _ => fun rec =>
          match op_of e with
          | Some o => exists l, Session.owed s = o :: l /\ forall x, rec (s <| Session.owed := l |>) x
          | None => forall x, rec s x
          end
      end (fun s x => follows s (k x))
  end.
End follows.

Lemma follows_bind {A B : Type} (Q : Session.t -> A -> Prop) (R : Session.t -> B -> Prop) s p f :
  follows Q s p -> (forall s' a, Q s' a -> follows R s' (f a)) -> follows R s (p ≫= f).
Proof.
  intros Hp Hf. revert s Hp. induction p as [a|X e k IH]; intros s Hp; [by apply Hf|].
  cbn in *. destruct e; cbn in *; naive_solver.
Qed.

(** Calls that neither touch the engine nor the connection. *)
Definition silent (X : Type) (e : coordE X) : Prop :=
  match e with ESnapshot | ESaveState | EFs _ => True | _ => False end.
Lemma silent_follows {A : Type} (Q : A -> Prop) s p : always silent Q p -> follows (fun s' a => s' = s /\ Q a) s p.
Proof. induction p as [a|X e k IH]; cbn; [done|]. intros [He Hk]. destruct e; cbn in He; try done; intros x; auto. Qed.
Lemma silent_then {A B : Type} (R : Session.t -> B -> Prop) s (p : prog coordE A) f :
  always silent (fun _ => True) p -> (forall a, follows R s (f a)) -> follows R s (p ≫= f).
Proof. intros Hp Hf. eapply follows_bind; [by apply silent_follows|]. by intros s' a [-> _]. Qed.
Lemma lift_fs_silent {A : Type} (p : prog fsE A) : always silent (fun _ => True) (lift (@EFs) p).
Proof. induction p as [a|X e k IH]; cbn; auto. Qed.

(** The variables of the thread against its session, with the frames [fs] of the
    round still to be handled. *)
Record serving (fs : list Frame.t) (s : Session.t) (c : Conn.t) : Prop := {
  sv_rest : Session.rest s = Conn.buffer c;
  sv_worker : Conn.isWorker c = negb (Conn.boot c =? 0);
  sv_boot : Session.boot s = frames_boot (Conn.boot c) fs;
  sv_closing : Session.closing s = Conn.done c || existsb is_bye fs;
  sv_owed : Session.owed s = frames_ops (Conn.boot c) fs ++ (if Session.closing s then revocation (Session.boot s) else []);
}.
Definition served (fs : list Frame.t) (s : Session.t) (oc : option Conn.t) : Prop :=
  exists c, oc = Some c /\ serving fs s c.

Lemma serving_lost fs s c : serving fs s c -> serving fs (Session.close s) (c <| Conn.done := true |>).
Proof.
  intros [Hr Hw Hb Hc Ho]. unfold Session.close. destruct (Session.closing s) eqn:E; split; cbn; rewrite ?E; auto.
  by rewrite Ho, app_nil_r.
Qed.
(** A frame that asks for nothing. *)
Lemma serving_skip f fs s c :
  frame_ops (Conn.boot c) f = [] -> frame_boot (Conn.boot c) f = Conn.boot c -> is_bye f = false ->
  serving (f :: fs) s c -> serving fs s c.
Proof.
  intros Ho Hb Hy [Hr Hw Hbs Hc Hos]. cbn in Hbs, Hc, Hos. rewrite Ho, Hb in Hos. rewrite Hb in Hbs. rewrite Hy in Hc. by split.
Qed.
(** A frame that asks for one operation. *)
Lemma serving_op f fs s c o :
  frame_ops (Conn.boot c) f = [o] -> frame_boot (Conn.boot c) f = Conn.boot c -> is_bye f = false -> serving (f :: fs) s c ->
  exists l, Session.owed s = o :: l /\ serving fs (s <| Session.owed := l |>) c.
Proof.
  intros Ho Hb Hy [Hr Hw Hbs Hc Hos]. cbn in Hbs, Hc, Hos. rewrite Ho, Hb in Hos. rewrite Hb in Hbs. rewrite Hy in Hc.
  eexists. split; [exact Hos|]. by split.
Qed.

Section handlers.
Context (syn : Synthetic.t) (path markdir what : string).

Lemma send_frame_follows fs s type corr payload c :
  serving fs s c -> follows (serving fs) s (send_frame type corr payload c).
Proof. intros H. cbn. split; [done|by apply serving_lost]. Qed.
Lemma reply_follows fs s type corr payload c :
  serving fs s c -> follows (served fs) s (c ← send_frame type corr payload c; mret (Some c)).
Proof. intros H. eapply follows_bind; [by apply send_frame_follows|]. intros s' c' H'. by exists c'. Qed.
Lemma send_encoded_follows fs s type corr w c :
  serving fs s c -> follows (served fs) s (send_encoded type corr w c).
Proof. intros H. unfold send_encoded. destruct (w []) as [e|b]; [exact I|by apply reply_follows]. Qed.

Lemma engine_save_silent : always silent (fun _ => True) (engine_save path what).
Proof. cbn. split; [done|]. intros d. eapply always_bind; [apply lift_fs_silent|]. done. Qed.
Lemma WriteMarker_silent name : always silent (fun _ => True) (WriteMarker markdir name).
Proof. unfold WriteMarker. destruct markdir; cbn; [done|]. split; [done|]. by intros [|]. Qed.
Lemma persist_if_follows fs s ok name oc :
  served fs s oc -> follows (served fs) s (persist_if path markdir what ok name oc).
Proof.
  intros (c & -> & H). assert (served fs s (Some c)) by (by exists c). unfold persist_if. destruct ok; [|done].
  apply silent_then; [apply engine_save_silent|]. intros _. by apply silent_then; [apply WriteMarker_silent|].
Qed.

(** A loop whose body keeps the thread in its session. *)
Lemma loop_follows {X : Type} fs (body : X -> option Conn.t -> prog coordE (option Conn.t)) l s oc :
  (forall x s c, serving fs s c -> follows (served fs) s (body x (Some c))) -> served fs s oc ->
  follows (served fs) s (for_each body l oc).
Proof.
  intros Hb. revert s oc. induction l as [|x l IH]; intros s oc Hs; [done|]. cbn [for_each].
  destruct Hs as (c & -> & Hs). eapply follows_bind; [by apply Hb|]. apply IH.
Qed.
Lemma register_follows fs s f c : serving fs s c -> follows (served fs) s (on_register syn f c).
Proof.
  intros H. unfold on_register. destruct (register_ids _) as [ids|]; [|exact I]. eapply follows_bind.
  - apply loop_follows; [|by exists c]. intros nid s1 c1 H1. unfold serve_id. eapply follows_bind.
    + apply loop_follows; [|by exists c1]. intros nd s2 c2 H2. cbn [serve_node].
      destruct (id_eqb _ _); [by apply send_encoded_follows|by exists c2].
    + intros s2 oc H2. apply loop_follows; [|done]. intros r s3 c3 H3. cbn [serve_resource].
      destruct (id_eqb _ _); [by apply send_encoded_follows|by exists c3].
  - intros s1 oc (c1 & -> & H1). by apply reply_follows.
Qed.

Lemma frame_boot_other boot f : Frame.type f <> FrameType.HELLO -> frame_boot boot f = boot.
Proof. unfold frame_boot. by destruct (Frame.type f). Qed.

(** A handler that makes one call of the engine and goes on. *)
Lemma call_follows {X : Type} fs s c f o (e : coordE X) kont :
  op_of e = Some o -> (forall b, frame_ops b f = [o]) -> Frame.type f <> FrameType.HELLO -> is_bye f = false ->
  serving (f :: fs) s c ->
  (forall x s', serving fs s' c -> follows (served fs) s' (kont x)) -> follows (served fs) s (call e ≫= kont).
Proof.
  intros He Ho Ht Hy Hs Hk. destruct (serving_op f fs s c o (Ho _) (frame_boot_other _ _ Ht) Hy Hs) as (l & Hl & Hs').
  destruct e; cbn in *; simplify_eq; exists l; auto.
Qed.

Section frame.
Context (f : Frame.t) (fs : list Frame.t) (s : Session.t) (c : Conn.t) (Hs : serving (f :: fs) s c).

Lemma skip_follows :
  (forall b, frame_ops b f = []) -> Frame.type f <> FrameType.HELLO -> is_bye f = false -> serving fs s c.
Proof. intros Ho Ht Hy. eapply serving_skip; [done|by apply frame_boot_other|done|exact Hs]. Qed.

Lemma hello_follows : Frame.type f = FrameType.HELLO -> follows (served fs) s (on_hello f c).
Proof.
  intros Ht. unfold on_hello. destruct (Rd.U64 _) as [[boot r]|] eqn:Hu; [|exact I]. apply reply_follows.
  destruct Hs as [Hr Hw Hb Hc Ho]. cbn in Hb, Hc, Ho. unfold frame_boot, frame_ops, frame_u64, is_bye in *. rewrite Ht, Hu in *. cbn in *.
  by split.
Qed.
Lemma publish_node_follows : Frame.type f = FrameType.PUBLISH_NODE -> follows (served fs) s (on_publish_node f c).
Proof.
  intros Ht. assert (Hy : is_bye f = false) by (unfold is_bye; by rewrite Ht).
  assert (Hb : frame_boot (Conn.boot c) f = Conn.boot c) by (apply frame_boot_other; by rewrite Ht).
  pose proof (fun H => serving_skip f fs s c H Hb Hy Hs) as Hskip. pose proof (fun o H => serving_op f fs s c o H Hb Hy Hs) as Hop.
  unfold frame_ops in *. rewrite Ht in *. unfold on_publish_node. rewrite (sv_worker _ _ _ Hs).
  destruct (decode_into _ _ _) as [[u| |] n]; [|exists c; auto|exact I].
  destruct (Conn.boot c =? 0); cbn; [exists c; auto|]. destruct (Hop _ eq_refl) as (l & Hl & H). exists l. split; [exact Hl|]. by exists c.
Qed.
Lemma publish_resource_follows : Frame.type f = FrameType.PUBLISH_RESOURCE -> follows (served fs) s (on_publish_resource f c).
Proof.
  intros Ht. assert (Hy : is_bye f = false) by (unfold is_bye; by rewrite Ht).
  assert (Hb : frame_boot (Conn.boot c) f = Conn.boot c) by (apply frame_boot_other; by rewrite Ht).
  pose proof (fun H => serving_skip f fs s c H Hb Hy Hs) as Hskip. pose proof (fun o H => serving_op f fs s c o H Hb Hy Hs) as Hop.
  unfold frame_ops in *. rewrite Ht in *. unfold on_publish_resource. rewrite (sv_worker _ _ _ Hs).
  destruct (decode_into _ _ _) as [[u| |] n]; [|exists c; auto|exact I].
  destruct (Conn.boot c =? 0); cbn; [exists c; auto|]. destruct (Hop _ eq_refl) as (l & Hl & H). exists l. split; [exact Hl|]. by exists c.
Qed.

(** The handlers of the requests. *)
Ltac request Ht := eapply call_follows;
  [reflexivity|intros b; unfold frame_ops, frame_u64; rewrite Ht|rewrite Ht; discriminate|unfold is_bye; by rewrite Ht|exact Hs|].
Lemma compose_follows : Frame.type f = FrameType.COMPOSE_REQ -> follows (served fs) s (on_compose f c).
Proof.
  intros Ht. unfold on_compose. destruct (decode_into _ _ _) as [[u| |] q] eqn:E; [..|exact I]; (request Ht; [by rewrite E|]);
    intros x s' Hs'; by apply send_encoded_follows.
Qed.
Lemma reserve_follows : Frame.type f = FrameType.RESERVE_REQ -> follows (served fs) s (on_reserve path markdir what f c).
Proof.
  intros Ht. unfold on_reserve. destruct (decode_into _ _ _) as [[u| |] q] eqn:E; [..|exact I]; (request Ht; [by rewrite E|]);
    intros x s' Hs'; (eapply follows_bind; [by apply send_encoded_follows|]); intros; by apply persist_if_follows.
Qed.
Lemma commit_follows : Frame.type f = FrameType.COMMIT_REQ -> follows (served fs) s (on_commit path markdir what f c).
Proof.
  intros Ht. unfold on_commit. destruct (decode_into _ _ _) as [[u| |] q] eqn:E; [..|exact I]; (request Ht; [by rewrite E|]);
    intros x s' Hs'; (eapply follows_bind; [by apply send_encoded_follows|]); intros; by apply persist_if_follows.
Qed.
Lemma activate_follows : Frame.type f = FrameType.ACTIVATE_REQ -> follows (served fs) s (on_activate f c).
Proof.
  intros Ht. unfold on_activate. destruct (Rd.U64 _) as [[id r]|] eqn:E; [|exact I]. request Ht; [by rewrite E|].
  intros x s' Hs'. by apply send_encoded_follows.
Qed.
Lemma release_follows : Frame.type f = FrameType.RELEASE_REQ -> follows (served fs) s (on_release f c).
Proof.
  intros Ht. unfold on_release. destruct (Rd.U64 _) as [[id r]|] eqn:E; [|exact I]. request Ht; [by rewrite E|].
  intros x s' Hs'. by apply (send_encoded_follows fs s' _ _ (Wr.U8 _)).
Qed.

(** Every handler does what its frame asks for. *)
Lemma on_frame_follows : follows (served fs) s (on_frame syn path markdir what f (Some c)).
Proof.
  unfold on_frame. destruct (Frame.type f) eqn:Ht.
  all: try (assert (serving fs s c) as H by (apply skip_follows; [unfold frame_ops|..]; try unfold is_bye; by rewrite Ht)).
  all: try (by exists c).
  - by apply hello_follows.
  - by apply register_follows.
  - by apply publish_node_follows.
  - by apply publish_resource_follows.
  - by apply reply_follows.
  - by apply compose_follows.
  - by apply reserve_follows.
  - by apply commit_follows.
  - by apply activate_follows.
  - intros x. by apply send_encoded_follows.
  - eexists. split; [reflexivity|]. destruct Hs as [Hr Hw Hb Hc Ho]. cbn in Hb, Hc, Ho. unfold frame_boot, frame_ops, is_bye in *.
    rewrite Ht in *. cbn in *. split; cbn; auto. by rewrite Hc, orb_true_r.
  - apply silent_then; [apply engine_save_silent|]. intros _. by apply reply_follows.
  - by apply release_follows.
Qed.
End frame.

(** What a round leaves: the connection of a session that owes nothing and goes on,
    or nothing after a session that closed and owes nothing. *)
Definition matches (s : Session.t) (oc : option Conn.t) : Prop :=
  match oc with
  | Some c => s = Session.mk (Conn.buffer c) (Conn.boot c) [] false /\ Conn.isWorker c = negb (Conn.boot c =? 0) /\ Conn.done c = false
  | None => Session.owed s = [] /\ Session.closing s = true
  end.

Lemma frames_follow fs s c :
  serving fs s c -> follows (served []) s (for_each (on_frame syn path markdir what) fs (Some c)).
Proof.
  revert s c. induction fs as [|f fs IH]; intros s c Hs; [by exists c|]. cbn [for_each].
  eapply follows_bind; [by apply (on_frame_follows f fs)|]. intros s' oc (c' & -> & Hs'). by apply IH.
Qed.
Lemma finish_follows s c : serving [] s c -> Session.closing s = true -> follows matches s (finish c).
Proof.
  intros [_ Hw Hb _ Ho] Hc. rewrite Hc in Ho. cbn in Hb, Ho. rewrite Hb in Ho. unfold finish, revocation in *. rewrite Hw.
  destruct (Conn.boot c =? 0); cbn; [by split|]. eexists. split; [exact Ho|]. by intros _.
Qed.
Lemma round_ends s oc : served [] s oc -> follows matches s (continue_or_finish oc).
Proof.
  intros (c & -> & Hs). unfold continue_or_finish. pose proof (sv_closing _ _ _ Hs) as Hc. cbn in Hc. rewrite orb_false_r in Hc.
  destruct (Conn.done c) eqn:Hd; [by apply finish_follows|]. destruct Hs as [Hr Hw Hb _ Ho]. rewrite Hc in Ho. cbn in Hb, Ho |- *.
  split; [|done]. destruct s as [r b o cl]; cbn in *. by subst.
Qed.

(** The session after the input of a round. *)
Definition heard (got : Z) (data : list byte) (s : Session.t) : option Session.t :=
  if (got =? -2)%Z then Some s
  else if (got <=? 0)%Z then Some (Session.close s)
  else Session.receive (take (Z.to_nat got) data) s.

Lemma round_follows got data s c :
  matches s (Some c) -> exists s', heard got data s = Some s' /\ follows matches s' (on_recv syn path markdir what got data c).
Proof.
  intros (-> & Hw & Hd). unfold heard, on_recv. set (s := Session.mk _ _ _ _).
  assert (Hfin : forall buf, follows matches (Session.close (s <| Session.rest := buf |>))
    (finish (c <| Conn.buffer := buf |> <| Conn.done := true |>))).
  { intros buf. apply finish_follows; [|done]. by split. }
  specialize (Hfin (Conn.buffer c)) as Hfin0. assert (c <| Conn.buffer := Conn.buffer c |> = c) as Hid by (by destruct c).
  rewrite Hid in Hfin0. destruct (Z.eqb_spec got (-2)); [exists s; by split|].
  destruct (Z.eqb_spec got 0) as [->|Hne]; [by eexists|]. destruct (Z.ltb_spec got 0).
  { rewrite (proj2 (Z.leb_le _ _)) by lia. by eexists. }
  rewrite (proj2 (Z.leb_gt _ _)) by lia. unfold Session.receive. cbn [Session.closing Session.owed Session.rest s length].
  rewrite bool_decide_eq_true_2 by done. cbn [orb negb].
  destruct (Feed_feeds (Conn.buffer c) (take (Z.to_nat got) data)) as (fs & e & b & -> & _). cbn [mbind option_bind fr_error fr_out fr_buffer].
  destruct e as [e|]; [eexists; split; [done|apply Hfin]|]. eexists. split; [done|].
  eapply follows_bind; [apply frames_follow|intros; by apply round_ends].
  cbn [Session.boot s]. unfold Session.close. destruct (existsb is_bye fs) eqn:E; split; cbn; rewrite ?Hd, ?E, ?app_nil_r; done.
Qed.
End handlers.

(** ** The simulation *)
Definition thread_follows (th : option thread) (os : option Session.t) : Prop :=
  match th, os with
  | None, None => True
  | Some (Waiting c), Some s => matches s (Some c)
  | Some (Busy p), Some s => follows matches s p /\ all_defined p
  | _, _ => False
  end.
Record simulates (w : World.t) (a : Spec.t) : Prop := {
  sim_engine : Spec.engine a = Coord.engine (World.coord w);
  sim_up : Spec.up a = bool_decide (Coord.dead (World.coord w) = None);
  sim_threads : Coord.dead (World.coord w) = None -> forall k, thread_follows (World.threads w !! k) (Spec.sessions a !! k);
}.

(** Both sides move connection [k]. *)
Lemma threads_insert (ts : gmap nat thread) (ss : gmap nat Session.t) k th s :
  (forall j, thread_follows (ts !! j) (ss !! j)) -> thread_follows (Some th) (Some s) ->
  forall j, thread_follows (<[k := th]> ts !! j) (<[k := s]> ss !! j).
Proof. intros Hall Hk j. rewrite !lookup_insert. by case_decide. Qed.
(** The process moves thread [k] alone. *)
Lemma threads_stay (ts : gmap nat thread) (ss : gmap nat Session.t) k th s :
  (forall j, thread_follows (ts !! j) (ss !! j)) -> ss !! k = Some s -> thread_follows (Some th) (Some s) ->
  forall j, thread_follows (<[k := th]> ts !! j) (ss !! j).
Proof. intros Hall Hs Hk j. rewrite !lookup_insert. case_decide; [subst; by rewrite Hs|done]. Qed.

Lemma thread_session w a k th :
  simulates w a -> Coord.dead (World.coord w) = None -> World.threads w !! k = Some th ->
  Spec.up a = true /\ exists s, Spec.sessions a !! k = Some s /\ thread_follows (Some th) (Some s).
Proof.
  intros [_ Hu Ht] Hd Hk. rewrite bool_decide_eq_true_2 in Hu by done. split; [done|]. specialize (Ht Hd k). rewrite Hk in Ht.
  destruct (Spec.sessions a !! k) as [s|]; [by exists s|]. by destruct th.
Qed.

Lemma coord_step_alive k X (e : coordE X) w x w' :
  coord_step k X e w x w' -> call_event k e x <> Some (LCrash k) -> Coord.dead w' = Coord.dead w.
Proof.
  destruct e; cbn [coord_step call_event]; intros H Hn; try (by apply on_engine_run in H as (_ & _ & ->)); try done.
  - by destruct H as [_ ->].
  - by destruct H as [_ ->].
  - by destruct H as (fs & _ & ->).
  - by destruct H as (an & ac & _ & ->).
Qed.

Section simulation.
Context (path markdir what : string).

Definition spec_moves (a : Spec.t) (l : option event) (a' : Spec.t) : Prop :=
  match l with Some l => spec_step path a l a' | None => a' = a end.

(** What a call does to the session of its thread. *)
Lemma follows_call {X : Type} (e : coordE X) kont x k s a :
  follows matches s (Call e kont) -> all_defined (Call e kont) -> Spec.up a = true -> Spec.sessions a !! k = Some s ->
  call_event k e x = Some (LCrash k) \/
  exists s', follows matches s' (kont x) /\
    spec_moves a (call_event k e x) (a <| Spec.sessions ::= <[k := s']> |>
      <| Spec.engine := match op_of e with Some o => run o (Spec.engine a) | None => Spec.engine a end |>).
Proof.
  intros Hf _ Hu Hs.
  assert (Hstay : spec_moves a None (a <| Spec.sessions ::= <[k := s]> |> <| Spec.engine := Spec.engine a |>))
    by (destruct a as [en ss up]; cbn in *; by rewrite insert_id).
  assert (Hlost : spec_moves a (Some (LLost k)) (a <| Spec.sessions ::= <[k := Session.close s]> |> <| Spec.engine := Spec.engine a |>))
    by exact (sp_lost path a k s Hu Hs).
  destruct e; cbn [call_event op_of option_fmap option_map fmap] in *; try (by left); right;
    try (destruct Hf as (l & Hl & Hf); eexists; split; [apply Hf|by eapply sp_op]); cbn in Hf; try (by eexists).
  destruct x; eexists; (split; [apply Hf|done]).
Qed.

Lemma lstep_simulates w l w' a : lstep path markdir what w l w' -> simulates w a -> exists a', spec_moves a l a' /\ simulates w' a'.
Proof.
  destruct 1 as [k w Hd Hk|k c got data w Hd Hk Hl Hg|k X e kont x co w Hd Hk Hs|k c w Hd Hk|k w Hd Hk|o ep w]; intros Hsim.
  - destruct Hsim as [He Hu Ht]. rewrite bool_decide_eq_true_2 in Hu by done. pose proof (Ht Hd k) as Hk'. rewrite Hk in Hk'.
    eexists. split; [apply sp_accept; [done|by destruct (Spec.sessions a !! k)]|].
    split; cbn; [done|by rewrite Hd|]. intros _. by apply threads_insert; [auto|].
  - destruct (thread_session w a k _ Hsim Hd Hk) as (Hu & s & Hs & Hm). destruct Hsim as [He Hup Ht].
    destruct (round_follows coord_syn path markdir what got data s c Hm) as (s' & Hh & Hf).
    exists (a <| Spec.sessions ::= <[k := s']> |>). split.
    + unfold heard in Hh. unfold recv_event. destruct (got =? -2)%Z; [|destruct (got <=? 0)%Z]; simplify_eq.
      * destruct a as [en ss up]. cbn in *. by rewrite insert_id.
      * by apply sp_lost.
      * by eapply sp_recv.
    + split; [done..|]. intros _. apply threads_insert; [auto|]. split; [done|apply on_recv_defined].
  - destruct (thread_session w a k _ Hsim Hd Hk) as (Hu & s & Hs' & Hf & Hdef). destruct Hsim as [He Hup Ht].
    pose proof (coord_step_op _ _ _ _ _ _ Hs) as Hen.
    destruct (follows_call e kont x k s a Hf Hdef Hu Hs') as [Hc|(s' & Hf' & Hmv)].
    + rewrite Hc. exists (a <| Spec.up := false |>). split; [by eapply sp_crash|].
      assert (Hdead : Coord.dead co <> None /\ Coord.engine co = Coord.engine (World.coord w)).
      { destruct e; cbn in Hc, Hs, Hen; simplify_eq; try done. by destruct x. }
      split; cbn; [by rewrite He; symmetry; apply Hdead|by rewrite bool_decide_eq_false_2 by apply Hdead|]. by intros []%Hdead.
    + eexists. split; [exact Hmv|]. destruct (decide (Coord.dead co = None)) as [Hco|Hco].
      * split; cbn; [by rewrite Hen, He|by rewrite Hu, bool_decide_eq_true_2|]. intros _. apply threads_insert; [auto|].
        split; [done|]. destruct Hdef as [_ Hdef]. apply Hdef.
      * exfalso. apply Hco. rewrite <-Hd. eapply coord_step_alive; [exact Hs|]. intros Hc. rewrite Hc in Hmv. by inversion Hmv; simplify_eq.
  - destruct (thread_session w a k _ Hsim Hd Hk) as (Hu & s & Hs' & Hf & _). destruct Hsim as [He Hup Ht].
    exists a. split; [done|]. split; [done..|]. intros _. by eapply threads_stay; [auto|done|].
  - destruct (thread_session w a k _ Hsim Hd Hk) as (Hu & s & Hs' & [Ho Hc] & _). destruct Hsim as [He Hup Ht].
    eexists. split; [by eapply sp_end|]. split; [done..|]. intros _ j. cbn. rewrite !lookup_delete. case_decide; [done|auto].
  - eexists. split; [apply sp_start|]. split; [done..|]. intros _ k. cbn. by rewrite !lookup_empty.
Qed.

Lemma traced_simulates tr w :
  traced path markdir what tr w -> exists a, spec_trace path tr a /\ simulates w a.
Proof.
  induction 1 as [o ep fs|tr w l w' _ (a & Ha & Hsim) Hl].
  - eexists. split; [constructor|]. split; [done..|]. intros _ k. cbn. by rewrite !lookup_empty.
  - destruct (lstep_simulates _ _ _ _ Hl Hsim) as (a' & Hm & Hsim'). exists a'. split; [|done].
    destruct l as [l|]; cbn in *; [by eapply st_step|]. rewrite app_nil_r. by subst.
Qed.
End simulation.
