(* ===== verification/CoordFrames.v ===== *)
(** * Frames through the coordinator

    The effect of the handlers without failures, frame by frame, and what the
    receive loop makes of a stream: for a stream of whole frames without BYE it
    does not matter how the network cuts it ([serve_chunks]). *)

From S2P Require Import Prelude Effects Net Bytes Enums Ids Args Double Model Codec Wire Protocol ProtocolProps.
From S2P Require Import Planner Engine Persistence Storage Synthetic Lifecycle Coordinator CoordRun.

Section frames.
Context (k : nat) (path markdir what : string).
Abbreviation ev := (eval_prog (coord_eval k)).
Abbreviation frame := (on_frame coord_syn path markdir what).
Abbreviation round := (on_recv coord_syn path markdir what).

Lemma ev_bind {A B : Type} (p : prog coordE A) (f : A -> prog coordE B) w :
  ev (p ≫= f) w = let '(a, w') := ev p w in ev (f a) w'.
Proof. apply eval_prog_bind. Qed.

(** ** Every handler but HELLO and BYE leaves the variables of the thread alone *)
Definition conn_after (f : Frame.t) (c : Conn.t) : Conn.t :=
  match Frame.type f with
  | FrameType.HELLO =>
      match Rd.U64 (MakeReader (Frame.payload f)) with
      | Some (boot, _) => c <| Conn.boot := boot |> <| Conn.isWorker := negb (boot =? 0) |>
      | None => c
      end
  | FrameType.BYE => c <| Conn.done := true |>
  | _ => c
  end.

(** [p] computes [g] of the connection, whatever is in its buffer, or the process
    goes down. *)
Definition computes (p : Conn.t -> prog coordE (option Conn.t)) (g : Conn.t -> Conn.t) (c : Conn.t) : Prop :=
  forall w, exists w' ok, forall b, ev (p (c <| Conn.buffer := b |>)) w =
    (if ok : bool then Some (g (c <| Conn.buffer := b |>)) else None, w') /\ (ok = false -> Coord.dead w' <> None).

Lemma computes_send type corr enc c : computes (send_encoded type corr enc) id c.
Proof.
  intros w. unfold send_encoded. destruct (enc []) as [e|b].
  - exists (w <| Coord.dead := Some e |>), false. done.
  - exists (deliver k (Encode type corr b) w), true. done.
Qed.
Lemma computes_reply type corr payload c :
  computes (fun c => c' ← send_frame type corr payload c; mret (Some c')) id c.
Proof. intros w. exists (deliver k (Encode type corr payload) w), true. done. Qed.
Lemma computes_call {X : Type} (e : coordE X) (p : X -> Conn.t -> prog coordE (option Conn.t)) g c :
  (forall x, computes (p x) g c) -> computes (fun c => x ← call e; p x c) g c.
Proof.
  intros Hp w. cbn. destruct (coord_eval k X e w) as [x w1]. destruct (Hp x w1) as (w' & ok & H). exists w', ok. exact H.
Qed.
Lemma computes_prog {A : Type} (q : prog coordE A) (p : Conn.t -> prog coordE (option Conn.t)) g c :
  computes p g c -> computes (fun c => q;; p c) g c.
Proof.
  intros Hp w. destruct (ev q w) as [a w1] eqn:E. destruct (Hp w1) as (w' & ok & H). exists w', ok. intros b.
  rewrite ev_bind, E. apply H.
Qed.
Lemma computes_ret g c : computes (fun c => mret (Some (g c))) g c.
Proof. intros w. exists w, true. done. Qed.
Lemma computes_undefined g c : computes (fun _ => undefined) g c.
Proof. intros w. exists (w <| Coord.dead := Some "undefined behaviour" |>), false. done. Qed.
(** A loop or a tail that is skipped once the process is down. *)
Lemma computes_then (p : Conn.t -> prog coordE (option Conn.t)) (q : option Conn.t -> prog coordE (option Conn.t)) c :
  computes p id c -> (forall w, ev (q None) w = (None, w)) -> computes (fun c => q (Some c)) id c ->
  computes (fun c => oc ← p c; q oc) id c.
Proof.
  intros Hp HN Hq w. destruct (Hp w) as (w1 & ok & H1). destruct ok.
  - destruct (Hq w1) as (w' & ok & H2). exists w', ok. intros b. rewrite ev_bind. destruct (H1 b) as [-> _]. apply H2.
  - exists w1, false. intros b. rewrite ev_bind. destruct (H1 b) as [-> Hd]. by rewrite HN.
Qed.
Lemma for_each_None {X : Type} (body : X -> option Conn.t -> prog coordE (option Conn.t)) l w :
  (forall x w, ev (body x None) w = (None, w)) -> ev (for_each body l None) w = (None, w).
Proof. intros Hb. revert w. induction l as [|x l IH]; intros w; [done|]. cbn [for_each]. rewrite ev_bind, Hb. apply IH. Qed.
Lemma computes_for_each {X : Type} (body : X -> option Conn.t -> prog coordE (option Conn.t)) l c :
  (forall x w, ev (body x None) w = (None, w)) -> (forall x, computes (fun c => body x (Some c)) id c) ->
  computes (fun c => for_each body l (Some c)) id c.
Proof.
  intros HN Hb. induction l as [|x l IH]; cbn [for_each]; [apply (computes_ret id)|].
  apply (computes_then _ (for_each body l)); [apply Hb| |done]. intros w. by apply for_each_None.
Qed.

Lemma computes_register f c : computes (on_register coord_syn f) id c.
Proof.
  unfold on_register. destruct (register_ids _) as [ids|]; [|apply computes_undefined].
  assert (Hone : forall nid c, computes (fun c => serve_id coord_syn (Frame.correlation f) nid (Some c)) id c).
  { intros nid c0. unfold serve_id. apply (computes_then _ (for_each _ _)).
    - apply computes_for_each; [done|]. intros nd. unfold serve_node. destruct (id_eqb _ _); [apply computes_send|apply (computes_ret id)].
    - intros w. by apply for_each_None.
    - apply computes_for_each; [done|]. intros r. unfold serve_resource. destruct (id_eqb _ _); [apply computes_send|apply (computes_ret id)]. }
  apply (computes_then _ (fun oc => match oc with None => mret None | Some c => c' ← send_frame FrameType.ACK (Frame.correlation f) [] c; mret (Some c') end)).
  - apply computes_for_each; [|done]. intros nid w. unfold serve_id. rewrite ev_bind, for_each_None by done. by apply for_each_None.
  - done.
  - apply computes_reply.
Qed.

Lemma computes_persist ok name c : computes (fun c => persist_if path markdir what ok name (Some c)) id c.
Proof.
  unfold persist_if. destruct ok; [|apply (computes_ret id)].
  apply (computes_prog (engine_save path what)), (computes_prog (WriteMarker markdir name)), (computes_ret id).
Qed.

Lemma on_frame_computes f c : computes (fun c => frame f (Some c)) (conn_after f) c.
Proof.
  unfold on_frame, conn_after. destruct (Frame.type f); try apply (computes_ret id).
  - unfold on_hello. destruct (Rd.U64 _) as [[boot r]|]; [|apply computes_undefined].
    intros w. exists (deliver k (Encode FrameType.ACK (Frame.correlation f) []) w), true. done.
  - apply computes_register.
  - unfold on_publish_node. destruct (decode_into _ _ _) as [[u| |] n]; [|apply (computes_ret id)|apply computes_undefined].
    intros w. destruct (Conn.isWorker c) eqn:E.
    + exists (coord_eval k _ (ERegisterNode (own_node (Conn.boot c) n)) w).2, true. intros b. cbn. rewrite E. cbn.
      unfold on_engine. by destruct (RegisterNode _ _).
    + exists w, true. intros b. cbn. by rewrite E.
  - unfold on_publish_resource. destruct (decode_into _ _ _) as [[u| |] r]; [|apply (computes_ret id)|apply computes_undefined].
    intros w. destruct (Conn.isWorker c) eqn:E.
    + exists (coord_eval k _ (ERegisterResource (own_resource (Conn.boot c) r)) w).2, true. intros b. cbn. rewrite E. cbn.
      unfold on_engine. by destruct (RegisterResource _ _).
    + exists w, true. intros b. cbn. by rewrite E.
  - apply computes_reply.
  - unfold on_compose. destruct (decode_into _ _ _) as [[u| |] q]; [..|apply computes_undefined];
      apply (computes_call (ECompose q)); intros x; apply computes_send.
  - unfold on_reserve. destruct (decode_into _ _ _) as [[u| |] q]; [..|apply computes_undefined];
      apply (computes_call (EReserve q)); intros x;
      (apply (computes_then _ (persist_if path markdir what _ _)); [apply computes_send|done|apply computes_persist]).
  - unfold on_commit. destruct (decode_into _ _ _) as [[u| |] q]; [..|apply computes_undefined];
      apply (computes_call (ECommit q)); intros x;
      (apply (computes_then _ (persist_if path markdir what _ _)); [apply computes_send|done|apply computes_persist]).
  - unfold on_activate. destruct (Rd.U64 _) as [[cid r]|]; [|apply computes_undefined].
    apply (computes_call (EActivate (Id cid))). intros x. apply computes_send.
  - apply (computes_call ESnapshot). intros x. apply computes_send.
  - apply (computes_ret (fun c => c <| Conn.done := true |>)).
  - apply (computes_prog (engine_save path what)), computes_reply.
  - unfold on_release. destruct (Rd.U64 _) as [[cid r]|]; [|apply computes_undefined].
    apply (computes_call (ERelease (Id cid))). intros x. apply computes_send.
Qed.

(** ** A stream of frames *)
Lemma conn_after_buffer f c b : conn_after f (c <| Conn.buffer := b |>) = (conn_after f c) <| Conn.buffer := b |>.
Proof. unfold conn_after. destruct (Frame.type f); try done. by destruct (Rd.U64 _) as [[boot r]|]. Qed.
Lemma conn_after_done f c : Frame.type f <> FrameType.BYE -> Conn.done (conn_after f c) = Conn.done c.
Proof. intros H. unfold conn_after. destruct (Frame.type f); try done. by destruct (Rd.U64 _) as [[boot r]|]. Qed.
Definition conn_after_all (fs : list Frame.t) (c : Conn.t) : Conn.t := fold_left (fun c f => conn_after f c) fs c.

Lemma frames_None fs w : ev (for_each frame fs None) w = (None, w).
Proof. by apply for_each_None. Qed.
Lemma frames_computes fs c : computes (fun c => for_each frame fs (Some c)) (conn_after_all fs) c.
Proof.
  revert c. induction fs as [|f fs IH]; intros c; [apply (computes_ret id)|]. intros w.
  destruct (on_frame_computes f c w) as (w1 & ok & H1). cbn [for_each conn_after_all fold_left]. destruct ok.
  - destruct (IH (conn_after f c) w1) as (w2 & ok & H2). exists w2, ok. intros b. rewrite ev_bind.
    destruct (H1 b) as [-> _]. rewrite conn_after_buffer. apply H2.
  - exists w1, false. intros b. rewrite ev_bind. destruct (H1 b) as [-> Hd]. rewrite frames_None. auto.
Qed.
Lemma conn_after_all_done fs c :
  Forall (fun f => Frame.type f <> FrameType.BYE) fs -> Conn.done (conn_after_all fs c) = Conn.done c.
Proof. intros H. revert c. induction H as [|f fs Hf Hfs IH]; intros c; [done|]. cbn. rewrite IH. by apply conn_after_done. Qed.
Lemma conn_after_all_buffer fs c b : conn_after_all fs (c <| Conn.buffer := b |>) = (conn_after_all fs c) <| Conn.buffer := b |>.
Proof.
  revert c. induction fs as [|f fs IH]; intros c; [done|]. unfold conn_after_all in *. cbn [fold_left].
  by rewrite conn_after_buffer, IH.
Qed.

(** The effect of a list of frames does not depend on the buffer. *)
Lemma frames_buffer fs c b b' w w' :
  ev (for_each frame fs (Some (c <| Conn.buffer := b |>))) w = (Some (conn_after_all fs (c <| Conn.buffer := b |>)), w') ->
  ev (for_each frame fs (Some (c <| Conn.buffer := b' |>))) w = (Some (conn_after_all fs (c <| Conn.buffer := b' |>)), w').
Proof.
  intros H. destruct (frames_computes fs c w) as (w1 & ok & Hc). destruct (Hc b) as [Hb _]. rewrite H in Hb.
  destruct ok; [|done]. injection Hb as <-. apply Hc.
Qed.

Abbreviation feed := (feed path markdir what).
Definition feed_all (chunks : list (list byte)) (w : World.t) : World.t := fold_left (fun w d => feed k d w) chunks w.

(** One chunk of whole frames. *)
Lemma feed_frames d fs b1 c oc co' w :
  d <> [] -> World.threads w !! k = Some (Waiting c) -> Conn.done c = false ->
  Forall (fun f => Frame.type f <> FrameType.BYE) fs -> Feed (Conn.buffer c) d = Some (mkFeed None fs b1) ->
  ev (for_each frame fs (Some (c <| Conn.buffer := b1 |>))) (World.coord w) = (oc, co') ->
  feed k d w = World.mk co' (match oc with Some c' => <[k := Waiting c']> (World.threads w) | None => delete k (World.threads w) end).
Proof.
  intros Hd Hk Hdone Hb HF He. unfold CoordRun.feed, round_of. rewrite Hk. unfold on_recv.
  assert (0 < length d)%nat by (destruct d; [done|cbn; lia]).
  rewrite (proj2 (Z.eqb_neq _ (-2))), (proj2 (Z.eqb_neq _ 0)), (proj2 (Z.ltb_ge _ 0)) by lia.
  rewrite Nat2Z.id, firstn_all, HF. cbn [fr_error fr_out fr_buffer]. rewrite ev_bind.
  destruct (frames_computes fs c (World.coord w)) as (w1 & ok & Hc). destruct (Hc b1) as [H1 _].
  rewrite H1 in He |- *. apply pair_equal_spec in He as [<- <-]. destruct ok; [|done]. unfold continue_or_finish.
  rewrite conn_after_all_done by done. change (Conn.done (c <| Conn.buffer := b1 |>)) with (Conn.done c). by rewrite Hdone.
Qed.
(** However the network cuts a stream of frames without BYE, the coordinator does
    with it what the handlers do with the frames one after the other. *)
Lemma serve_chunks chunks fs b2 c w co' :
  Forall (fun d => d <> []) chunks -> Forall (fun f => Frame.type f <> FrameType.BYE) fs ->
  World.threads w !! k = Some (Waiting c) -> Conn.done c = false -> decode_step (Conn.buffer c) = NeedMore ->
  feeds (Conn.buffer c ++ concat chunks) fs None b2 ->
  ev (for_each frame fs (Some c)) (World.coord w) = (Some (conn_after_all fs c), co') ->
  feed_all chunks w = World.mk co' (<[k := Waiting ((conn_after_all fs c) <| Conn.buffer := b2 |>)]> (World.threads w)).
Proof.
  intros Hne. revert fs c w. induction Hne as [|d chunks Hd Hne IH]; intros fs c w Hbye Hk Hdone Hneed Hf He.
  - cbn in Hf. rewrite app_nil_r in Hf. destruct (feeds_nothing _ _ _ Hneed Hf) as [-> ->]. cbn in He. injection He as <-.
    change (conn_after_all [] c) with c. change (feed_all [] w) with w.
    replace (c <| Conn.buffer := Conn.buffer c |>) with c by (by destruct c). rewrite insert_id by done. by destruct w.
  - cbn [concat] in Hf. destruct (feeds_split _ _ _ _ _ Hf) as (fs1 & fs2 & b1 & HF & -> & Hn1 & Hf2).
    apply Forall_app in Hbye as [Hb1 Hb2]. set (c1 := conn_after_all fs1 (c <| Conn.buffer := b1 |>)).
    assert (Hid : c = c <| Conn.buffer := Conn.buffer c |>) by (by destruct c).
    assert (Hsplit : exists w1, ev (for_each frame fs1 (Some (c <| Conn.buffer := b1 |>))) (World.coord w) = (Some c1, w1) /\
      ev (for_each frame fs2 (Some c1)) w1 = (Some (conn_after_all fs2 c1), co')).
    { rewrite eval_for_each_app in He. destruct (frames_computes fs1 c (World.coord w)) as (w1 & ok & Hc).
      destruct (Hc (Conn.buffer c)) as [H0 _]. rewrite <-Hid in H0. rewrite H0 in He.
      destruct ok; [|rewrite frames_None in He; done]. exists w1. destruct (Hc b1) as [-> _]. split; [done|].
      unfold c1. rewrite conn_after_all_buffer. eapply (frames_buffer fs2 _ (Conn.buffer c)).
      rewrite <-conn_after_all_buffer, <-Hid. rewrite He. f_equal. unfold conn_after_all. by rewrite fold_left_app. }
    destruct Hsplit as (w1 & H1 & H2).
    assert (Hdone1 : Conn.done c1 = false) by (unfold c1; by rewrite conn_after_all_done).
    assert (Hstep : feed k d w = World.mk w1 (<[k := Waiting c1]> (World.threads w))).
    { exact (feed_frames d fs1 b1 c (Some c1) w1 w Hd Hk Hdone Hb1 HF H1). }
    cbn [feed_all fold_left]. fold (feed_all chunks (feed k d w)). rewrite Hstep.
    rewrite (IH fs2 c1); cbn; [|done|apply lookup_insert_eq|done| | |done].
    + rewrite insert_insert_eq. do 3 f_equal. unfold c1. rewrite conn_after_all_buffer.
      unfold conn_after_all. rewrite fold_left_app. fold (conn_after_all fs1 c).
      fold (conn_after_all fs2 (conn_after_all fs1 c)). fold (conn_after_all fs2 ((conn_after_all fs1 c) <| Conn.buffer := b1 |>)).
      rewrite conn_after_all_buffer. by destruct (conn_after_all fs2 _).
    + unfold c1. rewrite conn_after_all_buffer. done.
    + unfold c1. rewrite conn_after_all_buffer. done.
Qed.

(** The same when a handler brings the process down: the rest is not received. *)
Lemma feed_all_gone chunks w : World.threads w !! k = None -> feed_all chunks w = w.
Proof.
  intros Hk. induction chunks as [|d chunks IH]; [done|]. cbn [feed_all fold_left].
  assert (H : feed k d w = w) by (unfold CoordRun.feed, round_of; by rewrite Hk). rewrite H. exact IH.
Qed.
Lemma serve_chunks_down chunks fs b2 c w co' :
  Forall (fun d => d <> []) chunks -> Forall (fun f => Frame.type f <> FrameType.BYE) fs ->
  World.threads w !! k = Some (Waiting c) -> Conn.done c = false -> decode_step (Conn.buffer c) = NeedMore ->
  feeds (Conn.buffer c ++ concat chunks) fs None b2 ->
  ev (for_each frame fs (Some c)) (World.coord w) = (None, co') ->
  feed_all chunks w = World.mk co' (delete k (World.threads w)).
Proof.
  intros Hne. revert fs c w. induction Hne as [|d chunks Hd Hne IH]; intros fs c w Hbye Hk Hdone Hneed Hf He.
  - cbn in Hf. rewrite app_nil_r in Hf. by destruct (feeds_nothing _ _ _ Hneed Hf) as [-> ->].
  - cbn [concat] in Hf. destruct (feeds_split _ _ _ _ _ Hf) as (fs1 & fs2 & b1 & HF & -> & Hn1 & Hf2).
    apply Forall_app in Hbye as [Hb1 Hb2]. cbn [feed_all fold_left]. fold (feed_all chunks (feed k d w)).
    destruct (frames_computes fs1 c (World.coord w)) as (w1 & ok & Hc). destruct (Hc b1) as [H1 _].
    rewrite (feed_frames d fs1 b1 c _ _ w Hd Hk Hdone Hb1 HF H1).
    destruct (Hc (Conn.buffer c)) as [H0 _]. rewrite eval_for_each_app in He.
    replace (c <| Conn.buffer := Conn.buffer c |>) with c in H0 by (by destruct c). rewrite H0 in He. destruct ok.
    + set (c1 := conn_after_all fs1 (c <| Conn.buffer := b1 |>)). rewrite (IH fs2 c1); cbn.
      * by rewrite delete_insert_eq.
      * done.
      * apply lookup_insert_eq.
      * unfold c1. by rewrite conn_after_all_done.
      * unfold c1. by rewrite conn_after_all_buffer.
      * unfold c1. by rewrite conn_after_all_buffer.
      * destruct (frames_computes fs2 (conn_after_all fs1 c) w1) as (w2 & ok2 & Hc2).
        destruct (Hc2 (Conn.buffer (conn_after_all fs1 c))) as [G0 _]. destruct (Hc2 b1) as [G1 _].
        unfold c1. rewrite conn_after_all_buffer, G1.
        replace ((conn_after_all fs1 c) <| Conn.buffer := Conn.buffer (conn_after_all fs1 c) |>) with (conn_after_all fs1 c) in G0 by (by destruct (conn_after_all fs1 c)).
        rewrite G0 in He. by destruct ok2.
    + rewrite frames_None in He. injection He as <-. apply feed_all_gone. apply lookup_delete_eq.
Qed.
End frames.
