(* ===== verification/Cluster.v ===== *)
(** * A worker and the coordinator together

    The conversation of [deploy/worker.cpp] with [deploy/coordinator.cpp]: what
    the worker sends, what the coordinator serves back, what the worker publishes
    and what the coordinator registers, over byte streams that the network may cut
    anywhere in both directions. *)

From S2P Require Import Prelude Effects Net Bytes Enums Ids Args Double Model Codec Wire WireSize WireProps Protocol ProtocolProps.
From S2P Require Import Planner Engine Persistence Storage Synthetic Lifecycle Coordinator CoordRun CoordFrames Worker.

(** ** Descriptors on the wire *)

(** What the coordinator serves for a node: its descriptor and its resources. *)
Inductive desc : Type := DNode (n : Node.t) | DRes (r : Resource.t).
#[local] Instance DNode_inj : Inj (=) (=) DNode.
Proof. by intros ? ? [=]. Qed.
#[local] Instance DRes_inj : Inj (=) (=) DRes.
Proof. by intros ? ? [=]. Qed.
Definition desc_encoder (d : desc) : W :=
  match d with DNode n => EncodeNode wire_too_long n | DRes r => EncodeResource wire_too_long r end.
Definition desc_type (d : desc) : FrameType.t :=
  match d with DNode _ => FrameType.PUBLISH_NODE | DRes _ => FrameType.PUBLISH_RESOURCE end.
Definition desc_wire (d : desc) : desc := match d with DNode n => DNode (wire_node n) | DRes r => DRes (wire_resource r) end.
Definition desc_stamp (boot : N) (d : desc) : desc :=
  match d with DNode n => DNode (stamp_node boot n) | DRes r => DRes (stamp_resource boot r) end.
Definition desc_ok (d : desc) : Prop := match d with DNode n => node_ok n | DRes r => resource_ok r end.
Definition desc_size (d : desc) : nat := match d with DNode n => node_size n | DRes r => resource_size r end.
Definition desc_bytes (d : desc) : list byte := match desc_encoder d [] with inr b => b | inl _ => [] end.
Definition desc_frame (corr : N) (d : desc) : Frame.t := Frame.mk (desc_type d) corr (desc_bytes d).
Definition desc_op (d : desc) : op := match d with DNode n => ORegisterNode n | DRes r => ORegisterResource r end.

(** A descriptor that can be encoded and fits into its frame. *)
Definition desc_fits (d : desc) : Prop := desc_ok d /\ N.of_nat (desc_size d) <= 65536.

Lemma desc_roundtrip d : desc_ok d ->
  match d with
  | DNode n => roundtrips (EncodeNode wire_too_long n) DecodeNode Node.dflt (wire_node n)
  | DRes r => roundtrips (EncodeResource wire_too_long r) DecodeResource Resource.dflt (wire_resource r)
  end.
Proof.
  destruct d as [n|r]; intros H.
  - exact (transfers_roundtrips _ _ _ _ (tr_node wire_too_long n H)).
  - exact (transfers_roundtrips _ _ _ _ (tr_resource wire_too_long r H)).
Qed.
Lemma desc_bytes_enc d : desc_ok d -> desc_encoder d [] = inr (desc_bytes d).
Proof.
  intros H%desc_roundtrip. unfold desc_bytes, desc_encoder. destruct d as [n|r]; destruct H as (b & -> & _); done.
Qed.
Lemma desc_bytes_length d : desc_ok d -> (length (desc_bytes d) <= desc_size d)%nat.
Proof.
  intros H%desc_bytes_enc. destruct d as [n|r]; unfold desc_encoder in H.
  - by apply wsize_node in H.
  - by apply wsize_resource in H.
Qed.
Lemma desc_frame_ok corr d : desc_fits d -> u64_ok corr -> frame_ok (desc_frame corr d).
Proof.
  intros [Hok Hs] Hc. pose proof (desc_bytes_length d Hok). split; [|done].
  destruct d; cbn [desc_frame Frame.payload Frame.type desc_type MaxFrameLen]; lia.
Qed.
Lemma desc_bytes_u64 d : desc_fits d -> u64_ok (N.of_nat (length (desc_bytes d))).
Proof. intros [Hok Hs]. pose proof (desc_bytes_length d Hok). unfold u64_ok. lia. Qed.
(** What the receiver of the frame decodes. *)
Lemma desc_decodes d : desc_fits d ->
  match d with
  | DNode n => exists r, DecodeNode (MakeReader (desc_bytes d), Node.dflt) = (Ret tt, (r, wire_node n))
  | DRes v => exists r, DecodeResource (MakeReader (desc_bytes d), Resource.dflt) = (Ret tt, (r, wire_resource v))
  end.
Proof.
  intros Hd. pose proof (desc_bytes_u64 d Hd) as Hu. destruct Hd as [Hok _]. pose proof (desc_bytes_enc d Hok) as He.
  apply desc_roundtrip in Hok. destruct d as [n|v]; destruct Hok as (b & Hb & Hr); unfold desc_encoder in He;
    rewrite Hb in He; apply inr_inj in He; subst b; destruct (Hr Hu) as (r & -> & _); by exists r.
Qed.

(** ** Printed numbers are short *)
Lemma pretty_N_go_length k x s : x < 10 ^ N.of_nat k -> (String.length (pretty_N_go x s) <= k + String.length s)%nat.
Proof.
  revert x s. induction k as [|k IH]; intros x s Hx.
  - assert (x = 0) as -> by (cbn in Hx; lia). by rewrite pretty_N_go_0.
  - destruct (N.eq_dec x 0) as [->|H0]; [rewrite pretty_N_go_0; lia|]. rewrite pretty_N_go_step by lia.
    etransitivity; [apply IH|].
    + apply N.Div0.div_lt_upper_bound. rewrite Nat2N.inj_succ, N.pow_succ_r' in Hx. done.
    + cbn. lia.
Qed.
Lemma pretty_length n : u64_ok n -> (String.length (pretty n) <= 20)%nat.
Proof.
  intros Hn. unfold pretty, pretty_N. case_decide; [cbn; lia|]. etransitivity; [apply (pretty_N_go_length 20)|cbn; lia].
  unfold u64_ok in Hn. eapply N.lt_trans; [exact Hn|]. done.
Qed.
Lemma string_length_app a b : String.length (a +:+ b) = (String.length a + String.length b)%nat.
Proof. induction a as [|c a IH]; [done|]. exact (f_equal S IH). Qed.

(** ** The descriptors of the topology *)
Lemma str_ok_short s : (String.length s <= 100)%nat -> str_ok s.
Proof. unfold str_ok, kWireMaxLen. change (2 ^ 15) with 32768. lia. Qed.
Lemma owner_ok boot : u64_ok boot -> str_ok (pretty boot).
Proof. intros H%pretty_length. apply str_ok_short. lia. Qed.
Lemma provenance_length (boot : N) : String.length ("worker-" +:+ pretty boot) = (7 + String.length (pretty boot))%nat.
Proof. by rewrite string_length_app. Qed.
Lemma stamp_evidence_ok boot e : u64_ok boot -> Wire.evidence_ok e -> Wire.evidence_ok (stamp_evidence boot e).
Proof.
  intros Hb (H1 & _ & H3 & _ & H5 & _ & H7 & _ & _). unfold Wire.evidence_ok. destruct e. cbn [stamp_evidence set_field] in *.
  split_and!; try done; try (by apply (bool_decide_unpack _)).
  - apply wrap64_ok.
  - apply (str_ok_short ("worker-" +:+ pretty boot)). rewrite provenance_length. pose proof (pretty_length boot Hb). lia.
  - by apply owner_ok.
Qed.
Lemma stamp_ok boot d : u64_ok boot -> desc_ok d -> desc_ok (desc_stamp boot d).
Proof.
  intros Hb. pose proof (owner_ok boot Hb) as Hp. destruct d as [n|r]; cbn [desc_ok desc_stamp]; intros H.
  - unfold node_ok in *. destruct_and? H. by split_and!.
  - unfold resource_ok in *. destruct_and? H.
    split_and!; try done; try (by apply (bool_decide_unpack _)). by apply stamp_evidence_ok.
Qed.
Lemma stamp_size boot d : u64_ok boot -> (desc_size (desc_stamp boot d) <= desc_size d + 100)%nat.
Proof.
  intros Hb. pose proof (pretty_length boot Hb) as Hp. destruct d as [n|r]; cbn [desc_size desc_stamp].
  - unfold node_size, str_size. cbn -[pretty]. lia.
  - unfold resource_size, evidence_size, str_size. cbn -[pretty plus].
    change (String.append "worker-" (pretty boot)) with ("worker-" +:+ pretty boot). rewrite string_length_app. cbn -[pretty plus]. lia.
Qed.

(** What the coordinator serves for the nodes of a REGISTER frame. *)
Definition node_descs (syn : Synthetic.t) (nid : NodeId) : list desc :=
  (DNode <$> filter (fun n => Node.id n = nid) (Synthetic.nodes_ syn)) ++
  (DRes <$> filter (fun r => Resource.node_id r = nid) (Synthetic.resources_ syn)).
Definition session_descs (ids : list NodeId) : list desc := ids ≫= node_descs coord_syn.
Definition topology (syn : Synthetic.t) : list desc :=
  (DNode <$> Synthetic.nodes_ syn) ++ (DRes <$> Synthetic.resources_ syn).
Lemma node_descs_topology syn nid d : d ∈ node_descs syn nid -> d ∈ topology syn.
Proof.
  unfold node_descs, topology. rewrite !elem_of_app, !list_elem_of_fmap.
  intros [(n & -> & [_ Hn]%list_elem_of_filter)|(r & -> & [_ Hr]%list_elem_of_filter)]; eauto.
Qed.

Definition small_desc (d : desc) : Prop := desc_ok d /\ N.of_nat (desc_size d) <= 60000 /\ desc_wire d = d.
#[local] Instance desc_ok_dec d : Decision (desc_ok d).
Proof. destruct d; cbn [desc_ok]; apply _. Defined.
Lemma topology_ok : Forall desc_ok (topology coord_syn).
Proof. decide_ok. Qed.
Lemma topology_size : Forall (fun d => N.of_nat (desc_size d) <= 60000) (topology coord_syn).
Proof. decide_ok. Qed.
Lemma topology_wire : desc_wire <$> topology coord_syn = topology coord_syn.
Proof. vm_compute. reflexivity. Qed.
Lemma topology_small d : d ∈ topology coord_syn -> small_desc d.
Proof.
  intros Hd. split; [by eapply Forall_forall in Hd; [|exact topology_ok]|].
  split; [by eapply (Forall_forall (fun d => N.of_nat (desc_size d) <= 60000)) in Hd; [|exact topology_size]|].
  apply list_elem_of_lookup_1 in Hd as [i Hi]. pose proof Hi as Hi2. rewrite <-topology_wire, list_lookup_fmap, Hi in Hi2.
  cbn in Hi2. congruence.
Qed.
Lemma session_small ids : Forall small_desc (session_descs ids).
Proof.
  apply Forall_forall. intros d Hd. apply list_elem_of_bind in Hd as (nid & Hd & _).
  exact (topology_small d (node_descs_topology coord_syn nid d Hd)).
Qed.
Lemma topology_parts (P : desc -> Prop) syn :
  Forall P (topology syn) -> Forall (fun n => P (DNode n)) (Synthetic.nodes_ syn) /\ Forall (fun r => P (DRes r)) (Synthetic.resources_ syn).
Proof. unfold topology. rewrite Forall_app, !Forall_fmap. done. Qed.
Lemma small_fits d : small_desc d -> desc_fits d.
Proof. intros (Hok & Hs & _). split; [done|lia]. Qed.
Lemma small_stamp_fits boot d : u64_ok boot -> small_desc d -> desc_fits (desc_stamp boot d).
Proof. intros Hb (Hok & Hs & _). split; [by apply stamp_ok|]. pose proof (stamp_size boot d Hb). lia. Qed.

(** ** HELLO and REGISTER *)
Lemma encodes_u64 v : encodes (Wr.U64 v) (le_bytes 8 v).
Proof. intros buf. unfold Wr.U64. by rewrite PutU64_eq. Qed.
Lemma hello_payload v : MakeCorrPayload v = le_bytes 8 v.
Proof. unfold MakeCorrPayload. by rewrite (encodes_u64 v []). Qed.
Lemma read_hello v : u64_ok v -> exists r, Rd.U64 (MakeReader (MakeCorrPayload v)) = Some (v, r).
Proof.
  intros Hv. rewrite hello_payload. destruct (reads_back _ _ _ (U64_reads v Hv) (MakeReader (le_bytes 8 v)) []) as (r & Hr & _).
  - rewrite app_nil_r. apply reader_at_start. rewrite length_le_bytes. done.
  - by exists r.
Qed.

Definition ids_bytes (ids : list N) : list byte := ids ≫= le_bytes 8.
Lemma length_ids_bytes ids : length (ids_bytes ids) = (8 * length ids)%nat.
Proof. unfold ids_bytes. induction ids as [|n ids IH]; [done|]. rewrite bind_cons, length_app, length_le_bytes, IH. cbn. lia. Qed.
Lemma encodes_each_u64 ids : encodes (Wr.each Wr.U64 ids) (ids_bytes ids).
Proof.
  induction ids as [|n ids IH]; intros buf; [cbn; by rewrite app_nil_r|]. cbn [Wr.each]. unfold Wr.seq.
  rewrite (encodes_u64 n buf), IH. unfold ids_bytes. by rewrite bind_cons, app_assoc.
Qed.
Lemma register_payload_bytes ids :
  register_payload ids [] = inr (le_bytes 4 (wrap32 (N.of_nat (length ids))) ++ ids_bytes ids).
Proof.
  unfold register_payload, Wr.seq. unfold Wr.U32. rewrite PutU32_eq. cbn [app]. by rewrite encodes_each_u64.
Qed.
Lemma read_ids_back ids r : Forall u64_ok ids -> ready r (ids_bytes ids) -> read_ids (length ids) r = Some (Id <$> ids).
Proof.
  intros H. revert r. induction H as [|n ids Hn Hids IH]; intros r Hr; [done|]. cbn [length read_ids].
  unfold ids_bytes in Hr. rewrite bind_cons in Hr.
  destruct (reads_back _ _ _ (U64_reads n Hn) r _ Hr) as (r' & -> & Hr'). by rewrite IH.
Qed.
(** The REGISTER payload of a worker is read back by the coordinator. *)
Lemma register_roundtrip ids bytes :
  Forall u64_ok ids -> (length ids <= 511)%nat -> register_payload ids [] = inr bytes -> register_ids bytes = Some (Id <$> ids).
Proof.
  intros Hids Hl Hb. rewrite register_payload_bytes in Hb. apply inr_inj in Hb. subst bytes. unfold register_ids.
  assert (Hw : wrap32 (N.of_nat (length ids)) = N.of_nat (length ids)) by (apply wrap32_small; unfold u32_ok; lia).
  rewrite Hw. destruct (reads_back _ _ _ (U32_reads (N.of_nat (length ids)) ltac:(unfold u32_ok; lia))
    (MakeReader (le_bytes 4 (N.of_nat (length ids)) ++ ids_bytes ids)) (ids_bytes ids)) as (r & -> & Hr).
  - apply reader_at_start. rewrite length_app, length_le_bytes, length_ids_bytes. unfold u64_ok. lia.
  - rewrite Nat2N.id. by apply read_ids_back.
Qed.

(** The frames that carry descriptors. *)
Definition frames_of (corr : N) (ds : list desc) : list byte := concat (encode_frame ∘ desc_frame corr <$> ds).

(** What a worker publishes, numbered from [corr] on, and its effect on the engine. *)
Fixpoint publications (boot corr : N) (ds : list desc) : list Frame.t :=
  match ds with
  | [] => []
  | d :: ds' => let corr' := wrap64 (corr + 1) in desc_frame corr' (desc_stamp boot d) :: publications boot corr' ds'
  end.
Definition register_desc (d : desc) (s : Impl.t) : Impl.t :=
  match d with DNode n => (RegisterNode n s).2 | DRes r => (RegisterResource r s).2 end.
Definition registered (ds : list desc) (s : Impl.t) : Impl.t := fold_left (fun s d => register_desc d s) ds s.

Lemma stamp_wire boot d : small_desc d -> desc_wire (desc_stamp boot d) = desc_stamp boot d.
Proof.
  intros (_ & _ & Hw). rewrite <-Hw at 2. by destruct d as [[]|[]].
Qed.

Lemma own_stamp_resource boot r : own_resource boot (stamp_resource boot r) = stamp_resource boot r.
Proof. destruct r as [? ? ? ? ? ? ? ? ? ? ? ? []]; reflexivity. Qed.

Section coordinator.
Context (k : nat) (path markdir what : string).
Abbreviation ev := (eval_prog (coord_eval k)).
Abbreviation frame := (on_frame coord_syn path markdir what).

(** The bytes handed to connection [k] add up. *)
Definition connected (w : Coord.t) : Prop := is_Some (Coord.sent w !! k).
Lemma deliver_connected b w : connected (deliver k b w).
Proof. unfold connected. cbn. rewrite lookup_insert_eq. by eexists. Qed.
Lemma deliver_deliver a b w : deliver k b (deliver k a w) = deliver k (a ++ b) w.
Proof.
  destruct w as [e f s d]. unfold deliver, sent_to. cbn. rewrite lookup_insert_eq. cbn. by rewrite insert_insert_eq, app_assoc.
Qed.
Lemma deliver_nothing w : connected w -> deliver k [] w = w.
Proof.
  intros [x Hx]. destruct w as [e f s d]. cbn in Hx. unfold deliver, sent_to. cbn. rewrite Hx. cbn.
  by rewrite app_nil_r, insert_id.
Qed.
Lemma sent_deliver b w : sent_to k (deliver k b w) = sent_to k w ++ b.
Proof. unfold sent_to. cbn. by rewrite lookup_insert_eq. Qed.

(** One of the two loops over the descriptors of the topology. *)
Lemma ev_serve {X : Type} (P : X -> Prop) `{!forall x, Decision (P x)} (mk : X -> desc) corr
    (body : X -> option Conn.t -> prog coordE (option Conn.t)) l c w :
  (forall x, body x (Some c) = if bool_decide (P x) then send_encoded (desc_type (mk x)) corr (desc_encoder (mk x)) c else mret (Some c)) ->
  Forall (fun x => desc_ok (mk x)) l -> connected w ->
  ev (for_each body l (Some c)) w =
    (Some c, deliver k (frames_of corr (mk <$> filter P l)) w).
Proof.
  intros Hb Hl. revert w. induction Hl as [|x l Hx Hl IH]; intros w Hw; [cbn; by rewrite deliver_nothing|].
  cbn [for_each]. rewrite eval_prog_bind, Hb, filter_cons. case_decide as HP.
  - rewrite bool_decide_eq_true_2 by done. unfold send_encoded. rewrite desc_bytes_enc by done.
    cbn [eval_prog mbind prog_mbind prog_bind send_frame call coord_eval mret prog_ret].
    rewrite IH by apply deliver_connected. rewrite deliver_deliver. done.
  - rewrite bool_decide_eq_false_2 by done. cbn [eval_prog mret prog_ret]. by apply IH.
Qed.

Lemma frames_of_app corr ds ds' : frames_of corr (ds ++ ds') = frames_of corr ds ++ frames_of corr ds'.
Proof. unfold frames_of. by rewrite fmap_app, concat_app. Qed.

Lemma ev_serve_id syn corr nid c w :
  Forall desc_ok (topology syn) -> connected w ->
  ev (serve_id syn corr nid (Some c)) w = (Some c, deliver k (frames_of corr (node_descs syn nid)) w).
Proof.
  intros Hok Hw. destruct (topology_parts _ _ Hok) as [Hn Hr]. unfold serve_id. rewrite eval_prog_bind.
  rewrite (ev_serve (fun n => Node.id n = nid) DNode corr); [|intros n; unfold serve_node|done|done].
  - rewrite (ev_serve (fun r => Resource.node_id r = nid) DRes corr); [|intros r; unfold serve_resource|done|apply deliver_connected].
    + rewrite deliver_deliver. unfold node_descs. by rewrite frames_of_app.
    + destruct (bool_decide_reflect (Resource.node_id r = nid)) as [E|E]; [by rewrite (proj2 (id_eqb_eq _ _) E)|].
      by rewrite (proj2 (id_eqb_neq _ _) E).
  - destruct (bool_decide_reflect (Node.id n = nid)) as [E|E]; [by rewrite (proj2 (id_eqb_eq _ _) E)|].
    by rewrite (proj2 (id_eqb_neq _ _) E).
Qed.
Lemma ev_serve_ids syn corr ids c w :
  Forall desc_ok (topology syn) -> connected w ->
  ev (for_each (serve_id syn corr) ids (Some c)) w = (Some c, deliver k (frames_of corr (ids ≫= node_descs syn)) w).
Proof.
  intros Hok. revert w. induction ids as [|nid ids IH]; intros w Hw; [cbn; by rewrite deliver_nothing|].
  cbn [for_each]. rewrite eval_prog_bind, ev_serve_id by done. rewrite IH by apply deliver_connected.
  by rewrite deliver_deliver, bind_cons, frames_of_app.
Qed.

(** The reply to a REGISTER frame: the descriptors of its nodes, then ACK. *)
Lemma ev_register f ids c w :
  Frame.type f = FrameType.REGISTER -> register_ids (Frame.payload f) = Some ids -> connected w ->
  ev (frame f (Some c)) w =
    (Some c, deliver k (frames_of (Frame.correlation f) (session_descs ids) ++ Encode FrameType.ACK (Frame.correlation f) []) w).
Proof.
  intros Ht Hi Hw. unfold on_frame. rewrite Ht. unfold on_register. rewrite Hi, eval_prog_bind.
  rewrite (ev_serve_ids coord_syn) by (exact topology_ok || done). cbn [eval_prog mbind prog_mbind prog_bind send_frame call coord_eval mret prog_ret].
  by rewrite deliver_deliver.
Qed.
(** A published descriptor is registered as the worker stamped it. *)
Lemma ev_publish boot corr d c w :
  u64_ok boot -> small_desc d -> Conn.isWorker c = true -> Conn.boot c = boot ->
  ev (frame (desc_frame corr (desc_stamp boot d)) (Some c)) w =
    (Some c, w <| Coord.engine ::= register_desc (desc_stamp boot d) |>).
Proof.
  intros Hb Hd Hc Hboot. pose proof (small_stamp_fits boot d Hb Hd) as Hf. pose proof (desc_decodes _ Hf) as Hr.
  pose proof (stamp_wire boot d Hd) as Hw. destruct w as [e fi se de]. unfold on_frame.
  destruct d as [n|r]; cbn [desc_stamp desc_frame desc_type Frame.type] in *; destruct Hr as [r' Hr].
  - unfold on_publish_node, decode_into. cbn [desc_frame Frame.payload] in *. rewrite Hr, Hc, Hboot.
    apply (inj DNode) in Hw. rewrite Hw.
    change (own_node boot (stamp_node boot n)) with (stamp_node boot n).
    cbn [eval_prog mbind prog_mbind prog_bind call coord_eval mret prog_ret]. unfold on_engine. cbn [register_desc].
    cbn. by destruct (RegisterNode _ _).
  - unfold on_publish_resource, decode_into. cbn [desc_frame Frame.payload] in *. rewrite Hr, Hc, Hboot.
    apply (inj DRes) in Hw. rewrite Hw.
    rewrite own_stamp_resource.
    cbn [eval_prog mbind prog_mbind prog_bind call coord_eval mret prog_ret]. unfold on_engine. cbn [register_desc].
    cbn. by destruct (RegisterResource _ _).
Qed.
Lemma ev_publications boot corr ds c w :
  u64_ok boot -> Forall small_desc ds -> Conn.isWorker c = true -> Conn.boot c = boot ->
  ev (for_each frame (publications boot corr ds) (Some c)) w = (Some c, w <| Coord.engine ::= registered (desc_stamp boot <$> ds) |>).
Proof.
  intros Hb Hds Hc Hboot. revert corr w. induction Hds as [|d ds Hd Hds IH]; intros corr w; [by destruct w|].
  cbn [for_each publications]. rewrite eval_prog_bind, ev_publish by done. rewrite IH. by destruct w.
Qed.
End coordinator.

(** ** The worker's receive loop *)
Section worker.
Context (boot : N).
Abbreviation ev := (eval_prog work_eval).

(** The frame makes a worker that has numbered its messages up to [corr] send
    [bytes] and number them up to [corr']. *)
Definition answers (corr : N) (f : Frame.t) (bytes : list byte) (corr' : N) : Prop :=
  forall w o, Worker.corrNext w = corr ->
    ev (worker_frame boot f (Some w)) o =
      (Some (w <| Worker.corrNext := corr' |>), mkOutbox (ob_sent o ++ bytes) (ob_dead o)).
Inductive answers_all : N -> list Frame.t -> list byte -> N -> Prop :=
  | aa_nil corr : answers_all corr [] [] corr
  | aa_cons corr f bytes corr1 fs bytes' corr2 :
      answers corr f bytes corr1 -> answers_all corr1 fs bytes' corr2 -> answers_all corr (f :: fs) (bytes ++ bytes') corr2.

Lemma answers_all_app corr fs bytes corr1 fs' bytes' corr2 :
  answers_all corr fs bytes corr1 -> answers_all corr1 fs' bytes' corr2 -> answers_all corr (fs ++ fs') (bytes ++ bytes') corr2.
Proof. induction 1 as [|corr f b c1 fs b' c2 Hf Hfs IH]; [done|]. intros H. cbn. rewrite <-app_assoc. econstructor; eauto. Qed.
Lemma answers_all_split fs1 fs2 corr bytes corr2 :
  answers_all corr (fs1 ++ fs2) bytes corr2 ->
  exists b1 b2 corr1, bytes = b1 ++ b2 /\ answers_all corr fs1 b1 corr1 /\ answers_all corr1 fs2 b2 corr2.
Proof.
  revert corr bytes. induction fs1 as [|f fs1 IH]; intros corr bytes H.
  - exists [], bytes, corr. split_and!; [done|constructor|done].
  - cbn in H. inversion H as [|? ? b c1 ? b' ? Hf Hr]; subst. destruct (IH _ _ Hr) as (b1 & b2 & c1' & -> & H1 & H2).
    exists (b ++ b1), b2, c1'. split_and!; [by rewrite app_assoc|by econstructor|done].
Qed.
Lemma ev_answers fs corr bytes corr' w o :
  answers_all corr fs bytes corr' -> Worker.corrNext w = corr ->
  ev (for_each (worker_frame boot) fs (Some w)) o =
    (Some (w <| Worker.corrNext := corr' |>), mkOutbox (ob_sent o ++ bytes) (ob_dead o)).
Proof.
  intros H. revert w o. induction H as [corr|corr f b c1 fs b' c2 Hf Hfs IH]; intros w o Hw.
  - cbn. rewrite app_nil_r. destruct w, o. cbn in *. by subst.
  - cbn [for_each]. rewrite eval_prog_bind, (Hf w o Hw). rewrite IH by done. cbn. rewrite <-app_assoc. by destruct w.
Qed.

(** One chunk, and a sequence of chunks. *)
Definition worker_feed (st : option Worker.t * Outbox) (d : list byte) : option Worker.t * Outbox :=
  match st.1 with
  | Some w => ev (worker_recv boot (Z.of_nat (length d)) d w) st.2
  | None => st
  end.
Definition worker_feed_all (chunks : list (list byte)) (st : option Worker.t * Outbox) : option Worker.t * Outbox :=
  fold_left worker_feed chunks st.

Lemma worker_chunks chunks fs corr bytes corr' b2 w o :
  Forall (fun d => d <> []) chunks -> Worker.alive w = true -> Worker.corrNext w = corr ->
  decode_step (Worker.buffer w) = NeedMore -> feeds (Worker.buffer w ++ concat chunks) fs None b2 ->
  answers_all corr fs bytes corr' ->
  worker_feed_all chunks (Some w, o) =
    (Some (w <| Worker.buffer := b2 |> <| Worker.corrNext := corr' |>), mkOutbox (ob_sent o ++ bytes) (ob_dead o)).
Proof.
  intros Hne. revert fs corr bytes w o. induction Hne as [|d chunks Hd Hne IH]; intros fs corr bytes w o Hal Hc Hneed Hf Ha.
  - cbn in Hf. rewrite app_nil_r in Hf. destruct (feeds_nothing _ _ _ Hneed Hf) as [-> ->]. inversion Ha; subst.
    cbn. rewrite app_nil_r. by destruct w, o.
  - cbn [concat] in Hf. destruct (feeds_split _ _ _ _ _ Hf) as (fs1 & fs2 & b1 & HF & -> & Hneed1 & Hf2).
    destruct (answers_all_split _ _ _ _ _ Ha) as (a1 & a2 & c1 & -> & Ha1 & Ha2).
    cbn [worker_feed_all fold_left]. fold (worker_feed_all chunks (worker_feed (Some w, o) d)).
    assert (Hstep : worker_feed (Some w, o) d =
      (Some (w <| Worker.buffer := b1 |> <| Worker.corrNext := c1 |>), mkOutbox (ob_sent o ++ a1) (ob_dead o))).
    { unfold worker_feed, worker_recv. cbn [fst snd]. assert (0 < length d)%nat by (destruct d; [done|cbn; lia]).
      rewrite (proj2 (Z.eqb_neq _ (-2))), (proj2 (Z.leb_gt _ 0)) by lia. rewrite Nat2Z.id, firstn_all, HF.
      cbn [fr_error fr_out fr_buffer]. rewrite eval_prog_bind, (ev_answers _ corr a1 c1) by done. cbn. by rewrite Hal. }
    rewrite Hstep, (IH fs2 c1 a2); [|done..]. cbn. rewrite <-app_assoc. by destruct w.
Qed.
End worker.

(** ** A session *)
Section answers.
Context (boot : N) (Hboot : u64_ok boot).
Definition ack (corr : N) : Frame.t := Frame.mk FrameType.ACK corr [].

Lemma answers_ack corr n : answers boot corr (ack n) [] corr.
Proof. intros w o Hw. cbn. rewrite app_nil_r. destruct w, o. cbn in *. by subst. Qed.
Lemma answers_desc corr n d :
  small_desc d ->
  answers boot corr (desc_frame n d) (encode_frame (desc_frame (wrap64 (corr + 1)) (desc_stamp boot d))) (wrap64 (corr + 1)).
Proof.
  intros Hd w o Hw. pose proof (desc_decodes d (small_fits d Hd)) as Hr.
  destruct (small_stamp_fits boot d Hboot Hd) as [Hok _]. apply desc_bytes_enc in Hok. destruct Hd as (_ & _ & Hd).
  unfold worker_frame. destruct d as [v|v]; cbn [desc_frame desc_type Frame.type Frame.payload desc_stamp desc_encoder desc_wire] in *;
    destruct Hr as [r ->]; [apply (inj DNode) in Hd|apply (inj DRes) in Hd]; rewrite Hd; unfold worker_publish; rewrite Hok;
    unfold worker_send; cbn [eval_prog mbind prog_mbind prog_bind call work_eval mret prog_ret];
    destruct w; cbn [Worker.corrNext] in Hw; subst; unfold encode_frame;
    cbn [desc_frame desc_type Frame.type Frame.correlation Frame.payload]; reflexivity.
Qed.
Lemma answers_descs corr n ds :
  Forall small_desc ds ->
  exists corr', answers_all boot corr (desc_frame n <$> ds) (concat (encode_frame <$> publications boot corr ds)) corr'.
Proof.
  intros H. revert corr. induction H as [|d ds Hd Hds IH]; intros corr; [eexists; constructor|].
  destruct (IH (wrap64 (corr + 1))) as [corr' H']. exists corr'. cbn. econstructor; [by apply answers_desc|exact H'].
Qed.
End answers.

(** The network delivers a stream in non-empty pieces no larger than the buffer
    of the receiver. *)
Definition cuts (limit : N) (stream : list byte) (chunks : list (list byte)) : Prop :=
  concat chunks = stream /\ Forall (fun d => d <> [] /\ N.of_nat (length d) <= limit) chunks.
Lemma cuts_nonempty limit stream chunks : cuts limit stream chunks -> Forall (fun d => d <> []) chunks.
Proof. intros [_ H]. by eapply Forall_impl; [exact H|intros d [? _]]. Qed.
(** A stream of frames, cut somehow, is decoded from an empty buffer. *)
Lemma cuts_feeds limit fs chunks :
  Forall frame_ok fs -> cuts limit (concat (encode_frame <$> fs)) chunks -> feeds ([] ++ concat chunks) fs None [].
Proof.
  intros Hfs [Hc _]. rewrite Hc. pose proof (feeds_frames fs [] [] None [] Hfs (feeds_need [] eq_refl)) as H.
  by rewrite !app_nil_r in H.
Qed.

(** A stream can be cut into pieces of one size. *)
Fixpoint chop (fuel n : nat) (stream : list byte) : list (list byte) :=
  match fuel, stream with
  | S fuel', _ :: _ => take n stream :: chop fuel' n (drop n stream)
  | _, _ => []
  end.
Lemma chop_cuts n limit stream :
  (0 < n)%nat -> N.of_nat n <= limit -> cuts limit stream (chop (length stream) n stream).
Proof.
  intros Hn Hl. assert (H : forall fuel s, (length s <= fuel)%nat -> cuts limit s (chop fuel n s)).
  { induction fuel as [|fuel IH]; intros [|b s] Hs; cbn [chop length] in *; [by split|lia|by split|].
    destruct (IH (drop n (b :: s))) as [Hc Hf]; [rewrite length_drop; cbn; lia|]. split.
    - cbn [concat]. by rewrite Hc, take_drop.
    - constructor; [|done]. split; [by destruct n; [lia|]|]. rewrite length_take. lia. }
  by apply H.
Qed.

(** What a worker sends before its loop. *)
Definition introduction (boot : N) (nodesArg : string) : option Worker.t * Outbox :=
  eval_prog work_eval (worker_start boot nodesArg) (mkOutbox [] None).
Definition register_body (ids : list N) : list byte := le_bytes 4 (wrap32 (N.of_nat (length ids))) ++ ids_bytes ids.
Definition intro_frames (boot : N) (ids : list N) : list Frame.t :=
  [Frame.mk FrameType.HELLO 1 (MakeCorrPayload boot); Frame.mk FrameType.REGISTER 2 (register_body ids)].

Lemma introduction_frames boot arg :
  introduction boot arg = (Some Worker.init, mkOutbox (concat (encode_frame <$> intro_frames boot (node_ids arg))) None).
Proof.
  unfold introduction, worker_start. rewrite register_payload_bytes.
  cbn [eval_prog mbind prog_mbind prog_bind call work_eval mret prog_ret negb ob_sent ob_dead app].
  unfold intro_frames. cbn [fmap list_fmap concat]. by rewrite app_nil_r.
Qed.
Lemma intro_frames_ok boot ids : (length ids <= 511)%nat -> Forall frame_ok (intro_frames boot ids).
Proof.
  intros Hl. apply Forall_cons; split; [|apply Forall_singleton]; (split; [|vm_compute; done]);
    cbn [Frame.type Frame.payload MaxFrameLen].
  - rewrite hello_payload, length_le_bytes. lia.
  - unfold register_body. rewrite length_app, length_le_bytes, length_ids_bytes. lia.
Qed.
Definition conn_of (boot : N) : Conn.t := Conn.mk [] boot true false.

Section session.
Context (k : nat) (path markdir what : string) (boot : N) (ids : list N).
Context (Hboot : u64_ok boot) (Hnz : boot <> 0) (Hids : Forall u64_ok ids) (Hlen : (length ids <= 511)%nat).
Abbreviation descs := (session_descs (Id <$> ids)).
Definition replies : list Frame.t := ack 1 :: (desc_frame 2 <$> descs) ++ [ack 2].

Lemma replies_ok : Forall frame_ok replies.
Proof.
  constructor; [split; vm_compute; done|]. apply Forall_app. split; [|repeat constructor; vm_compute; done].
  apply Forall_fmap. eapply Forall_impl; [apply session_small|]. intros d Hd. apply desc_frame_ok; [by apply small_fits|done].
Qed.
Lemma replies_bytes :
  concat (encode_frame <$> replies) = Encode FrameType.ACK 1 [] ++ frames_of 2 descs ++ Encode FrameType.ACK 2 [].
Proof.
  unfold replies, frames_of. rewrite fmap_cons, fmap_app, <-list_fmap_compose. cbn [concat]. rewrite concat_app.
  cbn [fmap list_fmap concat]. by rewrite app_nil_r.
Qed.

(** The coordinator greets the worker and serves its nodes. *)
Lemma ev_intro co :
  connected k co ->
  eval_prog (coord_eval k) (for_each (on_frame coord_syn path markdir what) (intro_frames boot ids) (Some Conn.init)) co =
    (Some (conn_of boot), deliver k (concat (encode_frame <$> replies)) co).
Proof.
  intros Hco. unfold intro_frames. cbn [for_each]. rewrite eval_prog_bind. destruct (read_hello boot Hboot) as [r Hr].
  unfold on_frame at 1. cbn [Frame.type]. unfold on_hello. cbn [Frame.payload Frame.correlation]. rewrite Hr.
  rewrite (proj2 (N.eqb_neq _ _) Hnz).
  cbn [eval_prog mbind prog_mbind prog_bind send_frame call coord_eval mret prog_ret negb]. rewrite eval_prog_bind.
  rewrite (ev_register k path markdir what _ (Id <$> ids)); [|done| |apply deliver_connected].
  - cbn [eval_prog mret prog_ret Frame.correlation]. by rewrite deliver_deliver, replies_bytes.
  - apply (register_roundtrip ids); [done..|]. apply register_payload_bytes.
Qed.
Lemma conn_after_intro : conn_after_all (intro_frames boot ids) Conn.init = conn_of boot.
Proof.
  destruct (read_hello boot Hboot) as [r Hr]. unfold conn_after_all, intro_frames. cbn [fold_left]. unfold conn_after.
  cbn [Frame.type Frame.payload]. rewrite Hr, (proj2 (N.eqb_neq _ _) Hnz). done.
Qed.

(** The three legs of a session. *)
Lemma leg_introduction up w :
  World.threads w !! k = Some (Waiting Conn.init) -> connected k (World.coord w) ->
  cuts 8192 (concat (encode_frame <$> intro_frames boot ids)) up ->
  feed_all k path markdir what up w =
    World.mk (deliver k (concat (encode_frame <$> replies)) (World.coord w)) (<[k := Waiting (conn_of boot)]> (World.threads w)).
Proof.
  intros Hk Hco Hup. rewrite (serve_chunks k path markdir what up (intro_frames boot ids) [] Conn.init w
    (deliver k (concat (encode_frame <$> replies)) (World.coord w))); [by rewrite conn_after_intro| |by repeat constructor|done..| |].
  - by eapply cuts_nonempty.
  - eapply cuts_feeds; [by apply intro_frames_ok|done].
  - rewrite ev_intro by done. by rewrite conn_after_intro.
Qed.
Lemma leg_replies down :
  cuts 4096 (concat (encode_frame <$> replies)) down ->
  exists wk, worker_feed_all boot down (Some Worker.init, mkOutbox [] None) =
    (Some wk, mkOutbox (concat (encode_frame <$> publications boot 100 descs)) None) /\ Worker.alive wk = true.
Proof.
  intros Hd. destruct (answers_descs boot Hboot 100 2 descs (session_small _)) as [corr' Ha]. eexists. split.
  - assert (Hall : answers_all boot 100 replies ([] ++ concat (encode_frame <$> publications boot 100 descs) ++ [] ++ []) corr').
    { unfold replies. econstructor; [apply answers_ack|]. eapply answers_all_app; [exact Ha|].
      econstructor; [apply answers_ack|constructor]. }
    rewrite !app_nil_r, app_nil_l in Hall.
    apply (worker_chunks boot down replies 100 _ corr' [] Worker.init (mkOutbox [] None)); [by eapply cuts_nonempty|done..| |exact Hall].
    eapply cuts_feeds; [apply replies_ok|done].
  - done.
Qed.
Lemma publications_ok corr ds : Forall small_desc ds -> Forall frame_ok (publications boot corr ds).
Proof.
  intros H. revert corr. induction H as [|d ds Hd Hds IH]; intros corr; cbn [publications]; constructor; [|apply IH].
  apply desc_frame_ok; [by apply small_stamp_fits|apply wrap64_ok].
Qed.
Lemma publications_type corr ds (f : Frame.t) :
  f ∈ publications boot corr ds -> Frame.type f = FrameType.PUBLISH_NODE \/ Frame.type f = FrameType.PUBLISH_RESOURCE.
Proof.
  revert corr. induction ds as [|d ds IH]; intros corr; cbn [publications]; [by intros ?%elem_of_nil|].
  intros [->|H]%elem_of_cons; [destruct d; auto|eauto].
Qed.
Lemma conn_after_publications corr ds c : conn_after_all (publications boot corr ds) c = c.
Proof.
  revert corr c. induction ds as [|d ds IH]; intros corr c; [done|]. unfold conn_after_all in *. cbn [publications fold_left].
  rewrite IH. by destruct d.
Qed.
Lemma leg_publications pub w :
  World.threads w !! k = Some (Waiting (conn_of boot)) -> cuts 8192 (concat (encode_frame <$> publications boot 100 descs)) pub ->
  feed_all k path markdir what pub w = w <| World.coord ::= fun co => co <| Coord.engine ::= registered (desc_stamp boot <$> descs) |> |>.
Proof.
  intros Hk Hp. rewrite (serve_chunks k path markdir what pub (publications boot 100 descs) [] (conn_of boot) w
    ((World.coord w) <| Coord.engine ::= registered (desc_stamp boot <$> descs) |>)); [|by eapply cuts_nonempty| |done..| |].
  - rewrite conn_after_publications. change ((conn_of boot) <| Conn.buffer := [] |>) with (conn_of boot).
    rewrite insert_id by done. by destruct w.
  - apply Forall_forall. intros f [H|H]%publications_type; by rewrite H.
  - eapply cuts_feeds; [apply publications_ok, session_small|done].
  - rewrite conn_after_publications. apply ev_publications; [done|apply session_small|done..].
Qed.
End session.
