(* ===== verification/ClusterProps.v ===== *)
(** * What a worker session guarantees

    The claims about the conversation of a worker with the coordinator: whatever
    the network does to the packet boundaries, the coordinator ends with exactly
    the descriptors of the worker's nodes, stamped with the worker's boot id, and
    revokes their evidence when the connection ends. *)

From S2P Require Import Prelude Effects Net Bytes Enums Ids Args Double Model Codec Wire WireSize WireProps Protocol ProtocolProps.
From S2P Require Import Planner Engine Persistence Storage Synthetic Lifecycle LifecycleProps Coordinator CoordRun CoordFrames Worker Cluster.

(** ** What registration leaves in the registry *)
Lemma register_desc_lookup d s rid :
  Impl.resources (register_desc d s) !! rid =
    match d with
    | DRes r => if bool_decide (Resource.id r = rid /\ IsValid rid = true) then Some r else Impl.resources s !! rid
    | DNode _ => Impl.resources s !! rid
    end.
Proof.
  destruct d as [n|r]; cbn [register_desc].
  - unfold RegisterNode, IngestNodeLocked. destruct (IsValid (Node.id n)); cbn [negb snd]; [|done].
    by repeat case_match.
  - unfold RegisterResource, IngestResourceLocked. destruct (IsValid (Resource.id r)) eqn:E; cbn [negb snd].
    + cbv zeta. destruct (match Impl.resources s !! Resource.id r with Some old => negb (id_eqb (Resource.generation old) (Resource.generation r)) | None => false end);
        change (<[Resource.id r := r]> (Impl.resources s) !! rid = if bool_decide (Resource.id r = rid /\ IsValid rid = true) then Some r else Impl.resources s !! rid);
        (case_bool_decide as H; [destruct H as [<- _]; apply lookup_insert_eq|apply lookup_insert_ne; intros <-; by apply H]).
    + case_bool_decide as H; [|done]. destruct H as [<- H]. congruence.
Qed.
(** A registered resource stays as it is unless another one takes its id. *)
Lemma registered_lookup ds r s :
  DRes r ∈ ds -> IsValid (Resource.id r) = true ->
  (forall r', DRes r' ∈ ds -> Resource.id r' = Resource.id r -> r' = r) ->
  Impl.resources (registered ds s) !! Resource.id r = Some r.
Proof.
  unfold registered. induction ds as [|d ds IH] using rev_ind; intros Hr Hv Hu; [by apply elem_of_nil in Hr|].
  rewrite fold_left_app. cbn [fold_left]. rewrite register_desc_lookup. apply elem_of_app in Hr.
  assert (Hu' : forall r', DRes r' ∈ ds -> Resource.id r' = Resource.id r -> r' = r) by (intros r' H; apply Hu; set_solver).
  destruct d as [n|r2].
  - destruct Hr as [Hr|Hr]; [by apply IH|]. by apply list_elem_of_singleton in Hr.
  - case_bool_decide as Hid.
    + f_equal. apply Hu; [set_solver|apply Hid].
    + destruct Hr as [Hr|Hr]; [by apply IH|]. apply list_elem_of_singleton in Hr as [= ->]. by destruct Hid.
Qed.

(** The ids of the topology are distinct and valid. *)
Lemma topology_ids : NoDup (Resource.id <$> Synthetic.resources_ coord_syn).
Proof. decide_ok. Qed.
Lemma topology_valid : Forall (fun r => IsValid (Resource.id r) = true) (Synthetic.resources_ coord_syn).
Proof. decide_ok. Qed.
Lemma topology_unique (rs : list Resource.t) r r' :
  NoDup (Resource.id <$> rs) -> r ∈ rs -> r' ∈ rs -> Resource.id r' = Resource.id r -> r' = r.
Proof.
  intros Hnd [i Hi]%list_elem_of_lookup [j Hj]%list_elem_of_lookup Hid. 
  assert (i = j) as ->; [|congruence]. eapply (NoDup_lookup _ i j (Resource.id r)); [exact Hnd|..]; rewrite list_lookup_fmap; [by rewrite Hi|rewrite Hj; cbn; by f_equal].
Qed.
Lemma node_descs_res syn nid r : DRes r ∈ node_descs syn nid <-> r ∈ Synthetic.resources_ syn /\ Resource.node_id r = nid.
Proof.
  unfold node_descs. rewrite elem_of_app, !list_elem_of_fmap. split.
  - intros [(n & [=] & _)|(r' & [= <-] & [H1 H2]%list_elem_of_filter)]. done.
  - intros [H1 H2]. right. exists r. split; [done|]. by apply list_elem_of_filter.
Qed.

(** The resources of the worker's nodes are registered as it stamped them. *)
Lemma session_resources boot ids r s :
  r ∈ Synthetic.resources_ coord_syn -> Resource.node_id r ∈ ids ->
  Impl.resources (registered (desc_stamp boot <$> session_descs ids) s) !! Resource.id r = Some (stamp_resource boot r).
Proof.
  intros Hr Hn. change (Resource.id r) with (Resource.id (stamp_resource boot r)). apply registered_lookup.
  - change (DRes (stamp_resource boot r)) with (desc_stamp boot (DRes r)). apply list_elem_of_fmap_2.
    apply list_elem_of_bind. exists (Resource.node_id r). split; [|done]. by apply node_descs_res.
  - change (Resource.id (stamp_resource boot r)) with (Resource.id r).
    exact (proj1 (Forall_forall _ _) topology_valid r Hr).
  - intros r' Hr' Hid. apply list_elem_of_fmap in Hr' as (d & Hd & Hin). destruct d as [n|r0]; [done|].
    cbn [desc_stamp] in Hd. injection Hd as ->. f_equal. apply list_elem_of_bind in Hin as (nid & Hin & _).
    apply node_descs_res in Hin as [Hin _]. exact (topology_unique _ r r0 topology_ids Hr Hin Hid).
Qed.

(** ** Sessions *)
Section sessions.
Context (k : nat) (path markdir what : string).
Abbreviation feeds_in := (feed_all k path markdir what).

(** The connection is accepted and has received nothing. *)
Definition fresh_connection (w : World.t) : Prop :=
  World.threads w !! k = Some (Waiting Conn.init) /\ Coord.sent (World.coord w) !! k = Some [].

(** From [w] to [w'] the worker [st] holds a session: its introduction reaches the
    coordinator, the replies reach the worker, and what it publishes reaches the
    coordinator, each stream cut somehow. *)
Definition session (boot : N) (arg : string) (w w' : World.t) (st : option Worker.t * Outbox) : Prop :=
  exists up down pub,
    cuts 8192 (ob_sent (introduction boot arg).2) up /\
    cuts 4096 (sent_to k (World.coord (feeds_in up w))) down /\
    st = worker_feed_all boot down ((introduction boot arg).1, mkOutbox [] None) /\
    cuts 8192 (ob_sent st.2) pub /\ w' = feeds_in pub (feeds_in up w).

Lemma session_exists boot arg w : exists w' st, session boot arg w w' st.
Proof.
  do 2 eexists. eexists (chop _ 100 _), (chop _ 100 _), (chop _ 100 _).
  split_and!; [apply chop_cuts; lia|apply chop_cuts; lia|reflexivity|apply chop_cuts; lia|reflexivity].
Qed.

Lemma session_effect boot arg w w' st :
  u64_ok boot -> boot <> 0 -> (length (node_ids arg) <= 511)%nat -> fresh_connection w -> session boot arg w w' st ->
  is_Some st.1 /\ ob_dead st.2 = None /\
  World.threads w' = <[k := Waiting (conn_of boot)]> (World.threads w) /\
  Coord.engine (World.coord w') =
    registered (desc_stamp boot <$> session_descs (Id <$> node_ids arg)) (Coord.engine (World.coord w)) /\
  Coord.files (World.coord w') = Coord.files (World.coord w) /\ Coord.dead (World.coord w') = Coord.dead (World.coord w).
Proof.
  intros Hb Hnz Hl [Hk Hs] (up & down & pub & Hup & Hdown & Hst & Hpub & ->). set (ids := node_ids arg) in *.
  assert (Hids : Forall u64_ok ids) by apply node_ids_u64.
  assert (Hco : connected k (World.coord w)) by (by eexists).
  rewrite introduction_frames in Hup, Hst. fold ids in Hup. cbn [fst snd ob_sent] in Hup, Hst.
  pose proof (leg_introduction k path markdir what boot ids Hb Hnz Hids Hl up w Hk Hco Hup) as H1.
  rewrite H1 in Hdown |- *. cbn [World.coord] in Hdown. rewrite sent_deliver in Hdown.
  assert (Hs0 : sent_to k (World.coord w) = []) by (unfold sent_to; by rewrite Hs).
  rewrite Hs0 in Hdown. cbn [app] in Hdown.
  destruct (leg_replies boot ids Hb down Hdown) as (wk & H2 & Hal). rewrite H2 in Hst. subst st. cbn [snd ob_sent] in Hpub.
  rewrite (leg_publications k path markdir what boot ids Hb pub _ (lookup_insert_eq _ _ _) Hpub). split_and!; done.
Qed.

(** The connection of a worker ends. *)
Lemma hangup_worker boot w :
  boot <> 0 -> World.threads w !! k = Some (Waiting (conn_of boot)) ->
  hangup path markdir what k w =
    World.mk ((World.coord w) <| Coord.engine ::= MarkEvidenceRevalidationRequired (Id boot) |>) (delete k (World.threads w)).
Proof.
  intros Hnz Hk. unfold hangup, round_of. rewrite Hk. unfold on_recv. cbn [Z.eqb]. unfold finish.
  change (Conn.isWorker _ && negb (Conn.boot _ =? 0)) with (true && negb (boot =? 0)).
  by rewrite (proj2 (N.eqb_neq _ _) Hnz).
Qed.
End sessions.

(** ** Claims *)

(** C15: A worker session, end to end: for every node list of at most 511 ids a session
    runs, and however the network cuts the three streams (the introduction of the
    worker, the replies of the coordinator, the publications of the worker) the
    worker survives, the coordinator goes on serving, and its engine has made
    exactly the registrations of the descriptors of those nodes, in the order of
    the list, each stamped with the boot id of the worker; nothing else changed. *)
Theorem worker_session k path markdir what boot arg w :
  u64_ok boot -> boot <> 0 -> (length (node_ids arg) <= 511)%nat -> fresh_connection k w ->
  (exists w' st, session k path markdir what boot arg w w' st) /\
  forall w' st, session k path markdir what boot arg w w' st ->
    is_Some st.1 /\ ob_dead st.2 = None /\
    World.threads w' = <[k := Waiting (conn_of boot)]> (World.threads w) /\
    Coord.engine (World.coord w') =
      registered (desc_stamp boot <$> session_descs (Id <$> node_ids arg)) (Coord.engine (World.coord w)) /\
    Coord.files (World.coord w') = Coord.files (World.coord w) /\ Coord.dead (World.coord w') = Coord.dead (World.coord w).
Proof. intros Hb Hnz Hl Hw. split; [apply session_exists|]. intros w' st. by apply session_effect. Qed.

(** A coordinator that has just started without a state file. *)
Definition started : World.t := accept 0 (start "coordinator.state" ReadWhole 1 ∅).
Lemma started_fresh : fresh_connection 0 started.
Proof. split; apply lookup_insert_eq. Qed.

Lemma worker_session_witness :
  exists w' st, session 0 "coordinator.state" "" "" 77 "1,4" started w' st /\
    Coord.engine (World.coord w') = registered (desc_stamp 77 <$> session_descs [Id 1; Id 4]) (Coord.engine (World.coord started)).
Proof.
  destruct (worker_session 0 "coordinator.state" "" "" 77 "1,4" started) as [(w' & st & Hs) H];
    [done|done|vm_compute; lia|exact started_fresh|].
  exists w', st. split; [exact Hs|]. destruct (H w' st Hs) as (_ & _ & _ & He & _). exact He.
Defined.

(** C16: The lifetime of a worker's evidence: after a session every resource on a node of
    the worker is registered as the worker stamped it, owned by its boot id and
    current; when the connection ends, the evidence of none of them is current, no
    ACTIVE composition has one of them as a member, and activating a composition
    on one of them is rejected. *)
Theorem worker_evidence_lifetime k path markdir what boot arg w w' st r :
  u64_ok boot -> boot <> 0 -> (length (node_ids arg) <= 511)%nat -> fresh_connection k w ->
  session k path markdir what boot arg w w' st ->
  r ∈ Synthetic.resources_ coord_syn -> Resource.node_id r ∈ (Id <$> node_ids arg : list NodeId) ->
  let s := Coord.engine (World.coord w') in
  let s' := Coord.engine (World.coord (hangup path markdir what k w')) in
  (Impl.resources s !! Resource.id r = Some (stamp_resource boot r) /\
   IsCurrent (Resource.evidence (stamp_resource boot r)) = true /\
   Evidence.owner (Resource.evidence (stamp_resource boot r)) = pretty boot) /\
  (exists r', Impl.resources s' !! Resource.id r = Some r' /\ IsCurrent (Resource.evidence r') = false) /\
  (forall id c, Impl.compositions s' !! id = Some c -> Resource.id r ∈ ResourceGraph.vertices (Composition.graph c) ->
     Composition.lifecycle c <> CompositionLifecycle.ACTIVE /\ is_success (ar_outcome (Activate id s').1) = false).
Proof.
  intros Hb Hnz Hl Hw Hs Hr Hn. destruct (session_effect _ _ _ _ _ _ _ _ _ Hb Hnz Hl Hw Hs) as (_ & _ & Ht & He & _).
  assert (Hlook : Impl.resources (Coord.engine (World.coord w')) !! Resource.id r = Some (stamp_resource boot r)).
  { rewrite He. by apply session_resources. }
  assert (Hh : Coord.engine (World.coord (hangup path markdir what k w')) = run (OMarkEvidence (Id boot)) (Coord.engine (World.coord w'))).
  { by rewrite (hangup_worker k path markdir what boot) by (done || (rewrite Ht; apply lookup_insert_eq)). }
  cbv zeta. rewrite Hh.
  assert (Hf : fault (Coord.engine (World.coord w')) (Resource.id r) (OMarkEvidence (Id boot))).
  { eapply fault_worker; [exact Hlook|]. apply orb_true_iff. left. apply String.eqb_refl. }
  destruct (fault_evidence _ _ _ _ Hlook Hf) as (r' & Hr' & Hcur).
  split; [done|]. split; [by exists r'|]. intros id c Hc Hin. split.
  - exact (fault_inactive _ _ _ _ _ _ Hlook Hf Hc Hin).
  - exact (fault_rejects_activation _ _ _ _ _ _ Hlook Hf Hc Hin).
Qed.

Lemma worker_evidence_lifetime_witness :
  exists w' st, session 0 "coordinator.state" "" "" 77 "1,4" started w' st /\
    Impl.resources (Coord.engine (World.coord w')) !! Id 106 = Some (stamp_resource 77 Synthetic.gpu2) /\
    exists r', Impl.resources (Coord.engine (World.coord (hangup "coordinator.state" "" "" 0 w'))) !! Id 106 = Some r' /\
      IsCurrent (Resource.evidence r') = false.
Proof.
  destruct (session_exists 0 "coordinator.state" "" "" 77 "1,4" started) as (w' & st & Hs). exists w', st. split; [exact Hs|].
  destruct (worker_evidence_lifetime 0 "coordinator.state" "" "" 77 "1,4" started w' st Synthetic.gpu2) as ((H1 & _) & H2 & _);
    [done|done|vm_compute; lia|exact started_fresh|exact Hs|apply list_elem_of_In; cbn [In Synthetic.resources_ coord_syn Synthetic.SyntheticBackend]; tauto| |].
  - apply list_elem_of_fmap. exists 4. split; [reflexivity|]. apply list_elem_of_In. right. left. reflexivity.
  - exact (conj H1 H2).
Defined.
