(* ===== verification/CoordProps.v ===== *)
(** * What the coordinator guarantees

    The claims about [deploy/coordinator.cpp] as a process: under every
    interleaving, failure and kill it refines the session server of [CoordTrace];
    volatile evidence is current only while a thread is bound to revoke it; no
    byte sequence makes it read outside a buffer; packet boundaries do not matter;
    a remote call is the local call; a restart restores no authority. *)

From S2P Require Import Prelude Effects Net Bytes Enums Ids Args Double Model Codec Wire WireSize WireProps Protocol ProtocolProps.
From S2P Require Import Planner Engine Persistence Storage Synthetic Lifecycle LifecycleProps Ledger Scenario Coordinator CoordSafety.
From S2P Require Import CoordTrace CoordEvidence CoordRun CoordDefined CoordFrames Worker Cluster ClusterProps.

(** ** A stream of frames at a connection *)
Section stream.
Context (k : nat) (path markdir what : string).
Abbreviation ev := (eval_prog (coord_eval k)).
Abbreviation frame := (on_frame coord_syn path markdir what).

(** What the handlers make of the frames, one after the other. *)
Definition handled (fs : list Frame.t) (c : Conn.t) (w : World.t) : World.t :=
  let '(oc, co) := ev (for_each frame fs (Some c)) (World.coord w) in
  World.mk co (match oc with Some c' => <[k := Waiting c']> (World.threads w) | None => delete k (World.threads w) end).

Lemma serve_stream fs c w chunks :
  Forall frame_ok fs -> Forall (fun f => Frame.type f <> FrameType.BYE) fs ->
  World.threads w !! k = Some (Waiting c) -> Conn.done c = false -> Conn.buffer c = [] ->
  cuts 8192 (concat (encode_frame <$> fs)) chunks ->
  feed_all k path markdir what chunks w = handled fs c w.
Proof.
  intros Hok Hbye Hk Hd Hb Hc. pose proof (cuts_feeds _ _ _ Hok Hc) as Hf. rewrite <-Hb in Hf at 1.
  assert (Hneed : decode_step (Conn.buffer c) = NeedMore) by (by rewrite Hb). apply cuts_nonempty in Hc. unfold handled.
  destruct (frames_computes k path markdir what fs c (World.coord w)) as (co & ok & Hcomp). specialize (Hcomp []) as [He _].
  replace (c <| Conn.buffer := [] |>) with c in He by (destruct c; cbn in Hb; by subst). rewrite He. destruct ok.
  - rewrite (serve_chunks k path markdir what chunks fs [] c w co Hc Hbye Hk Hd Hneed Hf He). do 3 f_equal.
    rewrite <-conn_after_all_buffer. f_equal. destruct c; cbn in Hb; by subst.
  - by rewrite (serve_chunks_down k path markdir what chunks fs [] c w co Hc Hbye Hk Hd Hneed Hf He).
Qed.
End stream.

(** ** Streams keep the process reachable *)
Section reach.
Context (path markdir what : string).
Abbreviation reach := (wreachable anything path markdir what).

Lemma round_dead k got data w : Coord.dead (World.coord (round_of path markdir what k got data w)) = None -> Coord.dead (World.coord w) = None.
Proof.
  unfold round_of. destruct (World.threads w !! k) as [[c|p]|]; [|done..].
  pose proof (eval_prog_dead k (on_recv coord_syn path markdir what got data c) (World.coord w)) as H.
  destruct (eval_prog _ _ _) as [oc co]. exact H.
Qed.
Lemma feed_all_dead k chunks w : Coord.dead (World.coord (feed_all k path markdir what chunks w)) = None -> Coord.dead (World.coord w) = None.
Proof. revert w. induction chunks as [|d chunks IH]; intros w; [done|]. cbn [feed_all fold_left]. intros H%IH. by eapply round_dead. Qed.
Lemma feed_all_reachable k stream chunks w :
  reach w -> cuts 8192 stream chunks -> Coord.dead (World.coord (feed_all k path markdir what chunks w)) = None ->
  reach (feed_all k path markdir what chunks w).
Proof.
  intros Hw [_ Hc]. revert w Hw. induction Hc as [|d chunks [_ Hl] Hc IH]; intros w Hw Hd; [done|].
  cbn [feed_all fold_left] in *. apply IH; [|done].
  pose proof (feed_all_dead k chunks _ Hd) as Hd1. pose proof (round_dead _ _ _ _ Hd1) as Hd0. by apply feed_reachable.
Qed.
(** A stream of frames that does not bring the process down. *)
Lemma stream_reachable_at k fs c w :
  reach w -> Forall frame_ok fs -> Forall (fun f => Frame.type f <> FrameType.BYE) fs ->
  World.threads w !! k = Some (Waiting c) -> Conn.done c = false -> Conn.buffer c = [] ->
  Coord.dead (World.coord (handled k path markdir what fs c w)) = None -> reach (handled k path markdir what fs c w).
Proof.
  intros Hw Hok Hbye Hk Hd Hb. pose proof (chop_cuts 4096 8192 (concat (encode_frame <$> fs)) ltac:(lia) ltac:(lia)) as Hc.
  rewrite <-(serve_stream k path markdir what fs c w _ Hok Hbye Hk Hd Hb Hc). by eapply feed_all_reachable.
Qed.
End reach.

(** ** Claims *)

(** C4: Refinement: every execution of the coordinator, whatever the peers send, however
    the threads interleave, whichever file and socket operations fail and whenever the
    process is killed, has a sequence of events (starts, accepted connections, bytes
    received, lost connections, engine operations, ended connections, crashes) that
    the session server [spec_step] accepts, and ends with the engine of that server.
    So each connection causes exactly the engine operations that its frames ask for,
    in their order, with PUBLISH frames served for workers only and stamped with the
    worker's boot id; a connection waits for bytes only when it owes nothing, and a
    connection ends only after revoking the evidence of its boot id. *)
Theorem coordinator_refines_sessions path markdir what w :
  wreachable anything path markdir what w ->
  (exists tr, traced path markdir what tr w) /\
  forall tr, traced path markdir what tr w ->
    exists a, spec_trace path tr a /\ Spec.engine a = Coord.engine (World.coord w) /\
      (Coord.dead (World.coord w) = None -> forall k,
         (World.threads w !! k = None <-> Spec.sessions a !! k = None) /\
         (forall c, World.threads w !! k = Some (Waiting c) ->
            Spec.sessions a !! k = Some (Session.mk (Conn.buffer c) (Conn.boot c) [] false))).
Proof.
  intros Hw. split; [by apply traced_iff|]. intros tr Htr. destruct (traced_simulates _ _ _ _ _ Htr) as (a & Ha & [He _ Ht]).
  exists a. split; [done|]. split; [done|]. intros Hd k. specialize (Ht Hd k). split.
  - by destruct (World.threads w !! k) as [[c|p]|], (Spec.sessions a !! k).
  - intros c Hk. rewrite Hk in Ht. destruct (Spec.sessions a !! k) as [s|]; [|done]. by destruct Ht as [-> _].
Qed.

(** A worker says HELLO and publishes an accelerator, in one chunk. *)
Definition published : list Frame.t :=
  [Frame.mk FrameType.HELLO 1 (MakeCorrPayload 77); desc_frame 3 (desc_stamp 77 (DRes Synthetic.gpu2))].
Definition published_bytes : list byte := concat (encode_frame <$> published).
Definition w_live : World.t := feed "coordinator.state" "" "" 0 published_bytes started.

Lemma started_reachable allowed : wreachable allowed "coordinator.state" "" "" started.
Proof. apply accept_reachable; [constructor|done|done]. Qed.
Lemma w_live_reachable allowed :
  allowed 0%nat [] published_bytes -> wreachable allowed "coordinator.state" "" "" w_live.
Proof.
  intros Ha. apply feed_reachable; [apply started_reachable|reflexivity|vm_compute; discriminate| |vm_compute; reflexivity].
  intros c Hc. destruct started_fresh as [Hk _]. rewrite Hk in Hc. injection Hc as <-. exact Ha.
Qed.

Lemma coordinator_refines_sessions_witness :
  exists tr a, spec_trace "coordinator.state" tr a /\ Spec.sessions a !! 0%nat = Some (Session.mk [] 77 [] false) /\
    is_Some (Impl.resources (Spec.engine a) !! Id 106).
Proof.
  destruct (coordinator_refines_sessions "coordinator.state" "" "" w_live (w_live_reachable anything I)) as [[tr Htr] H].
  destruct (H tr Htr) as (a & Ha & He & Hk). exists tr, a. split; [exact Ha|]. split.
  - destruct (Hk ltac:(vm_compute; reflexivity) 0%nat) as [_ Hc].
    apply (Hc (Conn.mk [] 77 true false)). vm_compute. reflexivity.
  - assert (Hr : is_Some (Impl.resources (Coord.engine (World.coord w_live)) !! Id 106)) by (apply (bool_decide_unpack _); vm_compute; exact I).
    clear - He Hr. revert He Hr. generalize (Coord.engine (World.coord w_live)). intros s <-. exact (fun H => H).
Defined.

(** C8: Volatile evidence lives no longer than its worker: if every connection announces
    at most one boot id, then in every reachable state of the running
    process each resource with current non-durable evidence, and each non-durable
    member of an ACTIVE composition, is owned by the boot id of a connection whose
    thread still exists and is bound to revoke the evidence of that boot id before
    it ends. *)
Theorem live_worker_evidence B path markdir what w :
  wreachable (one_boot B) path markdir what w -> Coord.dead (World.coord w) = None ->
  let s := Coord.engine (World.coord w) in
  let bound_to_revoke owner := exists k th, World.threads w !! k = Some th /\ thread_tracks B k (Some (B k)) th /\ owner = pretty (B k) in
  (forall rid r, Impl.resources s !! rid = Some r -> IsCurrent (Resource.evidence r) = true ->
     Evidence.durable (Resource.evidence r) = false -> bound_to_revoke (Evidence.owner (Resource.evidence r))) /\
  (forall id c rid r, Impl.compositions s !! id = Some c -> Composition.lifecycle c = CompositionLifecycle.ACTIVE ->
     rid ∈ ResourceGraph.vertices (Composition.graph c) -> Impl.resources s !! rid = Some r ->
     Evidence.durable (Resource.evidence r) = false -> bound_to_revoke (Evidence.owner (Resource.evidence r))).
Proof.
  intros Hw Hd. destruct (li_served _ _ (live_reachable B path markdir what w Hw Hd)) as [Hc Ha]. split.
  - intros rid r Hr Hcur Hv. destruct (Hc rid r Hr Hcur) as [H|H]; [congruence|exact H].
  - intros id c rid r Hcomp Hl Hin Hr Hv. destruct (Ha id c rid r Hcomp Hl Hin Hr) as [H|H]; [congruence|exact H].
Qed.

Lemma live_worker_evidence_witness :
  exists th, World.threads w_live !! 0%nat = Some th /\ thread_tracks (fun _ => 77) 0 (Some 77) th.
Proof.
  assert (Ha : one_boot (fun _ => 77) 0 [] published_bytes).
  { intros r. assert (Hf : Feed [] published_bytes = Some (mkFeed None published [])) by (vm_compute; reflexivity).
    rewrite Hf. intros [= <-]. apply Forall_cons. split; [intros _; eexists; vm_compute; reflexivity|].
    apply Forall_singleton. intros H. discriminate H. }
  destruct (live_worker_evidence (fun _ => 77) "coordinator.state" "" "" w_live (w_live_reachable _ Ha) ltac:(vm_compute; reflexivity)) as [Hc _].
  destruct (Impl.resources (Coord.engine (World.coord w_live)) !! Id 106) as [r|] eqn:Hr; [|vm_compute in Hr; discriminate Hr].
  assert (Hv : (IsCurrent (Resource.evidence r), Evidence.durable (Resource.evidence r)) = (true, false)).
  { assert (Hm : (fun r => (IsCurrent (Resource.evidence r), Evidence.durable (Resource.evidence r))) <$>
      Impl.resources (Coord.engine (World.coord w_live)) !! Id 106 = Some (true, false)) by (vm_compute; reflexivity).
    rewrite Hr in Hm. injection Hm as H1 H2. by rewrite H1, H2. }
  apply pair_equal_spec in Hv as [H1 H2]. destruct (Hc (Id 106) r Hr H1 H2) as (k & th & Hk & Ht & _).
  assert (Hd : dom (World.threads w_live) = {[0%nat]}) by (vm_compute; reflexivity).
  assert (k ∈ ({[0%nat]} : gset nat)) as Hin by (rewrite <-Hd; apply elem_of_dom; by eexists). apply elem_of_singleton in Hin.
  subst k. exists th. split; [exact Hk|exact Ht].
Defined.

(** C24: Memory safety of the processes: whatever bytes the peer sends and however they are
    cut, a round of the receive loop of the coordinator and of a worker ends after
    finitely many calls and never reads outside a buffer. *)
Theorem processes_memory_safe path markdir what got data c boot wk :
  always defined (fun _ => True) (on_recv coord_syn path markdir what got data c) /\
  always wdefined (fun _ => True) (worker_recv boot got data wk).
Proof. split; [apply on_recv_defined|apply worker_recv_defined]. Qed.

(** Packet boundaries do not matter to the coordinator: however the network cuts a
    stream of well-formed frames without BYE, the process ends in the state in
    which the handlers, applied to the frames one after the other, leave it, also
    when one of them brings the process down. *)
Theorem coordinator_chunking k path markdir what fs c w chunks :
  Forall frame_ok fs -> Forall (fun f => Frame.type f <> FrameType.BYE) fs ->
  World.threads w !! k = Some (Waiting c) -> Conn.done c = false -> Conn.buffer c = [] ->
  cuts 8192 (concat (encode_frame <$> fs)) chunks ->
  feed_all k path markdir what chunks w = handled k path markdir what fs c w.
Proof. apply serve_stream. Qed.

Lemma published_ok : Forall frame_ok published /\ Forall (fun f => Frame.type f <> FrameType.BYE) published.
Proof.
  split; [|by repeat constructor]. apply Forall_cons; split; [split; vm_compute; [discriminate|reflexivity]|].
  apply Forall_singleton. split; vm_compute; [discriminate|reflexivity].
Qed.
Lemma coordinator_chunking_witness :
  feed_all 0 "coordinator.state" "" "" (chop (length published_bytes) 7 published_bytes) started = w_live.
Proof.
  rewrite (coordinator_chunking 0 "coordinator.state" "" "" published Conn.init started).
  - vm_compute. reflexivity.
  - apply published_ok.
  - apply published_ok.
  - apply started_fresh.
  - reflexivity.
  - reflexivity.
  - apply chop_cuts; lia.
Defined.

(** ** Remote calls *)
Lemma decode_message {T : Type} enc (m : Dec T unit) t0 t1 b :
  transfers enc m t0 tt t1 -> enc [] = inr b -> u64_ok (N.of_nat (length b)) -> decode_into m t0 b = (Ret tt, t1).
Proof.
  intros H Hb Hu. apply transfers_roundtrips in H as (b' & Hb' & Hr). rewrite Hb in Hb'. injection Hb' as <-.
  destruct (Hr Hu) as (r & E & _). unfold decode_into. by rewrite E.
Qed.
Lemma payload_small type corr b : frame_ok (Frame.mk type corr b) -> u64_ok (N.of_nat (length b)).
Proof. intros [H _]. cbn in H. pose proof (MaxFrameLen_bounds type). unfold u64_ok. lia. Qed.

Section remote.
Context (k : nat) (path markdir what : string) (c : Conn.t) (w : World.t).
Context (Hk : World.threads w !! k = Some (Waiting c)) (Hd : Conn.done c = false) (Hb : Conn.buffer c = []).

(** The connection sends one frame, cut somehow, and the process ends in [co]; the
    threads are as before. *)
Definition answers_with (f : Frame.t) (co : Coord.t) : Prop :=
  forall chunks, cuts 8192 (encode_frame f) chunks -> feed_all k path markdir what chunks w = World.mk co (World.threads w).
(** The engine after the call, and the response sent. *)
Definition replied (s : Impl.t) (type : FrameType.t) (corr : N) (b : list byte) : Coord.t :=
  deliver k (Encode type corr b) ((World.coord w) <| Coord.engine := s |>).
(** What [engine.Save] and [WriteMarker] make of it. *)
Definition persisted (ok : bool) (name : string) (co : Coord.t) : Coord.t :=
  if ok then (eval_prog (coord_eval k) (engine_save path what;; WriteMarker markdir name) co).2 else co.

Lemma answers_frame f co :
  frame_ok f -> Frame.type f <> FrameType.BYE ->
  eval_prog (coord_eval k) (on_frame coord_syn path markdir what f (Some c)) (World.coord w) = (Some c, co) -> answers_with f co.
Proof.
  intros Hf Hbye He chunks Hc. rewrite (serve_stream k path markdir what [f] c w); [|by apply Forall_singleton..|done|done|done|].
  - unfold handled. cbn [for_each]. rewrite eval_prog_bind, He. cbn [eval_prog mret prog_ret]. by rewrite insert_id.
  - cbn [fmap list_fmap concat]. by rewrite app_nil_r.
Qed.
Lemma ev_answer {X : Type} (g : Impl.t -> X * Impl.t) type corr (enc : W) b :
  enc [] = inr b ->
  eval_prog (coord_eval k) (send_encoded type corr enc c) ((World.coord w) <| Coord.engine := (g (Coord.engine (World.coord w))).2 |>) =
    (Some c, replied (g (Coord.engine (World.coord w))).2 type corr b).
Proof. intros He. unfold send_encoded. by rewrite He. Qed.
Lemma ev_persist ok name co :
  eval_prog (coord_eval k) (persist_if path markdir what ok name (Some c)) co = (Some c, persisted ok name co).
Proof.
  unfold persist_if, persisted. destruct ok; [|done]. rewrite !eval_prog_bind.
  destruct (eval_prog _ (engine_save path what) co) as [b co1]. rewrite eval_prog_bind.
  by destruct (eval_prog _ (WriteMarker markdir name) co1) as [[] co2].
Qed.
(** A call of the engine at the head of a handler. *)
Lemma ev_engine_call {X : Type} (e : coordE X) (g : Impl.t -> X * Impl.t) (p : X -> prog coordE (option Conn.t)) :
  coord_eval k X e = on_engine g ->
  eval_prog (coord_eval k) (x ← call e; p x) (World.coord w) =
    eval_prog (coord_eval k) (p (g (Coord.engine (World.coord w))).1) ((World.coord w) <| Coord.engine := (g (Coord.engine (World.coord w))).2 |>).
Proof. intros He. cbn. rewrite He. unfold on_engine. by destruct (g (Coord.engine (World.coord w))) as [x s]. Qed.

Abbreviation s0 := (Coord.engine (World.coord w)).

Lemma remote_compose corr q b rb :
  request_ok q -> EncodeRequest wire_too_long q [] = inr b -> frame_ok (Frame.mk FrameType.COMPOSE_REQ corr b) ->
  compose_resp (Compose (wire_request q) s0).1 [] = inr rb ->
  answers_with (Frame.mk FrameType.COMPOSE_REQ corr b) (replied (Compose (wire_request q) s0).2 FrameType.COMPOSE_RESP corr rb).
Proof.
  intros Hq He Hf Hr. apply answers_frame; [done|done|]. unfold on_frame. cbn [Frame.type]. unfold on_compose. cbn [Frame.payload Frame.correlation].
  rewrite (decode_message _ _ _ _ _ (tr_request wire_too_long q Hq) He (payload_small _ _ _ Hf)).
  rewrite (ev_engine_call _ (Compose (wire_request q))) by done. by apply ev_answer.
Qed.
Lemma remote_reserve corr p b rb :
  plan_ok p -> EncodePlan wire_too_long p [] = inr b -> frame_ok (Frame.mk FrameType.RESERVE_REQ corr b) ->
  reserve_resp (Reserve (wire_plan p) s0).1 [] = inr rb ->
  answers_with (Frame.mk FrameType.RESERVE_REQ corr b)
    (persisted (is_success (rr_outcome (Reserve (wire_plan p) s0).1)) "reserved"
      (replied (Reserve (wire_plan p) s0).2 FrameType.RESERVE_RESP corr rb)).
Proof.
  intros Hp He Hf Hr. apply answers_frame; [done|done|]. unfold on_frame. cbn [Frame.type]. unfold on_reserve. cbn [Frame.payload Frame.correlation].
  rewrite (decode_message _ _ _ _ _ (tr_plan wire_too_long p Hp) He (payload_small _ _ _ Hf)).
  rewrite (ev_engine_call _ (Reserve (wire_plan p))) by done. rewrite eval_prog_bind, (ev_answer (Reserve (wire_plan p)) _ _ _ rb) by done.
  apply ev_persist.
Qed.
Lemma remote_commit corr v b rb :
  reservation_ok v -> EncodeReservation v [] = inr b -> frame_ok (Frame.mk FrameType.COMMIT_REQ corr b) ->
  commit_resp (Commit v s0).1 [] = inr rb ->
  answers_with (Frame.mk FrameType.COMMIT_REQ corr b)
    (persisted (is_success (cc_outcome (Commit v s0).1)) "committed" (replied (Commit v s0).2 FrameType.COMMIT_RESP corr rb)).
Proof.
  intros Hv He Hf Hr. apply answers_frame; [done|done|]. unfold on_frame. cbn [Frame.type]. unfold on_commit. cbn [Frame.payload Frame.correlation].
  rewrite (decode_message _ _ _ _ _ (tr_reservation v Hv) He (payload_small _ _ _ Hf)).
  rewrite (ev_engine_call _ (Commit v)) by done. rewrite eval_prog_bind, (ev_answer (Commit v) _ _ _ rb) by done. apply ev_persist.
Qed.
Lemma remote_activate corr id rb :
  u64_ok corr -> u64_ok id -> activate_resp (Activate (Id id) s0).1 [] = inr rb ->
  answers_with (Frame.mk FrameType.ACTIVATE_REQ corr (le_bytes 8 id))
    (replied (Activate (Id id) s0).2 FrameType.ACTIVATE_RESP corr rb).
Proof.
  intros Hcorr Hid Hr. apply answers_frame; [split; [cbn [Frame.payload]; rewrite length_le_bytes; vm_compute; discriminate|done]|done|].
  unfold on_frame. cbn [Frame.type]. unfold on_activate. cbn [Frame.payload Frame.correlation].
  destruct (read_hello id Hid) as [r Hrd]. rewrite hello_payload in Hrd. rewrite Hrd.
  rewrite (ev_engine_call _ (Activate (Id id))) by done. by apply ev_answer.
Qed.
End remote.

(** C17: A remote call is the local call: a connection that sends COMPOSE_REQ, RESERVE_REQ
    or COMMIT_REQ with an encodable argument, or ACTIVATE_REQ with an id, in packets
    cut anywhere, makes the engine execute exactly that operation on the wire image
    of the argument and receives exactly the encoding of its result, under the
    correlation of the request; a successful reservation or commit is then saved
    and marked, and nothing else changes. *)
Theorem remote_operations k path markdir what c w corr q qb cb p pb rb v vb mb id ab :
  World.threads w !! k = Some (Waiting c) -> Conn.done c = false -> Conn.buffer c = [] ->
  let s := Coord.engine (World.coord w) in
  let answers := answers_with k path markdir what w in
  let reply := replied k w in
  (request_ok q -> EncodeRequest wire_too_long q [] = inr qb -> frame_ok (Frame.mk FrameType.COMPOSE_REQ corr qb) ->
   compose_resp (Compose (wire_request q) s).1 [] = inr cb ->
   answers (Frame.mk FrameType.COMPOSE_REQ corr qb) (reply (Compose (wire_request q) s).2 FrameType.COMPOSE_RESP corr cb)) /\
  (plan_ok p -> EncodePlan wire_too_long p [] = inr pb -> frame_ok (Frame.mk FrameType.RESERVE_REQ corr pb) ->
   reserve_resp (Reserve (wire_plan p) s).1 [] = inr rb ->
   answers (Frame.mk FrameType.RESERVE_REQ corr pb)
     (persisted k path markdir what (is_success (rr_outcome (Reserve (wire_plan p) s).1)) "reserved"
       (reply (Reserve (wire_plan p) s).2 FrameType.RESERVE_RESP corr rb))) /\
  (reservation_ok v -> EncodeReservation v [] = inr vb -> frame_ok (Frame.mk FrameType.COMMIT_REQ corr vb) ->
   commit_resp (Commit v s).1 [] = inr mb ->
   answers (Frame.mk FrameType.COMMIT_REQ corr vb)
     (persisted k path markdir what (is_success (cc_outcome (Commit v s).1)) "committed"
       (reply (Commit v s).2 FrameType.COMMIT_RESP corr mb))) /\
  (u64_ok corr -> u64_ok id -> activate_resp (Activate (Id id) s).1 [] = inr ab ->
   answers (Frame.mk FrameType.ACTIVATE_REQ corr (le_bytes 8 id)) (reply (Activate (Id id) s).2 FrameType.ACTIVATE_RESP corr ab)).
Proof.
  intros Hk Hd Hb. cbv zeta.
  split_and!; intros; [by apply remote_compose with c|by apply remote_reserve with c|by apply remote_commit with c|by apply remote_activate with c].
Qed.

(** The engine of the test scenario behind one idle connection. *)
Definition w_scenario (s : Impl.t) : World.t :=
  World.mk (Coord.mk s ∅ {[0%nat := []]} None) {[0%nat := Waiting Conn.init]}.
Definition bytes_of (enc : W) : list byte := match enc [] with inr b => b | inl _ => [] end.
Lemma remote_operations_witness :
  let s := s_disc in
  let qb := bytes_of (EncodeRequest wire_too_long MakeReq) in
  let cb := bytes_of (compose_resp (Compose (wire_request MakeReq) s).1) in
  answers_with 0 "f" "" "" (w_scenario s) (Frame.mk FrameType.COMPOSE_REQ 9 qb)
    (replied 0 (w_scenario s) (Compose (wire_request MakeReq) s).2 FrameType.COMPOSE_RESP 9 cb) /\
  is_success (cr_outcome (Compose (wire_request MakeReq) s).1) = true.
Proof.
  cbv zeta. split; [|vm_compute; reflexivity].
  destruct (remote_operations 0 "f" "" "" Conn.init (w_scenario s_disc) 9 MakeReq (bytes_of (EncodeRequest wire_too_long MakeReq))
    (bytes_of (compose_resp (Compose (wire_request MakeReq) s_disc).1)) CompositionPlan.dflt [] [] Reservation.dflt [] [] 0 []) as [H _];
    [reflexivity|reflexivity|reflexivity|].
  apply H.
  - decide_ok.
  - vm_compute. reflexivity.
  - split; vm_compute; [discriminate|reflexivity].
  - vm_compute. reflexivity.
Defined.

(** ** Restarts *)

Lemma seed_paths_frame syn s :
  Impl.compositions s = ∅ -> Impl.compositions (seed_paths syn s) = ∅ /\ Impl.reservations (seed_paths syn s) = Impl.reservations s.
Proof.
  unfold seed_paths. generalize (a ← Synthetic.nodes_ syn; b ← Synthetic.nodes_ syn; [(a, b)]). intros l. revert s.
  induction l as [|[a b] l IH]; intros s Hs; [done|]. cbn [fold_left].
  assert (Hone : Impl.compositions (seed_path syn s (a, b)) = ∅ /\ Impl.reservations (seed_path syn s (a, b)) = Impl.reservations s).
  { unfold seed_path. destruct (id_eqb _ _); [done|]. destruct (Synthetic.ResolvePath _ _) as [pe|]; [|done].
    cbn. rewrite Hs. by rewrite fmap_empty. }
  destruct Hone as [Hc Hv]. destruct (IH _ Hc) as [-> ->]. done.
Qed.
Lemma seeded_empty : Impl.compositions seeded = ∅ /\ Impl.reservations seeded = ∅.
Proof.
  unfold seeded. destruct (seed_paths_frame coord_syn (AddBackend (Some (Synthetic.as_backend coord_syn)) (FabricEngine coord_cfg)) eq_refl) as [-> ->].
  done.
Qed.
Lemma AdvanceEpoch_rest e s :
  Impl.reservations (AdvanceEpoch e s) = Impl.reservations s /\
  ((forall id c, Impl.compositions s !! id = Some c -> ~ in_use c) ->
   forall id c, Impl.compositions (AdvanceEpoch e s) !! id = Some c -> ~ in_use c).
Proof.
  unfold AdvanceEpoch. destruct (negb _); [done|]. split; [done|]. cbn. intros Hall id c'. rewrite lookup_fmap, fmap_Some.
  intros (c & Hc & ->). specialize (Hall id c Hc). 
  destruct (lifecycle_is _ c) eqn:El; [by intros []|exact Hall].
Qed.

(** C27: A restart restores no authority: whatever the state file holds, whatever epoch the
    process is started with, and whether or not the file can be read, the engine that the threads get has no ACTIVE and no
    COMMITTED composition, no reservation, and no current evidence that is not
    durable. *)
Theorem restart_no_authority path o epochVal fs :
  let s := Coord.engine (World.coord (start path o epochVal fs)) in
  (forall id c, Impl.compositions s !! id = Some c ->
     Composition.lifecycle c <> CompositionLifecycle.ACTIVE /\ Composition.lifecycle c <> CompositionLifecycle.COMMITTED) /\
  Impl.reservations s = ∅ /\
  (forall rid r, Impl.resources s !! rid = Some r -> IsCurrent (Resource.evidence r) = true ->
     Evidence.durable (Resource.evidence r) = true).
Proof.
  cbv zeta. change (Coord.engine (World.coord (start path o epochVal fs))) with (startup o epochVal path fs).2.
  destruct (startup_cases o epochVal path fs) as (s & He & Hs). destruct (AdvanceEpoch_rest (Id epochVal) s) as [Hv Hc].
  split; [|split].
  - rewrite He. intros id c H. apply Hc in H; [by split; intros E; apply H; [right|left]|].
    destruct Hs as [-> |[d ->]]; [|intros id' c'; apply Load_comps]. destruct seeded_empty as [-> _]. done.
  - rewrite He, Hv. destruct Hs as [-> |[d ->]]; [apply seeded_empty|done].
  - intros rid r Hr Hcur. by destruct (sb_current _ _ (served_startup o epochVal path fs) rid r Hr Hcur).
Qed.
