(* ===== verification/Client.v ===== *)
(** * A client of the coordinator

    What a save after a response leaves on disk, and the client of
    [tests/t_restart.cpp]: it sends COMPOSE_REQ, decodes the plan of the response and
    sends it back in RESERVE_REQ, and so on to ACTIVATE_REQ.  [roundtrip] is one
    request and its response over streams that are cut anywhere, [client_run] the
    four of them; [trip] says that the coordinator's answer is determined. *)

From S2P Require Import Prelude Effects Net Bytes Enums Ids Args Double Model Codec Wire WireSize WireProps Protocol ProtocolProps.
From S2P Require Import Planner Engine Persistence Storage StorageProps Synthetic Lifecycle LifecycleProps Ledger Scenario Coordinator CoordSafety.
From S2P Require Import PersistProps ComposeProps CoordEvidence CoordRun CoordDefined CoordFrames Worker Cluster ClusterProps CoordProps.

(** ** Saving after a response *)
Lemma eval_lift_fs {A : Type} k (p : prog fsE A) co :
  eval_prog (coord_eval k) (lift (@EFs) p) co =
    ((eval_prog fs_eval p (Coord.files co)).1, co <| Coord.files := (eval_prog fs_eval p (Coord.files co)).2 |>).
Proof.
  revert co. induction p as [a|X e kont IH]; intros co; cbn; [by destruct co|].
  destruct (fs_eval X e (Coord.files co)) as [x fs]. rewrite IH. by destruct co.
Qed.
Lemma eval_save k path what co :
  (eval_prog (coord_eval k) (engine_save path what) co).2 =
    co <| Coord.files := (eval_prog fs_eval (SaveImpl true what (SaveState (Coord.engine co)) path) (Coord.files co)).2 |>.
Proof. unfold engine_save. cbn. rewrite eval_prog_bind, eval_lift_fs. done. Qed.
Definition marker (markdir name : string) : string := markdir +:+ "/" +:+ name.
Lemma eval_marker k markdir name co p :
  p <> marker markdir name ->
  Coord.engine (eval_prog (coord_eval k) (WriteMarker markdir name) co).2 = Coord.engine co /\
  Coord.files (eval_prog (coord_eval k) (WriteMarker markdir name) co).2 !! p = Coord.files co !! p.
Proof.
  intros Hp. unfold WriteMarker. destruct markdir as [|a m]; [done|]. split; [done|].
  cbn [eval_prog mbind prog_mbind prog_bind call coord_eval fs_eval Coord.files].
  change ((<[marker (String a m) name := [x31; x0a]]> (<[marker (String a m) name := []]> (Coord.files co))) !! p = Coord.files co !! p).
  by rewrite !lookup_insert_ne.
Qed.

(** After [Save] and [WriteMarker] the state file restores the engine. *)
Lemma persisted_loads k path markdir what name co bytes :
  state_ok (SaveState (Coord.engine co)) -> SaveBytes (SaveState (Coord.engine co)) = inr bytes ->
  u64_ok (N.of_nat (length bytes)) -> path <> marker markdir name ->
  let co' := persisted k path markdir what true name co in
  Coord.engine co' = Coord.engine co /\ Coord.files co' !! path = Some bytes /\
  LoadFile path (Coord.files co') = Loaded (persist_state (SaveState (Coord.engine co))).
Proof.
  intros Hok Hb Hu Hp. cbv zeta. unfold persisted. rewrite eval_prog_bind.
  pose proof (eval_save k path what co) as Hs. destruct (eval_prog _ (engine_save path what) co) as [x co1]. cbn [snd] in Hs.
  destruct (eval_marker k markdir name co1 path Hp) as [He Hf].
  destruct (save_writes_state what (SaveState (Coord.engine co)) path (Coord.files co) Hok) as (bytes' & Hb' & Hev & Hl).
  rewrite Hb in Hb'. injection Hb' as <-.
  assert (Hfile : Coord.files (eval_prog (coord_eval k) (WriteMarker markdir name) co1).2 !! path = Some bytes).
  { rewrite Hf, Hs, Hev. change (delete (tmp_of path) (<[path := bytes]> (Coord.files co)) !! path = Some bytes).
    rewrite lookup_delete_ne by apply tmp_of_ne. apply lookup_insert_eq. }
  split; [rewrite He, Hs; done|]. split; [exact Hfile|]. specialize (Hl Hu). unfold LoadFile in *. rewrite Hfile.
  rewrite Hev in Hl. cbn [snd] in Hl. rewrite lookup_delete_ne, lookup_insert_eq in Hl by apply tmp_of_ne. exact Hl.
Qed.

(** ** Sessions and calls keep the process reachable *)
Section reach.
Context (path markdir what : string).
Abbreviation reach := (wreachable anything path markdir what).

Lemma session_reachable k boot arg w w' st :
  reach w -> session k path markdir what boot arg w w' st -> Coord.dead (World.coord w') = None -> reach w'.
Proof.
  intros Hw (up & down & pub & Hup & _ & _ & Hpub & ->) Hd. eapply feed_all_reachable; [|exact Hpub|done].
  eapply feed_all_reachable; [done|exact Hup|by eapply feed_all_dead].
Qed.
(** A call of a client. *)
Lemma call_reachable k w f co :
  reach w -> answers_with k path markdir what w f co -> Coord.dead co = None -> reach (World.mk co (World.threads w)).
Proof.
  intros Hw Ha Hd. pose proof (chop_cuts 4096 8192 (encode_frame f) ltac:(lia) ltac:(lia)) as Hc.
  rewrite <-(Ha _ Hc). eapply feed_all_reachable; [done|exact Hc|]. by rewrite (Ha _ Hc).
Qed.
End reach.

Lemma persisted_frame k path markdir what ok name co :
  Coord.engine (persisted k path markdir what ok name co) = Coord.engine co /\
  Coord.dead (persisted k path markdir what ok name co) = Coord.dead co /\
  Coord.sent (persisted k path markdir what ok name co) = Coord.sent co.
Proof.
  unfold persisted. destruct ok; [|done]. rewrite eval_prog_bind. pose proof (eval_save k path what co) as Hs.
  destruct (eval_prog _ (engine_save path what) co) as [x co1]. cbn [snd] in Hs. subst co1. unfold WriteMarker.
  by destruct markdir.
Qed.

(** ** A client

    The client of [tests/t_restart.cpp]: it sends a request, reads one response, and
    builds the next request from what it decoded. *)
(** [std::uint32_t oc = rd.U32(); T t; Decode(rd, t);] *)
Definition read_reply {T : Type} (m : Dec T unit) (dflt : T) (resp : Frame.t) : option (N * T) :=
  '(oc, r) ← Rd.U32 (MakeReader (Frame.payload resp)); Some (oc, (m (r, dflt)).2.2).
Definition compose_frame (q : CompositionRequest.t) : Frame.t :=
  Frame.mk FrameType.COMPOSE_REQ 1 (bytes_of (EncodeRequest wire_too_long q)).
Definition reserve_frame (resp : Frame.t) : Frame.t :=
  Frame.mk FrameType.RESERVE_REQ 2
    (match read_reply DecodePlan CompositionPlan.dflt resp with Some (_, p) => bytes_of (EncodePlan wire_too_long p) | None => [] end).
Definition commit_frame (resp : Frame.t) : Frame.t :=
  Frame.mk FrameType.COMMIT_REQ 3
    (match read_reply DecodeReservation Reservation.dflt resp with Some (_, v) => bytes_of (EncodeReservation v) | None => [] end).
Definition activate_frame (resp : Frame.t) : Frame.t :=
  Frame.mk FrameType.ACTIVATE_REQ 4
    (match read_reply DecodeComposition Composition.dflt resp with Some (_, c) => le_bytes 8 (Value (Composition.id c)) | None => [] end).

Section client.
Context (k : nat) (path markdir what : string).

(** One round trip: the request reaches the coordinator in some packets, and the
    bytes that the coordinator sends reach the client in some packets and are one
    frame. *)
Definition roundtrip (f : Frame.t) (w w' : World.t) (resp : Frame.t) : Prop :=
  exists up bytes down, cuts 8192 (encode_frame f) up /\ w' = feed_all k path markdir what up w /\
    sent_to k (World.coord w') = sent_to k (World.coord w) ++ bytes /\
    cuts 4096 bytes down /\ feed_chunks [] down = Some (mkFeed None [resp] []).
Definition client_run (q : CompositionRequest.t) (w w4 : World.t) (a4 : Frame.t) : Prop :=
  exists w1 a1 w2 a2 w3 a3,
    roundtrip (compose_frame q) w w1 a1 /\ roundtrip (reserve_frame a1) w1 w2 a2 /\
    roundtrip (commit_frame a2) w2 w3 a3 /\ roundtrip (activate_frame a3) w3 w4 a4.

(** The coordinator answers request [f] with [resp] and is then [w']. *)
Definition trip (f : Frame.t) (w w' : World.t) (resp : Frame.t) : Prop :=
  roundtrip f w w' resp /\ forall w2 resp2, roundtrip f w w2 resp2 -> w2 = w' /\ resp2 = resp.

Lemma trip_answer f w co resp :
  answers_with k path markdir what w f co -> sent_to k co = sent_to k (World.coord w) ++ encode_frame resp -> frame_ok resp ->
  trip f w (World.mk co (World.threads w)) resp.
Proof.
  intros Ha Hs Hok.
  assert (Hone : forall down, cuts 4096 (encode_frame resp) down -> feed_chunks [] down = Some (mkFeed None [resp] [])).
  { intros down [Hc _]. destruct (feed_chunks_feeds [] down eq_refl) as (fs' & e & b' & -> & b2 & Hf & Hb).
    pose proof (feeds_frames [resp] [] [] None [] ltac:(by apply Forall_singleton) (feeds_need [] eq_refl)) as H.
    cbn [fmap list_fmap concat] in H. rewrite !app_nil_r in H. rewrite Hc in Hf.
    destruct (feeds_det _ _ _ _ _ _ _ Hf H) as (-> & -> & ->). by rewrite <-Hb. }
  pose proof (chop_cuts 4096 8192 (encode_frame f) ltac:(lia) ltac:(lia)) as Hup.
  pose proof (chop_cuts 4096 4096 (encode_frame resp) ltac:(lia) ltac:(lia)) as Hdown. split.
  - eexists _, _, _. split; [exact Hup|]. rewrite (Ha _ Hup). split; [done|]. split; [exact Hs|]. split; [exact Hdown|by apply Hone].
  - intros w2 resp2 (up & bytes & down & Hup2 & -> & Hb & Hd & Hf). rewrite (Ha _ Hup2) in *. split; [done|].
    cbn [World.coord] in Hb. rewrite Hs in Hb. apply app_inv_head in Hb. subst bytes. rewrite (Hone _ Hd) in Hf. by injection Hf as ->.
Qed.
(** Four such answers are the run of the client, and it has no other. *)
Lemma trips_run q w a1 w1 a2 w2 a3 w3 a4 w4 :
  trip (compose_frame q) w w1 a1 -> trip (reserve_frame a1) w1 w2 a2 -> trip (commit_frame a2) w2 w3 a3 ->
  trip (activate_frame a3) w3 w4 a4 ->
  client_run q w w4 a4 /\ forall w5 a5, client_run q w w5 a5 -> w5 = w4 /\ a5 = a4.
Proof.
  intros [T1 E1] [T2 E2] [T3 E3] [T4 E4]. split; [by do 6 eexists|].
  intros w5 a5 (x1 & b1 & x2 & b2 & x3 & b3 & U1 & U2 & U3 & U4).
  apply E1 in U1 as [-> ->]. apply E2 in U2 as [-> ->]. apply E3 in U3 as [-> ->]. by apply E4.
Qed.
End client.

Lemma replied_sent k w s type corr b :
  sent_to k (replied k w s type corr b) = sent_to k (World.coord w) ++ encode_frame (Frame.mk type corr b).
Proof. unfold replied. by rewrite sent_deliver. Qed.

(** *** What the client decodes *)
Lemma reply_back {T : Type} (enc : W) (m : Dec T unit) t0 t1 tail rest code resp :
  transfers enc m t0 tt t1 -> encodes tail rest -> u32_ok code -> frame_ok resp ->
  (Wr.U32 code ;>> enc ;>> tail) [] = inr (Frame.payload resp) -> read_reply m t0 resp = Some (code, t1).
Proof.
  intros (bs & He & Hd) Ht Hc Hf Hb. unfold Wr.seq, Wr.U32 in Hb. rewrite PutU32_eq, He, Ht in Hb. cbn [app] in Hb. injection Hb as Hb.
  unfold read_reply. pose proof (frame_reader _ Hf) as Hwf. rewrite <-Hb in *. set (r := MakeReader _) in *.
  assert (Hr : ready r (le_bytes 4 code ++ (bs ++ rest))) by (split; [done|]; split; [done|]; by rewrite app_assoc).
  destruct (reads_back _ _ _ (U32_reads code Hc) r _ Hr) as (r' & -> & Hr').
  cbn [mbind option_bind]. destruct (decodes_back _ _ _ _ _ Hd r' rest Hr') as (r2 & -> & _). done.
Qed.
Lemma reply_encodes {T : Type} (enc : W) (m : Dec T unit) t0 t1 tail rest code :
  transfers enc m t0 tt t1 -> encodes tail rest ->
  (Wr.U32 code ;>> enc ;>> tail) [] = inr (bytes_of (Wr.U32 code ;>> enc ;>> tail)).
Proof. intros (bs & He & _) Ht. unfold bytes_of, Wr.seq, Wr.U32. by rewrite PutU32_eq, He, Ht. Qed.
Lemma code_bytes code (enc : W) bs : encodes enc bs -> (Wr.U32 code ;>> enc) [] = inr (bytes_of (Wr.U32 code ;>> enc)).
Proof. intros He. unfold bytes_of, Wr.seq, Wr.U32. by rewrite PutU32_eq, He. Qed.
(** Responses that end with the object. *)
Lemma seq_nothing (a b : W) buf : (a ;>> b ;>> inr) buf = (a ;>> b) buf.
Proof. unfold Wr.seq. destruct (a buf) as [|x]; [done|]. by destruct (b x). Qed.
Lemma encodes_nothing : encodes inr [].
Proof. intros buf. by rewrite app_nil_r. Qed.
Lemma encodes_reasons l : exists rest, encodes (Wr.each wire_reason l) rest.
Proof.
  induction l as [|r l [rest IH]]; [exists []; apply encodes_nothing|]. eexists. intros buf. cbn [Wr.each].
  unfold Wr.seq, wire_reason at 1, Wr.U32. by rewrite PutU32_eq, IH, <-app_assoc.
Qed.
Lemma encodes_counted_reasons l : exists rest, encodes (Wr.counted wire_reason l) rest.
Proof.
  destruct (encodes_reasons l) as [rest H]. eexists. intros buf. unfold Wr.counted, Wr.seq, Wr.U32. by rewrite PutU32_eq, H, <-app_assoc.
Qed.
Lemma outcome_u32 o : u32_ok (CompositionOutcome.code o).
Proof. by destruct o. Qed.
Lemma wire_plan_again p : wire_plan (wire_plan p) = wire_plan p.
Proof. by destruct p as [? ? ? ? []]. Qed.
Lemma plan_ok_wire p : plan_ok p -> plan_ok (wire_plan p).
Proof. done. Qed.

(** ** The calls of a client

    The process between two calls: reachable, alive, with its threads waiting. *)
Definition fits (type : FrameType.t) (b : list byte) : bool := N.of_nat (length b) <=? MaxFrameLen type.
Definition saved_bytes (s : Impl.t) : list byte := match SaveBytes (SaveState s) with inr b => b | inl _ => [] end.
Lemma fits_ok type corr b : fits type b = true -> u64_ok corr -> frame_ok (Frame.mk type corr b).
Proof. intros H%N.leb_le Hc. done. Qed.
Lemma saved_ok s : state_ok (SaveState s) -> SaveBytes (SaveState s) = inr (saved_bytes s).
Proof. intros H. destruct (save_writes_state "" _ "" ∅ H) as (b & Hb & _). unfold saved_bytes. by rewrite Hb. Qed.
Lemma transfers_bytes {T : Type} (enc : W) (m : Dec T unit) t0 t1 : transfers enc m t0 tt t1 -> enc [] = inr (bytes_of enc).
Proof. intros (bs & He & _). unfold bytes_of. by rewrite He. Qed.

Record at_rest (path markdir what : string) (s : Impl.t) (ts : gmap nat thread) (w : World.t) : Prop := {
  ar_reach : wreachable anything path markdir what w;
  ar_dead : Coord.dead (World.coord w) = None;
  ar_engine : Coord.engine (World.coord w) = s;
  ar_threads : World.threads w = ts }.

Section calls.
Context (k : nat) (path markdir what : string) (c : Conn.t) (ts : gmap nat thread).
Context (Hk : ts !! k = Some (Waiting c)) (Hc : Conn.done c = false) (Hb : Conn.buffer c = []).
Abbreviation rest := (at_rest path markdir what).
Abbreviation trips := (trip k path markdir what).

Lemma call_trip s w f co resp :
  rest s ts w -> answers_with k path markdir what w f co -> Coord.dead co = None ->
  sent_to k co = sent_to k (World.coord w) ++ encode_frame resp -> frame_ok resp ->
  trips f w (World.mk co ts) resp /\ rest (Coord.engine co) ts (World.mk co ts).
Proof.
  intros [Hr Hd He Ht] Ha Hco Hs Hok. subst ts. split; [by apply trip_answer|]. split; [|done..].
  exact (call_reachable path markdir what k w f co Hr Ha Hco).
Qed.
(** The same when the coordinator saves after the response. *)
Lemma call_saved s w f ok name s' type corr b :
  rest s ts w -> frame_ok (Frame.mk type corr b) ->
  answers_with k path markdir what w f (persisted k path markdir what ok name (replied k w s' type corr b)) ->
  let co := persisted k path markdir what ok name (replied k w s' type corr b) in
  trips f w (World.mk co ts) (Frame.mk type corr b) /\ rest s' ts (World.mk co ts).
Proof.
  intros Hw Hf Ha co. destruct (persisted_frame k path markdir what ok name (replied k w s' type corr b)) as (E1 & E2 & E3).
  fold co in E1, E2, E3. destruct (call_trip s w f co (Frame.mk type corr b) Hw Ha) as [H1 H2].
  - rewrite E2. apply Hw.
  - transitivity (sent_to k (replied k w s' type corr b)); [by unfold sent_to; rewrite E3|apply replied_sent].
  - done.
  - rewrite E1 in H2. by split.
Qed.

Lemma call_compose s w q r :
  rest s ts w -> request_ok q -> fits FrameType.COMPOSE_REQ (bytes_of (EncodeRequest wire_too_long q)) = true ->
  r = Compose (wire_request q) s ->
  let resp := Frame.mk FrameType.COMPOSE_RESP 1 (bytes_of (compose_resp r.1)) in
  plan_ok (cr_plan r.1) -> fits FrameType.COMPOSE_RESP (bytes_of (compose_resp r.1)) = true ->
  read_reply DecodePlan CompositionPlan.dflt resp = Some (CompositionOutcome.code (cr_outcome r.1), wire_plan (cr_plan r.1)) /\
  exists w', trips (compose_frame q) w w' resp /\ rest r.2 ts w'.
Proof.
  intros Hw Hq Hf Hr resp Hp Hfr. pose proof (fits_ok _ 1 _ Hfr eq_refl) as Hok.
  destruct (encodes_counted_reasons (cr_reasons r.1)) as [tail Ht].
  pose proof (reply_encodes _ _ _ _ _ _ (CompositionOutcome.code (cr_outcome r.1)) (tr_plan wire_too_long _ Hp) Ht) as He.
  split; [exact (reply_back _ _ _ _ _ _ _ resp (tr_plan wire_too_long _ Hp) Ht (outcome_u32 _) Hok He)|].
  pose proof Hw as [_ Hd Hs Hts].
  assert (Hkw : World.threads w !! k = Some (Waiting c)) by (by rewrite Hts).
  subst r s. pose proof (remote_compose k path markdir what c w Hkw Hc Hb 1 q _ _ Hq
    (transfers_bytes _ _ _ _ (tr_request wire_too_long q Hq)) (fits_ok _ 1 _ Hf eq_refl) He) as Ha.
  eexists. eapply (call_trip _ w _ _ resp Hw Ha); [exact Hd|apply replied_sent|exact Hok].
Qed.
Lemma call_reserve s w p a r :
  rest s ts w -> plan_ok p -> wire_plan p = p -> fits FrameType.RESERVE_REQ (bytes_of (EncodePlan wire_too_long p)) = true ->
  (exists oc, read_reply DecodePlan CompositionPlan.dflt a = Some (oc, p)) ->
  r = Reserve p s ->
  let resp := Frame.mk FrameType.RESERVE_RESP 2 (bytes_of (reserve_resp r.1)) in
  reservation_ok (rr_reservation r.1) -> fits FrameType.RESERVE_RESP (bytes_of (reserve_resp r.1)) = true ->
  read_reply DecodeReservation Reservation.dflt resp = Some (CompositionOutcome.code (rr_outcome r.1), rr_reservation r.1) /\
  exists w', trips (reserve_frame a) w w' resp /\ rest r.2 ts w'.
Proof.
  intros Hw Hp Hwp Hf (oc & Ha0) Hr resp Hv Hfr. pose proof (fits_ok _ 2 _ Hfr eq_refl) as Hok.
  destruct (encodes_reasons (rr_reasons r.1)) as [tail Ht].
  pose proof (reply_encodes _ _ _ _ _ _ (CompositionOutcome.code (rr_outcome r.1)) (tr_reservation _ Hv) Ht) as He.
  split; [exact (reply_back _ _ _ _ _ _ _ resp (tr_reservation _ Hv) Ht (outcome_u32 _) Hok He)|].
  pose proof Hw as [_ Hd Hs Hts].
  assert (Hkw : World.threads w !! k = Some (Waiting c)) by (by rewrite Hts).
  subst r s. pose proof (remote_reserve k path markdir what c w Hkw Hc Hb 2 p _ (bytes_of (reserve_resp (Reserve p (Coord.engine (World.coord w))).1)) Hp
    (transfers_bytes _ _ _ _ (tr_plan wire_too_long p Hp)) (fits_ok _ 2 _ Hf eq_refl)) as Ha.
  rewrite Hwp in Ha. specialize (Ha He). unfold reserve_frame. rewrite Ha0. eexists. eapply call_saved; [exact Hw|exact Hok|exact Ha].
Qed.
Lemma call_commit s w v a r :
  rest s ts w -> reservation_ok v -> fits FrameType.COMMIT_REQ (bytes_of (EncodeReservation v)) = true ->
  (exists oc, read_reply DecodeReservation Reservation.dflt a = Some (oc, v)) ->
  r = Commit v s ->
  let resp := Frame.mk FrameType.COMMIT_RESP 3 (bytes_of (commit_resp r.1)) in
  composition_ok (cc_composition r.1) -> fits FrameType.COMMIT_RESP (bytes_of (commit_resp r.1)) = true ->
  is_success (cc_outcome r.1) = true -> state_ok (SaveState r.2) -> u64_ok (N.of_nat (length (saved_bytes r.2))) ->
  path <> marker markdir "committed" ->
  read_reply DecodeComposition Composition.dflt resp = Some (CompositionOutcome.code (cc_outcome r.1), wire_composition (cc_composition r.1)) /\
  exists w', trips (commit_frame a) w w' resp /\ rest r.2 ts w' /\
    Coord.files (World.coord w') !! path = Some (saved_bytes r.2) /\
    LoadFile path (Coord.files (World.coord w')) = Loaded (persist_state (SaveState r.2)).
Proof.
  intros Hw Hv Hf (oc & Ha0) Hr resp Hcok Hfr Hs Hst Hu Hp. pose proof (fits_ok _ 3 _ Hfr eq_refl) as Hok.
  pose proof (reply_encodes _ _ _ _ _ _ (CompositionOutcome.code (cc_outcome r.1)) (tr_composition wire_too_long _ Hcok) encodes_nothing) as He.
  unfold bytes_of in He. rewrite seq_nothing in He. fold (commit_resp r.1) in He. fold (bytes_of (commit_resp r.1)) in He.
  split.
  { refine (reply_back _ _ _ _ _ _ _ resp (tr_composition wire_too_long _ Hcok) encodes_nothing (outcome_u32 _) Hok _).
    rewrite seq_nothing. exact He. }
  pose proof Hw as [_ Hd Hsw Hts].
  assert (Hkw : World.threads w !! k = Some (Waiting c)) by (by rewrite Hts).
  subst s. set (e := Coord.engine (World.coord w)) in *. rewrite Hr in He. pose proof (remote_commit k path markdir what c w Hkw Hc Hb 3 v _ _ Hv
    (transfers_bytes _ _ _ _ (tr_reservation v Hv)) (fits_ok _ 3 _ Hf eq_refl) He) as Ha.
  fold e in Ha. rewrite <-Hr in Ha. rewrite Hs in Ha. unfold commit_frame. rewrite Ha0. eexists.
  pose proof (call_saved _ w _ true "committed" _ _ _ _ Hw Hok Ha) as [H1 H2].
  split; [exact H1|]. split; [exact H2|].
  exact (proj2 (persisted_loads k path markdir what "committed" (replied k w r.2 _ _ _) _ Hst (saved_ok _ Hst) Hu Hp)).
Qed.
Lemma call_activate s w id a oc comp r :
  rest s ts w -> id_ok id -> read_reply DecodeComposition Composition.dflt a = Some (oc, comp) -> Composition.id comp = id ->
  r = Activate id s ->
  let resp := Frame.mk FrameType.ACTIVATE_RESP 4 (bytes_of (activate_resp r.1)) in
  composition_ok (ar_composition r.1) -> fits FrameType.ACTIVATE_RESP (bytes_of (activate_resp r.1)) = true ->
  read_reply DecodeComposition Composition.dflt resp = Some (CompositionOutcome.code (ar_outcome r.1), wire_composition (ar_composition r.1)) /\
  exists w', trips (activate_frame a) w w' resp /\ rest r.2 ts w' /\ Coord.files (World.coord w') = Coord.files (World.coord w).
Proof.
  intros Hw Hid Ha0 Hcid Hr resp Hcok Hfr. pose proof (fits_ok _ 4 _ Hfr eq_refl) as Hok.
  pose proof (reply_encodes _ _ _ _ _ _ (CompositionOutcome.code (ar_outcome r.1)) (tr_composition wire_too_long _ Hcok) encodes_nothing) as He.
  unfold bytes_of in He. rewrite seq_nothing in He. fold (activate_resp r.1) in He. fold (bytes_of (activate_resp r.1)) in He.
  split.
  { refine (reply_back _ _ _ _ _ _ _ resp (tr_composition wire_too_long _ Hcok) encodes_nothing (outcome_u32 _) Hok _).
    rewrite seq_nothing. exact He. }
  pose proof Hw as [_ Hd Hsw Hts].
  assert (Hkw : World.threads w !! k = Some (Waiting c)) by (by rewrite Hts).
  destruct id as [id]. subst r s. pose proof (remote_activate k path markdir what c w Hkw Hc Hb 4 id _ eq_refl Hid He) as Ha.
  unfold activate_frame. rewrite Ha0, Hcid. cbn [Value]. eexists.
  pose proof (call_trip _ w _ _ resp Hw Ha Hd (replied_sent _ _ _ _ _ _) Hok) as [H1 H2]. split; [exact H1|]. split; [exact H2|]. reflexivity.
Qed.
End calls.
