(* ===== verification/CoordScenario.v ===== *)
(** * Whole runs of the coordinator

    A commit that was answered survives a restart, and the complete run from an
    empty disk to an ACTIVE composition: coordinator, worker and client. *)

From S2P Require Import Prelude Effects Net Bytes Enums Ids Args Double Model Codec Wire WireSize WireProps Protocol ProtocolProps.
From S2P Require Import Planner Engine Persistence Storage StorageProps Synthetic Lifecycle LifecycleProps Ledger Scenario Coordinator CoordSafety.
From S2P Require Import PersistProps ComposeProps CoordEvidence CoordRun CoordDefined CoordFrames Worker Cluster ClusterProps CoordProps Client.

(** C12: An answered commit survives a restart: when a connection's COMMIT_REQ, with an
    encodable reservation and cut anywhere, succeeds and no file or socket operation
    fails, and if the committed state can be encoded (every enumeration in the registry
    has a value that the loader accepts and every text and list is within its limit,
    [state_ok]), the response can be encoded, and the file fits and is not the marker
    file, then at the end of the round the state file holds the committed state, and a
    process that is started on these files, with any epoch, loads it without a warning. *)
Theorem commit_survives_restart k path markdir what c w corr v vb mb bytes chunks epochVal :
  World.threads w !! k = Some (Waiting c) -> Conn.done c = false -> Conn.buffer c = [] ->
  reservation_ok v -> EncodeReservation v [] = inr vb -> frame_ok (Frame.mk FrameType.COMMIT_REQ corr vb) ->
  let r := Commit v (Coord.engine (World.coord w)) in
  is_success (cc_outcome r.1) = true -> commit_resp r.1 [] = inr mb ->
  state_ok (SaveState r.2) -> SaveBytes (SaveState r.2) = inr bytes -> u64_ok (N.of_nat (length bytes)) ->
  path <> marker markdir "committed" -> cuts 8192 (encode_frame (Frame.mk FrameType.COMMIT_REQ corr vb)) chunks ->
  let w' := feed_all k path markdir what chunks w in
  Coord.engine (World.coord w') = r.2 /\ Coord.files (World.coord w') !! path = Some bytes /\
  startup ReadWhole epochVal path (Coord.files (World.coord w')) = (None, AdvanceEpoch (Id epochVal) (LoadState (persist_state (SaveState r.2)) seeded)).
Proof.
  intros Hk Hd Hb Hv He Hf r Hs Hm Hok Hsb Hu Hp Hc w'.
  pose proof (remote_commit k path markdir what c w Hk Hd Hb corr v vb mb Hv He Hf Hm chunks Hc) as Hw'. fold r w' in Hw'.
  rewrite Hs in Hw'. rewrite Hw'. cbn [World.coord].
  destruct (persisted_loads k path markdir what "committed" (replied k w r.2 FrameType.COMMIT_RESP corr mb) bytes Hok Hsb Hu Hp)
    as (H1 & H2 & H3).
  split; [exact H1|]. split; [exact H2|]. unfold LoadFile in H3. unfold startup. revert H3. rewrite H2. intros H3.
  unfold EngineLoad. rewrite H3. done.
Qed.

(** ** From an empty disk to an ACTIVE composition

    A coordinator starts with epoch [ep] and no files; a worker with boot id [boot]
    serves the nodes of [arg]; a client composes [q] and sends the plan, the
    reservation and the id of the responses back in RESERVE, COMMIT and ACTIVATE.
    The same calls made on an engine: *)
Section run.
Context (ep boot : N) (arg : string) (q : CompositionRequest.t).

Definition run_engine : Impl.t := registered (desc_stamp boot <$> session_descs (Id <$> node_ids arg)) (AdvanceEpoch (Id ep) seeded).

(** They end in success, and what goes over the wire and into the file can be
    encoded and fits. *)
Record local_run (c1 : ComposeResult * Impl.t) (c2 : ReserveResult * Impl.t) (c3 : CommitResult * Impl.t)
    (c4 : ActivateResult * Impl.t) : Prop := {
  lr_compose : c1 = Compose (wire_request q) run_engine;
  lr_reserve : c2 = Reserve (wire_plan (cr_plan c1.1)) c1.2;
  lr_commit : c3 = Commit (rr_reservation c2.1) c2.2;
  lr_activate : c4 = Activate (Composition.id (cc_composition c3.1)) c3.2;
  ok_commit : is_success (cc_outcome c3.1) = true;
  ok_active : is_success (ar_outcome c4.1) = true;
  ok_request : request_ok q; ok_plan : plan_ok (cr_plan c1.1); ok_reservation : reservation_ok (rr_reservation c2.1);
  ok_committed : composition_ok (cc_composition c3.1); ok_activated : composition_ok (ar_composition c4.1);
  ok_state : state_ok (SaveState c3.2);
  fit_compose : fits FrameType.COMPOSE_REQ (bytes_of (EncodeRequest wire_too_long q)) = true;
  fit_composed : fits FrameType.COMPOSE_RESP (bytes_of (compose_resp c1.1)) = true;
  fit_reserve : fits FrameType.RESERVE_REQ (bytes_of (EncodePlan wire_too_long (wire_plan (cr_plan c1.1)))) = true;
  fit_reserved : fits FrameType.RESERVE_RESP (bytes_of (reserve_resp c2.1)) = true;
  fit_commit : fits FrameType.COMMIT_REQ (bytes_of (EncodeReservation (rr_reservation c2.1))) = true;
  fit_committed : fits FrameType.COMMIT_RESP (bytes_of (commit_resp c3.1)) = true;
  fit_activated : fits FrameType.ACTIVATE_RESP (bytes_of (activate_resp c4.1)) = true;
  fit_file : u64_ok (N.of_nat (length (saved_bytes c3.2))) }.
End run.

(** *** What the run leaves *)
Lemma activated id s :
  is_success (ar_outcome (Activate id s).1) = true ->
  exists c, Impl.compositions s !! id = Some c /\ Composition.lifecycle c = CompositionLifecycle.COMMITTED /\
    (forall rid, rid ∈ ResourceGraph.vertices (Composition.graph c) -> is_Some (Impl.resources s !! rid)) /\
    let c' := c <| Composition.lifecycle := CompositionLifecycle.ACTIVE |> <| Composition.outcome := CompositionOutcome.SUCCESS |> in
    ar_outcome (Activate id s).1 = CompositionOutcome.SUCCESS /\
    ar_composition (Activate id s).1 = c' /\ Impl.compositions (Activate id s).2 !! id = Some c' /\
    Impl.resources (Activate id s).2 = Impl.resources s.
Proof.
  unfold Activate. destruct (Impl.compositions s !! id) as [c|] eqn:Hc; [|done].
  destruct (negb (lifecycle_is _ c)) eqn:Hl; [done|]. destruct (bool_decide _) eqn:Hf; [done|].
  destruct (RevalidationHolds _ _ _) as [[reason note]|] eqn:Hr; [done|]. intros _. exists c. split; [done|].
  split; [by lc_cases|]. apply RevalidationHolds_ok in Hr as [_ Hev]. split.
  - intros rid Hin. destruct (Hev rid Hin) as (r & Hr & _). by eexists.
  - cbn. by rewrite lookup_insert_eq.
Qed.
Lemma Commit_resources v s : Impl.resources (Commit v s).2 = Impl.resources s.
Proof.
  unfold Commit. destruct (Impl.reservations s !! _) as [resv|]; [|done]. destruct (negb _); [done|].
  destruct (Impl.compositions s !! _) as [comp|]; [|done]. destruct (negb _); [done|]. by destruct (commit_loop _ _ _ _) as [m [reason|]].
Qed.
(** A saved COMMITTED composition comes back without its authority. *)
Lemma composition_restored cfg s s0 id c :
  reachable cfg s -> Impl.compositions s !! id = Some c ->
  Impl.compositions (LoadState (persist_state (SaveState s)) s0) !! id = Some (load_composition (persist_composition c)).
Proof.
  intros Hs%Inv_reachable Hc. cbn -[insert_all]. rewrite <-list_fmap_compose, insert_all_map.
  - by rewrite lookup_fmap, Hc.
  - apply Hs.
  - intros c0. by destruct (load_composition_facts (persist_composition c0)) as (Hid & _).
Qed.
Lemma AdvanceEpoch_inactive e s id c lc :
  Impl.compositions s !! id = Some c -> Composition.lifecycle c = lc -> lc <> CompositionLifecycle.ACTIVE ->
  lifecycle_at id (AdvanceEpoch e s) = Some lc.
Proof.
  intros Hc Hl Hne. unfold lifecycle_at, AdvanceEpoch. destruct (negb _); [rewrite Hc; exact (f_equal Some Hl)|].
  cbn [Impl.compositions set_field]. rewrite lookup_fmap, Hc. cbn. unfold lifecycle_is. rewrite Hl.
  rewrite bool_decide_eq_false_2 by done. exact (f_equal Some Hl).
Qed.
Lemma committed_restored cfg s s0 id c epochVal :
  reachable cfg s -> Impl.compositions s !! id = Some c -> Composition.lifecycle c = CompositionLifecycle.COMMITTED ->
  lifecycle_at id (AdvanceEpoch (Id epochVal) (LoadState (persist_state (SaveState s)) s0)) = Some CompositionLifecycle.RECOMPOSITION_REQUIRED.
Proof.
  intros Hs Hc Hl. eapply AdvanceEpoch_inactive; [exact (composition_restored cfg s s0 id c Hs Hc)| |discriminate].
  unfold load_composition, lifecycle_is. change (Composition.lifecycle (persist_composition c)) with (Composition.lifecycle c).
  by rewrite Hl.
Qed.

(** Everything that is registered when the worker alone has published is its own. *)
Lemma registered_owned boot ds s :
  (forall rid r, Impl.resources s !! rid = Some r -> owned_by (pretty boot) r = true) ->
  forall rid r, Impl.resources (registered (desc_stamp boot <$> ds) s) !! rid = Some r -> owned_by (pretty boot) r = true.
Proof.
  unfold registered. revert s. induction ds as [|d ds IH]; intros s Hs; [exact Hs|]. cbn [fmap list_fmap fold_left]. apply IH.
  intros rid r. rewrite register_desc_lookup. destruct d as [n|r0]; cbn [desc_stamp]; [apply Hs|].
  case_bool_decide; [|apply Hs]. intros [= <-]. unfold owned_by. cbn -[pretty]. by rewrite String.eqb_refl.
Qed.
Lemma seeded_resources : Impl.resources seeded = ∅.
Proof. unfold seeded. by rewrite seed_paths_resources. Qed.
Lemma AdvanceEpoch_empty e s : Impl.resources s = ∅ -> Impl.resources (AdvanceEpoch e s) = ∅.
Proof. intros Hs. unfold AdvanceEpoch. destruct (negb _); [done|]. cbn. by rewrite Hs, fmap_empty. Qed.
Lemma run_owned ep boot arg rid r : Impl.resources (run_engine ep boot arg) !! rid = Some r -> owned_by (pretty boot) r = true.
Proof.
  apply registered_owned. rewrite (AdvanceEpoch_empty _ _ seeded_resources). intros rid' r'. by rewrite lookup_empty.
Qed.

Lemma registered_reachable cfg ds s : reachable cfg s -> reachable cfg (registered ds s).
Proof.
  unfold registered. revert s. induction ds as [|d ds IH]; intros s Hs; [exact Hs|]. cbn [fold_left]. apply IH.
  destruct d as [n|r]; [by apply (reachable_step cfg s (ORegisterNode n))|by apply (reachable_step cfg s (ORegisterResource r))].
Qed.
Lemma hangup_engine k path markdir what boot w s :
  boot <> 0 -> World.threads w !! k = Some (Waiting (conn_of boot)) -> Coord.engine (World.coord w) = s ->
  Coord.engine (World.coord (hangup path markdir what k w)) = MarkEvidenceRevalidationRequired (Id boot) s.
Proof. intros Hn Hk <-. by rewrite (hangup_worker k path markdir what boot w Hn Hk). Qed.
Lemma startup_loaded epochVal path fs bytes d :
  fs !! path = Some bytes -> LoadFile path fs = Loaded d ->
  startup ReadWhole epochVal path fs = (None, AdvanceEpoch (Id epochVal) (LoadState d seeded)).
Proof. intros Hf Hl. unfold LoadFile in Hl. unfold startup. rewrite Hf in *. unfold EngineLoad. by rewrite Hl. Qed.

Section endtoend.
Context (ep boot : N) (arg path markdir what : string) (q : CompositionRequest.t).
Context (Hboot : u64_ok boot) (Hnz : boot <> 0) (Harg : (length (node_ids arg) <= 511)%nat) (Hpath : path <> marker markdir "committed").
Abbreviation w0 := (accept 0 (start path ReadWhole ep ∅)).
Abbreviation worked := (session 0 path markdir what boot arg w0).

Definition run_threads : gmap nat thread := <[1%nat := Waiting Conn.init]> (<[0%nat := Waiting (conn_of boot)]> (World.threads w0)).
Lemma run_client : run_threads !! 1%nat = Some (Waiting Conn.init).
Proof. apply lookup_insert_eq. Qed.
Lemma run_worker : run_threads !! 0%nat = Some (Waiting (conn_of boot)).
Proof. unfold run_threads. rewrite lookup_insert_ne by done. apply lookup_insert_eq. Qed.
Lemma start_empty : Coord.engine (World.coord w0) = AdvanceEpoch (Id ep) seeded.
Proof. unfold start, startup. by rewrite lookup_empty. Qed.

(** The coordinator after the session of the worker, with the client connected. *)
Lemma worker_registered w st : worked w st -> at_rest path markdir what (run_engine ep boot arg) run_threads (accept 1 w).
Proof.
  intros Hs. assert (Hfresh : fresh_connection 0 w0) by (split; apply lookup_insert_eq).
  destruct (session_effect 0 path markdir what boot arg w0 w st Hboot Hnz Harg Hfresh Hs) as (_ & _ & Ht & He & _ & Hd).
  assert (Hd' : Coord.dead (World.coord w) = None) by (by rewrite Hd). rewrite start_empty in He. split.
  - apply accept_reachable; [|exact Hd'|by rewrite Ht].
    eapply session_reachable; [|exact Hs|exact Hd']. apply accept_reachable; [constructor|reflexivity|reflexivity].
  - exact Hd'.
  - exact He.
  - unfold run_threads. rewrite <-Ht. reflexivity.
Qed.

(** The client's run is determined, and exists. *)
Lemma client_runs w c1 c2 c3 c4 :
  local_run ep boot arg q c1 c2 c3 c4 -> at_rest path markdir what (run_engine ep boot arg) run_threads w ->
  let a4 := Frame.mk FrameType.ACTIVATE_RESP 4 (bytes_of (activate_resp c4.1)) in
  read_reply DecodeComposition Composition.dflt a4 = Some (CompositionOutcome.code (ar_outcome c4.1), wire_composition (ar_composition c4.1)) /\
  exists w4, client_run 1 path markdir what q w w4 a4 /\
    (forall w5 a5, client_run 1 path markdir what q w w5 a5 -> w5 = w4 /\ a5 = a4) /\
    at_rest path markdir what c4.2 run_threads w4 /\
    Coord.files (World.coord w4) !! path = Some (saved_bytes c3.2) /\
    LoadFile path (Coord.files (World.coord w4)) = Loaded (persist_state (SaveState c3.2)).
Proof.
  intros [E1 E2 E3 E4 Hs3 Hs4 Hq Hp Hv Hc Ha Hst F1 F1' F2 F2' F3 F3' F4' Fs] Hw a4. pose proof run_client as Ht.
  destruct (call_compose 1 path markdir what Conn.init _ Ht eq_refl eq_refl _ w q c1 Hw Hq F1 E1 Hp F1') as (R1 & w1 & T1 & W1).
  destruct (call_reserve 1 path markdir what Conn.init _ Ht eq_refl eq_refl _ w1 _ _ c2 W1 (plan_ok_wire _ Hp)
    (wire_plan_again _) F2 (ex_intro _ _ R1) E2 Hv F2') as (R2 & w2 & T2 & W2).
  destruct (call_commit 1 path markdir what Conn.init _ Ht eq_refl eq_refl _ w2 _ _ c3 W2 Hv F3 (ex_intro _ _ R2)
    E3 Hc F3' Hs3 Hst Fs Hpath) as (R3 & w3 & T3 & W3 & L3).
  destruct (call_activate 1 path markdir what Conn.init _ Ht eq_refl eq_refl _ w3 _ _ _ _ c4 W3 (proj1 Hc) R3 eq_refl E4 Ha F4')
    as (R4 & w4 & T4 & W4 & Hfiles).
  split; [exact R4|]. exists w4. destruct (trips_run _ _ _ _ _ _ _ _ _ _ _ _ _ _ T1 T2 T3 T4) as [C1 C2].
  split; [exact C1|]. split; [exact C2|]. split; [exact W4|]. rewrite Hfiles. exact L3.
Qed.

(** The worker is lost after the run. *)
Lemma worker_lost w4 s id c r :
  at_rest path markdir what s run_threads w4 -> Impl.compositions s !! id = Some c ->
  (forall rid r, Impl.resources s !! rid = Some r -> owned_by (pretty boot) r = true) ->
  (forall rid, rid ∈ ResourceGraph.vertices (Composition.graph c) -> is_Some (Impl.resources s !! rid)) ->
  r ∈ ResourceGraph.vertices (Composition.graph c) ->
  lifecycle_at id (Coord.engine (World.coord (hangup path markdir what 0 w4))) <> Some CompositionLifecycle.ACTIVE.
Proof.
  intros [_ _ He Ht] Hc Hown Hreg Hr.
  rewrite (hangup_engine 0 path markdir what boot w4 s Hnz ltac:(by rewrite Ht; apply run_worker) He). destruct (Hreg r Hr) as [x Hx].
  assert (Hf : fault s r (OMarkEvidence (Id boot))) by (eapply fault_worker; [exact Hx|exact (Hown _ _ Hx)]).
  intros (c' & Hc' & Hl)%lifecycle_at_Some. change (Impl.compositions (run (OMarkEvidence (Id boot)) s) !! id = Some c') in Hc'.
  refine (fault_inactive s r x _ id c' Hx Hf Hc' _ Hl). cbn in Hc'. rewrite lookup_fmap, Hc in Hc'. cbn in Hc'. injection Hc' as <-.
  by destruct (_ && _).
Qed.

(** The engine of the run. *)
Lemma run_registered c1 c2 c3 c4 :
  local_run ep boot arg q c1 c2 c3 c4 ->
  (forall rid r, Impl.resources c3.2 !! rid = Some r -> owned_by (pretty boot) r = true) /\ reachable coord_cfg c3.2.
Proof.
  intros [E1 E2 E3 _ _ _ _ _ _ _ _ _ _ _ _ _ _ _ _ _]. split.
  - rewrite E3, Commit_resources, E2, (proj1 (Reserve_frame _ _)), E1, (proj1 (Compose_keeps _ _)). apply run_owned.
  - rewrite E3. apply (reachable_step coord_cfg c2.2 (OCommit (rr_reservation c2.1))).
    rewrite E2. apply (reachable_step coord_cfg c1.2 (OReserve (wire_plan (cr_plan c1.1)))).
    rewrite E1. apply (reachable_step coord_cfg (run_engine ep boot arg) (OCompose (wire_request q))).
    unfold run_engine. apply registered_reachable.
    apply (reachable_step coord_cfg seeded (OAdvanceEpoch (Id ep))). apply seeded_reachable.
Qed.

(** What the end of the run means. *)
Lemma run_outcome c1 c2 c3 c4 w4 a :
  local_run ep boot arg q c1 c2 c3 c4 ->
  read_reply DecodeComposition Composition.dflt a = Some (CompositionOutcome.code (ar_outcome c4.1), wire_composition (ar_composition c4.1)) ->
  at_rest path markdir what c4.2 run_threads w4 -> Coord.files (World.coord w4) !! path = Some (saved_bytes c3.2) ->
  LoadFile path (Coord.files (World.coord w4)) = Loaded (persist_state (SaveState c3.2)) ->
  exists c,
    read_reply DecodeComposition Composition.dflt a = Some (CompositionOutcome.code CompositionOutcome.SUCCESS, c) /\
    Composition.lifecycle c = CompositionLifecycle.ACTIVE /\
    wreachable anything path markdir what w4 /\ Coord.dead (World.coord w4) = None /\
    let id := Composition.id (cc_composition c3.1) in
    lifecycle_at id (Coord.engine (World.coord w4)) = Some CompositionLifecycle.ACTIVE /\
    (forall epochVal, let r := startup ReadWhole epochVal path (Coord.files (World.coord w4)) in
       r.1 = None /\ lifecycle_at id r.2 = Some CompositionLifecycle.RECOMPOSITION_REQUIRED) /\
    (ResourceGraph.vertices (Composition.graph c) <> [] ->
       lifecycle_at id (Coord.engine (World.coord (hangup path markdir what 0 w4))) <> Some CompositionLifecycle.ACTIVE).
Proof.
  intros Hrun Hread Hrest Hf Hload. pose proof (run_registered c1 c2 c3 c4 Hrun) as [Hreg Hreach].
  destruct Hrun as [E1 E2 E3 E4 _ Hs4 _ _ _ _ _ _ _ _ _ _ _ _ _ _]. set (id := Composition.id (cc_composition c3.1)) in *.
  rewrite E4 in Hs4. destruct (activated id c3.2 Hs4) as (comp & Hcm & Hlc & Hdom & Hout & Hcomp & Hact & Hres).
  rewrite <-E4 in Hout, Hcomp, Hact, Hres. rewrite Hout, Hcomp in Hread. eexists. split; [exact Hread|].
  split; [reflexivity|]. split; [apply Hrest|]. split; [apply Hrest|]. cbv zeta. split; [|split].
  - rewrite (ar_engine _ _ _ _ _ _ Hrest). unfold lifecycle_at. by rewrite Hact.
  - intros epochVal. rewrite (startup_loaded epochVal path _ _ _ Hf Hload). split; [reflexivity|].
    exact (committed_restored coord_cfg c3.2 seeded id comp epochVal Hreach Hcm Hlc).
  - change (ResourceGraph.vertices (Composition.graph (wire_composition _))) with (ResourceGraph.vertices (Composition.graph comp)).
    intros Hne. assert (Hr : exists r, r ∈ ResourceGraph.vertices (Composition.graph comp))
      by (revert Hne; clear; destruct (ResourceGraph.vertices _) as [|r vs]; [done|]; exists r; left).
    destruct Hr as [r Hr]. refine (worker_lost w4 c4.2 id _ r Hrest Hact _ _ Hr).
    + rewrite Hres. exact Hreg.
    + rewrite Hres. exact Hdom.
Qed.
End endtoend.

(** C9: The processes work together, end to end.  A coordinator starts without files; a
    worker with any boot id other than 0 holds a session in which it serves up to 511
    nodes of the topology; a client connects, sends COMPOSE_REQ for a request, and
    sends the plan, the reservation and the composition id that it decoded from the
    responses back in RESERVE_REQ, COMMIT_REQ and ACTIVATE_REQ; every stream is cut
    anywhere, and no call of the system fails.  If the four operations succeed on an engine with these
    registrations, and the messages and the saved state can be encoded and fit, then
    such a run exists, and every such run ends with a response that tells the client
    SUCCESS and the composition ACTIVE, in a reachable state in which it is ACTIVE; a
    process started on the files left, with any epoch, loads them without a warning and
    demands the recomposition of the composition; and if instead the worker's
    connection ends, a composition with at least one member is not ACTIVE any more. *)
Theorem end_to_end ep boot arg path markdir what q c1 c2 c3 c4 :
  u64_ok boot -> boot <> 0 -> (length (node_ids arg) <= 511)%nat -> path <> marker markdir "committed" ->
  local_run ep boot arg q c1 c2 c3 c4 ->
  let w0 := accept 0 (start path ReadWhole ep ∅) in
  let run w4 a := exists w st, session 0 path markdir what boot arg w0 w st /\ client_run 1 path markdir what q (accept 1 w) w4 a in
  (exists w4 a, run w4 a) /\
  forall w4 a, run w4 a -> exists c,
    read_reply DecodeComposition Composition.dflt a = Some (CompositionOutcome.code CompositionOutcome.SUCCESS, c) /\
    Composition.lifecycle c = CompositionLifecycle.ACTIVE /\
    wreachable anything path markdir what w4 /\ Coord.dead (World.coord w4) = None /\
    let id := Composition.id (cc_composition c3.1) in
    lifecycle_at id (Coord.engine (World.coord w4)) = Some CompositionLifecycle.ACTIVE /\
    (forall epochVal, let r := startup ReadWhole epochVal path (Coord.files (World.coord w4)) in
       r.1 = None /\ lifecycle_at id r.2 = Some CompositionLifecycle.RECOMPOSITION_REQUIRED) /\
    (ResourceGraph.vertices (Composition.graph c) <> [] ->
       lifecycle_at id (Coord.engine (World.coord (hangup path markdir what 0 w4))) <> Some CompositionLifecycle.ACTIVE).
Proof.
  intros Hb Hnz Hl Hpath Hrun w0 run.
  assert (Hone : forall w st, session 0 path markdir what boot arg w0 w st -> _) by
    exact (fun w st Hs => client_runs ep boot arg path markdir what q Hpath (accept 1 w) c1 c2 c3 c4 Hrun
      (worker_registered ep boot arg path markdir what Hb Hnz Hl w st Hs)).
  split.
  - destruct (session_exists 0 path markdir what boot arg w0) as (w & st & Hs). destruct (Hone w st Hs) as (_ & w4 & Hc & _).
    exists w4. eexists. exists w, st. exact (conj Hs Hc).
  - intros w4 a (w & st & Hs & Hcl). destruct (Hone w st Hs) as (Hr & w4' & _ & Huniq & Hrest & Hf & Hload).
    destruct (Huniq w4 a Hcl) as [-> ->]. clear Huniq Hone Hcl.
    exact (run_outcome ep boot arg path markdir what q Hnz c1 c2 c3 c4 w4' _ Hrun Hr Hrest Hf Hload).
Qed.

(** The request of the tests against a worker that serves the whole topology. *)
Definition path0 : string := "coordinator.state".
Abbreviation k1 := (Compose (wire_request MakeReq) (run_engine 1 77 "1,2,3,4")).
Abbreviation k2 := (Reserve (wire_plan (cr_plan k1.1)) k1.2).
Abbreviation k3 := (Commit (rr_reservation k2.1) k2.2).
Abbreviation k4 := (Activate (Composition.id (cc_composition k3.1)) k3.2).
Lemma run_is_ok : local_run 1 77 "1,2,3,4" MakeReq k1 k2 k3 k4.
Proof.
  split; [reflexivity|reflexivity|reflexivity|reflexivity|vm_compute; reflexivity|vm_compute; reflexivity|
    decide_ok|decide_ok|decide_ok|decide_ok|decide_ok|decide_ok|vm_compute; reflexivity..].
Qed.
Lemma path0_free : path0 <> marker "" "committed".
Proof. discriminate. Qed.

Lemma end_to_end_witness :
  exists w4 a c, read_reply DecodeComposition Composition.dflt a = Some (CompositionOutcome.code CompositionOutcome.SUCCESS, c) /\
    Composition.lifecycle c = CompositionLifecycle.ACTIVE /\
    wreachable anything path0 "" "" w4 /\
    (startup ReadWhole 2 path0 (Coord.files (World.coord w4))).1 = None.
Proof.
  destruct (end_to_end 1 77 "1,2,3,4" path0 "" "" MakeReq k1 k2 k3 k4) as [(w4 & a & Hr) H];
    [reflexivity|discriminate|vm_compute; lia|exact path0_free|exact run_is_ok|].
  destruct (H w4 a Hr) as (c & Hread & Hl & Hw & _ & _ & Hs & _). exists w4, a, c.
  split; [exact Hread|]. split; [exact Hl|]. split; [exact Hw|]. exact (proj1 (Hs 2)).
Defined.

Lemma scenario_engine s : Coord.engine (World.coord (w_scenario s)) = s.
Proof. done. Qed.
Lemma commit_survives_restart_witness :
  let f := Frame.mk FrameType.COMMIT_REQ 5 (bytes_of (EncodeReservation (rr_reservation k2.1))) in
  let w' := feed_all 0 "f" "m" "" (chop (length (encode_frame f)) 100 (encode_frame f)) (w_scenario k2.2) in
  Coord.engine (World.coord w') = k3.2 /\
  startup ReadWhole 2 "f" (Coord.files (World.coord w')) = (None, AdvanceEpoch (Id 2) (LoadState (persist_state (SaveState k3.2)) seeded)).
Proof.
  destruct run_is_ok as [_ _ _ _ Hs _ _ _ Hv Hc _ Hst _ _ _ _ Fv _ _ Hl]. cbv zeta.
  assert (Hec : commit_resp k3.1 [] = inr (bytes_of (commit_resp k3.1))).
  { destruct (tr_composition wire_too_long _ Hc) as (bs & He & _). exact (code_bytes _ _ bs He). }
  pose proof (commit_survives_restart 0 "f" "m" "" Conn.init (w_scenario k2.2) 5 (rr_reservation k2.1)
    (bytes_of (EncodeReservation (rr_reservation k2.1))) (bytes_of (commit_resp k3.1)) (saved_bytes k3.2)
    (chop (length (encode_frame (Frame.mk FrameType.COMMIT_REQ 5 (bytes_of (EncodeReservation (rr_reservation k2.1)))))) 100
       (encode_frame (Frame.mk FrameType.COMMIT_REQ 5 (bytes_of (EncodeReservation (rr_reservation k2.1)))))) 2
    eq_refl eq_refl eq_refl Hv (transfers_bytes _ _ _ _ (tr_reservation _ Hv)) (fits_ok _ 5 _ Fv eq_refl)) as T.
  cbv zeta in T. rewrite scenario_engine in T.
  destruct (T Hs Hec Hst (saved_ok _ Hst) Hl) as (E1 & _ & E3).
  - discriminate.
  - apply chop_cuts; lia.
  - exact (conj E1 E3).
Defined.
