(* ===== verification/CoordLimits.v ===== *)
(** * Where the processes fall short

    Runs of the coordinator that its header comment does not lead one to expect:
    evidence that outlives its worker after a second HELLO, requests that are
    executed although their payload was rejected, a REGISTER frame whose count is
    not bounded by its payload, responses that are dropped, and valid frames that
    are dropped because of what arrived in the same packet. *)

From S2P Require Import Prelude Effects Net Bytes Enums Ids Args Double Model Codec Wire WireSize WireProps Protocol ProtocolProps.
From S2P Require Import Planner Engine Persistence Storage Synthetic Lifecycle LifecycleProps Ledger Scenario Coordinator CoordSafety.
From S2P Require Import CoordEvidence CoordRun CoordDefined CoordFrames Worker Cluster ClusterProps CoordProps Client.

(** ** A second HELLO *)
Definition rehello : list Frame.t := published ++ [Frame.mk FrameType.HELLO 4 (MakeCorrPayload 78)].
Abbreviation w_rehello := (hangup "coordinator.state" "" "" 0 (handled 0 "coordinator.state" "" "" rehello Conn.init started)).

(** A connection sends frames and hangs up. *)
Lemma stream_hangup_reachable path markdir what k fs c w :
  wreachable anything path markdir what w -> Forall frame_ok fs -> Forall (fun f => Frame.type f <> FrameType.BYE) fs ->
  World.threads w !! k = Some (Waiting c) -> Conn.done c = false -> Conn.buffer c = [] ->
  Coord.dead (World.coord (hangup path markdir what k (handled k path markdir what fs c w))) = None ->
  wreachable anything path markdir what (hangup path markdir what k (handled k path markdir what fs c w)).
Proof.
  intros Hw Hok Hbye Hk Hd Hb Hdead. pose proof (round_dead _ _ _ _ _ _ _ Hdead) as Hd1.
  apply hangup_reachable; [by apply stream_reachable_at|done|done|done].
Qed.
Lemma rehello_ok : Forall frame_ok rehello.
Proof.
  apply Forall_app. split; [apply published_ok|]. apply Forall_singleton. split; vm_compute; [discriminate|reflexivity].
Qed.
Lemma rehello_no_bye : Forall (fun f => Frame.type f <> FrameType.BYE) rehello.
Proof. by repeat constructor. Qed.
Lemma fmap_fields (o : option Resource.t) :
  (fun r => (IsCurrent (Resource.evidence r), Evidence.durable (Resource.evidence r), Evidence.owner (Resource.evidence r))) <$> o
    = Some (true, false, "77") ->
  exists r, o = Some r /\ IsCurrent (Resource.evidence r) = true /\ Evidence.durable (Resource.evidence r) = false /\
    Evidence.owner (Resource.evidence r) = "77".
Proof. destruct o as [r|]; [|done]. cbn. intros [= H1 H2 H3]. eauto. Qed.

(** C38: Evidence can outlive its worker: a connection that publishes a resource under one
    boot id, says HELLO again with another one and disconnects leaves a reachable
    state in which no connection exists and the resource still has current
    non-durable evidence owned by the first boot id. *)
Theorem second_hello_keeps_evidence :
  wreachable anything "coordinator.state" "" "" w_rehello /\ World.threads w_rehello = ∅ /\ Coord.dead (World.coord w_rehello) = None /\
  exists r, Impl.resources (Coord.engine (World.coord w_rehello)) !! Id 106 = Some r /\ IsCurrent (Resource.evidence r) = true /\
    Evidence.durable (Resource.evidence r) = false /\ Evidence.owner (Resource.evidence r) = pretty 77.
Proof.
  assert (Hv : (World.threads w_rehello, Coord.dead (World.coord w_rehello),
    (fun r => (IsCurrent (Resource.evidence r), Evidence.durable (Resource.evidence r), Evidence.owner (Resource.evidence r))) <$>
      Impl.resources (Coord.engine (World.coord w_rehello)) !! Id 106) = (∅, None, Some (true, false, "77"))) by (vm_compute; reflexivity).
  apply pair_equal_spec in Hv as [Hv Hr]. apply pair_equal_spec in Hv as [Ht Hd].
  split; [|split; [exact Ht|split; [exact Hd|]]].
  - exact (stream_hangup_reachable "coordinator.state" "" "" 0 rehello Conn.init started (started_reachable anything) rehello_ok
      rehello_no_bye (proj1 started_fresh) eq_refl eq_refl Hd).
  - exact (fmap_fields _ Hr).
Qed.

(** ** Rejected payloads

    A plan is its head, everything up to the lifecycle, and its paths. *)
Definition plan_head (p : CompositionPlan.t) : W :=
  Wr.Id (CompositionPlan.id p) ;>> Wr.Id (CompositionPlan.generation p) ;>>
  EncodeGraph wire_too_long (CompositionPlan.graph p) ;>> Wr.counted Wr.Id (CompositionPlan.nodes p) ;>>
  EncodeRequest wire_too_long (CompositionPlan.request p) ;>>
  (Wr.Dbl (RankScore.total (CompositionPlan.rank p)) ;>>
   Wr.counted (EncodeFactor wire_too_long) (RankScore.factors (CompositionPlan.rank p))) ;>>
  EncodeAuthority (CompositionPlan.authority p) ;>> Wr.Enum (CompositionPlan.lifecycle p).
Definition read_paths : Dec CompositionPlan.t unit :=
  counted (push CompositionPlan.paths (local PathEvidence.dflt DecodePath));; return_ok.

(** [passes w m k t t1]: after what [w] writes, [m] goes on as [k]. *)
Definition passes {T A : Type} (w : W) (m k : Dec T A) (t t1 : T) : Prop :=
  exists bs, encodes w bs /\ forall r rest, ready r (bs ++ rest) -> exists r', m (r, t) = k (r', t1) /\ ready r' rest.
Lemma passes_last {T A B : Type} w (m : Dec T A) (k : Dec T B) t a t1 : transfers w m t a t1 -> passes w (m;; k) k t t1.
Proof.
  intros (bs & He & Hd). exists bs. split; [done|]. intros r rest Hr. destruct (decodes_back _ _ _ _ _ Hd r rest Hr) as (r' & E & Hr').
  exists r'. unfold mbind, Dec_bind. by rewrite E.
Qed.
Lemma passes_seq {T A B : Type} w1 w2 (m : Dec T A) (m' k : Dec T B) t a t1 t2 :
  transfers w1 m t a t1 -> passes w2 m' k t1 t2 -> passes (w1 ;>> w2) (m;; m') k t t2.
Proof.
  intros (b1 & He1 & Hd) (b2 & He2 & Hk). exists (b1 ++ b2). split; [intros buf; unfold Wr.seq; by rewrite He1, He2, app_assoc|].
  intros r rest Hr. rewrite <-app_assoc in Hr. destruct (decodes_back _ _ _ _ _ Hd _ _ Hr) as (r' & E & Hr').
  unfold mbind, Dec_bind. rewrite E. by apply Hk.
Qed.
Lemma head_passes p :
  plan_ok p -> passes (plan_head p) DecodePlan read_paths CompositionPlan.dflt ((wire_plan p) <| CompositionPlan.paths := [] |>).
Proof.
  unfold plan_ok, all_ok. intros H. destruct_and? H. unfold plan_head, DecodePlan.
  assert (Hm : forall t1 t2, passes (plan_head p) DecodePlan read_paths CompositionPlan.dflt t1 -> t1 = t2 ->
    passes (plan_head p) DecodePlan read_paths CompositionPlan.dflt t2) by (by intros t1 t2 ? <-).
  eapply Hm; [do 7 (eapply passes_seq; [transfer_step|]); eapply passes_last; transfer_step|]. by destruct p as [? ? ? ? ? []].
Qed.

(** The rest of the decoder fills the paths, and nothing else. *)
Definition only_paths (t t' : CompositionPlan.t) : Prop := exists l, t' = t <| CompositionPlan.paths := l |>.
Lemma only_paths_trans t1 t2 t3 : only_paths t1 t2 -> only_paths t2 t3 -> only_paths t1 t3.
Proof. intros [l1 ->] [l2 ->]. by exists l2. Qed.
Lemma push_only_paths m st : only_paths st.2 (push CompositionPlan.paths (local PathEvidence.dflt m) st).2.2.
Proof.
  destruct st as [r t]. unfold push, local, mbind, Dec_bind. destruct (m (r, PathEvidence.dflt)) as [[u| |] [r' v]]; cbn.
  - by eexists.
  - exists (CompositionPlan.paths t). by destruct t.
  - exists (CompositionPlan.paths t). by destruct t.
Qed.
Lemma loop_only_paths m n st : only_paths st.2 (loop n (push CompositionPlan.paths (local PathEvidence.dflt m)) st).2.2.
Proof.
  revert st. induction n as [|n IH]; intros st; cbn [loop]; [exists (CompositionPlan.paths st.2); by destruct st as [r []]|].
  pose proof (push_only_paths m st) as H. unfold mbind at 1, Dec_bind at 1.
  destruct (push CompositionPlan.paths (local PathEvidence.dflt m) st) as [[u| |] st1]; cbn in H; [|exact H..].
  eapply only_paths_trans; [exact H|apply IH].
Qed.
Lemma read_only_paths r t : only_paths t (read_paths (r, t)).2.2.
Proof.
  assert (Hrefl : only_paths t t) by (exists (CompositionPlan.paths t); by destruct t).
  unfold read_paths, counted, mbind, Dec_bind, rd. destruct (Rd.U32 r) as [[n r1]|]; [|exact Hrefl].
  destruct (kWireMaxCount <? n); [exact Hrefl|]. pose proof (loop_only_paths DecodePath (N.to_nat n) (r1, t)) as H.
  destruct (loop _ _ (r1, t)) as [[u| |] [r2 t2]]; exact H.
Qed.

Lemma paths_encode l : all_ok path_ok l -> exists bs, encodes (Wr.counted (EncodePath wire_too_long) l) bs.
Proof.
  intros [Hc Hp]. assert (T : transfers (Wr.counted (EncodePath wire_too_long) l) (counted (push CompositionPlan.paths (local PathEvidence.dflt DecodePath)))
    CompositionPlan.dflt tt (set_field CompositionPlan.paths (fun _ => l) CompositionPlan.dflt)).
  { eapply (tr_counted_push CompositionPlan.paths); [eauto with safe|done|done|]. eapply Forall_impl; [exact Hp|]. intros x Hx t. by apply tr_local, tr_path. }
  destruct T as (bs & W & _). by exists bs.
Qed.

(** What the coordinator gets from a plan cut inside its paths. *)
Lemma cut_plan_decodes p b hb n :
  plan_ok p -> EncodePlan wire_too_long p [] = inr b -> plan_head p [] = inr hb -> u64_ok (N.of_nat (length b)) ->
  (length hb <= n < length b)%nat ->
  exists l, decode_into DecodePlan CompositionPlan.dflt (take n b) = (Fail, (wire_plan p) <| CompositionPlan.paths := l |>).
Proof.
  intros Hp Hb Hh Hu Hn. assert (Hck : checked DecodePlan) by solve_checked.
  destruct (transfers_truncation _ _ _ _ Hck (tr_plan wire_too_long p Hp) b n Hb Hu ltac:(lia)) as [st Est].
  destruct (head_passes p Hp) as (hb' & Hw & Hpass). rewrite (Hw []) in Hh. cbn in Hh. injection Hh as <-.
  assert (Hpre : exists pb, b = hb' ++ pb).
  { assert (He : EncodePlan wire_too_long p [] = (plan_head p ;>> Wr.counted (EncodePath wire_too_long) (CompositionPlan.paths p)) []).
    { unfold EncodePlan, plan_head, Wr.seq. repeat match goal with |- context [match ?x with inl _ => _ | inr _ => _ end] => destruct x; [reflexivity|] end. reflexivity. }
    rewrite Hb in He. unfold Wr.seq in He. rewrite (Hw []) in He.
    destruct p as [? ? ? ? ? ? ? ? paths]. destruct Hp as (_ & _ & _ & _ & _ & _ & _ & _ & _ & Hpaths).
    destruct (paths_encode _ Hpaths) as [pb Hpb]. cbn [CompositionPlan.paths app] in He. rewrite Hpb in He. exists pb. by injection He as ->. }
  destruct Hpre as [pb ->].
  assert (Hr : ready (MakeReader (take n (hb' ++ pb))) (hb' ++ take (n - length hb') pb)).
  { assert (Hcut : take n (hb' ++ pb) = hb' ++ take (n - length hb') pb) by (rewrite take_app, (take_ge hb') by lia; done).
    rewrite <-Hcut. apply reader_at_start. rewrite length_take. unfold u64_ok in *. lia. }
  destruct (Hpass _ _ Hr) as (r' & E & _). destruct (read_only_paths r' ((wire_plan p) <| CompositionPlan.paths := [] |>)) as [l Hl].
  exists l. unfold decode_into. rewrite E in Est |- *. rewrite Est in Hl |- *. destruct st as [r2 t2]. cbn in Hl. by rewrite Hl.
Qed.
(** The paths of a plan do not matter to the ledger. *)
Lemma Reserve_paths p l s :
  let r := Reserve (p <| CompositionPlan.paths := l |>) s in
  r.1 = (Reserve p s).1 /\ Impl.reservations r.2 = Impl.reservations (Reserve p s).2 /\
  Impl.reserved_amount r.2 = Impl.reserved_amount (Reserve p s).2.
Proof.
  destruct p. unfold Reserve. cbn [CompositionPlan.lifecycle CompositionPlan.id CompositionPlan.request CompositionPlan.graph set_field].
  cbn zeta. do 2 (destruct (negb _); [done|]). by destruct (reserve_loop _ _ _ _ _) as [[m items] [[reason note]|]].
Qed.
(** The engine after a RESERVE_REQ. *)
Lemma reserve_engine k path markdir what f c w o plan :
  Frame.type f = FrameType.RESERVE_REQ -> decode_into DecodePlan CompositionPlan.dflt (Frame.payload f) = (o, plan) -> o <> Fault ->
  Coord.engine (eval_prog (coord_eval k) (on_frame coord_syn path markdir what f (Some c)) w).2 = (Reserve plan (Coord.engine w)).2.
Proof.
  intros Ht Hd Ho. unfold on_frame. rewrite Ht. unfold on_reserve. rewrite Hd.
  assert (Hgo : Coord.engine (eval_prog (coord_eval k) (rr ← call (EReserve plan);
    c ← send_encoded FrameType.RESERVE_RESP (Frame.correlation f) (reserve_resp rr) c;
    persist_if path markdir what (is_success (rr_outcome rr)) "reserved" c) w).2 = (Reserve plan (Coord.engine w)).2); [|by destruct o].
  cbn [eval_prog mbind prog_mbind prog_bind call coord_eval]. unfold on_engine. destruct (Reserve plan (Coord.engine w)) as [rr s].
  change (Coord.engine (eval_prog (coord_eval k) (c ← send_encoded FrameType.RESERVE_RESP (Frame.correlation f) (reserve_resp rr) c;
    persist_if path markdir what (is_success (rr_outcome rr)) "reserved" c) (w <| Coord.engine := s |>)).2 = s).
  rewrite eval_prog_bind. unfold send_encoded. destruct (reserve_resp rr []) as [e|b]; [done|].
  change (eval_prog (coord_eval k) (c0 ← send_frame FrameType.RESERVE_RESP (Frame.correlation f) b c; mret (Some c0)) (w <| Coord.engine := s |>))
    with (Some c, deliver k (Encode FrameType.RESERVE_RESP (Frame.correlation f) b) (w <| Coord.engine := s |>)).
  cbv beta iota. rewrite (ev_persist k path markdir what c). cbn [snd].
  by rewrite (proj1 (persisted_frame k path markdir what _ "reserved" _)).
Qed.

(** C39: A request is executed although its payload is rejected: for every encodable plan
    that fits into a RESERVE_REQ frame, and for every way to cut its encoding inside
    the paths, the last member of a plan, the decoder returns false, yet the
    coordinator executes [Reserve] on what was decoded, which differs from the plan in
    its paths only; so it makes exactly the reservation, and leaves the same amounts
    in the ledger, as for the whole plan. *)
Theorem truncated_plan_reserved k path markdir what c w corr p b hb n :
  plan_ok p -> EncodePlan wire_too_long p [] = inr b -> plan_head p [] = inr hb ->
  frame_ok (Frame.mk FrameType.RESERVE_REQ corr b) -> (length hb <= n < length b)%nat ->
  let f := Frame.mk FrameType.RESERVE_REQ corr (take n b) in
  let r := Reserve (wire_plan p) (Coord.engine w) in
  let s' := Coord.engine (eval_prog (coord_eval k) (on_frame coord_syn path markdir what f (Some c)) w).2 in
  frame_ok f /\ (decode_into DecodePlan CompositionPlan.dflt (take n b)).1 = Fail /\
  (exists l, s' = (Reserve ((wire_plan p) <| CompositionPlan.paths := l |>) (Coord.engine w)).2) /\
  Impl.reservations s' = Impl.reservations r.2 /\ Impl.reserved_amount s' = Impl.reserved_amount r.2.
Proof.
  intros Hp Hb Hh Hok Hn f r s'.
  destruct (cut_plan_decodes p b hb n Hp Hb Hh (payload_small _ _ _ Hok) Hn) as [l Hd].
  assert (Hs : s' = (Reserve ((wire_plan p) <| CompositionPlan.paths := l |>) (Coord.engine w)).2)
    by exact (reserve_engine k path markdir what f c w Fail _ eq_refl Hd ltac:(discriminate)).
  destruct (Reserve_paths (wire_plan p) l (Coord.engine w)) as (_ & Hv & Ha). rewrite Hs, Hd.
  split; [|split; [reflexivity|split; [by exists l|exact (conj Hv Ha)]]].
  destruct Hok as [Hlen Hcorr]. split; [|exact Hcorr]. cbn [Frame.payload Frame.type f] in *. rewrite length_take. lia.
Qed.

(** The plan of the test request without its last byte reserves six resources. *)
Lemma truncated_plan_reserved_witness :
  let b := bytes_of (EncodePlan wire_too_long w_plan) in
  let w := Coord.mk (p_composed MakeReq s_disc) ∅ ∅ None in
  let f := Frame.mk FrameType.RESERVE_REQ 1 (take (length b - 1) b) in
  let s' := Coord.engine (eval_prog (coord_eval 0) (on_frame coord_syn "f" "" "" f (Some Conn.init)) w).2 in
  (decode_into DecodePlan CompositionPlan.dflt (take (length b - 1) b)).1 = Fail /\
  length (map_to_list (owners (Impl.reservations s'))) = 6%nat.
Proof.
  cbv zeta. set (b := bytes_of (EncodePlan wire_too_long w_plan)). set (hb := bytes_of (plan_head w_plan)).
  destruct (truncated_plan_reserved 0 "f" "" "" Conn.init (Coord.mk (p_composed MakeReq s_disc) ∅ ∅ None) 1 w_plan b hb (length b - 1))
    as (_ & Hd & _ & Hv & _).
  - decide_ok.
  - vm_compute. reflexivity.
  - vm_compute. reflexivity.
  - split; vm_compute; [discriminate|reflexivity].
  - split; [apply (bool_decide_unpack _)|apply (bool_decide_unpack _)]; vm_compute; exact I.
  - split; [exact Hd|]. rewrite Hv. vm_compute. reflexivity.
Defined.

(** Once the reader has failed, every id read is 0. *)
Lemma read_ids_exhausted n r :
  Rd.ok r = false -> read_ids n r = Some (replicate n (Id 0)).
Proof.
  revert r. induction n as [|n IH]; intros r Hr; [done|]. cbn [read_ids replicate].
  assert (E : Rd.U64 r = Some (0, r <| Rd.ok := false |>)) by (unfold Rd.U64, Rd.read, Rd.Need; by rewrite Hr).
  by rewrite E, IH.
Qed.

(** C40: The number of node ids of a REGISTER frame is not bounded by its payload: a
    payload of four bytes that announces [n] ids makes the coordinator store [n]
    ids, all zero, for every 32-bit [n]. *)
Theorem register_count_unbounded n :
  u32_ok n -> register_ids (le_bytes 4 n) = Some (replicate (N.to_nat n) (Id 0)).
Proof.
  intros Hn. unfold register_ids.
  destruct (reads_back _ _ _ (U32_reads n Hn) (MakeReader (le_bytes 4 n)) []) as (r & -> & Hr).
  { rewrite app_nil_r. apply reader_at_start. rewrite length_le_bytes. done. }
  destruct (N.to_nat n) as [|m]; [done|]. cbn [read_ids replicate].
  assert (E : exists r', Rd.U64 r = Some (0, r') /\ Rd.ok r' = false).
  { pose proof (ready_size r [] Hr) as Hs. destruct Hr as (Hok & Hwf & _). unfold Rd.U64, Rd.read.
    rewrite Need_spec by done. cbn in Hs. rewrite Hok, (proj2 (N.leb_gt _ _)) by lia. eexists. split; [reflexivity|done]. }
  destruct E as (r' & -> & Hr'). by rewrite read_ids_exhausted.
Qed.
Lemma register_count_unbounded_witness : register_ids [xff; xff; x00; x00] = Some (replicate 65535 (Id 0)).
Proof. apply (register_count_unbounded 65535). reflexivity. Defined.

(** ** Dropped responses and dropped frames *)

(** A state that does not fit into a frame is not reported: when the encoded snapshot
    exceeds the bound of STATE_RESP, QUERY_STATE is answered with nothing at all. *)
Theorem oversized_state_unanswered k path markdir what f c w b :
  Frame.type f = FrameType.QUERY_STATE -> state_resp (Snapshot (Coord.engine w)) [] = inr b ->
  524288 < N.of_nat (length b) ->
  eval_prog (coord_eval k) (on_frame coord_syn path markdir what f (Some c)) w = (Some c, deliver k [] w).
Proof.
  intros Ht Hb Hl. unfold on_frame. rewrite Ht. unfold on_query.
  cbn [eval_prog mbind prog_mbind prog_bind call coord_eval]. unfold send_encoded. rewrite Hb.
  cbn [eval_prog mbind prog_mbind prog_bind send_frame call coord_eval mret prog_ret].
  unfold Encode. cbn [MaxFrameLen]. by rewrite (proj2 (N.ltb_lt _ _) Hl).
Qed.
