(* ===== verification/Programs.v ===== *)
(** * The client programs

    The mains of [tools/dfabric_cli.cpp], [consumer/main.cpp],
    [examples/examples.cpp] and [bench/bench.cpp] as functions from their arguments to the exit code and
    the lines they print.  [printf] is modelled as far as they use it.  A program
    that changes the synthetic backend behind the engine ([syn->Set...], through
    the [shared_ptr] the engine holds as well) changes it with [share]. *)

From S2P Require Import Prelude Enums Ids Double Model Planner Engine Synthetic Lifecycle Ledger Scenario System.

(** ** printf *)

(** [%-ns]. *)
Definition pad (n : nat) (s : string) : string := s +:+ String.concat "" (repeat " " (n - String.length s)).
(** [%zu] of the size of a container. *)
Definition zu {A : Type} (l : list A) : string := pretty (length l).
(** [%f]: six decimals of the exact value, ties to even. *)
Definition div_even (a b : Z) : Z :=
  let q := (a / b)%Z in let r := (2 * (a mod b))%Z in
  if (b <? r)%Z || ((r =? b)%Z && Z.odd q) then (q + 1)%Z else q.
Definition six_digits (n : Z) : string :=
  let d := pretty (Z.to_N n) in String.concat "" (repeat "0" (6 - String.length d)) +:+ d.
Definition fmt_f (x : double) : string :=
  match x with
  | S754_zero s => (if s then "-" else "") +:+ "0.000000"
  | S754_infinity s => (if s then "-" else "") +:+ "inf"
  | S754_nan => "nan"
  | S754_finite s m e =>
      let n := if (0 <=? e)%Z then (Z.pos m * 2 ^ e * 1000000)%Z else div_even (Z.pos m * 1000000) (2 ^ (- e)) in
      (if s then "-" else "") +:+ pretty (Z.to_N (n / 1000000)) +:+ "." +:+ six_digits (n mod 1000000)
  end.

(** ** Shared pieces of the programs *)
Definition cfg_of (coordinator : N) : EngineConfig.t :=
  EngineConfig.dflt <| EngineConfig.coordinator := Id coordinator |> <| EngineConfig.epoch := Id 1 |>.
Definition new_synthetic : Synthetic.t := Synthetic.SyntheticBackend (Id 1).
(** [FabricEngine e(cfg); e.AddBackend(b); e.Discover();] *)
Definition discovered (c : EngineConfig.t) (b : Backend) : Impl.t := (Discover (AddBackend (Some b) (FabricEngine c))).2.
(** The only backend of the engine is the object [syn], which has changed. *)
Definition share (syn : Synthetic.t) (s : Impl.t) : Impl.t := s <| Impl.backends := [Synthetic.as_backend syn] |>.

(** The request, written the same way in the three programs. *)
Definition demo_request : CompositionRequest.t :=
  CompositionRequest.dflt
    <| CompositionRequest.compute_units := 1 |> <| CompositionRequest.accelerator_count := 1 |>
    <| CompositionRequest.accelerator_memory_bytes := d1 |>
    <| CompositionRequest.host_memory_bytes := double_of_Z 1024 |>
    <| CompositionRequest.expanded_memory_bytes := double_of_Z 1024 |>
    <| CompositionRequest.storage_bytes := double_of_Z 1024 |>
    <| CompositionRequest.network_endpoint_count := 1 |>
    <| CompositionRequest.min_bandwidth_mbps := d1000 |> <| CompositionRequest.max_latency_us := d100 |>
    <| CompositionRequest.mandatory_classes := {[ResourceClass.COMPUTE; ResourceClass.ACCELERATOR;
       ResourceClass.HOST_MEMORY; ResourceClass.EXPANDED_MEMORY; ResourceClass.STORAGE; ResourceClass.NETWORK_ENDPOINT]} |>.

(** ** consumer/main.cpp *)
Definition consumer_main : N * list string :=
  let s := discovered (cfg_of 42) (Synthetic.as_backend new_synthetic) in
  let '(cr, s) := Compose demo_request s in
  if negb (is_success (cr_outcome cr)) then (1, ["consumer: compose failed"])
  else
    let '(rr, s) := Reserve (cr_plan cr) s in
    if negb (is_success (rr_outcome rr)) then (1, ["consumer: reserve failed"])
    else
      let '(cc, s) := Commit (rr_reservation rr) s in
      if negb (is_success (cc_outcome cc)) then (1, ["consumer: commit failed"])
      else
        let '(ar, s) := Activate (Composition.id (cc_composition cc)) s in
        if negb (is_success (ar_outcome ar)) then (1, ["consumer: activate failed"])
        else if negb (lifecycle_is CompositionLifecycle.ACTIVE (ar_composition ar)) then (1, ["consumer: not active"])
        else (0, ["consumer: find_package + compose/reserve/commit/activate OK (composition id=" +:+
                  ToString (Composition.id (ar_composition ar)) +:+ " gen=" +:+
                  ToString (Composition.generation (ar_composition ar)) +:+ ")"]).

(** ** examples/examples.cpp *)
Module Examples.
Definition fresh : Impl.t := discovered (cfg_of 1) (Synthetic.as_backend new_synthetic).
Definition verdict (o : CompositionOutcome.t) : string := if is_success o then "SUCCESS" else "REJECTED".
Definition ok_rej (o : CompositionOutcome.t) : string := if is_success o then "ok" else "rej".
(** [auto cr = e.Compose(MakeReq()); auto rr = e.Reserve(cr.plan);
    auto cc = e.Commit(rr.reservation); auto ar = e.Activate(cc.composition.id);] *)
Definition pipeline (s : Impl.t) : (ComposeResult * ReserveResult * CommitResult * ActivateResult) * Impl.t :=
  let '(cr, s) := Compose demo_request s in
  let '(rr, s) := Reserve (cr_plan cr) s in
  let '(cc, s) := Commit (rr_reservation rr) s in
  let '(ar, s) := Activate (Composition.id (cc_composition cc)) s in
  ((cr, rr, cc, ar), s).

Definition basic_composition : list string :=
  let '((cr, rr, cc, ar), _) := pipeline fresh in
  ["basic_composition: " +:+ verdict (cr_outcome cr) +:+ " vertices=" +:+
     zu (ResourceGraph.vertices (CompositionPlan.graph (cr_plan cr)));
   "  reserve=" +:+ ok_rej (rr_outcome rr) +:+ " commit=" +:+ ok_rej (cc_outcome cc) +:+
     " activate=" +:+ ok_rej (ar_outcome ar) +:+ " lifecycle=" +:+
     CompositionLifecycle.ToString (Composition.lifecycle (ar_composition ar))].

Definition hard_constraint_rejection : list string :=
  let syn := Synthetic.SetResourceHealth (Id 106) ResourceHealth.OFFLINE
    (Synthetic.SetResourceHealth (Id 102) ResourceHealth.OFFLINE new_synthetic) in
  let s := OnResourceFailure (Id 106) (OnResourceFailure (Id 102) (share syn fresh)) in
  let '(cr, _) := Compose demo_request s in
  [fold_left (fun out r => out +:+ RejectionReason.ToString r +:+ " ") (cr_reasons cr)
     ("hard_constraint_rejection: " +:+ verdict (cr_outcome cr) +:+ " reasons=")].

Definition reservation_rollback : list string :=
  let '(cr, s) := Compose demo_request fresh in
  let syn := Synthetic.SetResourceUnavailable (Id 106) (Synthetic.SetResourceUnavailable (Id 102) new_synthetic) in
  let s := OnResourceFailure (Id 106) (OnResourceFailure (Id 102) (share syn s)) in
  let '(rr, _) := Reserve (cr_plan cr) s in
  ["reservation_rollback: reserve=" +:+ verdict (rr_outcome rr) +:+ " (no partial authoritative set)"].

(** [None]: [after] is dereferenced without a value. *)
Definition resource_generation_change : option (list string) :=
  let '((_, _, _, ar), s) := pipeline fresh in
  let syn := Synthetic.SetResourceGeneration (Id 106) (Id 9) (Synthetic.SetResourceGeneration (Id 102) (Id 9) new_synthetic) in
  let s := (Discover (share syn s)).2 in
  match GetComposition (Composition.id (ar_composition ar)) s with
  | None => None
  | Some after => Some ["resource_generation_change: " +:+ CompositionLifecycle.ToString CompositionLifecycle.ACTIVE +:+
      " -> " +:+ CompositionLifecycle.ToString (Composition.lifecycle after)]
  end.

Definition pick_accelerator (s : Impl.t) (am : ResourceId) (v : ResourceId) : ResourceId :=
  match GetResource v s with
  | Some res => if bool_decide (Resource.resource_class res = ResourceClass.ACCELERATOR) then v else am
  | None => am
  end.
Definition recomposition : list string :=
  let '((_, _, _, ar), s) := pipeline fresh in
  let am := fold_left (pick_accelerator s) (ResourceGraph.vertices (Composition.graph (ar_composition ar))) zero_id in
  let s := OnResourceFailure am (share (Synthetic.SetResourceHealth am ResourceHealth.OFFLINE new_synthetic) s) in
  let '(ok, s) := Recompute (Composition.id (ar_composition ar)) s in
  let actives := filter (fun c => lifecycle_is CompositionLifecycle.ACTIVE c = true) (sn_compositions (Snapshot s)) in
  let latest := default Composition.dflt (last actives) in
  ["recomposition: ok=" +:+ (if ok : bool then "1" else "0") +:+ " active=" +:+ zu actives +:+
     " latest_gen=" +:+ ToString (Composition.generation latest)].

Definition synthetic_multinode : list string :=
  let '(cr, _) := Compose demo_request fresh in
  ["synthetic_multinode: " +:+ verdict (cr_outcome cr) +:+ " vertices=" +:+
     zu (ResourceGraph.vertices (CompositionPlan.graph (cr_plan cr))) +:+ " (SYNTHETIC topology)";
   fold_left (fun out n => out +:+ ToString n +:+ " ") (CompositionPlan.nodes (cr_plan cr)) "  nodes: "].

Definition main : option (N * list string) :=
  match resource_generation_change with
  | None => None
  | Some change =>
      Some (0, basic_composition ++ hard_constraint_rejection ++ reservation_rollback ++ change ++
               recomposition ++ synthetic_multinode ++ [""; "examples complete"])
  end.
End Examples.

(** ** bench/bench.cpp

    The measured operations; the clock readings between them are not part of the
    result. *)
Module Bench.
Definition capability (kind : CapabilityKind.t) (detail : string) (r : Resource.t) : Resource.t :=
  r <| Resource.capabilities ::= fun cs =>
    cs ++ [Capability.mk kind CapabilityState.SUPPORTED (Id 1) (Evidence.id (Resource.evidence r)) detail] |>.
Definition Mk (id : ResourceId) (cls : ResourceClass.t) (node : NodeId) (compute : double) : Resource.t :=
  let r := Resource.dflt
    <| Resource.id := id |> <| Resource.generation := Id 1 |> <| Resource.resource_class := cls |> <| Resource.node_id := node |>
    <| Resource.provider := "bench" |> <| Resource.health := ResourceHealth.HEALTHY |> <| Resource.readiness := Readiness.READY |>
    <| Resource.reachability := Reachability.REACHABLE |>
    <| Resource.evidence ::= fun e => e
         <| Evidence.id := Id (Value id) |> <| Evidence.generation := Id 1 |> <| Evidence.source := EvidenceSource.BACKEND |>
         <| Evidence.state := EvidenceState.FRESH |> <| Evidence.timestamp_ms := 1 |> <| Evidence.max_age_ms := 3600000 |>
         <| Evidence.confidence := d1 |> <| Evidence.durable := true |> |>
    <| Resource.failure_domain ::= fun f => f <| FailureDomain.id := Id (Value node) |>
         <| FailureDomain.type := FailureDomainType.HOST |> <| FailureDomain.name := "bench-node" |> |>
    <| Resource.capacity ::= fun c => c <| Capacity.compute_units := compute |>
         <| Capacity.host_memory_bytes := double_of_Z (2 ^ 30) |> <| Capacity.storage_bytes := double_of_Z (2 ^ 40) |>
         <| Capacity.network_bandwidth_mbps := double_of_Z 100000 |> |> in
  match cls with
  | ResourceClass.COMPUTE => capability CapabilityKind.CPU_EXECUTION "" r
  | ResourceClass.ACCELERATOR => capability CapabilityKind.CUDA_EXECUTION "12.0" r
  | ResourceClass.HOST_MEMORY => capability CapabilityKind.HOST_MEMORY_ACCESS "" r
  | ResourceClass.STORAGE => capability CapabilityKind.PERSISTENT_STORAGE "" r
  | ResourceClass.NETWORK_ENDPOINT => capability CapabilityKind.DIRECT_NETWORK_ACCESS "" r
  | _ => r
  end.
Definition node : Node.t :=
  Node.mk (Id 1) (Id 1) "bench" "bench" BackendKind.SYNTHETIC []
    (FailureDomain.mk (Id 1) FailureDomainType.HOST "rack" true ∅) Locality.dflt Reachability.REACHABLE
    ResourceHealth.HEALTHY "" zero_id 0 NodeLifecycle.VALIDATED true.
Definition class_of (i : nat) : ResourceClass.t :=
  match (i mod 5)%nat with
  | 0 => ResourceClass.COMPUTE | 1 => ResourceClass.ACCELERATOR | 2 => ResourceClass.HOST_MEMORY
  | 3 => ResourceClass.STORAGE | _ => ResourceClass.NETWORK_ENDPOINT
  end%nat.
(** The ingestion loop. *)
Definition ingest (s : Impl.t) (i : nat) : Impl.t :=
  (RegisterNode node (RegisterResource (Mk (Id (1000 + N.of_nat i)) (class_of i) (Id 1) (double_of_Z 16)) s).2).2.
Definition engine (n : nat) : Impl.t := fold_left ingest (seq 0 n) (FabricEngine (cfg_of 1)).
Definition request : CompositionRequest.t :=
  CompositionRequest.dflt
    <| CompositionRequest.compute_units := 1 |> <| CompositionRequest.accelerator_count := 1 |>
    <| CompositionRequest.accelerator_memory_bytes := d1 |>
    <| CompositionRequest.host_memory_bytes := double_of_Z 1024 |> <| CompositionRequest.storage_bytes := double_of_Z 1024 |>
    <| CompositionRequest.network_endpoint_count := 1 |> <| CompositionRequest.min_bandwidth_mbps := d1000 |>
    <| CompositionRequest.max_latency_us := double_of_Z 100000 |>
    <| CompositionRequest.mandatory_classes := {[ResourceClass.COMPUTE; ResourceClass.ACCELERATOR;
       ResourceClass.HOST_MEMORY; ResourceClass.STORAGE; ResourceClass.NETWORK_ENDPOINT]} |>
    <| CompositionRequest.ignore_reachability := true |>.
(** One round: the part of the printed line that is not a time, the outcome of the
    commit and whether the lookup finds its resource. *)
Definition round (n : nat) : string * bool * bool :=
  let s := engine n in
  let '(cr, s) := Compose request s in
  let '(rr, s) := Reserve (cr_plan cr) s in
  let '(cc, s) := Commit (rr_reservation rr) s in
  ("(compose=" +:+ (if is_success (cr_outcome cr) then "ok" else "REJECT") +:+ ", verts=" +:+
     zu (ResourceGraph.vertices (CompositionPlan.graph (cr_plan cr))) +:+ ")",
   is_success (cc_outcome cc), bool_decide (is_Some (GetResource (Id 1500) s))).
End Bench.

(** ** tools/dfabric_cli.cpp *)
Module Cli.
Definition PrintMatrix (r : Resource.t) : string :=
  "  " +:+ (if Resource.synthetic r then "SYNTHETIC" else "REAL") +:+ " " +:+ pad 24 (ToString (Resource.id r)) +:+
  " class=" +:+ pad 16 (ResourceClass.ToString (Resource.resource_class r)) +:+ " node=" +:+ ToString (Resource.node_id r) +:+
  " gen=" +:+ ToString (Resource.generation r) +:+
  (if bool_decide (Evidence.state (Resource.evidence r) = EvidenceState.REVALIDATION_REQUIRED) then " evidence=REVALIDATION_REQUIRED"
   else if negb (IsCurrent (Resource.evidence r)) then " evidence=STALE" else " evidence=FRESH") +:+
  " health=" +:+ ResourceHealth.ToString (Resource.health r).
Definition print_node (n : Node.t) : string :=
  "node " +:+ ToString (Node.id n) +:+ " hostname=" +:+ Node.hostname n +:+ " gen=" +:+ ToString (Node.generation n) +:+
  " health=" +:+ ResourceHealth.ToString (Node.health n) +:+ " reach=" +:+ Reachability.ToString (Node.reachability n) +:+
  " domain=" +:+ FailureDomain.name (Node.failure_domain n) +:+ " backend=" +:+ BackendKind.ToString (Node.backend n).

(** The virtual functions of the chosen backend that the program calls. *)
Record chosen := mkChosen { b_name : string; b_kind : BackendKind.t; b_backend : Backend }.
Definition choose (os : OsInfo) (backend : string) : chosen :=
  if bool_decide (backend = "synthetic")
  then mkChosen "synthetic" BackendKind.SYNTHETIC (Synthetic.as_backend new_synthetic)
  else mkChosen "system" BackendKind.REAL (System.as_backend (System.SystemBackend os)).

Section commands.
Context (cmd : string) (b : chosen) (s : Impl.t).
Definition discover : list string :=
  let snap := Snapshot s in
  ["backend=" +:+ b_name b +:+ " kind=" +:+ BackendKind.ToString (b_kind b) +:+ " (multi-node=" +:+
     (if bool_decide (b_kind b = BackendKind.REAL) then "single-host only" else "synthetic") +:+ ")"] ++
  map print_node (sn_nodes snap) ++
  (if bool_decide (cmd ∈ ["resources"; "discover"]) then map PrintMatrix (sn_resources snap) else []) ++
  ["totals: " +:+ zu (sn_nodes snap) +:+ " nodes " +:+ zu (sn_resources snap) +:+ " resources"].
Definition compose : list string :=
  let '(cr, _) := Compose demo_request s in
  [fold_left (fun out r => out +:+ RejectionReason.ToString r +:+ " ") (cr_reasons cr)
     ("compose outcome=" +:+ CompositionOutcome.ToString (cr_outcome cr) +:+
      " score=" +:+ fmt_f (RankScore.total (CompositionPlan.rank (cr_plan cr))) +:+
      " vertices=" +:+ zu (ResourceGraph.vertices (CompositionPlan.graph (cr_plan cr))) +:+ " reasons=")] ++
  map (fun v => "  vertex " +:+ ToString v) (ResourceGraph.vertices (CompositionPlan.graph (cr_plan cr))).
Definition explain : list string :=
  map (fun r => ExplainEligibility (Resource.id r) CompositionRequest.dflt s) (sn_resources (Snapshot s)).
Definition inspect_state : list string :=
  let snap := Snapshot s in
  ["epoch=" +:+ ToString (sn_epoch snap) +:+ " compositions=" +:+ zu (sn_compositions snap) +:+
     " reservations=" +:+ zu (sn_reservations snap)] ++
  map (fun c => "  composition " +:+ ToString (Composition.id c) +:+ " gen=" +:+ ToString (Composition.generation c) +:+
         " lifecycle=" +:+ CompositionLifecycle.ToString (Composition.lifecycle c) +:+
         " outcome=" +:+ CompositionOutcome.ToString (Composition.outcome c)) (sn_compositions snap) ++
  map (fun rv => "  reservation " +:+ ToString (Reservation.id rv) +:+
         " state=" +:+ ReservationState.ToString (Reservation.state rv) +:+ " items=" +:+ zu (Reservation.items rv))
    (sn_reservations snap).
End commands.

(** [argv] without the program name. *)
Definition main (os : OsInfo) (argv : list string) : N * list string :=
  let cmd := default "discover" (argv !! 0%nat) in
  let b := choose os (default "system" (argv !! 1%nat)) in
  let s := discovered (cfg_of 1) (b_backend b) in
  if bool_decide (cmd ∈ ["discover"; "nodes"; "resources"]) then (0, discover cmd b s)
  else if bool_decide (cmd = "compose") then (0, compose s)
  else if bool_decide (cmd = "explain") then (0, explain s)
  else if bool_decide (cmd ∈ ["inspect-state"; "audit"]) then (0, inspect_state s)
  else (1, ["unknown command: " +:+ cmd +:+ " (use discover/nodes/resources/compose/explain/inspect-state/audit)"]).
End Cli.

(** ** Claims *)

(** The client programs do what they announce: the consumer composes, reserves,
    commits and activates, and exits with 0; the examples run to their end and
    print the composition of six resources that becomes ACTIVE, the rejections
    without accelerators, the loss of authority on a new generation and the
    recomposition that leaves one ACTIVE composition of the next generation; and the
    first round of the benchmark composes and commits (its lookup, of resource 1500,
    finds nothing among the 100 resources from 1000 on). *)
Theorem clients_succeed :
  consumer_main = (0, ["consumer: find_package + compose/reserve/commit/activate OK (composition id=1 gen=1)"]) /\
  Examples.main = Some (0,
    ["basic_composition: SUCCESS vertices=6";
     "  reserve=ok commit=ok activate=ok lifecycle=ACTIVE";
     "hard_constraint_rejection: REJECTED reasons=NO_VALID_COMPOSITION ";
     "reservation_rollback: reserve=REJECTED (no partial authoritative set)";
     "resource_generation_change: ACTIVE -> RECOMPOSITION_REQUIRED";
     "recomposition: ok=1 active=1 latest_gen=2";
     "synthetic_multinode: SUCCESS vertices=6 (SYNTHETIC topology)";
     "  nodes: 1 4 2 3 "; ""; "examples complete"]) /\
  Bench.round 100 = ("(compose=ok, verts=6)", true, false).
Proof. split_and!; vm_compute; reflexivity. Qed.

(** The commands that the program's own usage line names. *)
Definition cli_commands : list string :=
  ["discover"; "nodes"; "resources"; "compose"; "explain"; "inspect-state"; "audit"].
Lemma cli_exit os argv :
  (Cli.main os argv).1 = if bool_decide (default "discover" (argv !! 0%nat) ∈ cli_commands) then 0 else 1.
Proof.
  unfold Cli.main. set (cmd := default _ _). set (s := discovered _ _). clearbody cmd s.
  case_bool_decide as H1; [rewrite bool_decide_eq_true_2; [done|unfold cli_commands; set_solver]|].
  case_bool_decide as H2; [rewrite bool_decide_eq_true_2; [done|unfold cli_commands; set_solver]|].
  case_bool_decide as H3; [rewrite bool_decide_eq_true_2; [done|unfold cli_commands; set_solver]|].
  case_bool_decide as H4; [rewrite bool_decide_eq_true_2; [done|unfold cli_commands; set_solver]|].
  rewrite bool_decide_eq_false_2; [done|unfold cli_commands; set_solver].
Qed.

(** The command line answers exactly the seven commands of its usage line with
    exit code 0, on every machine and for every backend argument; every other
    command is refused with exit code 1, and so are [reserve], [commit],
    [activate], [drain] and [recompose], which the header of the program
    announces. *)
Theorem cli_refuses_announced os argv rest :
  ((Cli.main os argv).1 = 0 <-> default "discover" (argv !! 0%nat) ∈ cli_commands) /\
  Forall (fun cmd => (Cli.main os (cmd :: rest)).1 = 1) ["reserve"; "commit"; "activate"; "drain"; "recompose"].
Proof.
  split; [rewrite cli_exit; case_bool_decide; split; done|].
  repeat constructor; by rewrite cli_exit.
Qed.
